(* ===== verification/_CoqProject ===== *)
-Q . S2P
Prelude.v
GoStrings.v
Codec.v
Schema.v
Integrity.v
Stores.v
SingleUse.v
World.v
Tenants.v
Security.v
Http.v
Json.v
JsonFacts.v
JsonRaw.v
NetUrl.v
NetHttp.v
GoConv.v
Config.v
ConfigSpec.v
Sim.v
SecuritySpec.v
RefreshTokens.v
Directory.v
Oidc.v
OidcSpec.v
Rbac.v
Jwt.v
User.v
Auth.v
AuthSpec.v
Route.v
Translator.v
Upstream.v
UpstreamChat.v
UpstreamSim.v
UpstreamSpec.v
UpstreamChatSpec.v
Chat.v
ChatSpec.v
Oauth.v
OauthFacts.v
OauthSim.v
OauthSessions.v
OauthSpec.v
Apikey.v
ApikeyFacts.v
ApikeySpec.v
ExternalApikey.v
ExternalApikeySpec.v
ChatHandler.v
ChatHandlerSpec.v
Router.v
RouterSpec.v
Startup.v
Logger.v
StartupSpec.v
System.v
UpstreamMain.v
Shutdown.v
Lifecycle.v
Probes.v
Gateway.v
GatewaySpec.v
Served.v
