(* ===== verification/Prelude.v ===== *)
(** * Verification of erent

    erent is a gateway for accounts at AI providers. Users register and log in,
    authorise accounts by OAuth, store external keys, and make API keys that are
    bound to some of them; chat clients then talk to the provider with such a key.
    The backend (src/backend, Go) consists of three processes: the API, the upstream
    process that is the only one to talk to the providers (gRPC), and an optional
    reverse proxy in front of the API. The state is in PostgreSQL (users, accounts,
    keys), Redis (sessions and pending logins) and the Casbin policy (roles).

    This library models the handwritten Go code of the three processes and the two
    health probes as functions and proves what makes it correct. Names follow the
    source: a Go function [f] is the definition [f], a method of a handler whose
    name is also one of the service is [f_handler], a struct is a Record whose
    fields carry a prefix. In the order of the files:

    ** Foundations

    - Prelude: automation, gRPC codes and Go errors ([gerror], [errors_Is]), and
      [res], what a Go call does: a value, an error, or a panic.
    - GoStrings, GoConv, Codec, Json, JsonFacts, JsonRaw, NetUrl: what the program
      uses of the Go library. strings, strconv, time.ParseDuration, base64, SHA-256
      and encoding/json are definitions that compute, checked by examples and, for
      JSON, base64 and the numbers, by round trips; url.Parse is a parameter.
    - Schema, Integrity: the tables of migrations/ with keys, unique indexes, checks
      and cascades, and the statements of the repositories as a typed syntax with
      the meaning [sql_step]; every statement keeps the tables well formed ([db_wf]).
    - Stores, SingleUse: Redis with expiry and the two Lua scripts, and the Casbin
      policy; a key taken out of Redis is taken once.
    - World: the monad [M] of the operations, a state with the three stores and a
      counter of the calls that leave the process. The class [Env] has the clock,
      the randomness and an executor per store; [EnvLaws] says that an executor
      follows the documented meaning or fails with a transport error, and that a
      Redis command that fails may have been executed. [wp] is the weakest
      precondition, with one rule per effect; [wp_step] applies them.
    - Tenants: the rows of one user.
    - Sim, OauthSim, UpstreamSim: concrete services for which all laws are proved;
      the witnesses of the theorems run the code on them.

    ** The API process

    - Security, SecuritySpec (internal/security): AES-GCM is the class [Aead] with
      its laws, bcrypt the class [Bcrypt].
    - RefreshTokens (middleware/redis/refresh_token.go): sessions; a token that was
      used once is never accepted again, under any interleaving and lost replies.
    - Directory (directory/upstream): the gRPC client and the errors it makes.
    - Oidc, OidcSpec (modules/oauth/oidc, openai): the provider's configuration.
    - Rbac (middleware/casbin), Jwt (middleware/jwt), User (modules/user, bootstrap),
      Auth, AuthSpec (modules/auth): accounts, roles, access tokens and sessions.
    - Route, Translator, Chat, ChatSpec, ChatHandler, ChatHandlerSpec (modules/chat,
      modules/translator): a chat request from the handler to the upstream and back,
      as one document or as a stream; the goroutine and the handler that share the
      two channels are the step relation [conn_step].
    - Oauth, OauthFacts, OauthSessions, OauthSpec (modules/oauth): browser and device
      logins, refresh, list and deletion. OauthSessions is the transition system of
      any number of logins whose commands interleave.
    - Apikey, ApikeyFacts, ApikeySpec (modules/apikey) and ExternalApikey,
      ExternalApikeySpec (modules/external_apikey): the keys.
    - Config, ConfigSpec (internal/config, cmd/api/config.go): the settings.
    - Router, RouterSpec (middleware/httpserver, internal/router, the routes, health):
      [serve_request] takes a request from the headers to its answer. Gin's matching
      and binding are the classes [Gin] and [Binding].
    - Startup, StartupSpec (cmd/api, internal/rpc/transport, internal/database,
      middleware/redis/connect.go): [run] makes the services from the environment.
    - Lifecycle (cmd/api): the same start with the handles it opens, Close, the
      deferred calls and the exit code of main.
    - System: a start followed by any list of requests.
    - Logger (internal/logger), Probes (cmd/healthcheck, cmd/grpc-healthcheck).

    ** The upstream process and the gateway

    - Upstream, UpstreamChat with UpstreamSpec, UpstreamChatSpec
      (internal/upstreamserver): the RPCs as functions of what the outside answers,
      numbered by step: OAuth, ID tokens, device polling, chat requests.
    - UpstreamMain (cmd/upstream, the first half of Serve) and Shutdown (its second
      half: the server at work and the goroutine that stops it, as a step relation).
    - NetHttp, Gateway, GatewaySpec (cmd/gateway): the proxy. What the reverse proxy
      of the standard library does with the URL and the headers of a request, when
      its transport sends a request again, and the redirects of gin to the gateway's
      own routes are part of it; the connections are the class [Network] and gin is
      the class [GinEngine] with what it documents.
    - Served: both processes together; the client of Directory is answered by the
      functions of Upstream over a connection that can be lost or cut.

    ** What the theorems show

    - Requests: every request gets one answer with a well-formed identifier, nobody's
      rows change but those of the user it acts for, and without a valid token
      nothing changes on the routes of the users (RouterSpec). Over the life of the
      process the invariants that the other theorems assume, well-formed tables,
      users that pass their checks and a seeded policy, are made by the start and
      kept by all requests (StartupSpec, System); every handle that is opened is
      closed on every path (Lifecycle), and the upstream server stops in time
      (Shutdown).
    - Keys: what creating, updating and replacing writes, atomically; which
      credentials a key opens and when it is refused (ApikeySpec).
    - Logins: who gets tokens (AuthSpec); each state, device flow and refresh token
      is used at most once and only by its owner (OauthSessions, RefreshTokens); what
      is stored is verified, encrypted and the user's own (OauthSpec).
    - Chat: the credential reaches the provider in the header it belongs to and is
      set last; lines and events keep their order; a client is told that a stream
      ended well only if it is whole; statuses are relayed; the loops end
      (UpstreamChatSpec, ChatSpec, ChatHandlerSpec, Served).
    - Configuration: bounds of every setting that loads, TLS on both ends or none.
    - The gateway answers its own checks, redirects to them, and has the API serve
      any other request at most once, or again if it may be repeated; behind a bare
      host the API sees the request of the client (GatewaySpec).

    ** Bounds and fuel

    Recursion is structural where the code's is. Decoding JSON has the fuel
    [fuel_for], one value and one member for every character of the text, each of
    which consumes a character at least. [FormatUint] has as many steps as the
    number has bits. [poll_fuel] is 901: the waits between two polls are at least one
    second and the deadline is fifteen minutes, so that the loop ends before (the
    theorem PollDeviceFlow_ends says so). The scanner's limit of a line is the
    source's. Durations are Z in nanoseconds, checked against 64 bits where they are
    parsed; identifiers are N below [2^64], with the code's bound [2^63-1] where it
    tests it.

    ** Not modelled

    - Third-party code (GORM's SQL generation, go-redis, Casbin, golang-jwt, go-oidc,
      oauth2, gin, the SDK of the protocol converters) and generated code: classes
      with the laws that the program relies on.
    - Contexts are modelled where the code looks at them (the device login, the chat
      stream, the upstream's deadlines); elsewhere a deadline is one of the transport
      errors that any call may end with.
    - Requests of one process interleave at their effects. The stores' own theorems
      (OauthSessions, RefreshTokens) cover this for what is used once; the theorems
      on the tables take a transaction as atomic, which row locks and constraints
      give it, and a request as running alone.
    - The access log: it writes a line after the answer and keeps no state.
    - The Vue console, the deployment and the reverse migrations. *)

From Stdlib Require Export Ascii String ZArith Lia.
From stdpp Require Export base option list strings gmap sorting.

(** * Automation shared by the components *)

Create HintDb erent.

Declare Scope go_scope.
Delimit Scope go_scope with go.

(** Splits the hypotheses that are conjunctions and existentials, keeping the
    names the statements chose. *)
Ltac split_hyps :=
  repeat match goal with
  | H : _ ∧ _ |- _ => destruct H
  | H : ∃ x, _ |- _ => let y := fresh x in destruct H as [y H]
  end.

(** Turns boolean guards of the code into propositions. *)
Ltac prop_guards :=
  repeat match goal with
  | H : _ && _ = true |- _ => apply andb_true_iff in H; destruct H
  | H : _ || _ = false |- _ => apply orb_false_iff in H; destruct H
  | H : negb _ = true |- _ => apply negb_true_iff in H
  | H : negb _ = false |- _ => apply negb_false_iff in H
  | H : N.eqb _ _ = true |- _ => apply N.eqb_eq in H
  | H : N.eqb _ _ = false |- _ => apply N.eqb_neq in H
  | H : N.ltb _ _ = true |- _ => apply N.ltb_lt in H
  | H : N.ltb _ _ = false |- _ => apply N.ltb_ge in H
  | H : Z.ltb _ _ = true |- _ => apply Z.ltb_lt in H
  | H : Z.ltb _ _ = false |- _ => apply Z.ltb_ge in H
  | H : bool_decide _ = true |- _ => apply bool_decide_eq_true in H
  | H : bool_decide _ = false |- _ => apply bool_decide_eq_false in H
  end.

(** Case analysis on the scrutinee of the first [match] or [if] of the goal. *)
Ltac case_step :=
  match goal with
  | |- context [ match ?x with _ => _ end ] =>
      lazymatch x with context [ match _ with _ => _ end ] => fail | _ => destruct x eqn:? end
  end.

(** Closed decidable propositions. *)
Ltac by_decide := apply (bool_decide_unpack _); vm_compute; exact I.

(** Linear arithmetic with division and remainder by constants. *)
Ltac div_lia := zify; Z.to_euclidean_division_equations; lia.

(** * Machine integers *)

(** Go's [uint64] and [uint32] are [N]; the bounds the code writes out as
    [1<<63-1] are the constants below. *)
Definition max_int63 : N := 9223372036854775807.
Definition max_uint64 : N := 18446744073709551615.

(** * Errors *)

(** The canonical gRPC status codes. *)
Inductive code :=
  | OK | Canceled | Unknown | InvalidArgument | DeadlineExceeded | NotFound
  | AlreadyExists | PermissionDenied | ResourceExhausted | FailedPrecondition
  | Aborted | OutOfRange | Unimplemented | Internal | Unavailable | DataLoss
  | Unauthenticated.

#[export] Instance code_eq_dec : EqDecision code.
Proof. solve_decision. Defined.

(** Go error values.  [Sentinel name text] is a package-level variable made by
    [errors.New]: [name] is its identity, [text] its message.  [Wrapped msg e]
    is [fmt.Errorf("msg: %w", e)].  [StatusError] is [status.Error].  [Opaque]
    is any other error value: a driver, network or decoding failure. *)
Inductive gerror :=
  | Sentinel (name text : string)
  | Wrapped (msg : string) (e : gerror)
  | StatusError (c : code) (msg : string)
  | Opaque (msg : string).

#[export] Instance gerror_eq_dec : EqDecision gerror.
Proof. solve_decision. Defined.

(** [errors.Is]: the error itself or one of those it wraps. *)
Fixpoint errors_Is (err target : gerror) : bool :=
  bool_decide (err = target) ||
  match err with
  | Wrapped _ e => errors_Is e target
  | _ => false
  end.

(** [err.Error()]. *)
Fixpoint error_text (err : gerror) : string :=
  match err with
  | Sentinel _ text => text
  | Wrapped msg e => msg +:+ ": " +:+ error_text e
  | StatusError _ msg => msg
  | Opaque msg => msg
  end.

Definition context_Canceled : gerror := Sentinel "context.Canceled" "context canceled".
Definition context_DeadlineExceeded : gerror :=
  Sentinel "context.DeadlineExceeded" "context deadline exceeded".

Lemma errors_Is_refl e : errors_Is e e = true.
Proof. destruct e; simpl; by rewrite bool_decide_eq_true_2. Qed.

Lemma errors_Is_sentinel_ne n t n' t' :
  n ≠ n' → errors_Is (Sentinel n t) (Sentinel n' t') = false.
Proof. intros ?. simpl. rewrite bool_decide_eq_false_2; [done | congruence]. Qed.

Lemma errors_Is_opaque m n t : errors_Is (Opaque m) (Sentinel n t) = false.
Proof. done. Qed.

Lemma errors_Is_wrapped m e n t :
  errors_Is (Wrapped m e) (Sentinel n t) = errors_Is e (Sentinel n t).
Proof. done. Qed.

#[export] Hint Resolve errors_Is_refl : erent.

(** * Outcomes *)

(** What a Go call does: it returns a value with a nil error, it returns an
    error, or it panics (a nil dereference, a slice out of range). *)
Inductive res (A : Type) :=
  | Ok (a : A)
  | Err (e : gerror)
  | Panic.
Arguments Ok {A} a.
Arguments Err {A} e.
Arguments Panic {A}.

#[export] Instance res_ret : MRet res := λ A a, Ok a.
#[export] Instance res_bind : MBind res := λ A B f m,
  match m with Ok a => f a | Err e => Err e | Panic => Panic end.
#[export] Instance res_fmap : FMap res := λ A B f m,
  match m with Ok a => Ok (f a) | Err e => Err e | Panic => Panic end.

#[export] Instance res_eq_dec `{EqDecision A} : EqDecision (res A).
Proof. solve_decision. Defined.

Definition is_Ok {A} (r : res A) : bool := match r with Ok _ => true | _ => false end.

(** A guard with an early error return. *)
Definition guard_err (b : bool) (e : gerror) : res unit := if b then Err e else Ok tt.

Lemma res_bind_Ok {A B} (m : res A) (f : A → res B) b :
  m ≫= f = Ok b ↔ ∃ a, m = Ok a ∧ f a = Ok b.
Proof. destruct m; simpl; naive_solver. Qed.

Lemma guard_err_Ok b e u : guard_err b e = Ok u ↔ b = false.
Proof. destruct b, u; simpl; naive_solver. Qed.


(** * Lists *)

(** The deduplication loop the services share: an identifier is kept the first
    time it is seen. *)
Fixpoint dedup_from {A} `{EqDecision A} (seen l : list A) : list A :=
  match l with
  | [] => []
  | x :: l => if bool_decide (x ∈ seen) then dedup_from seen l
              else x :: dedup_from (x :: seen) l
  end.

(** Insertion sort by a comparison function: ORDER BY, sort.Strings. *)
Fixpoint insert_by {A} (le : A → A → bool) (x : A) (l : list A) : list A :=
  match l with
  | [] => [x]
  | y :: l => if le x y then x :: y :: l else y :: insert_by le x l
  end.

Definition sort_by {A} (le : A → A → bool) (l : list A) : list A :=
  foldr (insert_by le) [] l.

(** [go_slice n s] is [s[:n]], which panics when [n] is out of range. *)
Definition go_slice (n : nat) (s : string) : res string :=
  if bool_decide (n ≤ String.length s) then Ok (String.substring 0 n s) else Panic.

Section dedup.
Context {A : Type} `{EqDecision A}.
Implicit Types l seen : list A.

Lemma elem_of_dedup_from x seen l : x ∈ dedup_from seen l ↔ x ∈ l ∧ x ∉ seen.
Proof.
  revert seen. induction l as [|y l IH]; intros seen; simpl; [set_solver|].
  case_bool_decide; rewrite ?elem_of_cons, IH; [set_solver|].
  destruct (decide (x = y)); set_solver.
Qed.

Lemma NoDup_dedup_from seen l : NoDup (dedup_from seen l).
Proof.
  revert seen. induction l as [|y l IH]; intros seen; simpl; [constructor|].
  case_bool_decide; [apply IH|]. constructor; [|apply IH].
  rewrite elem_of_dedup_from. set_solver.
Qed.

Lemma dedup_from_id seen l : NoDup l → (∀ x, x ∈ l → x ∉ seen) → dedup_from seen l = l.
Proof.
  revert seen. induction l as [|y l IH]; intros seen Hnd Hs; simpl; [done|].
  apply NoDup_cons in Hnd as [Hy Hnd].
  rewrite bool_decide_eq_false_2 by set_solver. f_equal. apply IH; set_solver.
Qed.

Lemma dedup_from_nil_iff l : dedup_from [] l = [] ↔ l = [].
Proof.
  destruct l as [|x l]; [done|]. unfold dedup_from; fold (@dedup_from A _).
  rewrite bool_decide_eq_false_2 by set_solver. done.
Qed.
End dedup.

Section sort.
Context {A : Type} (le : A → A → bool).

Lemma insert_by_perm x l : insert_by le x l ≡ₚ x :: l.
Proof.
  induction l as [|y l IH]; simpl; [done|]. case_match; [done|].
  rewrite IH. by constructor.
Qed.

Lemma sort_by_perm l : sort_by le l ≡ₚ l.
Proof. induction l; simpl; [done|]. rewrite insert_by_perm. by constructor. Qed.

Lemma elem_of_sort_by x l : x ∈ sort_by le l ↔ x ∈ l.
Proof. by rewrite sort_by_perm. Qed.

Lemma length_sort_by l : length (sort_by le l) = length l.
Proof. by rewrite sort_by_perm. Qed.

Lemma NoDup_sort_by l : NoDup l → NoDup (sort_by le l).
Proof. by rewrite sort_by_perm. Qed.

Lemma NoDup_fmap_sort_by {B} (f : A → B) l : NoDup (f <$> l) → NoDup (f <$> sort_by le l).
Proof. by rewrite sort_by_perm. Qed.

Hypothesis le_total : ∀ x y, le x y = false → le y x = true.

Lemma insert_by_sorted x l :
  Sorted (λ x y, le x y = true) l → Sorted (λ x y, le x y = true) (insert_by le x l).
Proof.
  induction 1 as [|y l Hl IH Hhd]; simpl; [by repeat constructor|].
  destruct (le x y) eqn:E; [by repeat constructor|].
  constructor; [done|]. destruct Hhd as [|z l Hz]; simpl.
  - constructor. auto.
  - case_match; constructor; auto.
Qed.

Lemma sort_by_sorted l : Sorted (λ x y, le x y = true) (sort_by le l).
Proof. induction l; simpl; [constructor|]. by apply insert_by_sorted. Qed.
End sort.

#[export] Hint Resolve NoDup_dedup_from NoDup_sort_by : erent.

(** Boolean selection of a list: the WHERE clause of a statement. *)
Abbreviation select p l := (List.filter p l).

Section select.
Context {A : Type}.
Implicit Types (p q : A → bool) (l : list A).

Lemma elem_of_select p l x : x ∈ select p l ↔ p x = true ∧ x ∈ l.
Proof. rewrite !list_elem_of_In, filter_In. naive_solver. Qed.

Lemma select_none p l : (∀ x, x ∈ l → p x = false) → select p l = [].
Proof.
  induction l as [|x l IH]; intros Hn; simpl; [done|].
  rewrite Hn by set_solver. apply IH. set_solver.
Qed.

Lemma select_all p l : (∀ x, x ∈ l → p x = true) → select p l = l.
Proof.
  induction l as [|x l IH]; intros Hn; simpl; [done|].
  rewrite Hn by set_solver. f_equal. apply IH. set_solver.
Qed.

Lemma select_ext p q l : (∀ x, x ∈ l → p x = q x) → select p l = select q l.
Proof.
  induction l as [|x l IH]; intros Hn; simpl; [done|].
  rewrite Hn by set_solver. rewrite IH; [done|]. set_solver.
Qed.

Lemma select_select p q l : select p (select q l) = select (λ x, q x && p x) l.
Proof.
  induction l as [|x l IH]; simpl; [done|]. destruct (q x); simpl; [|done].
  destruct (p x); by rewrite IH.
Qed.

Lemma NoDup_select p l : NoDup l → NoDup (select p l).
Proof.
  induction 1 as [|x l Hx Hl IH]; simpl; [constructor|].
  destruct (p x); [|done]. constructor; [|done]. rewrite elem_of_select. naive_solver.
Qed.

(** Keys that are distinct in a table are distinct in a selection of it. *)
Lemma NoDup_fmap_select {B} (f : A → B) p l : NoDup (f <$> l) → NoDup (f <$> select p l).
Proof.
  induction l as [|x l IH]; simpl; [done|]. rewrite NoDup_cons. intros [Hx Hl].
  destruct (p x); [|by apply IH]. simpl. apply NoDup_cons. split; [|by apply IH].
  intros (y & Hxy & [_ Hy]%elem_of_select)%list_elem_of_fmap. apply Hx.
  rewrite Hxy. by apply list_elem_of_fmap_2.
Qed.

(** A selection on a unique key holds at most one row. *)
Lemma NoDup_fmap_eq {B} (f : A → B) l x y :
  NoDup (f <$> l) → x ∈ l → y ∈ l → f x = f y → x = y.
Proof.
  induction l as [|z l IH]; simpl; [set_solver|]. rewrite NoDup_cons. intros [Hz Hl].
  rewrite !elem_of_cons. intros [Hxz|Hx] [Hyz|Hy] Heq; subst; try done.
  - destruct Hz. rewrite Heq. by apply list_elem_of_fmap_2.
  - destruct Hz. rewrite <- Heq. by apply list_elem_of_fmap_2.
  - by apply IH.
Qed.

Lemma head_select p l x : head (select p l) = Some x → p x = true ∧ x ∈ l.
Proof.
  intros Hh. apply elem_of_select. destruct (select p l); [done|]. simplify_eq/=. set_solver.
Qed.

Lemma head_select_None p l : head (select p l) = None → ∀ x, x ∈ l → p x = false.
Proof.
  intros Hh x Hx. destruct (p x) eqn:E; [|done].
  assert (x ∈ select p l) by by apply elem_of_select. by destruct (select p l); [set_solver|].
Qed.
End select.

#[export] Hint Resolve NoDup_select NoDup_fmap_select : erent.

(** Slicing is in range exactly when the code's constant fits the string. *)
Lemma go_slice_Ok n s : n ≤ String.length s → go_slice n s = Ok (String.substring 0 n s).
Proof. intros. unfold go_slice. by rewrite bool_decide_eq_true_2. Qed.

(** * Sorted results *)

Local Open Scope N_scope.

Lemma elem_of_join {A B} (p : A → B → bool) (l : list A) (m : list B) x :
  x ∈ select (λ '(r, s), p r s) (list_prod l m) ↔ p x.1 x.2 = true ∧ x.1 ∈ l ∧ x.2 ∈ m.
Proof.
  rewrite elem_of_select. destruct x as [a b]. rewrite list_elem_of_In, in_prod_iff, <- !list_elem_of_In.
  done.
Qed.

Lemma Sorted_fmap {A B} (R : A → A → Prop) (S : B → B → Prop) (f : A → B) l :
  (∀ x y, x ∈ l → y ∈ l → R x y → S (f x) (f y)) → Sorted R l → Sorted S (f <$> l).
Proof.
  intros Hf Hl. induction Hl as [|x l Hl IH Hx]; [constructor|]. rewrite fmap_cons.
  constructor; [apply IH; intros ????; apply Hf; set_solver|].
  destruct Hx; constructor. apply Hf; set_solver.
Qed.

Lemma Sorted_impl {A} (R S : A → A → Prop) l :
  (∀ x y, R x y → S x y) → Sorted R l → Sorted S l.
Proof.
  intros HRS. induction 1 as [|x l Hl IH Hx]; constructor; [done|].
  destruct Hx; constructor. by apply HRS.
Qed.

Lemma Sorted_select {A} (R : A → A → Prop) (p : A → bool) l :
  Transitive R → Sorted R l → Sorted R (select p l).
Proof.
  intros HR Hs%Sorted_StronglySorted; [|done]. apply StronglySorted_Sorted.
  induction Hs as [|x l Hl IH Hall]; simpl; [constructor|].
  destruct (p x); [|done]. constructor; [done|].
  rewrite List.Forall_forall in *. intros y [Hy _]%filter_In. auto.
Qed.

(** Rows of one key, in the order of the second column. *)
Lemma Sorted_group {A B} (key col : A → N) (le : A → A → bool) (S : B → B → Prop) (f : A → B)
    (l : list A) (id : N) :
  (∀ x y, le x y = (key y <? key x) || ((key x =? key y) && (col x <=? col y))) →
  (∀ x y, col x ≤ col y → S (f x) (f y)) →
  Sorted S (f <$> select (λ x, key x =? id) (sort_by le l)).
Proof.
  intros Hle HS. apply (Sorted_fmap (λ x y, le x y = true)).
  - intros x y [Hx%N.eqb_eq _]%elem_of_select [Hy%N.eqb_eq _]%elem_of_select.
    cbn. rewrite Hle, Hx, Hy, N.ltb_irrefl, N.eqb_refl. cbn. intros ?%N.leb_le. by apply HS.
  - apply Sorted_select; [|apply sort_by_sorted].
    + intros x y z. rewrite !Hle, !orb_true_iff, !andb_true_iff, !N.ltb_lt, !N.eqb_eq, !N.leb_le. lia.
    + intros x y. rewrite !Hle, orb_false_iff, andb_false_iff, orb_true_iff, andb_true_iff,
        !N.ltb_lt, !N.ltb_ge, !N.eqb_eq, N.eqb_neq, N.leb_le, N.leb_gt. lia.
Qed.
