(* ===== verification/GoStrings.v ===== *)
(** The parts of Go's [strings], [strconv], [unicode/utf8] and [encoding/hex]
    packages the program uses.  A Go string is a sequence of bytes: [string]
    here, whose characters are 8-bit.  White space is Unicode's [White_Space]
    in its UTF-8 encoding, as [unicode.IsSpace] has it; no byte of those
    encodings can start in the middle of another rune, so scanning by bytes
    finds the same runes the library's decoder does. *)

From S2P Require Import Prelude.

Local Open Scope N_scope.

#[global] Arguments String.append !s1 s2 / : simpl nomatch.

(** * Characters *)

Definition byte_is (lo hi : N) (a : ascii) : bool :=
  (lo <=? N_of_ascii a) && (N_of_ascii a <=? hi).

Definition is_byte (n : N) (a : ascii) : bool := N_of_ascii a =? n.

Definition is_digit (a : ascii) : bool := byte_is 48 57 a.

(** One-, two- and three-byte encodings of the white-space runes: U+0009-000D,
    U+0020; U+0085, U+00A0; U+1680, U+2000-200A, U+2028, U+2029, U+202F, U+205F,
    U+3000. *)
Definition space1 (a : ascii) : bool := byte_is 9 13 a || is_byte 32 a.
Definition space2 (a b : ascii) : bool :=
  is_byte 194 a && (is_byte 133 b || is_byte 160 b).
Definition space3 (a b c : ascii) : bool :=
  (is_byte 225 a && is_byte 154 b && is_byte 128 c) ||
  (is_byte 226 a && is_byte 128 b &&
     (byte_is 128 138 c || is_byte 168 c || is_byte 169 c || is_byte 175 c)) ||
  (is_byte 226 a && is_byte 129 b && is_byte 159 c) ||
  (is_byte 227 a && is_byte 128 b && is_byte 128 c).

Definition to_lower (a : ascii) : ascii :=
  if byte_is 65 90 a then ascii_of_N (N_of_ascii a + 32) else a.

Definition to_upper (a : ascii) : ascii :=
  if byte_is 97 122 a then ascii_of_N (N_of_ascii a - 32) else a.

(** * Strings *)

Fixpoint str_map (f : ascii → ascii) (s : string) : string :=
  match s with "" => "" | String a s => String (f a) (str_map f s) end%string.

Fixpoint str_existsb (p : ascii → bool) (s : string) : bool :=
  match s with "" => false | String a s => p a || str_existsb p s end%string.

Fixpoint str_rev_app (s acc : string) : string :=
  match s with "" => acc | String a s => str_rev_app s (String a acc) end%string.
Definition str_rev (s : string) : string := str_rev_app s "".

(** [strings.TrimLeftFunc(s, unicode.IsSpace)]. *)
Fixpoint trim_left_space (s : string) : string :=
  match s with
  | String a ((String b ((String c r3) as r2)) as r1) =>
      if space1 a then trim_left_space r1
      else if space2 a b then trim_left_space r2
      else if space3 a b c then trim_left_space r3
      else s
  | String a ((String b r2) as r1) =>
      if space1 a then trim_left_space r1
      else if space2 a b then trim_left_space r2
      else s
  | String a r1 => if space1 a then trim_left_space r1 else s
  | "" => s
  end%string.

(** The same from the right, on the reversed string: the bytes of a rune are
    met in the reverse order. *)
Fixpoint trim_right_space_rev (s : string) : string :=
  match s with
  | String c ((String b ((String a r3) as r2)) as r1) =>
      if space1 c then trim_right_space_rev r1
      else if space2 b c then trim_right_space_rev r2
      else if space3 a b c then trim_right_space_rev r3
      else s
  | String c ((String b r2) as r1) =>
      if space1 c then trim_right_space_rev r1
      else if space2 b c then trim_right_space_rev r2
      else s
  | String c r1 => if space1 c then trim_right_space_rev r1 else s
  | "" => s
  end%string.

(** [strings.TrimSpace]. *)
Definition TrimSpace (s : string) : string :=
  str_rev (trim_right_space_rev (str_rev (trim_left_space s))).

(** [strings.TrimSpace(s) == ""], the test the code writes before it uses a
    string that must not be blank. *)
Definition blank (s : string) : bool := String.eqb (TrimSpace s) "".

(** [strings.Fields]: [cur] is the field being read. *)
Definition flush_field (cur : string) (rest : list string) : list string :=
  if String.eqb cur "" then rest else cur :: rest.

Fixpoint fields_from (cur s : string) : list string :=
  match s with
  | String a ((String b ((String c r3) as r2)) as r1) =>
      if space1 a then flush_field cur (fields_from "" r1)
      else if space2 a b then flush_field cur (fields_from "" r2)
      else if space3 a b c then flush_field cur (fields_from "" r3)
      else fields_from (cur +:+ String a "") r1
  | String a ((String b r2) as r1) =>
      if space1 a then flush_field cur (fields_from "" r1)
      else if space2 a b then flush_field cur (fields_from "" r2)
      else fields_from (cur +:+ String a "") r1
  | String a r1 =>
      if space1 a then flush_field cur (fields_from "" r1)
      else fields_from (cur +:+ String a "") r1
  | "" => flush_field cur []
  end%string.

Definition Fields (s : string) : list string := fields_from "" s.

(** [strings.EqualFold] against a constant whose letters fold only to their
    ASCII counterparts. *)
Definition EqualFold (s t : string) : bool :=
  String.eqb (str_map to_lower s) (str_map to_lower t).

Definition HasPrefix (s pre : string) : bool := String.prefix pre s.

Fixpoint str_drop (n : nat) (s : string) : string :=
  match n, s with
  | S n, String _ s => str_drop n s
  | _, _ => s
  end.

Definition TrimPrefix (s pre : string) : string :=
  if HasPrefix s pre then str_drop (String.length pre) s else s.

(** [strings.Contains]. *)
Fixpoint Contains (s sub : string) : bool :=
  String.prefix sub s || match s with "" => false | String _ s => Contains s sub end%string.

(** [strings.ContainsAny], [strings.TrimLeft], [strings.TrimRight] and
    [strings.Trim] with an ASCII character set. *)
Definition in_set (chars : string) (a : ascii) : bool := str_existsb (Ascii.eqb a) chars.

Definition ContainsAny (s chars : string) : bool := str_existsb (in_set chars) s.

Fixpoint TrimLeft (s cutset : string) : string :=
  match s with
  | String a r => if in_set cutset a then TrimLeft r cutset else s
  | "" => ""
  end%string.

Definition TrimRight (s cutset : string) : string := str_rev (TrimLeft (str_rev s) cutset).
Definition Trim (s cutset : string) : string := TrimRight (TrimLeft s cutset) cutset.

(** [strings.Split] with a one-character separator. *)
Fixpoint split_from (cur : string) (sep : ascii) (s : string) : list string :=
  match s with
  | "" => [cur]
  | String a s => if Ascii.eqb a sep then cur :: split_from "" sep s
                  else split_from (cur +:+ String a "") sep s
  end%string.
Definition Split (s : string) (sep : ascii) : list string := split_from "" sep s.

(** [utf8.RuneCountInString]: a well-formed sequence is one rune, a byte that
    starts none is one rune of width 1. *)
Definition cont (a : ascii) : bool := byte_is 128 191 a.

Definition rune2 (a b : ascii) : bool := byte_is 194 223 a && cont b.
Definition rune3 (a b c : ascii) : bool :=
  ((is_byte 224 a && byte_is 160 191 b) || (byte_is 225 236 a && cont b) ||
   (is_byte 237 a && byte_is 128 159 b) || (byte_is 238 239 a && cont b)) && cont c.
Definition rune4 (a b c d : ascii) : bool :=
  ((is_byte 240 a && byte_is 144 191 b) || (byte_is 241 243 a && cont b) ||
   (is_byte 244 a && byte_is 128 143 b)) && cont c && cont d.

Fixpoint RuneCountInString (s : string) : nat :=
  match s with
  | "" => O
  | String a s1 =>
      S match s1 with
        | "" => O
        | String b s2 =>
            if rune2 a b then RuneCountInString s2
            else match s2 with
                 | "" => RuneCountInString s1
                 | String c s3 =>
                     if rune3 a b c then RuneCountInString s3
                     else match s3 with
                          | "" => RuneCountInString s1
                          | String d s4 =>
                              if rune4 a b c d then RuneCountInString s4
                              else RuneCountInString s1
                          end
                 end
        end
  end%string.

Lemma RuneCount_le s : (RuneCountInString s ≤ String.length s)%nat.
Proof.
  remember (String.length s) as n eqn:Hn. revert s Hn.
  induction n as [n IH] using lt_wf_ind. intros s ->.
  assert (IH' : ∀ t, (String.length t < String.length s)%nat → (RuneCountInString t ≤ String.length t)%nat)
    by (intros t Ht; by eapply IH).
  clear IH. destruct s as [|a s1]; [done|]. cbn [RuneCountInString String.length] in *.
  apply le_n_S. destruct s1 as [|b s2]; [done|]. cbn [String.length] in *.
  pose proof (IH' (String b s2) ltac:(cbn; lia)) as H1. cbn [String.length] in H1.
  destruct (rune2 a b); [pose proof (IH' s2); lia|].
  destruct s2 as [|c s3]; [done|]. cbn [String.length] in *.
  destruct (rune3 a b c); [pose proof (IH' s3); lia|].
  destruct s3 as [|d s4]; [done|]. cbn [String.length] in *.
  destruct (rune4 a b c d); [pose proof (IH' s4); lia|done].
Qed.

(** * Numbers *)

Definition digit_value (a : ascii) : N := N_of_ascii a - 48.
Definition digit_char (n : N) : ascii := ascii_of_N (n + 48).

Fixpoint parse_digits (acc : N) (s : string) : option N :=
  match s with
  | "" => Some acc
  | String a s => if is_digit a then parse_digits (acc * 10 + digit_value a) s else None
  end%string.

(** [strconv.ParseUint(s, 10, bits)]: [None] is the syntax or range error. *)
Definition ParseUint (s : string) (bits : N) : option N :=
  match s with
  | "" => None
  | _ => match parse_digits 0 s with
         | Some n => if (n <? 2 ^ bits)%N then Some n else None
         | None => None
         end
  end%string.

(** [strconv.FormatUint(n, 10)]; the fuel is the number of binary digits. *)
Fixpoint format_digits (fuel : nat) (n : N) (acc : string) : string :=
  match fuel with
  | O => acc
  | S fuel =>
      let acc := String (digit_char (n mod 10)) acc in
      if n / 10 =? 0 then acc else format_digits fuel (n / 10) acc
  end.

Definition FormatUint (n : N) : string := format_digits (S (N.to_nat (N.size n))) n "".

(** [hex.EncodeToString]. *)
Definition hex_digit (n : N) : ascii := if n <? 10 then ascii_of_N (n + 48) else ascii_of_N (n + 87).

Fixpoint hex_EncodeToString (s : string) : string :=
  match s with
  | "" => ""
  | String a s => String (hex_digit (N_of_ascii a / 16))
                    (String (hex_digit (N_of_ascii a mod 16)) (hex_EncodeToString s))
  end%string.

(** * Lemmas *)

Lemma N_of_ascii_lt a : N_of_ascii a < 256.
Proof. apply N_ascii_bounded. Qed.

Lemma is_digit_char n : n < 10 → is_digit (digit_char n) = true ∧ digit_value (digit_char n) = n.
Proof.
  intros Hn. unfold is_digit, byte_is, digit_value, digit_char.
  rewrite N_ascii_embedding by lia.
  rewrite andb_true_iff, !N.leb_le. lia.
Qed.

Lemma length_str_app (s t : string) :
  String.length (s +:+ t) = (String.length s + String.length t)%nat.
Proof. induction s; simpl; congruence. Qed.

Lemma str_app_assoc (s t u : string) : (s +:+ t) +:+ u = s +:+ (t +:+ u).
Proof. induction s; simpl; congruence. Qed.

Lemma str_app_nil_r (s : string) : s +:+ "" = s.
Proof. induction s; simpl; congruence. Qed.

Lemma str_rev_app_spec s acc : str_rev_app s acc = str_rev s +:+ acc.
Proof.
  unfold str_rev. revert acc. induction s as [|a s IH]; intros acc; simpl; [done|].
  rewrite IH, (IH (String a "")), str_app_assoc. done.
Qed.

Lemma str_rev_app_distr s t : str_rev (s +:+ t) = str_rev t +:+ str_rev s.
Proof.
  unfold str_rev. induction s as [|a s IH]; simpl; [by rewrite str_app_nil_r|].
  rewrite !(str_rev_app_spec _ (String a "")). unfold str_rev. by rewrite IH, str_app_assoc.
Qed.

Lemma str_rev_involutive s : str_rev (str_rev s) = s.
Proof.
  induction s as [|a s IH]; [done|].
  change (String a s) with (String a "" +:+ s) at 1.
  rewrite !str_rev_app_distr, IH. done.
Qed.

Lemma length_str_rev s : String.length (str_rev s) = String.length s.
Proof.
  induction s as [|a s IH]; [done|]. change (String a s) with (String a "" +:+ s).
  rewrite str_rev_app_distr, !length_str_app, IH. simpl. lia.
Qed.

Lemma length_substring n s : (n ≤ String.length s)%nat → String.length (substring 0 n s) = n.
Proof.
  revert s. induction n as [|n IH]; intros [|a s]; simpl; intros; try lia.
  f_equal. apply IH. lia.
Qed.

Lemma length_hex s : String.length (hex_EncodeToString s) = (2 * String.length s)%nat.
Proof. induction s; simpl; lia. Qed.

Lemma prefix_app pre s : String.prefix pre (pre +:+ s) = true.
Proof. induction pre as [|a pre IH]; simpl; [by destruct s|]. by destruct (ascii_dec a a). Qed.

Lemma str_drop_app pre s : str_drop (String.length pre) (pre +:+ s) = s.
Proof. induction pre; simpl; [by destruct s | done]. Qed.

Lemma HasPrefix_split s pre : HasPrefix s pre = true → s = pre +:+ str_drop (String.length pre) s.
Proof.
  unfold HasPrefix. revert s. induction pre as [|a pre IH]; intros s Hp; [by destruct s|].
  destruct s as [|b s]; [done|]. cbn [String.prefix] in Hp. destruct (ascii_dec a b) as [->|]; [|done].
  cbn [String.length str_drop]. change (String b pre +:+ ?t) with (String b (pre +:+ t)). f_equal. by apply IH.
Qed.

Lemma TrimPrefix_app pre s : TrimPrefix (pre +:+ s) pre = s.
Proof. unfold TrimPrefix, HasPrefix. by rewrite prefix_app, str_drop_app. Qed.

Lemma str_app_inv_head (p s t : string) : p +:+ s = p +:+ t → s = t.
Proof. induction p; simpl; naive_solver. Qed.

(** ** Printing a number and parsing it back *)

Lemma parse_format_digits fuel n acc v :
  n < 2 ^ N.of_nat fuel →
  ∃ p, parse_digits v (format_digits (S fuel) n acc) = parse_digits (v * 10 ^ p + n) acc
       ∧ format_digits (S fuel) n acc ≠ "".
Proof.
  revert n acc v. induction fuel as [|fuel IH]; intros n acc v Hn.
  - assert (n = 0) as -> by (simpl in Hn; lia). exists 1. split; [|done].
    change (format_digits 1 0 acc) with (String (digit_char 0) acc).
    cbn [parse_digits]. change (is_digit (digit_char 0)) with true.
    change (digit_value (digit_char 0)) with 0. reflexivity.
  - cbn [format_digits]. destruct (is_digit_char (n mod 10)) as [Hd Hv].
    { apply N.mod_lt. lia. }
    destruct (N.eqb_spec (n / 10) 0) as [Hz|Hz].
    + exists 1. split; [|done]. cbn [parse_digits]. rewrite Hd, Hv, N.pow_1_r.
      f_equal. div_lia.
    + destruct (IH (n / 10) (String (digit_char (n mod 10)) acc) v) as (p & Hp & Hne).
      { replace (N.of_nat (S fuel)) with (N.of_nat fuel + 1) in Hn by lia.
        rewrite N.pow_add_r in Hn. change (2 ^ 1) with 2 in Hn.
        apply N.Div0.div_lt_upper_bound. lia. }
      cbn [format_digits] in Hp, Hne. exists (p + 1). split; [|done].
      rewrite Hp. cbn [parse_digits]. rewrite Hd, Hv. f_equal.
      rewrite N.pow_add_r, N.pow_1_r. rewrite N.mul_assoc. generalize (v * 10 ^ p). intros q. div_lia.
Qed.

Lemma ParseUint_FormatUint n bits : n < 2 ^ bits → ParseUint (FormatUint n) bits = Some n.
Proof.
  intros Hn. unfold FormatUint.
  destruct (parse_format_digits (N.to_nat (N.size n)) n "" 0) as (p & Hp & Hne).
  { rewrite N2Nat.id. apply N.size_gt. }
  unfold ParseUint. destruct (format_digits _ n "") eqn:E; [done|].
  rewrite Hp. cbn [parse_digits]. replace (0 * 10 ^ p + n) with n by lia.
  by apply N.ltb_lt in Hn as ->.
Qed.

Lemma FormatUint_inj n m : FormatUint n = FormatUint m → n = m.
Proof.
  intros Heq. set (b := N.max (N.size n) (N.size m)).
  assert (Hlt : ∀ k, N.size k ≤ b → k < 2 ^ b).
  { intros k Hk. eapply N.lt_le_trans; [apply N.size_gt|]. apply N.pow_le_mono_r; lia. }
  pose proof (ParseUint_FormatUint n b ltac:(apply Hlt; lia)) as H1.
  pose proof (ParseUint_FormatUint m b ltac:(apply Hlt; lia)) as H2.
  rewrite Heq in H1. congruence.
Qed.

Lemma ParseUint_lt s bits n : ParseUint s bits = Some n → n < 2 ^ bits.
Proof.
  unfold ParseUint. destruct s; [done|]. destruct (parse_digits _ _); [|done].
  destruct (N.ltb_spec n0 (2 ^ bits)); naive_solver.
Qed.

(** * Trimming twice *)

(** The string starts with a white-space rune; the bytes are met in reverse
    order when [rev]. *)
Definition starts_space (rev : bool) (s : string) : bool :=
  match s with
  | String a s1 =>
      space1 a ||
      match s1 with
      | String b s2 =>
          (if rev then space2 b a else space2 a b) ||
          match s2 with
          | String c _ => if rev then space3 c b a else space3 a b c
          | "" => false
          end
      | "" => false
      end
  | "" => false
  end%string.

Lemma string_length_ind (P : string → Prop) :
  (∀ s, (∀ t, (String.length t < String.length s)%nat → P t) → P s) → ∀ s, P s.
Proof.
  intros HP s. remember (String.length s) as n eqn:Hn. revert s Hn.
  induction n as [n IH] using lt_wf_ind. intros s ->. apply HP. intros t Ht. by apply (IH (String.length t)).
Qed.

Lemma trim_left_spec s :
  starts_space false (trim_left_space s) = false ∧
  (starts_space false s = false → trim_left_space s = s).
Proof.
  induction s as [s IH] using string_length_ind.
  destruct s as [|a [|b [|c s]]]; cbn [trim_left_space starts_space].
  - done.
  - destruct (space1 a) eqn:H1; [done|]. cbn. by rewrite H1.
  - destruct (space1 a) eqn:H1; [split; [apply (IH (String b "")); cbn; lia|done]|].
    destruct (space2 a b) eqn:H2; [done|]. cbn. by rewrite H1, H2.
  - destruct (space1 a) eqn:H1; [split; [apply (IH (String b (String c s))); cbn; lia|done]|].
    destruct (space2 a b) eqn:H2; [split; [apply (IH (String c s)); cbn; lia|done]|].
    destruct (space3 a b c) eqn:H3; [split; [apply (IH s); cbn; lia|done]|]. cbn. by rewrite H1, H2, H3.
Qed.

Lemma trim_right_spec s :
  starts_space true (trim_right_space_rev s) = false ∧
  (starts_space true s = false → trim_right_space_rev s = s) ∧ ∃ p, s = p +:+ trim_right_space_rev s.
Proof.
  induction s as [s IH] using string_length_ind.
  assert (Hdrop : ∀ q t, (String.length t < String.length s)%nat → s = q +:+ t →
            starts_space true (trim_right_space_rev t) = false ∧ ∃ p, s = p +:+ trim_right_space_rev t).
  { intros q t Ht Hs. destruct (IH t Ht) as (H1 & _ & p & Hp). split; [done|]. exists (q +:+ p).
    rewrite str_app_assoc, <- Hp. done. }
  destruct s as [|a [|b [|c s]]]; cbn [trim_right_space_rev starts_space].
  - split; [done|]. split; [done|]. by exists "".
  - destruct (space1 a) eqn:H1; [split; [done|]; split; [done|]; by exists (String a "")|].
    split; [cbn; by rewrite H1|]. split; [done|]. by exists "".
  - destruct (space1 a) eqn:H1.
    { destruct (Hdrop (String a "") (String b "")) as [Hx Hp]; [cbn; lia|done|]. done. }
    destruct (space2 b a) eqn:H2.
    { destruct (Hdrop (String a (String b "")) "") as [Hx Hp]; [cbn; lia|done|]. done. }
    split; [cbn; by rewrite H1, H2|]. split; [done|]. by exists "".
  - destruct (space1 a) eqn:H1.
    { destruct (Hdrop (String a "") (String b (String c s))) as [Hx Hp]; [cbn; lia|done|]. done. }
    destruct (space2 b a) eqn:H2.
    { destruct (Hdrop (String a (String b "")) (String c s)) as [Hx Hp]; [cbn; lia|done|]. done. }
    destruct (space3 c b a) eqn:H3.
    { destruct (Hdrop (String a (String b (String c ""))) s) as [Hx Hp]; [cbn; lia|done|]. done. }
    split; [cbn; by rewrite H1, H2, H3|]. split; [done|]. by exists "".
Qed.

Lemma starts_space_prefix p q : starts_space false (p +:+ q) = false → starts_space false p = false.
Proof.
  destruct p as [|a [|b [|c p]]]; cbn; [done|..|done].
  - destruct q as [|b [|c q]]; cbn; rewrite ?orb_false_iff; tauto.
  - destruct q as [|c q]; cbn; rewrite ?orb_false_iff; tauto.
Qed.

Lemma TrimSpace_idemp s : TrimSpace (TrimSpace s) = TrimSpace s.
Proof.
  unfold TrimSpace at 2 3. set (t := trim_left_space s).
  destruct (trim_left_spec s) as [Ht _]. fold t in Ht.
  destruct (trim_right_spec (str_rev t)) as (He & _ & p & Hp). set (v := trim_right_space_rev (str_rev t)) in *.
  assert (Hl : trim_left_space (str_rev v) = str_rev v).
  { apply trim_left_spec. apply (starts_space_prefix _ (str_rev p)).
    rewrite <- str_rev_app_distr, <- Hp, str_rev_involutive. done. }
  unfold TrimSpace. rewrite Hl, str_rev_involutive. f_equal. by apply trim_right_spec.
Qed.

(** ** What is not blank *)

(** A byte that no white-space rune contains. *)
Definition solid (a : ascii) : Prop := N_of_ascii a < 128 ∧ space1 a = false.

Lemma solid_spaces a : solid a → (∀ b, space2 a b = false) ∧ (∀ b c, space3 a b c = false).
Proof.
  intros [Ha _].
  assert (Hb : ∀ n, 128 <= n → is_byte n a = false) by (intros n Hn; apply N.eqb_neq; lia).
  unfold space2, space3. split; intros; by rewrite !Hb by lia.
Qed.

Lemma trim_right_solid a s : solid a → trim_right_space_rev (s +:+ String a "") ≠ "".
Proof.
  intros Ha. destruct (solid_spaces a Ha) as [H2 H3]. destruct Ha as [_ H1].
  assert (Hone : trim_right_space_rev (String a "") = String a "") by (cbn; by rewrite H1).
  induction s as [s IH] using string_length_ind.
  destruct s as [|x [|y [|z s]]].
  - change ("" +:+ String a "") with (String a ""). by rewrite Hone.
  - change (String x "" +:+ String a "") with (String x (String a "")). cbn [trim_right_space_rev].
    rewrite H2. by destruct (space1 x); rewrite ?H1.
  - change (String x (String y "") +:+ String a "") with (String x (String y (String a ""))).
    pose proof (IH (String y "") ltac:(cbn; lia)) as Hy. change (String y "" +:+ String a "") with (String y (String a "")) in Hy.
    cbn [trim_right_space_rev] in *. rewrite H3, H2 in *. destruct (space1 x); [done|].
    by destruct (space2 y x); rewrite ?H1.
  - pose proof (IH (String y (String z s)) ltac:(cbn; lia)) as Hy. pose proof (IH (String z s) ltac:(cbn; lia)) as Hz.
    pose proof (IH s ltac:(cbn; lia)) as Hs.
    change (String x (String y (String z s)) +:+ String a "") with (String x (String y (String z (s +:+ String a "")))).
    change (String y (String z s) +:+ String a "") with (String y (String z (s +:+ String a ""))) in Hy.
    change (String z s +:+ String a "") with (String z (s +:+ String a "")) in Hz.
    set (t := s +:+ String a "") in *. clearbody t. cbn [trim_right_space_rev].
    destruct (space1 x); [exact Hy|]. destruct (space2 y x); [exact Hz|]. by destruct (space3 z y x).
Qed.

Lemma blank_solid a s : solid a → blank (String a s) = false.
Proof.
  intros Ha. unfold blank, TrimSpace. apply String.eqb_neq.
  assert (Hl : trim_left_space (String a s) = String a s).
  { apply trim_left_spec. cbn. destruct (solid_spaces a Ha) as [H2 H3]. destruct Ha as [_ ->]. cbn.
    destruct s as [|b [|c s]]; [done|..]; by rewrite ?H2, ?H3. }
  rewrite Hl. change (String a s) with (String a "" +:+ s). rewrite str_rev_app_distr.
  change (str_rev (String a "")) with (String a ""). intros He.
  apply (trim_right_solid a (str_rev s) Ha). rewrite <- (str_rev_involutive (trim_right_space_rev _)), He. done.
Qed.
