(* ===== verification/Codec.v ===== *)
(** The standard-library codecs the credentials go through: [encoding/base64]
    (the standard padded alphabet and the raw URL one) and [crypto/sha256].
    Bytes are the characters of a [string]. *)

From S2P Require Import Prelude.
From S2P Require Import GoStrings.

Local Open Scope list_scope.
Local Open Scope N_scope.

(** * Base64 *)

Module Base64.
(** The two alphabets differ in their last two symbols. *)
Definition sym (url : bool) (i : N) : ascii :=
  if i <? 26 then ascii_of_N (i + 65)
  else if i <? 52 then ascii_of_N (i + 71)
  else if i <? 62 then ascii_of_N (i - 4)
  else if i =? 62 then ascii_of_N (if url then 45 else 43)
  else ascii_of_N (if url then 95 else 47).

Definition value (a : ascii) : option N :=
  let n := N_of_ascii a in
  if (65 <=? n) && (n <=? 90) then Some (n - 65)
  else if (97 <=? n) && (n <=? 122) then Some (n - 71)
  else if (48 <=? n) && (n <=? 57) then Some (n + 4)
  else if n =? 43 then Some 62
  else if n =? 47 then Some 63
  else None.

Definition pad : ascii := "="%char.

(** The symbols of a quantum of one, two or three bytes. *)
Definition s0 (a : N) : N := a / 4.
Definition s1 (a b : N) : N := (a mod 4) * 16 + b / 16.
Definition s2 (b c : N) : N := (b mod 16) * 4 + c / 64.
Definition s3 (c : N) : N := c mod 64.

Fixpoint encode (url padded : bool) (s : string) : string :=
  match s with
  | "" => ""
  | String a "" =>
      let a := N_of_ascii a in
      String (sym url (s0 a)) (String (sym url (s1 a 0))
        (if padded then String pad (String pad "") else ""))
  | String a (String b "") =>
      let a := N_of_ascii a in let b := N_of_ascii b in
      String (sym url (s0 a)) (String (sym url (s1 a b)) (String (sym url (s2 b 0))
        (if padded then String pad "" else "")))
  | String a (String b (String c r)) =>
      let a := N_of_ascii a in let b := N_of_ascii b in let c := N_of_ascii c in
      String (sym url (s0 a)) (String (sym url (s1 a b)) (String (sym url (s2 b c))
        (String (sym url (s3 c)) (encode url padded r))))
  end%string.

(** [base64.StdEncoding.Encode] and [base64.RawURLEncoding.EncodeToString]. *)
Definition StdEncode : string → string := encode false true.
Definition RawURLEncode : string → string := encode true false.

(** [base64.StdEncoding.Decode]: carriage returns and newlines are skipped,
    padding may only close the last quantum, and the unused low bits of a
    padded quantum are not checked. *)
Definition is_newline (a : ascii) : bool := is_byte 13 a || is_byte 10 a.

Fixpoint strip_newlines (s : string) : string :=
  match s with
  | "" => ""
  | String a s => if is_newline a then strip_newlines s else String a (strip_newlines s)
  end%string.

Fixpoint decode_quanta (s : string) : option string :=
  match s with
  | "" => Some ""
  | String w (String x (String y (String z r))) =>
      match value w, value x with
      | Some w, Some x =>
          let b0 := ascii_of_N (w * 4 + x / 16) in
          if Ascii.eqb y pad then
            if Ascii.eqb z pad && String.eqb r "" then Some (String b0 "") else None
          else
            match value y with
            | None => None
            | Some y =>
                let b1 := ascii_of_N ((x mod 16) * 16 + y / 4) in
                if Ascii.eqb z pad then
                  if String.eqb r "" then Some (String b0 (String b1 "")) else None
                else
                  match value z, decode_quanta r with
                  | Some z, Some r =>
                      Some (String b0 (String b1 (String (ascii_of_N ((y mod 4) * 64 + z)) r)))
                  | _, _ => None
                  end
            end
      | _, _ => None
      end
  | _ => None
  end%string.

Definition StdDecode (s : string) : option string := decode_quanta (strip_newlines s).

(** ** Lemmas *)

(** A property of the 64 symbols is checked by evaluation. *)
Lemma forall_64 (p : N → bool) :
  forallb p (map N.of_nat (seq 0 64)) = true → ∀ i, i < 64 → p i = true.
Proof.
  intros Hp i Hi. rewrite List.forallb_forall in Hp. apply Hp. apply in_map_iff.
  exists (N.to_nat i). split; [lia|]. apply in_seq. lia.
Qed.

Lemma value_sym i : i < 64 → value (sym false i) = Some i.
Proof.
  intros Hi. apply (forall_64 (λ i, bool_decide (value (sym false i) = Some i))) in Hi;
    [by apply bool_decide_eq_true in Hi | by vm_compute].
Qed.

Lemma sym_not_special i :
  i < 64 → Ascii.eqb (sym false i) pad = false ∧ is_newline (sym false i) = false.
Proof.
  intros Hi. apply (forall_64 (λ i, negb (Ascii.eqb (sym false i) pad) &&
                                    negb (is_newline (sym false i)))) in Hi; [|by vm_compute].
  by apply andb_true_iff in Hi as [?%negb_true_iff ?%negb_true_iff].
Qed.

Lemma symbols_lt a b c :
  a < 256 → b < 256 → c < 256 → s0 a < 64 ∧ s1 a b < 64 ∧ s2 b c < 64 ∧ s3 c < 64.
Proof.
  unfold s0, s1, s2, s3. intros Ha Hb Hc.
  assert (a / 4 < 64) by (apply N.Div0.div_lt_upper_bound; lia).
  assert (b / 16 < 16) by (apply N.Div0.div_lt_upper_bound; lia).
  assert (c / 64 < 4) by (apply N.Div0.div_lt_upper_bound; lia).
  pose proof (N.mod_lt a 4). pose proof (N.mod_lt b 16). pose proof (N.mod_lt c 64). lia.
Qed.

Lemma digits_inverse x y k : y < k → (x * k + y) / k = x ∧ (x * k + y) mod k = y.
Proof.
  intros Hy. split.
  - rewrite N.div_add_l by lia. rewrite N.div_small by done. lia.
  - rewrite N.add_comm, N.Div0.mod_add. by apply N.mod_small.
Qed.

(** The decoder's shifts undo the encoder's. *)
Lemma quantum_inverse a b c :
  a < 256 → b < 256 → c < 256 →
  s0 a * 4 + s1 a b / 16 = a ∧ (s1 a b mod 16) * 16 + s2 b c / 4 = b ∧
  (s2 b c mod 4) * 64 + s3 c = c.
Proof.
  unfold s0, s1, s2, s3. intros Ha Hb Hc.
  assert (b / 16 < 16) by (apply N.Div0.div_lt_upper_bound; lia).
  assert (c / 64 < 4) by (apply N.Div0.div_lt_upper_bound; lia).
  destruct (digits_inverse (a mod 4) (b / 16) 16) as [-> ->]; [done|].
  destruct (digits_inverse (b mod 16) (c / 64) 4) as [-> ->]; [done|].
  pose proof (N.Div0.div_mod a 4). pose proof (N.Div0.div_mod b 16).
  pose proof (N.Div0.div_mod c 64). lia.
Qed.

(** Strong induction by quanta. *)
Lemma string_ind3 (P : string → Prop) :
  P "" → (∀ a, P (String a "")) → (∀ a b, P (String a (String b ""))) →
  (∀ a b c r, P r → P (String a (String b (String c r)))) → ∀ s, P s.
Proof.
  intros H0 H1 H2 H3. fix IH 1. intros [|a [|b [|c r]]]; [apply H0 | apply H1 | apply H2 |].
  apply H3, IH.
Qed.

Ltac bytes a b c :=
  let Ha := fresh in let Hb := fresh in let Hc := fresh in
  pose proof (N_of_ascii_lt a) as Ha; pose proof (N_of_ascii_lt b) as Hb;
  pose proof (N_of_ascii_lt c) as Hc;
  destruct (symbols_lt _ _ _ Ha Hb Hc) as (? & ? & ? & ?);
  destruct (quantum_inverse _ _ _ Ha Hb Hc) as (Hq0 & Hq1 & Hq2).

Lemma strip_newlines_encode s : strip_newlines (StdEncode s) = StdEncode s.
Proof.
  unfold StdEncode. induction s as [|a|a b|a b c r IH] using string_ind3; [done|..].
  - bytes a zero zero. simpl.
    by rewrite (proj2 (sym_not_special (s0 _) ltac:(done))), (proj2 (sym_not_special (s1 _ 0) ltac:(done))).
  - bytes a b zero. simpl.
    by rewrite (proj2 (sym_not_special (s0 _) ltac:(done))), (proj2 (sym_not_special (s1 _ _) ltac:(done))),
      (proj2 (sym_not_special (s2 _ 0) ltac:(done))).
  - bytes a b c. simpl.
    by rewrite (proj2 (sym_not_special (s0 _) ltac:(done))), (proj2 (sym_not_special (s1 _ _) ltac:(done))),
      (proj2 (sym_not_special (s2 _ _) ltac:(done))), (proj2 (sym_not_special (s3 _) ltac:(done))), IH.
Qed.

Lemma decode_quanta_encode s : decode_quanta (StdEncode s) = Some s.
Proof.
  unfold StdEncode. induction s as [|a|a b|a b c r IH] using string_ind3; [done|..].
  - bytes a zero zero. simpl. change (N_of_ascii zero) with 0 in *.
    rewrite !value_sym by done. by rewrite Hq0, ascii_N_embedding.
  - bytes a b zero. simpl. change (N_of_ascii zero) with 0 in *.
    rewrite !value_sym by done.
    rewrite (proj1 (sym_not_special (s2 _ 0) ltac:(done))). by rewrite Hq0, Hq1, !ascii_N_embedding.
  - bytes a b c. simpl. rewrite !value_sym by done.
    rewrite (proj1 (sym_not_special (s2 _ _) ltac:(done))),
      (proj1 (sym_not_special (s3 _) ltac:(done))).
    by rewrite IH, Hq0, Hq1, Hq2, !ascii_N_embedding.
Qed.

Lemma StdDecode_StdEncode s : StdDecode (StdEncode s) = Some s.
Proof. unfold StdDecode. by rewrite strip_newlines_encode, decode_quanta_encode. Qed.

Lemma length_RawURLEncode_32 s :
  String.length s = 32%nat → String.length (RawURLEncode s) = 43%nat.
Proof.
  unfold RawURLEncode. intros Hl.
  do 32 (destruct s as [|? s]; [done|]). destruct s; [reflexivity | done].
Qed.
End Base64.

(** * SHA-256 *)

(** [sha256.Sum256] on 32-bit words kept as [N] below [2 ^ 32]. *)
Module Sha256.
Definition w32 (x : N) : N := N.land x (N.ones 32).
Definition add32 (x y : N) : N := w32 (x + y).
Definition rotr (n x : N) : N := N.lor (N.shiftr x n) (w32 (N.shiftl x (32 - n))).
Definition not32 (x : N) : N := N.lxor x (N.ones 32).

Definition big0 (x : N) : N := N.lxor (rotr 2 x) (N.lxor (rotr 13 x) (rotr 22 x)).
Definition big1 (x : N) : N := N.lxor (rotr 6 x) (N.lxor (rotr 11 x) (rotr 25 x)).
Definition small0 (x : N) : N := N.lxor (rotr 7 x) (N.lxor (rotr 18 x) (N.shiftr x 3)).
Definition small1 (x : N) : N := N.lxor (rotr 17 x) (N.lxor (rotr 19 x) (N.shiftr x 10)).
Definition ch (x y z : N) : N := N.lxor (N.land x y) (N.land (not32 x) z).
Definition maj (x y z : N) : N := N.lxor (N.land x y) (N.lxor (N.land x z) (N.land y z)).

(** The constants are fractional parts of square and cube roots of the first
    primes, 32 bits of each, as FIPS 180-4 defines them. *)
Definition divides (d n : N) : bool := n mod d =? 0.
Definition primes_below (bound : nat) : list N :=
  select (λ n, forallb (λ d, negb (divides d n)) (map N.of_nat (seq 2 (N.to_nat n - 2))))
    (map N.of_nat (seq 2 (bound - 2))).

(** The largest [r] below [2^bits] with [r^3 <= n], from the highest bit down. *)
Fixpoint cube_root (bits : nat) (n r : N) : N :=
  match bits with
  | O => r
  | S bits => let r' := r + 2 ^ N.of_nat bits in
              cube_root bits n (if r' * r' * r' <=? n then r' else r)
  end.

Definition round_constants : list N :=
  Eval vm_compute in map (λ p, w32 (cube_root 36 (p * 2 ^ 96) 0)) (primes_below 312).
Definition initial : list N :=
  Eval vm_compute in map (λ p, w32 (N.sqrt (p * 2 ^ 64))) (primes_below 20).

Example length_round_constants : length round_constants = 64%nat ∧ length initial = 8%nat.
Proof. split; reflexivity. Qed.

(** The message schedule, newest word first. *)
Definition schedule_step (ws : list N) : list N :=
  let at_ n := default 0 (ws !! n) in
  add32 (add32 (small1 (at_ 1%nat)) (at_ 6%nat)) (add32 (small0 (at_ 14%nat)) (at_ 15%nat)) :: ws.

Definition schedule (block : list N) : list N :=
  rev (Nat.iter 48 schedule_step (rev block)).

Definition round (st : list N) (kw : N * N) : list N :=
  match st with
  | [a; b; c; d; e; f; g; h] =>
      let t1 := add32 (add32 h (big1 e)) (add32 (ch e f g) (add32 kw.1 kw.2)) in
      let t2 := add32 (big0 a) (maj a b c) in
      [add32 t1 t2; a; b; c; add32 d t1; e; f; g]
  | _ => st
  end.

Definition compress (st block : list N) : list N :=
  zip_with add32 st (fold_left round (zip round_constants (schedule block)) st).

Definition be_bytes (n : nat) (x : N) : list N :=
  map (λ i, N.land (N.shiftr x (8 * N.of_nat i)) 255) (rev (seq 0 n)).

Fixpoint words (bs : list N) : list N :=
  match bs with
  | a :: b :: c :: d :: bs =>
      (N.shiftl a 24 + N.shiftl b 16 + N.shiftl c 8 + d) :: words bs
  | _ => []
  end.

Fixpoint blocks (fuel : nat) (st ws : list N) : list N :=
  match fuel with
  | O => st
  | S fuel => match ws with
              | [] => st
              | _ => blocks fuel (compress st (firstn 16 ws)) (skipn 16 ws)
              end
  end.

Definition padding (len : nat) : list N :=
  128 :: repeat 0 ((119 - len mod 64) mod 64) ++ be_bytes 8 (8 * N.of_nat len).

Definition digest_words (s : string) : list N :=
  let bs := map N_of_ascii (list_ascii_of_string s) in
  let ws := words (bs ++ padding (length bs)) in
  blocks (length ws) initial ws.

Definition Sum256 (s : string) : string :=
  string_of_list_ascii (map ascii_of_N (concat (map (be_bytes 4) (digest_words s)))).

Lemma length_compress st b : length st = 8%nat → length (compress st b) = 8%nat.
Proof.
  intros Hst. unfold compress. rewrite length_zip_with, Hst.
  assert (Hf : ∀ kws st, length st = 8%nat → length (fold_left round kws st) = 8%nat).
  { induction kws as [|kw kws IH]; intros st' Hl; [done|]. apply IH.
    do 9 (destruct st' as [|? st']; [done|]). done. }
  rewrite Hf by done. done.
Qed.

Lemma length_blocks fuel st ws : length st = 8%nat → length (blocks fuel st ws) = 8%nat.
Proof.
  revert st ws. induction fuel as [|fuel IH]; intros st [|w ws] Hl; simpl; try done.
  apply IH. by apply length_compress.
Qed.

Lemma length_Sum256 s : String.length (Sum256 s) = 32%nat.
Proof.
  unfold Sum256. pose proof (length_blocks (length (words (map N_of_ascii (list_ascii_of_string s) ++
    padding (length (map N_of_ascii (list_ascii_of_string s)))))) initial
    (words (map N_of_ascii (list_ascii_of_string s) ++
    padding (length (map N_of_ascii (list_ascii_of_string s))))) eq_refl) as Hl.
  unfold digest_words. destruct (blocks _ _ _) as [|? l]; [done|].
  do 8 (destruct l as [|? l]; [done || reflexivity|]). done.
Qed.
End Sha256.

(** [hex.EncodeToString(sha256.Sum256([]byte(s)))], the index the program
    stores in place of a secret. *)
Definition hex_sha256 (s : string) : string := hex_EncodeToString (Sha256.Sum256 s).

(** The FIPS 180-4 test vectors. *)
Example sha256_abc :
  hex_sha256 "abc" = "ba7816bf8f01cfea414140de5dae2223b00361a396177a9cb410ff61f20015ad"%string.
Proof. vm_compute. reflexivity. Qed.

Example sha256_two_blocks :
  hex_sha256 "abcdbcdecdefdefgefghfghighijhijkijkljklmklmnlmnomnopnopq"
  = "248d6a61d20638b8e5c026930c3e6039a33ce45964ff2167f6ecedd419db06c1"%string.
Proof. vm_compute. reflexivity. Qed.

Lemma length_hex_sha256 s : String.length (hex_sha256 s) = 64%nat.
Proof. unfold hex_sha256. by rewrite length_hex, Sha256.length_Sum256. Qed.
