(* ===== verification/Schema.v ===== *)
(** The persistent data: the GORM models of the modules as records, the tables
    of [migrations/] with their primary keys, unique indexes, CHECK constraints
    and foreign keys, the SQL statements the repositories issue as a typed
    syntax, and their meaning on the tables.  [sql_step] is what PostgreSQL
    documents for those statements; the program never calls it, only an
    executor of which [World] assumes that it either follows [sql_step] or
    fails. *)

From S2P Require Import Prelude.
From S2P Require Import GoStrings.

Local Open Scope list_scope.
Local Open Scope N_scope.

(** * Rows *)

(** A [time.Time] is the number of nanoseconds since the zero instant; a
    [*time.Time] is an [option]. *)
Abbreviation time := Z.

(** modules/user/model.go *)
Record User := {
  usr_ID : N; usr_Username : string; usr_PasswordHash : string; usr_RoleCode : string;
  usr_IsActive : bool; usr_CreatedAt : time; usr_UpdatedAt : time
}.

(** modules/oauth/oauth_model.go *)
Record OAuthInfo := {
  oi_ID : N; oi_UserID : N; oi_AccessToken : string; oi_AccountID : string;
  oi_Disabled : bool; oi_Email : string; oi_Expired : option time; oi_IDToken : string;
  oi_LastRefresh : option time; oi_RefreshToken : string; oi_Type : string;
  oi_CreatedAt : time; oi_UpdatedAt : time
}.

(** modules/apikey/apikey_model.go *)
Record ApikeyInfo := {
  ak_ID : N; ak_UserID : N; ak_KeyHash : string; ak_KeyPrefix : string;
  ak_Disabled : bool; ak_ExpiresAt : option time; ak_CreatedAt : time; ak_UpdatedAt : time
}.

Record Apikeyaccounts := {
  ba_UserID : N; ba_ApiKeyID : N; ba_OAuthInfoID : N; ba_CreatedAt : time
}.

(** modules/apikey/apikey_external_key_model.go *)
Record ApikeyExternalKey := {
  be_UserID : N; be_ApiKeyID : N; be_ExternalApiKeyID : N; be_CreatedAt : time
}.

(** dto/request/request.go and modules/external_apikey/model.go *)
Record ExternalApikeySuffix := {
  sfx_ChatCompletions : string; sfx_Responses : string; sfx_Messages : string
}.

Record ExternalApikey := {
  ek_ID : N; ek_UserID : N; ek_KeyHash : string; ek_Ciphertext : string;
  ek_Endpoint : string; ek_Suffix : ExternalApikeySuffix;
  ek_CreatedAt : time; ek_UpdatedAt : time
}.

#[export] Instance User_eq_dec : EqDecision User.
Proof. solve_decision. Defined.
#[export] Instance OAuthInfo_eq_dec : EqDecision OAuthInfo.
Proof. solve_decision. Defined.
#[export] Instance ApikeyInfo_eq_dec : EqDecision ApikeyInfo.
Proof. solve_decision. Defined.
#[export] Instance Apikeyaccounts_eq_dec : EqDecision Apikeyaccounts.
Proof. solve_decision. Defined.
#[export] Instance ApikeyExternalKey_eq_dec : EqDecision ApikeyExternalKey.
Proof. solve_decision. Defined.
#[export] Instance ExternalApikeySuffix_eq_dec : EqDecision ExternalApikeySuffix.
Proof. solve_decision. Defined.
#[export] Instance ExternalApikey_eq_dec : EqDecision ExternalApikey.
Proof. solve_decision. Defined.

(** * Tables *)

(** The rows of each table and the next value of each identity sequence. *)
Record db := {
  t_users : list User;
  t_oauth : list OAuthInfo;
  t_keys : list ApikeyInfo;
  t_bind : list Apikeyaccounts;
  t_ext : list ExternalApikey;
  t_extbind : list ApikeyExternalKey;
  seq_users : N; seq_oauth : N; seq_keys : N; seq_ext : N
}.

Inductive table :=
  | users | oauth_infos | api_keys | api_key_accounts
  | external_api_keys | api_key_external_keys.

Definition row (t : table) : Type :=
  match t with
  | users => User
  | oauth_infos => OAuthInfo
  | api_keys => ApikeyInfo
  | api_key_accounts => Apikeyaccounts
  | external_api_keys => ExternalApikey
  | api_key_external_keys => ApikeyExternalKey
  end.

Definition rows (t : table) (d : db) : list (row t) :=
  match t return list (row t) with
  | users => t_users d
  | oauth_infos => t_oauth d
  | api_keys => t_keys d
  | api_key_accounts => t_bind d
  | external_api_keys => t_ext d
  | api_key_external_keys => t_extbind d
  end.

Definition set_rows (t : table) : list (row t) → db → db :=
  match t return list (row t) → db → db with
  | users => λ rs d, Build_db rs (t_oauth d) (t_keys d) (t_bind d) (t_ext d) (t_extbind d)
                       (seq_users d) (seq_oauth d) (seq_keys d) (seq_ext d)
  | oauth_infos => λ rs d, Build_db (t_users d) rs (t_keys d) (t_bind d) (t_ext d) (t_extbind d)
                       (seq_users d) (seq_oauth d) (seq_keys d) (seq_ext d)
  | api_keys => λ rs d, Build_db (t_users d) (t_oauth d) rs (t_bind d) (t_ext d) (t_extbind d)
                       (seq_users d) (seq_oauth d) (seq_keys d) (seq_ext d)
  | api_key_accounts => λ rs d, Build_db (t_users d) (t_oauth d) (t_keys d) rs (t_ext d) (t_extbind d)
                       (seq_users d) (seq_oauth d) (seq_keys d) (seq_ext d)
  | external_api_keys => λ rs d, Build_db (t_users d) (t_oauth d) (t_keys d) (t_bind d) rs (t_extbind d)
                       (seq_users d) (seq_oauth d) (seq_keys d) (seq_ext d)
  | api_key_external_keys => λ rs d, Build_db (t_users d) (t_oauth d) (t_keys d) (t_bind d) (t_ext d) rs
                       (seq_users d) (seq_oauth d) (seq_keys d) (seq_ext d)
  end.

(** Identity columns: [GENERATED ALWAYS AS IDENTITY]. *)
Definition next_id (t : table) (d : db) : N :=
  match t with
  | users => seq_users d | oauth_infos => seq_oauth d
  | api_keys => seq_keys d | external_api_keys => seq_ext d
  | api_key_accounts | api_key_external_keys => 0
  end.

Definition bump (t : table) (d : db) : db :=
  let inc (b : bool) n := if b then n + 1 else n in
  Build_db (t_users d) (t_oauth d) (t_keys d) (t_bind d) (t_ext d) (t_extbind d)
    (inc (match t with users => true | _ => false end) (seq_users d))
    (inc (match t with oauth_infos => true | _ => false end) (seq_oauth d))
    (inc (match t with api_keys => true | _ => false end) (seq_keys d))
    (inc (match t with external_api_keys => true | _ => false end) (seq_ext d)).

(** The identity assigned to a new row, and the creation timestamps. *)
Definition stamp (t : table) (now : time) (i : N) : row t → row t :=
  match t return row t → row t with
  | users => λ r, Build_User i (usr_Username r) (usr_PasswordHash r) (usr_RoleCode r)
                    (usr_IsActive r) now now
  | oauth_infos => λ r, Build_OAuthInfo i (oi_UserID r) (oi_AccessToken r) (oi_AccountID r)
                    (oi_Disabled r) (oi_Email r) (oi_Expired r) (oi_IDToken r)
                    (oi_LastRefresh r) (oi_RefreshToken r) (oi_Type r) now now
  | api_keys => λ r, Build_ApikeyInfo i (ak_UserID r) (ak_KeyHash r) (ak_KeyPrefix r)
                    (ak_Disabled r) (ak_ExpiresAt r) now now
  | api_key_accounts => λ r, Build_Apikeyaccounts (ba_UserID r) (ba_ApiKeyID r)
                    (ba_OAuthInfoID r) now
  | external_api_keys => λ r, Build_ExternalApikey i (ek_UserID r) (ek_KeyHash r)
                    (ek_Ciphertext r) (ek_Endpoint r) (ek_Suffix r) now now
  | api_key_external_keys => λ r, Build_ApikeyExternalKey (be_UserID r) (be_ApiKeyID r)
                    (be_ExternalApiKeyID r) now
  end.

(** Primary keys; the association tables have a composite one. *)
Definition pk (t : table) : row t → N * N :=
  match t return row t → N * N with
  | users => λ r, (usr_ID r, 0)
  | oauth_infos => λ r, (oi_ID r, 0)
  | api_keys => λ r, (ak_ID r, 0)
  | api_key_accounts => λ r, (ba_ApiKeyID r, ba_OAuthInfoID r)
  | external_api_keys => λ r, (ek_ID r, 0)
  | api_key_external_keys => λ r, (be_ApiKeyID r, be_ExternalApiKeyID r)
  end.

(** The other unique index of a table: [users.username],
    [oauth_infos_owner_account_idx], [api_keys.key_hash].  The remaining tables
    have none beside the primary key, which stands in for it. *)
Definition uk (t : table) : row t → (N * N) * (string * string) :=
  match t return row t → (N * N) * (string * string) with
  | users => λ r, ((0, 0), (usr_Username r, ""))
  | oauth_infos => λ r, ((oi_UserID r, 0), (oi_Type r, oi_AccountID r))
  | api_keys => λ r, ((0, 0), (ak_KeyHash r, ""))
  | api_key_accounts => λ r, (pk api_key_accounts r, ("", ""))
  | external_api_keys => λ r, (pk external_api_keys r, ("", ""))
  | api_key_external_keys => λ r, (pk api_key_external_keys r, ("", ""))
  end%string.

(** CHECK constraints and VARCHAR widths. *)
Definition supported_role_codes : list string := ["user"; "admin"; "test"]%string.

Definition check_ok (t : table) : row t → bool :=
  match t return row t → bool with
  | users => λ r, let n := RuneCountInString (usr_Username r) in
                  bool_decide (3 ≤ n)%nat && bool_decide (n ≤ 50)%nat &&
                  bool_decide (RuneCountInString (usr_PasswordHash r) ≤ 255)%nat &&
                  bool_decide (usr_RoleCode r ∈ supported_role_codes)
  | api_keys => λ r, bool_decide (RuneCountInString (ak_KeyHash r) ≤ 64)%nat &&
                     bool_decide (RuneCountInString (ak_KeyPrefix r) ≤ 20)%nat
  | external_api_keys => λ r, bool_decide (RuneCountInString (ek_KeyHash r) ≤ 64)%nat
  | _ => λ _, true
  end.

(** Foreign keys.  Those of the association tables are composite: the binding's
    owner must own both ends. *)
Definition has_user (d : db) (u : N) : bool := existsb (λ r, usr_ID r =? u) (t_users d).
Definition has_key (d : db) (u i : N) : bool :=
  existsb (λ r, (ak_UserID r =? u) && (ak_ID r =? i)) (t_keys d).
Definition has_oauth (d : db) (u i : N) : bool :=
  existsb (λ r, (oi_UserID r =? u) && (oi_ID r =? i)) (t_oauth d).
Definition has_ext (d : db) (u i : N) : bool :=
  existsb (λ r, (ek_UserID r =? u) && (ek_ID r =? i)) (t_ext d).

Definition fk_ok (t : table) (d : db) : row t → bool :=
  match t return row t → bool with
  | users => λ _, true
  | oauth_infos => λ r, has_user d (oi_UserID r)
  | api_keys => λ r, has_user d (ak_UserID r)
  | api_key_accounts => λ r, has_key d (ba_UserID r) (ba_ApiKeyID r) &&
                             has_oauth d (ba_UserID r) (ba_OAuthInfoID r)
  | external_api_keys => λ r, has_user d (ek_UserID r)
  | api_key_external_keys => λ r, has_key d (be_UserID r) (be_ApiKeyID r) &&
                                  has_ext d (be_UserID r) (be_ExternalApiKeyID r)
  end.

(** * Statements *)

(** The errors GORM's [TranslateError] gives for constraint violations. *)
Definition ErrDuplicatedKey : gerror := Sentinel "gorm.ErrDuplicatedKey" "duplicated key not allowed".
Definition ErrForeignKeyViolated : gerror :=
  Sentinel "gorm.ErrForeignKeyViolated" "violates foreign key constraint".
Definition ErrRecordNotFound : gerror := Sentinel "gorm.ErrRecordNotFound" "record not found".

(** A violated CHECK constraint or column width has no translation. *)
Definition ErrCheckViolated : gerror := Opaque "check constraint violated".

(** The column assignments of the UPDATE statements; none touches a key. *)
Inductive assignment : table → Type :=
  | set_apikey (disabled : option bool) (expires_at : option (option time)) (updated_at : time) :
      assignment api_keys
  | set_tokens (access_token refresh_token id_token : string)
      (expired last_refresh : option time) : assignment oauth_infos
  | set_external (key_hash ciphertext endpoint : string) (suffix : ExternalApikeySuffix) :
      assignment external_api_keys.

(** Rows are selected and joined by a predicate and returned in the given
    order. *)
Inductive stmt : Type → Type :=
  | Select (t : table) (p : row t → bool) (le : row t → row t → bool) : stmt (list (row t))
  | Join (t u : table) (p : row t → row u → bool)
      (le : row t * row u → row t * row u → bool) : stmt (list (row t * row u))
  | Count (t : table) (p : row t → bool) : stmt N
  | Insert (t : table) (rs : list (row t)) : stmt (list (row t))
  | Update (t : table) (p : row t → bool) (a : assignment t) : stmt N
  | Delete (t : table) (p : row t → bool) : stmt N
  | Commit : stmt unit.

Definition assign {t} (now : time) (a : assignment t) : row t → row t :=
  match a in assignment t return row t → row t with
  | set_apikey disabled expires updated => λ r,
      Build_ApikeyInfo (ak_ID r) (ak_UserID r) (ak_KeyHash r) (ak_KeyPrefix r)
        (default (ak_Disabled r) disabled) (default (ak_ExpiresAt r) expires)
        (ak_CreatedAt r) updated
  | set_tokens access refresh idt expired last => λ r,
      Build_OAuthInfo (oi_ID r) (oi_UserID r) access (oi_AccountID r) (oi_Disabled r)
        (oi_Email r) expired idt last refresh (oi_Type r) (oi_CreatedAt r) now
  | set_external hash cipher endpoint suffix => λ r,
      Build_ExternalApikey (ek_ID r) (ek_UserID r) hash cipher endpoint suffix
        (ek_CreatedAt r) now
  end.

Definition insert_one (t : table) (now : time) (r : row t) (d : db) : res (row t * db) :=
  let r := stamp t now (next_id t d) r in
  if negb (check_ok t r) then Err ErrCheckViolated
  else if bool_decide (pk t r ∈ pk t <$> rows t d) || bool_decide (uk t r ∈ uk t <$> rows t d)
  then Err ErrDuplicatedKey
  else if negb (fk_ok t d r) then Err ErrForeignKeyViolated
  else Ok (r, bump t (set_rows t (rows t d ++ [r]) d)).

(** A multi-row INSERT is one statement: it inserts every row or none. *)
Fixpoint insert_all (t : table) (now : time) (rs : list (row t)) (d : db) : res (list (row t) * db) :=
  match rs with
  | [] => Ok ([], d)
  | r :: rs => match insert_one t now r d with
               | Ok (r, d) => match insert_all t now rs d with
                              | Ok (rs, d) => Ok (r :: rs, d)
                              | Err e => Err e | Panic => Panic
                              end
               | Err e => Err e | Panic => Panic
               end
  end.

(** ON DELETE CASCADE: rows whose reference is gone go too. *)
Definition cascade1 (d : db) : db :=
  Build_db (t_users d) (select (fk_ok oauth_infos d) (t_oauth d))
    (select (fk_ok api_keys d) (t_keys d)) (t_bind d)
    (select (fk_ok external_api_keys d) (t_ext d)) (t_extbind d)
    (seq_users d) (seq_oauth d) (seq_keys d) (seq_ext d).

Definition cascade2 (d : db) : db :=
  Build_db (t_users d) (t_oauth d) (t_keys d)
    (select (fk_ok api_key_accounts d) (t_bind d)) (t_ext d)
    (select (fk_ok api_key_external_keys d) (t_extbind d))
    (seq_users d) (seq_oauth d) (seq_keys d) (seq_ext d).

Definition delete_rows (t : table) (p : row t → bool) (d : db) : db :=
  cascade2 (cascade1 (set_rows t (select (λ r, negb (p r)) (rows t d)) d)).

Definition sql_step (now : time) {A} (s : stmt A) (d : db) : res (A * db) :=
  match s in stmt A return res (A * db) with
  | Select t p le => Ok (sort_by le (select p (rows t d)), d)
  | Join t u p le =>
      Ok (sort_by le (select (λ '(r, s), p r s) (list_prod (rows t d) (rows u d))), d)
  | Count t p => Ok (N.of_nat (length (select p (rows t d))), d)
  | Insert t rs => insert_all t now rs d
  | Update t p a =>
      Ok (N.of_nat (length (select p (rows t d))),
          set_rows t (map (λ r, if p r then assign now a r else r) (rows t d)) d)
  | Delete t p => Ok (N.of_nat (length (select p (rows t d))), delete_rows t p d)
  | Commit => Ok (tt, d)
  end.
