(* ===== verification/Integrity.v ===== *)
(** The integrity of the database: primary and unique keys are distinct,
    foreign keys resolve, identities come from their sequence.  Every statement
    preserves it, so it can be assumed of every state the program reaches. *)

From S2P Require Import Prelude.
From S2P Require Import GoStrings.
From S2P Require Import Schema.

Local Open Scope list_scope.
Local Open Scope N_scope.

Definition identity_table (t : table) : bool :=
  match t with api_key_accounts | api_key_external_keys => false | _ => true end.

Record table_ok (t : table) (d : db) : Prop := {
  tk_pk : NoDup (pk t <$> rows t d);
  tk_uk : NoDup (uk t <$> rows t d);
  tk_fk : ∀ r, r ∈ rows t d → fk_ok t d r = true;
  tk_id : identity_table t = true →
          0 < next_id t d ∧ ∀ r, r ∈ rows t d → 0 < (pk t r).1 < next_id t d
}.

Definition db_wf (d : db) : Prop := ∀ (t : table), table_ok t d.

(** * Rows after the primitive changes *)

Lemma rows_set_rows (t : table) rs d : rows t (set_rows t rs d) = rs.
Proof. by destruct t. Qed.

Lemma rows_bump (t u : table) d : rows u (bump t d) = rows u d.
Proof. by destruct u. Qed.

Lemma fk_ok_bump (t u : table) d r : fk_ok u (bump t d) r = fk_ok u d r.
Proof. by destruct u. Qed.

Lemma next_id_set_rows (t u : table) rs d :
  next_id u (set_rows t rs d) = next_id u d.
Proof. by destruct t, u. Qed.

(** What a statement may do to the other tables is said with this relation. *)
Definition keeps_references (d d' : db) : Prop :=
  (∀ u, has_user d u = true → has_user d' u = true) ∧
  (∀ u i, has_key d u i = true → has_key d' u i = true) ∧
  (∀ u i, has_oauth d u i = true → has_oauth d' u i = true) ∧
  (∀ u i, has_ext d u i = true → has_ext d' u i = true).

Lemma fk_ok_keeps (t : table) d d' r :
  keeps_references d d' → fk_ok t d r = true → fk_ok t d' r = true.
Proof.
  intros (Hu & Hk & Ho & He).
  destruct t; simpl; rewrite ?andb_true_iff; intuition auto.
Qed.

Lemma insert_keeps_references (t : table) (r : row t) d :
  keeps_references d (set_rows t (rows t d ++ [r]) d).
Proof.
  destruct t; repeat split; unfold has_user, has_key, has_oauth, has_ext; simpl; intros;
    rewrite ?existsb_app; auto using orb_true_intro.
Qed.

(** Assignments keep the columns the keys and references are made of. *)
Lemma assign_keys (t : table) now (a : assignment t) (r : row t) :
  pk t (assign now a r) = pk t r ∧ uk t (assign now a r) = uk t r ∧
  ∀ d, fk_ok t d (assign now a r) = fk_ok t d r.
Proof. destruct a; done. Qed.

Lemma existsb_map_ext {A} (p : A → bool) (f : A → A) l :
  (∀ x, p (f x) = p x) → existsb p (map f l) = existsb p l.
Proof. intros Hf. induction l as [|x l IH]; simpl; [done|]. by rewrite Hf, IH. Qed.

Lemma update_keeps_references (t : table) now (p : row t → bool) (a : assignment t) d :
  keeps_references d (set_rows t (map (λ r, if p r then assign now a r else r) (rows t d)) d).
Proof.
  destruct a;
    repeat split; unfold has_user, has_key, has_oauth, has_ext; simpl; auto; intros *;
    rewrite existsb_map_ext; auto; intros r; by destruct (p r).
Qed.

(** * Each statement preserves integrity *)

Lemma pk_stamp (t : table) now i r :
  identity_table t = true → pk t (stamp t now i r) = (i, 0).
Proof. by destruct t. Qed.

Lemma next_id_bump_same (t : table) d :
  identity_table t = true → next_id t (bump t d) = next_id t d + 1.
Proof. by destruct t. Qed.

Lemma next_id_bump_le (t u : table) d : next_id u d ≤ next_id u (bump t d).
Proof. destruct t, u; simpl; lia. Qed.

Lemma NoDup_snoc_fmap {A B} (f : A → B) l x :
  NoDup (f <$> l) → f x ∉ f <$> l → NoDup (f <$> l ++ [x]).
Proof.
  intros Hl Hx. rewrite fmap_app. apply NoDup_app. split; [done|]. split; [|apply NoDup_singleton].
  intros y Hy. simpl. set_solver.
Qed.

(** A table whose rows did not change stays well formed when the references
    it needs are kept and its sequence does not go back. *)
Lemma table_ok_frame (t : table) d d' :
  rows t d' = rows t d → next_id t d ≤ next_id t d' → keeps_references d d' →
  table_ok t d → table_ok t d'.
Proof.
  intros Hr Hid Hk [H1 H2 H3 H4]. split; rewrite Hr; auto.
  - intros r Hin. eapply fk_ok_keeps; [done|]. auto.
  - intros Ht. destruct (H4 Ht) as [H0 Hlt]. split; [lia|]. intros r Hin.
    specialize (Hlt r Hin). lia.
Qed.

Lemma keeps_references_bump (t : table) d d' :
  keeps_references d d' → keeps_references d (bump t d').
Proof. done. Qed.

Lemma table_eq_dec (t u : table) : {t = u} + {t ≠ u}.
Proof. decide equality. Qed.

Lemma rows_set_rows_ne (t u : table) rs d : t ≠ u → rows u (set_rows t rs d) = rows u d.
Proof. by destruct t, u. Qed.

Lemma insert_one_wf (t : table) now r d r' d' :
  db_wf d → insert_one t now r d = Ok (r', d') → db_wf d'.
Proof.
  intros Hwf. unfold insert_one. set (x := stamp t now (next_id t d) r).
  destruct (check_ok t x); simpl; [|done].
  destruct (bool_decide _ || _) eqn:Hdup; [done|].
  apply orb_false_iff in Hdup as [Hpk%bool_decide_eq_false Huk%bool_decide_eq_false].
  destruct (fk_ok t d x) eqn:Hfk; simpl; [|done]. intros [= <- <-].
  assert (Hkeep : keeps_references d (bump t (set_rows t (rows t d ++ [x]) d))).
  { apply keeps_references_bump, insert_keeps_references. }
  intros u. destruct (table_eq_dec t u) as [<-|Hne].
  - destruct (Hwf t) as [H1 H2 H3 H4].
    assert (Hrows : rows t (bump t (set_rows t (rows t d ++ [x]) d)) = rows t d ++ [x]).
    { by rewrite rows_bump, rows_set_rows. }
    split; rewrite Hrows; [by apply NoDup_snoc_fmap..| |].
    + intros y. rewrite elem_of_app, list_elem_of_singleton. intros [Hy| ->];
        (eapply fk_ok_keeps; [done|]); auto.
    + intros Ht. destruct (H4 Ht) as [H0 Hlt].
      rewrite next_id_bump_same, next_id_set_rows by done. split; [lia|].
      intros y. rewrite elem_of_app, list_elem_of_singleton. intros [Hy| ->].
      * specialize (Hlt y Hy). lia.
      * unfold x. rewrite pk_stamp by done. simpl. lia.
  - eapply table_ok_frame; [|..|done|by apply Hwf].
    + by rewrite rows_bump, rows_set_rows_ne.
    + etrans; [|apply next_id_bump_le]. by rewrite next_id_set_rows.
Qed.

Lemma insert_all_wf (t : table) now rs d rs' d' :
  db_wf d → insert_all t now rs d = Ok (rs', d') → db_wf d'.
Proof.
  revert d rs' d'. induction rs as [|r rs IH]; intros d rs' d' Hwf; simpl.
  - by intros [= <- <-].
  - destruct (insert_one t now r d) as [[r1 d1]| |] eqn:H1; [|done..].
    destruct (insert_all t now rs d1) as [[rs2 d2]| |] eqn:H2; [|done..].
    intros [= <- <-]. eapply IH; [|done]. by eapply insert_one_wf.
Qed.

Lemma fmap_update {B} (t : table) now (p : row t → bool) (a : assignment t) (f : row t → B) (l : list (row t)) :
  (∀ r, f (assign now a r) = f r) →
  f <$> map (λ r, if p r then assign now a r else r) l = f <$> l.
Proof.
  intros Hf. induction l as [|r l IH]; [done|]. cbn [map]. rewrite !fmap_cons, IH.
  f_equal. destruct (p r); by rewrite ?Hf.
Qed.

Lemma update_wf (t : table) now (p : row t → bool) (a : assignment t) d :
  db_wf d →
  db_wf (set_rows t (map (λ r, if p r then assign now a r else r) (rows t d)) d).
Proof.
  intros Hwf u.
  assert (Hk := update_keeps_references t now p a d).
  destruct (table_eq_dec t u) as [<-|Hne].
  - destruct (Hwf t) as [H1 H2 H3 H4]. split; rewrite rows_set_rows.
    + rewrite fmap_update; [done|]. apply assign_keys.
    + rewrite fmap_update; [done|]. apply assign_keys.
    + intros r (x & <- & Hx%list_elem_of_In)%list_elem_of_In%in_map_iff.
      eapply fk_ok_keeps; [done|].
      destruct (p x); [destruct (assign_keys t now a x) as (_ & _ & ->)|]; auto.
    + intros Ht. rewrite next_id_set_rows. destruct (H4 Ht) as [H0 Hlt]. split; [done|].
      intros r (x & <- & Hx%list_elem_of_In)%list_elem_of_In%in_map_iff.
      destruct (p x); [destruct (assign_keys t now a x) as (-> & _)|]; auto.
  - eapply table_ok_frame; [..|by apply Hwf]; rewrite ?rows_set_rows_ne, ?next_id_set_rows; done.
Qed.

(** Deleting rows keeps a table's keys; the cascade restores its references. *)
Lemma table_ok_select (t : table) d d' (p : row t → bool) :
  rows t d' = select p (rows t d) → next_id t d' = next_id t d →
  (∀ r, r ∈ rows t d' → fk_ok t d' r = true) →
  table_ok t d → table_ok t d'.
Proof.
  intros Hr Hid Hfk [H1 H2 H3 H4]. split; rewrite ?Hr; auto with erent.
  - rewrite <- Hr. done.
  - intros Ht. rewrite Hid. destruct (H4 Ht) as [H0 Hlt]. split; [done|].
    intros r [_ Hin]%elem_of_select. auto.
Qed.

Lemma delete_wf (t : table) (p : row t → bool) d : db_wf d → db_wf (delete_rows t p d).
Proof.
  intros Hwf u. unfold delete_rows.
  set (d1 := set_rows t (select (λ r, negb (p r)) (rows t d)) d).
  assert (H1 : ∃ q, rows u d1 = select q (rows u d)).
  { destruct (table_eq_dec t u) as [<-|Hne].
    - eexists. apply rows_set_rows.
    - exists (λ _, true). unfold d1. rewrite rows_set_rows_ne by done.
      symmetry. by apply select_all. }
  destruct H1 as [q Hq].
  assert (H2 : ∃ q, rows u (cascade2 (cascade1 d1)) = select q (rows u d)).
  { destruct u; simpl in *; rewrite ?Hq, ?select_select; eauto. }
  destruct H2 as [q2 Hq2]. eapply table_ok_select; [exact Hq2|..|apply Hwf].
  - destruct u; unfold d1; simpl; by destruct t.
  - destruct u; simpl; intros r; rewrite ?elem_of_select; try done; by intros [? _].
Qed.

(** Every statement that succeeds leaves a well-formed database. *)
Lemma sql_step_wf now {A} (s : stmt A) d x d' :
  db_wf d → sql_step now s d = Ok (x, d') → db_wf d'.
Proof.
  intros Hwf. destruct s; simpl; try (intros [= _ <-]; done).
  - by apply insert_all_wf.
  - intros [= _ <-]. by apply update_wf.
  - intros [= _ <-]. by apply delete_wf.
Qed.

(** The empty database, with every sequence at its start. *)
Definition empty_db : db := Build_db [] [] [] [] [] [] 1 1 1 1.

Lemma empty_db_wf : db_wf empty_db.
Proof.
  intros t. split; [destruct t; constructor.. | destruct t; set_solver |].
  intros Ht. split; [destruct t; simpl in *; (lia || done) | destruct t; set_solver].
Qed.

(** * Reading through the references *)

Lemma has_key_spec d u i :
  has_key d u i = true ↔ ∃ k, k ∈ t_keys d ∧ ak_UserID k = u ∧ ak_ID k = i.
Proof.
  unfold has_key. rewrite existsb_exists. setoid_rewrite andb_true_iff.
  setoid_rewrite N.eqb_eq. setoid_rewrite <- list_elem_of_In. naive_solver.
Qed.

Lemma has_oauth_spec d u i :
  has_oauth d u i = true ↔ ∃ o, o ∈ t_oauth d ∧ oi_UserID o = u ∧ oi_ID o = i.
Proof.
  unfold has_oauth. rewrite existsb_exists. setoid_rewrite andb_true_iff.
  setoid_rewrite N.eqb_eq. setoid_rewrite <- list_elem_of_In. naive_solver.
Qed.

Lemma has_ext_spec d u i :
  has_ext d u i = true ↔ ∃ o, o ∈ t_ext d ∧ ek_UserID o = u ∧ ek_ID o = i.
Proof.
  unfold has_ext. rewrite existsb_exists. setoid_rewrite andb_true_iff.
  setoid_rewrite N.eqb_eq. setoid_rewrite <- list_elem_of_In. naive_solver.
Qed.

(** Two rows with the same identity are the same row. *)
Lemma pk_inj (t : table) d r r' :
  db_wf d → r ∈ rows t d → r' ∈ rows t d → pk t r = pk t r' → r = r'.
Proof. intros Hwf. apply NoDup_fmap_eq. apply Hwf. Qed.

Lemma uk_inj (t : table) d r r' :
  db_wf d → r ∈ rows t d → r' ∈ rows t d → uk t r = uk t r' → r = r'.
Proof. intros Hwf. apply NoDup_fmap_eq. apply Hwf. Qed.

(** Identities are distinct. *)
Lemma NoDup_ids (t : table) (f : row t → N) d :
  (∀ r, pk t r = (f r, 0)) → db_wf d → NoDup (f <$> rows t d).
Proof.
  intros Hpk Hwf. pose proof (tk_pk _ _ (Hwf t)) as Hnd.
  assert (Heq : pk t <$> rows t d = (λ i, (i, 0)) <$> (f <$> rows t d)).
  { rewrite <- list_fmap_compose. apply list_fmap_ext. intros; apply Hpk. }
  rewrite Heq in Hnd. by eapply NoDup_fmap_1.
Qed.

(** A binding's key, account and external key belong to its user. *)
Lemma binding_owner d b :
  db_wf d → b ∈ t_bind d →
  ∃ k o, k ∈ t_keys d ∧ o ∈ t_oauth d ∧ ak_ID k = ba_ApiKeyID b ∧ oi_ID o = ba_OAuthInfoID b
         ∧ ak_UserID k = ba_UserID b ∧ oi_UserID o = ba_UserID b.
Proof.
  intros Hwf Hb. pose proof (tk_fk _ _ (Hwf api_key_accounts) b Hb) as Hfk. simpl in Hfk.
  apply andb_true_iff in Hfk as [(k & ? & ? & ?)%has_key_spec (o & ? & ? & ?)%has_oauth_spec].
  exists k, o. done.
Qed.

(** * What a deletion removes *)

(** With integrity, the cascade only reaches the bindings of the deleted rows. *)
Lemma cascade1_id d :
  (∀ r, r ∈ t_oauth d → fk_ok oauth_infos d r = true) →
  (∀ r, r ∈ t_keys d → fk_ok api_keys d r = true) →
  (∀ r, r ∈ t_ext d → fk_ok external_api_keys d r = true) → cascade1 d = d.
Proof.
  intros Ho Hk He. unfold cascade1. rewrite !select_all by done. by destruct d.
Qed.

Lemma cascade2_id d :
  (∀ r, r ∈ t_bind d → fk_ok api_key_accounts d r = true) →
  (∀ r, r ∈ t_extbind d → fk_ok api_key_external_keys d r = true) → cascade2 d = d.
Proof. intros Hb He. unfold cascade2. rewrite !select_all by done. by destruct d. Qed.

Lemma elem_of_kept {A} (p : A → bool) l x :
  x ∈ select (λ r, negb (p r)) l ↔ p x = false ∧ x ∈ l.
Proof. by rewrite elem_of_select, negb_true_iff. Qed.

Lemma delete_assoc (t : table) (p : row t → bool) d :
  identity_table t = false → db_wf d →
  delete_rows t p d = set_rows t (select (λ r, negb (p r)) (rows t d)) d.
Proof.
  intros Ht Hwf. unfold delete_rows. rewrite cascade1_id, cascade2_id; [done|..].
  all: destruct t; try done; simpl; intros r;
    rewrite ?elem_of_kept; try intros [_ Hr]; try intros Hr.
  all: first [ apply (tk_fk _ _ (Hwf oauth_infos) r Hr) | apply (tk_fk _ _ (Hwf api_keys) r Hr)
             | apply (tk_fk _ _ (Hwf external_api_keys) r Hr)
             | apply (tk_fk _ _ (Hwf api_key_accounts) r Hr)
             | apply (tk_fk _ _ (Hwf api_key_external_keys) r Hr) ].
Qed.

(** The row found by owner and identity survives unless it is the deleted one. *)
Lemma existsb_kept {R} (user ident : R → N) (l : list R) (userid id u i : N) :
  existsb (λ r, (user r =? u) && (ident r =? i)) l = true →
  existsb (λ r, (user r =? u) && (ident r =? i))
    (select (λ r, negb ((ident r =? id) && (user r =? userid))) l)
  = negb ((i =? id) && (u =? userid)).
Proof.
  rewrite existsb_exists. intros (r & Hin & [Hu%N.eqb_eq Hi%N.eqb_eq]%andb_true_iff).
  subst u i. destruct (negb _) eqn:Hn.
  - apply existsb_exists. exists r. split; [|by rewrite !N.eqb_refl].
    by rewrite filter_In.
  - apply not_true_iff_false. rewrite existsb_exists.
    intros (r' & Hin' & [Hu%N.eqb_eq Hi%N.eqb_eq]%andb_true_iff).
    apply filter_In in Hin' as [_ Hk]. rewrite Hu, Hi in Hk. by rewrite Hk in Hn.
Qed.

(** Deleting the row [id] of [userid] from a table with bindings. *)
Definition owned_key (userid id : N) (r : ApikeyInfo) : bool :=
  (ak_ID r =? id) && (ak_UserID r =? userid).
Definition owned_oauth (userid id : N) (r : OAuthInfo) : bool :=
  (oi_ID r =? id) && (oi_UserID r =? userid).
Definition owned_ext (userid id : N) (r : ExternalApikey) : bool :=
  (ek_ID r =? id) && (ek_UserID r =? userid).

Lemma delete_key userid id d :
  db_wf d →
  delete_rows api_keys (owned_key userid id) d =
  set_rows api_key_external_keys
    (select (λ b, negb ((be_ApiKeyID b =? id) && (be_UserID b =? userid))) (t_extbind d))
  (set_rows api_key_accounts
    (select (λ b, negb ((ba_ApiKeyID b =? id) && (ba_UserID b =? userid))) (t_bind d))
  (set_rows api_keys (select (λ k, negb (owned_key userid id k)) (t_keys d)) d)).
Proof.
  intros Hwf. unfold delete_rows. rewrite cascade1_id.
  - unfold cascade2. simpl. f_equal; apply select_ext; intros b Hb; simpl.
    + pose proof (tk_fk _ _ (Hwf api_key_accounts) b Hb) as Hfk. simpl in Hfk. prop_guards.
      unfold has_key, owned_key in *. simpl. rewrite existsb_kept by done.
      unfold has_oauth in *. simpl in *. rewrite H0. apply andb_true_r.
    + pose proof (tk_fk _ _ (Hwf api_key_external_keys) b Hb) as Hfk. simpl in Hfk. prop_guards.
      unfold has_key, owned_key in *. simpl. rewrite existsb_kept by done.
      unfold has_ext in *. simpl in *. rewrite H0. apply andb_true_r.
  - apply (Hwf oauth_infos).
  - intros r [_ Hr]%elem_of_kept. by apply (tk_fk _ _ (Hwf api_keys)).
  - apply (Hwf external_api_keys).
Qed.

Lemma delete_oauth userid id d :
  db_wf d →
  delete_rows oauth_infos (owned_oauth userid id) d =
  set_rows api_key_accounts
    (select (λ b, negb ((ba_OAuthInfoID b =? id) && (ba_UserID b =? userid))) (t_bind d))
  (set_rows oauth_infos (select (λ k, negb (owned_oauth userid id k)) (t_oauth d)) d).
Proof.
  intros Hwf. unfold delete_rows. rewrite cascade1_id.
  - unfold cascade2. simpl. f_equal.
    + apply select_ext. intros b Hb. simpl.
      pose proof (tk_fk _ _ (Hwf api_key_accounts) b Hb) as Hfk. simpl in Hfk. prop_guards.
      unfold has_oauth, owned_oauth in *. simpl. rewrite existsb_kept by done.
      unfold has_key in *. simpl in *. by rewrite H.
    + apply select_all. apply (tk_fk _ _ (Hwf api_key_external_keys)).
  - intros r [_ Hr]%elem_of_kept. by apply (tk_fk _ _ (Hwf oauth_infos)).
  - apply (Hwf api_keys).
  - apply (Hwf external_api_keys).
Qed.

Lemma delete_ext userid id d :
  db_wf d →
  delete_rows external_api_keys (owned_ext userid id) d =
  set_rows api_key_external_keys
    (select (λ b, negb ((be_ExternalApiKeyID b =? id) && (be_UserID b =? userid))) (t_extbind d))
  (set_rows external_api_keys (select (λ k, negb (owned_ext userid id k)) (t_ext d)) d).
Proof.
  intros Hwf. unfold delete_rows. rewrite cascade1_id.
  - unfold cascade2. simpl. f_equal.
    + apply select_all. apply (tk_fk _ _ (Hwf api_key_accounts)).
    + apply select_ext. intros b Hb. simpl.
      pose proof (tk_fk _ _ (Hwf api_key_external_keys) b Hb) as Hfk. simpl in Hfk. prop_guards.
      unfold has_ext, owned_ext in *. simpl. rewrite existsb_kept by done.
      unfold has_key in *. simpl in *. by rewrite H.
  - apply (Hwf oauth_infos).
  - apply (Hwf api_keys).
  - intros r [_ Hr]%elem_of_kept. by apply (tk_fk _ _ (Hwf external_api_keys)).
Qed.

#[export] Hint Resolve sql_step_wf empty_db_wf insert_all_wf update_wf delete_wf : erent.
