(* ===== verification/Stores.v ===== *)
(** The two other stores behind the program: Redis, with its key expiry and the
    Lua scripts of middleware/redis and modules/oauth, and the Casbin enforcer
    with the grouping and permission rules of the embedded model.  As for the
    database, commands are a typed syntax and [redis_step], [casbin_step] are
    their documented meaning; the program only reaches the stores through an
    executor that follows them or fails. *)

From S2P Require Import Prelude.
From S2P Require Import GoStrings.
From S2P Require Import Schema.

Local Open Scope list_scope.

(** * Redis *)

(** A value and the instant it expires at, if it does. *)
Abbreviation redis := (gmap string (string * option time)).

Definition live (now : time) (e : string * option time) : bool :=
  match e.2 with None => true | Some t => (now <? t)%Z end.

(** What GET sees: an expired key is absent. *)
Definition rget (now : time) (k : string) (r : redis) : option string :=
  match r !! k with
  | Some e => if live now e then Some e.1 else None
  | None => None
  end.

(** The reply to a command on a key that is absent. *)
Definition redis_Nil : gerror := Sentinel "redis.Nil" "redis: nil".

Definition millisecond : Z := 1000000.
Definition second : Z := 1000 * millisecond.
Definition minute : Z := 60 * second.
Definition hour : Z := 60 * minute.

(** SET through go-redis: a zero or negative duration sets no expiry, a positive
    one is counted in whole milliseconds, at least one. *)
Definition expiry (now ttl : time) : option time :=
  if (0 <? ttl)%Z
  then Some (now + Z.max millisecond (ttl / millisecond * millisecond))%Z
  else None.

(** The Lua script of refresh_token.go; KEYS and ARGV are its arguments.  A
    non-positive PX makes the SET fail after the DEL was done. *)
Definition rotateRefreshTokenScript (now : time) (old new : string) (px : Z) (r : redis) :
  res (option string) * redis :=
  match rget now old r with
  | None => (Ok None, r)
  | Some user_id =>
      let r := delete old r in
      if (px <=? 0)%Z then (Err (Opaque "ERR invalid expire time"), r)
      else (Ok (Some user_id), <[new := (user_id, Some (now + px * millisecond)%Z)]> r)
  end.

(** The compare-and-delete script of [popDeviceFlow]. *)
Definition compareAndDeleteScript (now : time) (key arg : string) (r : redis) : res Z * redis :=
  match rget now key r with
  | Some v => if String.eqb v arg then (Ok 1%Z, delete key r) else (Ok 0%Z, r)
  | None => (Ok 0%Z, r)
  end.

Inductive rcmd : Type → Type :=
  | GET (k : string) : rcmd (option string)
  | SET (k v : string) (ttl : time) : rcmd unit
  | DEL (k : string) : rcmd unit
  | GETDEL (k : string) : rcmd (option string)
  | EVAL_rotate (old new : string) (px : Z) : rcmd (option string)
  | EVAL_compare_delete (key arg : string) : rcmd Z.

Definition redis_step (now : time) {A} (c : rcmd A) (r : redis) : res A * redis :=
  match c in rcmd A return res A * redis with
  | GET k => (Ok (rget now k r), r)
  | SET k v ttl => (Ok tt, <[k := (v, expiry now ttl)]> r)
  | DEL k => (Ok tt, delete k r)
  | GETDEL k => (Ok (rget now k r), delete k r)
  | EVAL_rotate old new px => rotateRefreshTokenScript now old new px r
  | EVAL_compare_delete key arg => compareAndDeleteScript now key arg r
  end.

Lemma rget_insert_eq now k v t r :
  rget now k (<[k := (v, t)]> r) = if live now (v, t) then Some v else None.
Proof. unfold rget. by rewrite lookup_insert_eq. Qed.

Lemma rget_insert_ne now k k' e r : k ≠ k' → rget now k' (<[k := e]> r) = rget now k' r.
Proof. intros ?. unfold rget. by rewrite lookup_insert_ne. Qed.

Lemma rget_delete_eq now k r : rget now k (delete k r) = None.
Proof. unfold rget. by rewrite lookup_delete_eq. Qed.

Lemma rget_delete_ne now k k' r : k ≠ k' → rget now k' (delete k r) = rget now k' r.
Proof. intros ?. unfold rget. by rewrite lookup_delete_ne. Qed.

Lemma rget_lookup now k r v : rget now k r = Some v → ∃ t, r !! k = Some (v, t).
Proof.
  unfold rget. destruct (r !! k) as [[v' t]|]; [|done]. destruct (live now _); naive_solver.
Qed.

(** * Casbin *)

(** Grouping rules [g, user, role] and permission rules [p, subject, object]. *)
Record casbin := { g_rules : list (string * string); p_rules : list (string * string) }.

Definition roles_of (u : string) (c : casbin) : list string :=
  snd <$> select (λ r, String.eqb r.1 u) (g_rules c).
Definition perms_of (s : string) (c : casbin) : list (string * string) :=
  select (λ r, String.eqb r.1 s) (p_rules c).

(** The roles reachable through grouping rules, nearest first.  Each round adds
    a role not seen before, so the number of rules bounds the rounds. *)
Fixpoint closure (fuel : nat) (c : casbin) (seen frontier : list string) : list string :=
  match fuel with
  | O => seen
  | S fuel =>
      let fresh := dedup_from seen (concat ((λ u, roles_of u c) <$> frontier)) in
      match fresh with
      | [] => seen
      | _ => closure fuel c (seen ++ fresh) fresh
      end
  end.

Definition implicit_roles (u : string) (c : casbin) : list string :=
  closure (S (length (g_rules c))) c [] [u].

Definition implicit_perms (u : string) (c : casbin) : list (string * string) :=
  concat ((λ s, perms_of s c) <$> u :: implicit_roles u c).

Inductive ccmd : Type → Type :=
  | GetRolesForUser (u : string) : ccmd (list string)
  | DeleteRolesForUser (u : string) : ccmd unit
  | AddRoleForUser (u role : string) : ccmd unit
  | GetPermissionsForUser (s : string) : ccmd (list (string * string))
  | DeletePermissionsForUser (s : string) : ccmd unit
  | AddPermissionForUser (s obj : string) : ccmd unit
  | GetImplicitRolesForUser (u : string) : ccmd (list string)
  | GetImplicitPermissionsForUser (u : string) : ccmd (list (string * string)).

Definition add_rule (r : string * string) (l : list (string * string)) : list (string * string) :=
  if bool_decide (r ∈ l) then l else l ++ [r].

Definition casbin_step {A} (k : ccmd A) (c : casbin) : A * casbin :=
  match k in ccmd A return A * casbin with
  | GetRolesForUser u => (roles_of u c, c)
  | DeleteRolesForUser u =>
      (tt, {| g_rules := select (λ r, negb (String.eqb r.1 u)) (g_rules c); p_rules := p_rules c |})
  | AddRoleForUser u role =>
      (tt, {| g_rules := add_rule (u, role) (g_rules c); p_rules := p_rules c |})
  | GetPermissionsForUser s => (perms_of s c, c)
  | DeletePermissionsForUser s =>
      (tt, {| g_rules := g_rules c; p_rules := select (λ r, negb (String.eqb r.1 s)) (p_rules c) |})
  | AddPermissionForUser s obj =>
      (tt, {| g_rules := g_rules c; p_rules := add_rule (s, obj) (p_rules c) |})
  | GetImplicitRolesForUser u => (implicit_roles u c, c)
  | GetImplicitPermissionsForUser u => (implicit_perms u c, c)
  end.
