(* ===== verification/SingleUse.v ===== *)
(** Keys in Redis that are handed out and taken once: what came out of the store
    under a key, with what is still there, is never more than what was put in.
    Shared by the pending logins and the refresh tokens. *)

From S2P Require Import Prelude.
From S2P Require Import GoStrings.
From S2P Require Import Stores.

Local Open Scope list_scope.

(** How often a key occurs. *)
Definition times {A} (k : string) (l : list (string * A)) : nat :=
  length (select (λ x, String.eqb x.1 k) l).

Lemma times_cons {A} k k' (a : A) l :
  times k ((k', a) :: l) = ((if String.eqb k' k then 1 else 0) + times k l)%nat.
Proof. unfold times. cbn. by destruct (String.eqb k' k). Qed.

Definition present (k : string) (r : redis) : nat := match r !! k with Some _ => 1 | None => 0 end.

(** One of the two families of keys: what Redis holds was stored, and what came
    out plus what is there is no more than what was stored. *)
Record family {A B : Type} (decode : string → option A) (key : string → string) (stored : list (string * A))
    (out : list (string * B)) (r : redis) : Prop := {
  fm_stored k data t : r !! key k = Some (data, t) → ∃ a, (k, a) ∈ stored ∧ decode data = Some a;
  fm_count k : (times k out + present (key k) r <= times k stored)%nat
}.

Section family.
Context {A B : Type} (decode : string → option A) (key : string → string).

Lemma family_same (stored : list (string * A)) (out : list (string * B)) r r' :
  family decode key stored out r → (∀ k, r' !! key k = r !! key k) → family decode key stored out r'.
Proof.
  intros [Hs Hc] Heq. split.
  - intros k data t. rewrite Heq. apply Hs.
  - intros k. unfold present. rewrite Heq. apply Hc.
Qed.

Lemma family_delete (stored : list (string * A)) (out : list (string * B)) r k :
  family decode key stored out r → family decode key stored out (delete (key k) r).
Proof.
  intros [Hs Hc]. split.
  - intros k' data t. rewrite lookup_delete. case_decide; [done|]. apply Hs.
  - intros k'. specialize (Hc k'). unfold present in *. rewrite lookup_delete. case_decide; [|done].
    destruct (r !! key k'); lia.
Qed.

Lemma family_attempt (stored : list (string * A)) (out : list (string * B)) r k a :
  family decode key stored out r → family decode key ((k, a) :: stored) out r.
Proof.
  intros [Hs Hc]. split.
  - intros k' data t Hin. apply Hs in Hin as (a' & ? & ?). exists a'. split; [set_solver|done].
  - intros k'. specialize (Hc k'). rewrite times_cons. lia.
Qed.

Context (key_inj : ∀ k k', key k = key k' → k = k').

Lemma family_insert (stored : list (string * A)) (out : list (string * B)) r k a data t :
  family decode key stored out r → decode data = Some a →
  family decode key ((k, a) :: stored) out (<[key k := (data, t)]> r).
Proof.
  intros [Hs Hc] Hd. split.
  - intros k' data' t'. rewrite lookup_insert. case_decide as Hk.
    + intros [= <- <-]. apply key_inj in Hk as <-. exists a. split; [set_solver|done].
    + intros Hin. apply Hs in Hin as (a' & Hin & Hu). exists a'. split; [set_solver|done].
  - intros k'. specialize (Hc k'). rewrite times_cons. unfold present in *. rewrite lookup_insert.
    case_decide as Hk.
    + apply key_inj in Hk as <-. rewrite String.eqb_refl. lia.
    + destruct (String.eqb k k'); lia.
Qed.

Lemma family_take (stored : list (string * A)) (out : list (string * B)) r k b :
  family decode key stored out r → is_Some (r !! key k) →
  family decode key stored ((k, b) :: out) (delete (key k) r).
Proof.
  intros Hf [v Hv]. destruct (family_delete _ _ _ k Hf) as [Hs _]. split; [exact Hs|].
  intros k'. destruct Hf as [_ Hc]. specialize (Hc k'). rewrite times_cons. unfold present in *.
  rewrite lookup_delete. case_decide as Hk.
  - apply key_inj in Hk as <-. rewrite String.eqb_refl. rewrite Hv in Hc. lia.
  - rewrite (proj2 (String.eqb_neq k k')) by congruence. lia.
Qed.
End family.
