(* ===== verification/World.v ===== *)
(** The effects of the program: a state with the three stores and a step
    counter, the services outside the repository as a class of executors, the
    monad the operations are written in, and a weakest-precondition calculus
    with one rule per effect. *)

From S2P Require Import Prelude.
From S2P Require Import GoStrings.
From S2P Require Import Schema.
From S2P Require Import Integrity.
From S2P Require Import Stores.

Local Open Scope list_scope.

(** * State and services *)

(** [w_step] numbers the calls that leave the process, so that a service may
    answer differently each time and the clock may advance between reads. *)
Record world := {
  w_db : db;
  w_redis : redis;
  w_casbin : casbin;
  w_step : nat
}.

Definition tick (w : world) : world :=
  Build_world (w_db w) (w_redis w) (w_casbin w) (S (w_step w)).
Definition set_db (d : db) (w : world) : world :=
  Build_world d (w_redis w) (w_casbin w) (w_step w).
Definition set_redis (r : redis) (w : world) : world :=
  Build_world (w_db w) r (w_casbin w) (w_step w).
Definition set_casbin (c : casbin) (w : world) : world :=
  Build_world (w_db w) (w_redis w) c (w_step w).

(** Nothing but the count of calls differs. *)
Definition same_stores (w w' : world) : Prop :=
  w_db w' = w_db w ∧ w_redis w' = w_redis w ∧ w_casbin w' = w_casbin w.

(** The services: a clock, a source of random bytes, and an executor for each
    store.  [fault] are the errors of the transport: a service that never fails
    has none. *)
Class Env := {
  fault : gerror → Prop;
  now_at : nat → time;
  rand_read : nat → nat → res string;
  sql_exec : ∀ {A}, nat → stmt A → db → res (A * db);
  redis_exec : ∀ {A}, nat → rcmd A → redis → res A * redis;
  casbin_exec : ∀ {A}, nat → ccmd A → casbin → res A * casbin
}.

(** Errors that come from the transport and not from the answer of a service. *)
Definition transport_error (e : gerror) : Prop :=
  match e with
  | Opaque _ => True
  | Sentinel _ _ => e = context_Canceled ∨ e = context_DeadlineExceeded
  | _ => False
  end.

(** What the program relies on.  A statement either has its documented effect
    or fails and changes nothing.  A Redis command that fails may have been
    executed: its reply can be lost. *)
Class EnvLaws `{Env} : Prop := {
  fault_transport e : fault e → transport_error e;
  rand_read_law n k :
    (∃ s, rand_read n k = Ok s ∧ String.length s = k) ∨ (∃ e, rand_read n k = Err e ∧ fault e);
  sql_exec_law A n (s : stmt A) d :
    sql_exec n s d = sql_step (now_at n) s d ∨ ∃ e, sql_exec n s d = Err e ∧ fault e;
  redis_exec_law A n (c : rcmd A) r :
    redis_exec n c r = redis_step (now_at n) c r ∨
    ∃ e r', redis_exec n c r = (Err e, r') ∧ fault e ∧
            (r' = r ∨ r' = (redis_step (now_at n) c r).2);
  casbin_exec_law A n (k : ccmd A) c :
    casbin_exec n k c = (Ok (casbin_step k c).1, (casbin_step k c).2) ∨
    ∃ e, casbin_exec n k c = (Err e, c) ∧ fault e
}.

(** A transport error is none of the program's own sentinels. *)
Definition own_sentinel (s : gerror) : bool :=
  match s with
  | Sentinel n _ => negb (String.eqb n "context.Canceled" || String.eqb n "context.DeadlineExceeded")
  | _ => false
  end.

Lemma transport_Is e s : own_sentinel s = true → transport_error e → errors_Is e s = false.
Proof.
  destruct s as [n t| | |]; simpl; try done. rewrite negb_true_iff, orb_false_iff.
  intros [Hc%String.eqb_neq Hd%String.eqb_neq] Hf. destruct e as [n' t'| | |]; simpl in Hf; try done.
  apply errors_Is_sentinel_ne. unfold context_Canceled, context_DeadlineExceeded in Hf.
  destruct Hf as [Hf|Hf]; congruence.
Qed.

Lemma fault_Is `{EnvLaws} e s : own_sentinel s = true → fault e → errors_Is e s = false.
Proof. intros Hs Hf. by apply transport_Is, fault_transport. Qed.

(** Computes [errors.Is] of transport errors and of concrete sentinels. *)
Ltac is_red :=
  repeat match goal with
  | H : fault ?e |- context [errors_Is ?e ?s] => rewrite (fault_Is e s eq_refl H)
  | |- context [errors_Is ?e ?e] => rewrite (errors_Is_refl e)
  end; cbn [errors_Is].

(** * The monad *)

Definition M (A : Type) : Type := world → res A * world.

#[export] Instance M_ret : MRet M := λ A a w, (Ok a, w).
#[export] Instance M_bind : MBind M := λ A B f m w,
  match m w with
  | (Ok a, w) => f a w
  | (Err e, w) => (Err e, w)
  | (Panic, w) => (Panic, w)
  end.

Definition throw {A} (e : gerror) : M A := λ w, (Err e, w).
Definition lift {A} (r : res A) : M A := λ w, (r, w).

(** [x, err := m()] when the code looks at [err] instead of returning it. *)
Definition attempt {A} (m : M A) : M (A + gerror) := λ w,
  match m w with
  | (Ok a, w) => (Ok (inl a), w)
  | (Err e, w) => (Ok (inr e), w)
  | (Panic, w) => (Panic, w)
  end.

(** [if cond { return ..., e }]. *)
Definition reject_if (b : bool) (e : gerror) : M unit := if b then throw e else mret tt.

Section operations.
Context `{Env}.

Definition Now : M time := λ w, (Ok (now_at (w_step w)), tick w).

Definition rand_bytes (n : nat) : M string := λ w, (rand_read (w_step w) n, tick w).

Definition sql {A} (s : stmt A) : M A := λ w,
  match sql_exec (w_step w) s (w_db w) with
  | Ok (x, d) => (Ok x, tick (set_db d w))
  | Err e => (Err e, tick w)
  | Panic => (Panic, tick w)
  end.

Definition rds {A} (c : rcmd A) : M A := λ w,
  let '(x, r) := redis_exec (w_step w) c (w_redis w) in (x, tick (set_redis r w)).

Definition cas {A} (k : ccmd A) : M A := λ w,
  let '(x, c) := casbin_exec (w_step w) k (w_casbin w) in (x, tick (set_casbin c w)).

(** [database.Transaction(func(tx) error)]: an error or a panic of the body,
    or of the commit, restores the tables. *)
Definition transaction {A} (body : M A) : M A := λ w,
  match body w with
  | (Ok a, w1) =>
      match sql Commit w1 with
      | (Ok _, w2) => (Ok a, w2)
      | (Err e, w2) => (Err e, set_db (w_db w) w2)
      | (Panic, w2) => (Panic, set_db (w_db w) w2)
      end
  | (Err e, w1) => (Err e, set_db (w_db w) w1)
  | (Panic, w1) => (Panic, set_db (w_db w) w1)
  end.

(** [Find] and [First] with a WHERE clause; [First] orders by primary key. *)
Definition pk_le (t : table) (r r' : row t) : bool :=
  let '(a, b) := pk t r in let '(a', b') := pk t r' in
  (a <? a')%N || ((a =? a')%N && (b <=? b')%N).

Definition First (t : table) (p : row t → bool) : M (row t) :=
  l ← sql (Select t p (pk_le t));
  match l with
  | r :: _ => mret r
  | [] => throw ErrRecordNotFound
  end.

(** [Create] with one row gives back the row with its identity. *)
Definition Create (t : table) (r : row t) : M (row t) :=
  l ← sql (Insert t [r]);
  match l with
  | r :: _ => mret r
  | [] => lift Panic
  end.
End operations.

(** * Weakest preconditions *)

Definition wp {A} (m : M A) (Q : res A → world → Prop) (w : world) : Prop :=
  Q (m w).1 (m w).2.

Lemma wp_mono {A} (m : M A) (Q Q' : res A → world → Prop) w :
  (∀ r w', Q r w' → Q' r w') → wp m Q w → wp m Q' w.
Proof. intros HQ. apply HQ. Qed.

Lemma wp_ret {A} (a : A) Q w : Q (Ok a) w → wp (mret a) Q w.
Proof. done. Qed.

Lemma wp_throw {A} e (Q : res A → world → Prop) w : Q (Err e) w → wp (throw e) Q w.
Proof. done. Qed.

Lemma wp_lift {A} (r : res A) (Q : res A → world → Prop) w : Q r w → wp (lift r) Q w.
Proof. done. Qed.

Lemma wp_bind {A B} (m : M A) (f : A → M B) Q w :
  wp m (λ r w', match r with
                | Ok a => wp (f a) Q w'
                | Err e => Q (Err e) w'
                | Panic => Q Panic w'
                end) w →
  wp (m ≫= f) Q w.
Proof.
  unfold wp. unfold mbind, M_bind. destruct (m w) as [[a|e|] w']; done.
Qed.

Lemma wp_attempt {A} (m : M A) (Q : res (A + gerror) → world → Prop) w :
  wp m (λ r w', match r with
                | Ok a => Q (Ok (inl a)) w'
                | Err e => Q (Ok (inr e)) w'
                | Panic => Q Panic w'
                end) w →
  wp (attempt m) Q w.
Proof. unfold wp, attempt. destruct (m w) as [[a|e|] w']; done. Qed.

Lemma wp_reject_if b e Q w :
  (b = true → Q (Err e) w) → (b = false → Q (Ok tt) w) → wp (reject_if b e) Q w.
Proof. unfold wp. destruct b; simpl; auto. Qed.

Section rules.
Context `{EnvLaws}.

Lemma wp_Now Q w : Q (Ok (now_at (w_step w))) (tick w) → wp Now Q w.
Proof. done. Qed.

Lemma wp_rand n (Q : res string → world → Prop) w :
  (∀ e, fault e → Q (Err e) (tick w)) →
  (∀ s, rand_read (w_step w) n = Ok s → String.length s = n → Q (Ok s) (tick w)) →
  wp (rand_bytes n) Q w.
Proof.
  intros He Hs. unfold wp, rand_bytes. simpl.
  destruct (rand_read_law (w_step w) n) as [(s & Hs' & Hl)|(e & -> & Hf)]; [|by auto].
  rewrite Hs'. by apply Hs.
Qed.

Lemma wp_sql {A} (s : stmt A) (Q : res A → world → Prop) w :
  (∀ e, fault e → Q (Err e) (tick w)) →
  match sql_step (now_at (w_step w)) s (w_db w) with
  | Ok (x, d) => Q (Ok x) (tick (set_db d w))
  | Err e => Q (Err e) (tick w)
  | Panic => Q Panic (tick w)
  end →
  wp (sql s) Q w.
Proof.
  intros He Hs. unfold wp, sql.
  destruct (sql_exec_law A (w_step w) s (w_db w)) as [->|(e & -> & Hf)]; [|by apply He].
  revert Hs. by destruct (sql_step _ _ _) as [[x d]|e|].
Qed.

Lemma wp_rds {A} (c : rcmd A) (Q : res A → world → Prop) w :
  (∀ e r', fault e → (r' = w_redis w ∨ r' = (redis_step (now_at (w_step w)) c (w_redis w)).2) →
           Q (Err e) (tick (set_redis r' w))) →
  (let '(x, r) := redis_step (now_at (w_step w)) c (w_redis w) in Q x (tick (set_redis r w))) →
  wp (rds c) Q w.
Proof.
  intros He Hs. unfold wp, rds.
  destruct (redis_exec_law A (w_step w) c (w_redis w)) as [->|(e & r' & -> & Hf & Hr)]; simpl; [|by apply He].
  revert Hs. by destruct (redis_step _ _ _) as [x r].
Qed.

Lemma wp_cas {A} (k : ccmd A) (Q : res A → world → Prop) w :
  (∀ e, fault e → Q (Err e) (tick w)) →
  Q (Ok (casbin_step k (w_casbin w)).1) (tick (set_casbin (casbin_step k (w_casbin w)).2 w)) →
  wp (cas k) Q w.
Proof.
  intros He Hs. unfold wp, cas.
  destruct (casbin_exec_law A (w_step w) k (w_casbin w)) as [->|(e & -> & Hf)]; simpl; [done|].
  specialize (He e Hf). by destruct w.
Qed.

(** The commit itself may fail: then the tables are those of the start. *)
Lemma wp_transaction {A} (body : M A) (Q : res A → world → Prop) w :
  wp body (λ r w1,
    match r with
    | Ok a => Q (Ok a) (tick w1) ∧ ∀ e, fault e → Q (Err e) (set_db (w_db w) (tick w1))
    | Err e => Q (Err e) (set_db (w_db w) w1)
    | Panic => Q Panic (set_db (w_db w) w1)
    end) w →
  wp (transaction body) Q w.
Proof.
  unfold wp, transaction. destruct (body w) as [[a|e|] w1]; simpl; [|done..].
  intros [Hok Herr].
  destruct (sql_exec_law unit (w_step w1) Commit (w_db w1)) as [Hc|(e & Hc & Hf)];
    unfold sql; rewrite Hc; simpl; [|by apply Herr].
  by destruct w1.
Qed.

Lemma wp_First t p (Q : res (row t) → world → Prop) w :
  (∀ e, fault e → Q (Err e) (tick w)) →
  (∀ r, r ∈ rows t (w_db w) → p r = true → Q (Ok r) (tick w)) →
  ((∀ r, r ∈ rows t (w_db w) → p r = false) → Q (Err ErrRecordNotFound) (tick w)) →
  wp (First t p) Q w.
Proof.
  intros He Hs Hn. apply wp_bind, wp_sql; [done|]. simpl.
  assert (Heq : tick (set_db (w_db w) w) = tick w) by by destruct w. rewrite Heq.
  pose proof (elem_of_sort_by (pk_le t)) as Hel.
  destruct (sort_by _ _) as [|r l] eqn:Hl.
  - apply Hn. intros r Hr. destruct (p r) eqn:Hp; [|done].
    assert (r ∈ sort_by (pk_le t) (select p (rows t (w_db w)))) as Hin.
    { apply Hel. by apply elem_of_select. }
    rewrite Hl in Hin. by apply not_elem_of_nil in Hin.
  - assert (r ∈ select p (rows t (w_db w))) as Hin.
    { apply Hel. rewrite Hl. set_solver. }
    apply elem_of_select in Hin as [? ?]. by apply Hs.
Qed.

Lemma wp_Create t r (Q : res (row t) → world → Prop) w :
  (∀ e, fault e → Q (Err e) (tick w)) →
  match insert_one t (now_at (w_step w)) r (w_db w) with
  | Ok (r, d) => Q (Ok r) (tick (set_db d w))
  | Err e => Q (Err e) (tick w)
  | Panic => True
  end →
  wp (Create t r) Q w.
Proof.
  intros He Hs. apply wp_bind, wp_sql; [done|]. simpl.
  destruct (insert_one _ _ _ _) as [[r' d]|e|] eqn:Hi; simpl; [done..|].
  exfalso. revert Hi. unfold insert_one. by repeat case_match.
Qed.
End rules.

(** * Integrity along a computation *)

(** The database is only changed by statements: every computation built from
    the effects keeps it well formed. *)
Definition preserves_wf {A} (m : M A) : Prop :=
  ∀ w, db_wf (w_db w) → db_wf (w_db (m w).2).

Section preservation.
Context `{EnvLaws}.

Lemma preserves_ret {A} (a : A) : preserves_wf (mret a).
Proof. by intros w. Qed.
Lemma preserves_throw {A} e : preserves_wf (@throw A e).
Proof. by intros w. Qed.
Lemma preserves_lift {A} (r : res A) : preserves_wf (lift r).
Proof. by intros w. Qed.
Lemma preserves_reject_if b e : preserves_wf (reject_if b e).
Proof. intros w. by destruct b. Qed.
Lemma preserves_Now : preserves_wf Now.
Proof. by intros w. Qed.
Lemma preserves_rand n : preserves_wf (rand_bytes n).
Proof. by intros w. Qed.

Lemma preserves_bind {A B} (m : M A) (f : A → M B) :
  preserves_wf m → (∀ a, preserves_wf (f a)) → preserves_wf (m ≫= f).
Proof.
  intros Hm Hf w Hw. unfold mbind, M_bind. specialize (Hm w Hw).
  destruct (m w) as [[a|e|] w']; simpl in *; [by apply Hf | done..].
Qed.

Lemma preserves_attempt {A} (m : M A) : preserves_wf m → preserves_wf (attempt m).
Proof.
  intros Hm w Hw. unfold attempt. specialize (Hm w Hw). by destruct (m w) as [[a|e|] w'].
Qed.

Lemma preserves_sql {A} (s : stmt A) : preserves_wf (sql s).
Proof.
  intros w Hw. apply (wp_sql s (λ _ w', db_wf (w_db w'))); [done|].
  destruct (sql_step _ _ _) as [[x d]|e|] eqn:Hs; [|done..]. by eapply sql_step_wf.
Qed.

Lemma preserves_rds {A} (c : rcmd A) : preserves_wf (rds c).
Proof. intros w Hw. unfold rds. by destruct (redis_exec _ _ _). Qed.

Lemma preserves_cas {A} (k : ccmd A) : preserves_wf (cas k).
Proof. intros w Hw. unfold cas. by destruct (casbin_exec _ _ _). Qed.

Lemma preserves_transaction {A} (m : M A) : preserves_wf m → preserves_wf (transaction m).
Proof.
  intros Hm w Hw. apply (wp_transaction m (λ _ w', db_wf (w_db w'))).
  unfold wp. specialize (Hm w Hw). by destruct (m w) as [[a|e|] w'].
Qed.
End preservation.

(** The state after a computation may be taken to be well formed. *)
Lemma wp_wf {A} (m : M A) (Q : res A → world → Prop) w :
  preserves_wf m → db_wf (w_db w) →
  wp m (λ r w', db_wf (w_db w') → Q r w') w → wp m Q w.
Proof. intros Hm Hw HQ. apply HQ. by apply Hm. Qed.

#[export] Hint Resolve preserves_ret preserves_throw preserves_lift preserves_reject_if
  preserves_Now preserves_rand preserves_sql preserves_rds preserves_cas : erent.

Lemma preserves_First `{EnvLaws} t p : preserves_wf (First t p).
Proof.
  unfold First. apply preserves_bind; [apply preserves_sql|].
  intros [|r l]; [apply preserves_throw|apply preserves_ret].
Qed.

Lemma preserves_Create `{EnvLaws} t r : preserves_wf (Create t r).
Proof.
  unfold Create. apply preserves_bind; [apply preserves_sql|].
  intros [|r' l]; [apply preserves_lift|apply preserves_ret].
Qed.

#[export] Hint Resolve preserves_First preserves_Create : erent.

(** Goes through the structure of an operation and leaves nothing when every
    leaf is one of the effects or an operation already in the database. *)
Ltac preserve :=
  repeat first
    [ progress intros
    | apply preserves_bind
    | apply preserves_attempt
    | apply preserves_transaction
    | solve [auto with erent]
    | match goal with
      | |- preserves_wf (match ?x with _ => _ end) => destruct x
      end ].

#[export] Hint Extern 5 (_ ≠ _) => discriminate : erent.

Lemma wp_Ok {A} (m : M A) (Q : res A → world → Prop) w :
  wp m Q w → is_Ok (m w).1 = true → ∃ a, (m w).1 = Ok a ∧ Q (Ok a) (m w).2.
Proof. unfold wp. destruct (m w).1 as [a|e|]; try done. eauto. Qed.

(** * Symbolic execution *)

Ltac wp_red :=
  cbn beta iota zeta;
  cbn [w_db w_redis w_casbin w_step tick set_db set_redis set_casbin fst snd].

(** One step of an operation: the rule of its head effect. *)
Ltac wp_step :=
  lazymatch goal with
  | |- wp (mbind _ _) _ _ => apply wp_bind
  | |- wp (mret _) _ _ => apply wp_ret; wp_red
  | |- wp (throw _) _ _ => apply wp_throw; wp_red
  | |- wp (lift _) _ _ => apply wp_lift; wp_red
  | |- wp (attempt _) _ _ => apply wp_attempt
  | |- wp (reject_if _ _) _ _ => apply wp_reject_if; wp_red; intros
  | |- wp (transaction _) _ _ => apply wp_transaction
  | |- wp Now _ _ => apply wp_Now; wp_red
  | |- wp (rand_bytes _) _ _ => apply wp_rand; wp_red; intros
  | |- wp (First ?t ?p) _ _ => apply (wp_First t p); wp_red; intros
  | |- wp (Create ?t ?r) _ _ => apply (wp_Create t r); wp_red
  | |- wp (sql _) _ _ => apply wp_sql; cbn [sql_step]; wp_red
  | |- wp (rds _) _ _ => apply wp_rds; cbn [redis_step]; wp_red
  | |- wp (cas _) _ _ => apply wp_cas; cbn [casbin_step]; wp_red
  end.

Ltac wp_if :=
  lazymatch goal with
  | |- wp (if ?b then _ else _) _ _ => destruct b eqn:?
  end.

(** The errors a statement answers with. *)
Definition constraint_error (e : gerror) : Prop :=
  e = ErrDuplicatedKey ∨ e = ErrForeignKeyViolated ∨ e = ErrCheckViolated.

Lemma insert_one_error t now r d e : insert_one t now r d = Err e → constraint_error e.
Proof. unfold insert_one, constraint_error. repeat case_match; intros [= <-]; auto. Qed.

Lemma insert_one_no_panic t now r d : insert_one t now r d ≠ Panic.
Proof. unfold insert_one. by repeat case_match. Qed.

Lemma insert_all_error t now rs d e : insert_all t now rs d = Err e → constraint_error e.
Proof.
  revert d. induction rs as [|r rs IH]; intros d; simpl; [done|].
  destruct (insert_one _ _ _ _) as [[r1 d1]|e1|] eqn:H1; [|intros [= <-]|done].
  - specialize (IH d1). destruct (insert_all _ _ _ _) as [[rs2 d2]|e2|]; [done| |done].
    intros [= <-]. by apply IH.
  - by eapply insert_one_error.
Qed.

Lemma insert_all_no_panic t now rs d : insert_all t now rs d ≠ Panic.
Proof.
  revert d. induction rs as [|r rs IH]; intros d; simpl; [done|].
  pose proof (insert_one_no_panic t now r d).
  destruct (insert_one _ _ _ _) as [[r1 d1]|e1|]; [|done..].
  specialize (IH d1). by destruct (insert_all _ _ _ _) as [[rs2 d2]|e2|].
Qed.

(** The rows an INSERT adds: the given ones, stamped, after the old ones; the
    other tables are untouched. *)
Lemma insert_one_rows t now r d r' d' :
  insert_one t now r d = Ok (r', d') →
  r' = stamp t now (next_id t d) r ∧ d' = bump t (set_rows t (rows t d ++ [r']) d) ∧
  check_ok t r' = true ∧ fk_ok t d r' = true ∧
  pk t r' ∉ pk t <$> rows t d ∧ uk t r' ∉ uk t <$> rows t d.
Proof.
  unfold insert_one. destruct (check_ok _ _) eqn:Hc; simpl; [|done].
  destruct (bool_decide _ || _) eqn:Hd; [done|].
  apply orb_false_iff in Hd as [?%bool_decide_eq_false ?%bool_decide_eq_false].
  destruct (fk_ok _ _ _) eqn:Hf; simpl; [|done]. intros [= <- <-]. done.
Qed.

Lemma rows_insert t u rs d :
  rows u (bump t (set_rows t rs d)) = rows u (set_rows t rs d).
Proof. by destruct u. Qed.

(** The association tables have no identity: their rows are stamped alike. *)
Lemma insert_all_assoc t now rs d rs' d' :
  identity_table t = false → insert_all t now rs d = Ok (rs', d') →
  rs' = stamp t now 0 <$> rs ∧ d' = set_rows t (rows t d ++ rs') d.
Proof.
  intros Ht. revert d rs' d'. induction rs as [|r rs IH]; intros d rs' d'; simpl.
  - intros [= <- <-]. split; [done|]. rewrite app_nil_r. by destruct t, d.
  - destruct (insert_one t now r d) as [[r1 d1]| |] eqn:H1; [|done..].
    apply insert_one_rows in H1 as (-> & -> & _).
    destruct (insert_all t now rs _) as [[rs2 d2]| |] eqn:H2; [|done..].
    intros [= <- <-]. apply IH in H2 as [-> ->].
    destruct t; try done; simpl; split; f_equal; by rewrite <- app_assoc.
Qed.

Lemma fk_ok_stamp t now d r : identity_table t = false → fk_ok t d (stamp t now 0 r) = fk_ok t d r.
Proof. by destruct t. Qed.

Lemma uk_assoc t r : identity_table t = false → uk t r = (pk t r, (""%string, ""%string)).
Proof. by destruct t. Qed.

Lemma pk_stamp_assoc t now r : identity_table t = false → pk t (stamp t now 0 r) = pk t r.
Proof. by destruct t. Qed.

(** New bindings are only refused for a reference that does not resolve. *)
Lemma insert_all_assoc_err t now rs d e :
  identity_table t = false → NoDup (pk t <$> rs) →
  (∀ r, r ∈ rs → pk t r ∉ pk t <$> rows t d) →
  insert_all t now rs d = Err e →
  e = ErrForeignKeyViolated ∧ ∃ r, r ∈ rs ∧ fk_ok t d r = false.
Proof.
  intros Ht. revert d. induction rs as [|r rs IH]; intros d Hnd Hfresh; [done|].
  rewrite fmap_cons in Hnd. apply NoDup_cons in Hnd as [Hr Hnd].
  assert (Hnew : pk t r ∉ pk t <$> rows t d) by (apply Hfresh; set_solver).
  cbn [insert_all]. unfold insert_one.
  replace (next_id t d) with 0%N by by destruct t.
  replace (check_ok t (stamp t now 0 r)) with true by by destruct t.
  rewrite uk_assoc, !pk_stamp_assoc, fk_ok_stamp by done. cbn [negb].
  rewrite !bool_decide_eq_false_2; [|..|done].
  2:{ intros (r' & Heq & Hin)%list_elem_of_fmap. rewrite uk_assoc in Heq by done. injection Heq as Heq.
      apply Hnew. rewrite Heq. by apply list_elem_of_fmap_2. }
  cbn [orb]. destruct (fk_ok t d r) eqn:Hfk; cbn [negb].
  - destruct (insert_all _ _ _ _) as [[? ?]|e'|] eqn:Hi; [done| |done]. intros [= <-].
    apply IH in Hi as (-> & r' & Hr' & Hf); [|done|].
    + split; [done|]. exists r'. split; [set_solver|]. rewrite <- Hf, fk_ok_bump. by destruct t.
    + intros r' Hr'. rewrite rows_bump, rows_set_rows, fmap_app, elem_of_app.
      intros [Hin|Hin]; [eapply Hfresh; [|exact Hin]; set_solver|].
      cbn in Hin. apply list_elem_of_singleton in Hin. rewrite pk_stamp_assoc in Hin by done.
      apply Hr. rewrite <- Hin. by apply list_elem_of_fmap_2.
  - intros [= <-]. split; [done|]. exists r. set_solver.
Qed.

(** A new row of an identity table has a fresh primary key: it is refused for
    one of the other constraints. *)
Lemma insert_one_err t now r d e :
  db_wf d → identity_table t = true → insert_one t now r d = Err e →
  let r' := stamp t now (next_id t d) r in
  e = ErrCheckViolated ∧ check_ok t r' = false ∨
  e = ErrDuplicatedKey ∧ uk t r' ∈ uk t <$> rows t d ∨
  e = ErrForeignKeyViolated ∧ fk_ok t d r' = false.
Proof.
  intros Hwf Ht. unfold insert_one. cbv zeta. set (r' := stamp _ _ _ _).
  destruct (check_ok t r'); cbn [negb]; [|intros [= <-]; auto].
  rewrite (bool_decide_eq_false_2 (pk t r' ∈ _)).
  - cbn [orb]. destruct (bool_decide _) eqn:Hu; [intros [= <-]; prop_guards; auto|].
    destruct (fk_ok t d r'); cbn [negb]; [done|]. intros [= <-]. auto.
  - intros (x & Hpk & Hx)%list_elem_of_fmap. destruct (tk_id _ _ (Hwf t) Ht) as [_ Hlt].
    specialize (Hlt x Hx). unfold r' in Hpk. rewrite pk_stamp in Hpk by done. rewrite <- Hpk in Hlt.
    cbn in Hlt. lia.
Qed.
