(* ===== verification/Tenants.v ===== *)
(** The tables as one user sees them, and the lemmas on selections of rows with
    which the components show that they leave other users alone. *)

From S2P Require Import Prelude.
From S2P Require Import Schema.

Local Open Scope list_scope.
Local Open Scope N_scope.

(** * The tables as one user sees them *)

Definition rows_of (u : N) (d : db) :
  list User * list OAuthInfo * list ApikeyInfo * list Apikeyaccounts * list ExternalApikey *
  list ApikeyExternalKey :=
  (select (λ r, usr_ID r =? u) (t_users d), select (λ r, oi_UserID r =? u) (t_oauth d),
   select (λ r, ak_UserID r =? u) (t_keys d), select (λ r, ba_UserID r =? u) (t_bind d),
   select (λ r, ek_UserID r =? u) (t_ext d), select (λ r, be_UserID r =? u) (t_extbind d)).

Lemma select_app {A} (p : A → bool) l m : select p (l ++ m) = select p l ++ select p m.
Proof. apply List.filter_app. Qed.

Lemma select_other {A} (f : A → N) (u v : N) (l : list A) :
  u ≠ v → (∀ x, x ∈ l → f x = v) → select (λ r, f r =? u) l = [].
Proof. intros Hne Hl. apply select_none. intros x Hx. apply N.eqb_neq. rewrite (Hl x Hx). congruence. Qed.

Lemma select_kept {A} (f : A → N) (p : A → bool) (u : N) (l : list A) :
  (∀ x, f x = u → p x = false) → select (λ r, f r =? u) (select (λ x, negb (p x)) l) = select (λ r, f r =? u) l.
Proof.
  intros Hp. rewrite select_select. apply select_ext. intros x _.
  destruct (f x =? u) eqn:E; [|apply andb_false_r]. apply N.eqb_eq in E. by rewrite Hp.
Qed.

(** * Counts and updates *)

(** Changing rows of one owner keeps the rows of another. *)
Lemma select_mapped {A} (owner : A → N) (p : A → bool) (f : A → A) (u v : N) l :
  u ≠ v → (∀ x, p x = true → owner x = v) → (∀ x, owner (f x) = owner x) →
  select (λ x, owner x =? u) (map (λ x, if p x then f x else x) l) = select (λ x, owner x =? u) l.
Proof.
  intros Hne Hp Hf. unfold select. induction l as [|x l IH]; [done|]. cbn [map List.filter].
  destruct (p x) eqn:Hx; [|by rewrite IH].
  rewrite Hf, (Hp x Hx), (proj2 (N.eqb_neq v u)) by congruence. done.
Qed.

Lemma select_length_0 {A} (p : A → bool) l :
  N.of_nat (length (select p l)) = 0 → ∀ x, x ∈ l → p x = false.
Proof.
  intros Hl x Hx. destruct (p x) eqn:Hp; [|done].
  assert (Hin : x ∈ select p l) by by apply elem_of_select.
  destruct (select p l); [by apply not_elem_of_nil in Hin|]. simpl in Hl. lia.
Qed.

Lemma select_length_pos {A} (p : A → bool) l :
  N.of_nat (length (select p l)) ≠ 0 → ∃ x, x ∈ l ∧ p x = true.
Proof.
  intros Hl. destruct (select p l) as [|x s] eqn:Hs; [done|].
  assert (Hin : x ∈ select p l) by (rewrite Hs; set_solver).
  apply elem_of_select in Hin as [? ?]. eauto.
Qed.

Lemma map_none {A} (p : A → bool) (f : A → A) l :
  (∀ x, x ∈ l → p x = false) → map (λ x, if p x then f x else x) l = l.
Proof.
  intros Hp. induction l as [|x l IH]; [done|]. cbn [map].
  rewrite (Hp x) by set_solver. f_equal. apply IH. set_solver.
Qed.

(** A condition that fixes a key selects at most one row. *)
Lemma select_unique {A} (f : A → N) (p : A → bool) (i : N) l x :
  NoDup (f <$> l) → (∀ y, p y = true → f y = i) → x ∈ l → p x = true → select p l = [x].
Proof.
  intros Hnd Hp Hx Hpx. induction l as [|y l IH]; [by apply not_elem_of_nil in Hx|].
  rewrite fmap_cons in Hnd. apply NoDup_cons in Hnd as [Hy Hnd].
  unfold select in *. cbn [List.filter]. apply elem_of_cons in Hx as [->|Hx].
  - rewrite Hpx. f_equal. apply select_none. intros z Hz. destruct (p z) eqn:Hpz; [|done].
    exfalso. apply Hy. rewrite (Hp y Hpx), <- (Hp z Hpz). by apply list_elem_of_fmap_2.
  - rewrite IH by done. destruct (p y) eqn:Hpy; [|done].
    exfalso. apply Hy. rewrite (Hp y Hpy), <- (Hp x Hpx). by apply list_elem_of_fmap_2.
Qed.
