(* ===== verification/Security.v ===== *)
(** internal/security: AES-GCM encryption of the stored credentials, and
    password hashing.  AES-GCM and bcrypt are parameters: a class of operations
    and the laws the program relies on. *)

From S2P Require Import Prelude.
From S2P Require Import GoStrings.
From S2P Require Import Codec.
From S2P Require Import Schema.
From S2P Require Import Stores.
From S2P Require Import World.

Local Open Scope list_scope.

(** [cipher.AEAD] for a key: [gcm_seal key nonce plaintext] is ciphertext and
    tag, [gcm_open] authenticates and decrypts it. *)
Class Aead := {
  gcm_seal : string → string → string → string;
  gcm_open : string → string → string → option string
}.

Class AeadLaws `{Aead} : Prop := {
  gcm_open_seal key nonce p : gcm_open key nonce (gcm_seal key nonce p) = Some p;
  length_gcm_seal key nonce p : String.length (gcm_seal key nonce p) = (String.length p + 16)%nat
}.

(** [bcrypt.GenerateFromPassword] salts its hash with randomness of the call;
    it refuses passwords longer than 72 bytes. *)
Class Bcrypt := {
  bcrypt_generate : nat → string → res string;
  bcrypt_compare : string → string → bool
}.

Definition bcrypt_ErrPasswordTooLong : gerror :=
  Sentinel "bcrypt.ErrPasswordTooLong" "bcrypt: password length exceeds 72 bytes".

Class BcryptLaws `{Env} `{Bcrypt} : Prop := {
  bcrypt_generate_law n p :
    if (String.length p <=? 72)%nat
    then (∃ h, bcrypt_generate n p = Ok h) ∨ (∃ e, bcrypt_generate n p = Err e ∧ fault e)
    else bcrypt_generate n p = Err bcrypt_ErrPasswordTooLong;
  bcrypt_compare_generate n p h : bcrypt_generate n p = Ok h → bcrypt_compare h p = true;
  bcrypt_length n p h : bcrypt_generate n p = Ok h → (String.length h ≤ 255)%nat
}.

Definition nonceSize : nat := 12.
Definition overhead : nat := 16.

(** [aes.NewCipher] accepts keys of 16, 24 and 32 bytes; [cipher.NewGCM] does
    not fail on an AES block. *)
Definition aes_key_ok (key : string) : bool :=
  let n := String.length key in
  bool_decide (n = 16)%nat || bool_decide (n = 24)%nat || bool_decide (n = 32)%nat.

Definition aes_NewCipher (key : string) : res unit :=
  guard_err (negb (aes_key_ok key)) (Wrapped "create AES cipher" (Opaque "invalid key size")).

Section encryption.
Context `{Env} `{Aead}.

Definition wrap_err {A} (msg : string) (m : M A) : M A :=
  r ← attempt m;
  match r with inl a => mret a | inr e => throw (Wrapped msg e) end.

(** [security.Encrypt]: the nonce is stored in front of the sealed text. *)
Definition Encrypt (key plaintext : string) : M string :=
  _ ← lift (aes_NewCipher key);
  nonce ← wrap_err "generate AES-GCM nonce" (rand_bytes nonceSize);
  let sealed := nonce +:+ gcm_seal key nonce plaintext in
  mret (Base64.StdEncode sealed).

(** [security.Decrypt]. *)
Definition Decrypt (key encodedCiphertext : string) : res string :=
  _ ← aes_NewCipher key;
  match Base64.StdDecode encodedCiphertext with
  | None => Err (Wrapped "decode AES-GCM ciphertext" (Opaque "illegal base64 data"))
  | Some ciphertext =>
      if bool_decide (String.length ciphertext < nonceSize + overhead)%nat
      then Err (Opaque "invalid AES-GCM ciphertext")
      else
        let nonce := substring 0 nonceSize ciphertext in
        let data := str_drop nonceSize ciphertext in
        match gcm_open key nonce data with
        | None => Err (Wrapped "decrypt AES-GCM ciphertext" (Opaque "message authentication failed"))
        | Some plaintext => Ok plaintext
        end
  end.
End encryption.

Section passwords.
Context `{Env} `{Bcrypt}.

Definition HashPassword (password : string) : M string := λ w,
  (bcrypt_generate (w_step w) password, tick w).

Definition VerifyPassword (password hash : string) : bool := bcrypt_compare hash password.
End passwords.

(** * Lemmas *)

Lemma preserves_HashPassword `{Env} `{Bcrypt} p : preserves_wf (HashPassword p).
Proof. by intros w. Qed.
#[export] Hint Resolve preserves_HashPassword : erent.

Lemma substring_app_length (s t : string) : substring 0 (String.length s) (s +:+ t) = s.
Proof. induction s as [|a s IH]; simpl; [by destruct t|]. by rewrite IH. Qed.

Lemma wp_wrap_err {A} msg (m : M A) (Q : res A → world → Prop) w :
  wp m (λ r w', match r with
                | Ok a => Q (Ok a) w'
                | Err e => Q (Err (Wrapped msg e)) w'
                | Panic => Q Panic w'
                end) w → wp (wrap_err msg m) Q w.
Proof.
  intros Hm. unfold wrap_err. do 2 wp_step. revert Hm. apply wp_mono. by intros [a|e|] w'.
Qed.

Section lemmas.
Context `{EnvLaws} `{AeadLaws}.

(** What [Encrypt] produced under a key, [Decrypt] gives back. *)
Definition encrypts (key c p : string) : Prop := Decrypt key c = Ok p.

Lemma Decrypt_sealed key nonce p :
  aes_key_ok key = true → String.length nonce = nonceSize →
  Decrypt key (Base64.StdEncode (nonce +:+ gcm_seal key nonce p)) = Ok p.
Proof.
  intros Hk Hn. unfold Decrypt, aes_NewCipher. rewrite Hk.
  cbn -[str_drop substring nonceSize Base64.StdDecode].
  rewrite Base64.StdDecode_StdEncode, bool_decide_eq_false_2.
  - cbv zeta. by rewrite <- Hn, substring_app_length, str_drop_app, gcm_open_seal.
  - rewrite length_str_app, length_gcm_seal, Hn. unfold overhead. lia.
Qed.

(** An error of [Encrypt] is a bad key or a failure of the random source. *)
Definition encrypt_error (key : string) (e : gerror) : Prop :=
  aes_key_ok key = false ∨
  ∃ e', fault e' ∧ e = Wrapped "generate AES-GCM nonce" e'.

Lemma wp_Encrypt key p (Q : res string → world → Prop) w :
  (∀ e n, encrypt_error key e → Q (Err e) (Nat.iter n tick w)) →
  (∀ c n, encrypts key c p → aes_key_ok key = true → Q (Ok c) (Nat.iter n tick w)) →
  wp (Encrypt key p) Q w.
Proof.
  intros He Hs. apply wp_bind. unfold lift, wp at 1, aes_NewCipher.
  destruct (aes_key_ok key) eqn:Hk; simpl; [|apply (He _ 0%nat); by left].
  apply wp_bind, wp_bind, wp_attempt, wp_rand; intros.
  - apply (He _ 1%nat). right. eauto.
  - apply (Hs _ 1%nat); [|done]. by apply Decrypt_sealed.
Qed.

Lemma wp_Encrypt_db key p (Q : res string → world → Prop) w :
  (∀ e w', encrypt_error key e → w_db w' = w_db w → Q (Err e) w') →
  (∀ c w', encrypts key c p → w_db w' = w_db w → Q (Ok c) w') →
  wp (Encrypt key p) Q w.
Proof.
  intros He Hok. assert (Hdb : ∀ n, w_db (Nat.iter n tick w) = w_db w) by (induction n; done).
  apply wp_Encrypt; auto.
Qed.

Lemma encrypt_error_Is key e s :
  own_sentinel s = true → aes_key_ok key = true → encrypt_error key e → errors_Is e s = false.
Proof.
  intros Hs Hk [Hbad|(e' & Hf & ->)]; [congruence|].
  destruct s as [n t| | |]; try done. rewrite errors_Is_wrapped. by apply fault_Is.
Qed.
End lemmas.
