(* ===== verification/Http.v ===== *)
(** What a handler answers: the JSON envelope of internal/dto/response, a
    redirect, the headers and cookies set before it; and the values a handler
    reads from the Gin context. *)

From S2P Require Import Prelude.
From S2P Require Import GoStrings.
From S2P Require Import World.

Local Open Scope list_scope.
Local Open Scope Z_scope.

(** A value stored with [c.Set]: the user identity is asserted to be a
    [uint64] before use. *)
Inductive ctx_value := CtxUint64 (n : N) | CtxOther.

Inductive body (D : Type) :=
  | JSON (status code : Z) (data : option D) (message : string)
  | Redirect (status : Z) (url : string).
Arguments JSON {D} status code data message.
Arguments Redirect {D} status url.

(** [Set-Cookie] as the program sets it: name, value, Max-Age, path, Secure,
    HttpOnly; SameSite is always Lax. *)
Record cookie := {
  ck_name : string; ck_value : string; ck_maxage : Z; ck_path : string;
  ck_secure : bool; ck_httponly : bool
}.

Record reply (D : Type) := {
  rp_headers : list (string * string);
  rp_cookies : list cookie;
  rp_body : body D
}.
Arguments Build_reply {D}.
Arguments rp_headers {D}.
Arguments rp_cookies {D}.
Arguments rp_body {D}.

Definition Success {D} (data : option D) : reply D :=
  Build_reply [] [] (JSON 200 0 data "success").

Definition SuccessWithStatus {D} (status : Z) (data : option D) (message : string) : reply D :=
  Build_reply [] [] (JSON status 0 data message).

Definition Error {D} (status code : Z) (message : string) : reply D :=
  Build_reply [] [] (JSON status code None message).

Definition with_header {D} (k v : string) (r : reply D) : reply D :=
  Build_reply ((k, v) :: rp_headers r) (rp_cookies r) (rp_body r).

Definition with_cookie {D} (c : cookie) (r : reply D) : reply D :=
  Build_reply (rp_headers r) (c :: rp_cookies r) (rp_body r).

Definition no_store {D} (r : reply D) : reply D := with_header "Cache-Control" "no-store" r.

Definition reply_status {D} (r : reply D) : Z :=
  match rp_body r with JSON s _ _ _ => s | Redirect s _ => s end.

Definition reply_data {D} (r : reply D) : option D :=
  match rp_body r with JSON _ _ d _ => d | Redirect _ _ => None end.

(** A handler that answers without looking further at an error never lets it
    escape: it is turned into a reply. *)
Definition handle {A D} (m : M A) (k : A + gerror → reply D) : M (reply D) :=
  r ← attempt m; mret (k r).

Lemma wp_handle {A D} (m : M A) (k : A + gerror → reply D) Q w :
  wp m (λ r w', match r with
                | Ok a => Q (Ok (k (inl a))) w'
                | Err e => Q (Ok (k (inr e))) w'
                | Panic => Q Panic w'
                end) w →
  wp (handle m k) Q w.
Proof.
  intros Hm. apply wp_bind, wp_attempt. revert Hm. apply wp_mono. by intros [a|e|] w'.
Qed.
