(* ===== verification/Json.v ===== *)
(** encoding/json as the program uses it: validity, the decoding of a value
    into members and elements with their raw text ([json.RawMessage]), strings
    and integers, and the encoder with its HTML escaping and sorted keys. *)

From S2P Require Import Prelude.
From S2P Require Import GoStrings.

Local Open Scope list_scope.
Local Open Scope N_scope.

(** * Values *)

(** A value keeps the text of its strings and numbers as the source writes it
    (a string's lexeme is what stands between the quotes), and every member and
    element its raw text. *)
Inductive json :=
  | JNull
  | JBool (b : bool)
  | JNumber (literal : string)
  | JString (lexeme : string)
  | JArray (elements : list (string * json))
  | JObject (members : list (string * (string * json))).

Definition quote : ascii := "034".
Definition backslash : ascii := "092".

(** JSON text in a Coq string: the apostrophe stands for the quotation mark. *)
Definition js (s : string) : string := str_map (λ a, if Ascii.eqb a "'" then quote else a) s.

(** * Scanning *)

Definition json_space (a : ascii) : bool := is_byte 32 a || is_byte 9 a || is_byte 10 a || is_byte 13 a.

Fixpoint skip (s : string) : string :=
  match s with
  | "" => ""
  | String a s' => if json_space a then skip s' else s
  end%string.

Definition expect (c : ascii) (s : string) : option string :=
  match s with
  | String a s' => if Ascii.eqb a c then Some s' else None
  | EmptyString => None
  end.

Definition is_hex (a : ascii) : bool := is_digit a || byte_is 65 70 a || byte_is 97 102 a.

(** The escapes of one letter: b f n r t, the backslash, the slash and the quotation mark. *)
Definition simple_escape (a : ascii) : bool :=
  is_byte 98 a || is_byte 102 a || is_byte 110 a || is_byte 114 a || is_byte 116 a ||
  is_byte 92 a || is_byte 47 a || is_byte 34 a.

(** The rest of a string: its lexeme and what follows the closing quote. *)
Fixpoint lexeme (s : string) : option (string * string) :=
  match s with
  | EmptyString => None
  | String a s1 =>
      if Ascii.eqb a quote then Some (""%string, s1)
      else if Ascii.eqb a backslash then
        match s1 with
        | EmptyString => None
        | String b s2 =>
            if simple_escape b then '(l, r) ← lexeme s2; Some (String a (String b l), r)
            else if is_byte 117 b then
              match s2 with
              | String h1 (String h2 (String h3 (String h4 s3))) =>
                  if is_hex h1 && is_hex h2 && is_hex h3 && is_hex h4
                  then '(l, r) ← lexeme s3;
                       Some (String a (String b (String h1 (String h2 (String h3 (String h4 l))))), r)
                  else None
              | _ => None
              end
            else None
        end
      else if N_of_ascii a <? 32 then None
      else '(l, r) ← lexeme s1; Some (String a l, r)
  end.

Fixpoint take_while (p : ascii → bool) (s : string) : string * string :=
  match s with
  | EmptyString => (""%string, ""%string)
  | String a s' => if p a then let (d, r) := take_while p s' in (String a d, r) else (""%string, s)
  end.

(** What follows at least one digit. *)
Definition after_digits (s : string) : option string :=
  match take_while is_digit s with
  | (EmptyString, _) => None
  | (_, r) => Some r
  end.

Definition after_int (s : string) : option string :=
  match s with
  | String a s' => if is_byte 48 a then Some s' else after_digits s
  | EmptyString => None
  end.

Definition after_fraction (s : string) : option string :=
  match s with
  | String a s' => if is_byte 46 a then after_digits s' else Some s
  | EmptyString => Some s
  end.

Definition after_exponent (s : string) : option string :=
  match s with
  | String a s1 =>
      if is_byte 101 a || is_byte 69 a then
        match s1 with
        | String b s2 => if is_byte 43 b || is_byte 45 b then after_digits s2 else after_digits s1
        | EmptyString => None
        end
      else Some s
  | EmptyString => Some s
  end.

(** The whole text is a number. *)
Definition number_ok (s : string) : bool :=
  let s := match s with String a s' => if is_byte 45 a then s' else s | EmptyString => s end in
  match (r1 ← after_int s; r2 ← after_fraction r1; after_exponent r2) with
  | Some EmptyString => true
  | _ => false
  end.

(** The characters of numbers: none of them may follow a complete number, so the
    longest run of them must be one. *)
Definition number_char (a : ascii) : bool :=
  is_digit a || is_byte 43 a || is_byte 45 a || is_byte 46 a || is_byte 101 a || is_byte 69 a.

Definition number (s : string) : option (string * string) :=
  let (l, r) := take_while number_char s in
  if number_ok l then Some (l, r) else None.

Definition literal (word : string) (v : json) (s : string) : option (json * string) :=
  if HasPrefix s word then Some (v, str_drop (String.length word) s) else None.

(** [maxNestingDepth] *)
Definition max_depth : N := 10000.

(** The text from [s] up to where [r], a suffix of it, begins. *)
Definition consumed (s r : string) : string := substring 0 (String.length s - String.length r) s.

(** One value at the start of the text, inside [depth] open arrays and objects;
    the fuel bounds the number of values and members on a path and the length
    of the text is enough. *)
Fixpoint value (n : nat) (depth : N) (s : string) {struct n} : option (json * string) :=
  match n, s with
  | S n, String a s1 =>
      if Ascii.eqb a quote then '(l, r) ← lexeme s1; Some (JString l, r)
      else if Ascii.eqb a "{" then
        if max_depth <=? depth then None
        else match expect "}" (skip s1) with
             | Some r => Some (JObject [], r)
             | None => '(ms, r) ← members n (depth + 1) (skip s1); Some (JObject ms, r)
             end
      else if Ascii.eqb a "[" then
        if max_depth <=? depth then None
        else match expect "]" (skip s1) with
             | Some r => Some (JArray [], r)
             | None => '(es, r) ← elements n (depth + 1) (skip s1); Some (JArray es, r)
             end
      else if Ascii.eqb a "n" then literal "null" JNull s
      else if Ascii.eqb a "t" then literal "true" (JBool true) s
      else if Ascii.eqb a "f" then literal "false" (JBool false) s
      else '(l, r) ← number s; Some (JNumber l, r)
  | _, _ => None
  end
with members (n : nat) (depth : N) (s : string) {struct n} : option (list (string * (string * json)) * string) :=
  match n with
  | S n =>
      r0 ← expect quote s;
      '(k, r1) ← lexeme r0;
      r2 ← expect ":" (skip r1);
      '(v, r3) ← value n depth (skip r2);
      let m := (k, (consumed (skip r2) r3, v)) in
      match expect "," (skip r3) with
      | Some r4 => '(ms, r5) ← members n depth (skip r4); Some (m :: ms, r5)
      | None => r4 ← expect "}" (skip r3); Some ([m], r4)
      end
  | O => None
  end
with elements (n : nat) (depth : N) (s : string) {struct n} : option (list (string * json) * string) :=
  match n with
  | S n =>
      '(v, r1) ← value n depth s;
      let e := (consumed s r1, v) in
      match expect "," (skip r1) with
      | Some r2 => '(es, r3) ← elements n depth (skip r2); Some (e :: es, r3)
      | None => r2 ← expect "]" (skip r1); Some ([e], r2)
      end
  | O => None
  end.

(** Enough fuel for a text: a value and a member for every character. *)
Definition fuel_for (s : string) : nat := 2 * S (String.length s).

(** A text that is one value, with the text of the value. *)
Definition parse (s : string) : option (string * json) :=
  '(v, r) ← value (fuel_for s) 0 (skip s);
  if String.eqb (skip r) "" then Some (consumed (skip s) r, v) else None.

(** [json.Valid] *)
Definition Valid (s : string) : bool := match parse s with Some _ => true | None => false end.

(** The first value of a stream, [Decoder.Decode]. *)
Definition decode_first (s : string) : option json := fst <$> value (fuel_for s) 0 (skip s).

(** * Runes *)

(** What a decoder reads: a byte of the text or the code of an escape. *)
Inductive elem := Byte (a : ascii) | Code (n : N).

Definition rune_error : N := 65533.
Definition surrogate (r : N) : bool := (55296 <=? r) && (r <? 57344).
Definition high_surrogate (r : N) : bool := (55296 <=? r) && (r <? 56320).
Definition low_surrogate (r : N) : bool := (56320 <=? r) && (r <? 57344).

Definition n_of (a : ascii) : N := N_of_ascii a.

(** [utf8.DecodeRune] and [utf16.DecodeRune] over the elements: [None] is a byte
    that starts no encoding. *)
Fixpoint decode_elems (l : list elem) : list (option N) :=
  match l with
  | [] => []
  | Code r :: l1 =>
      if surrogate r then
        match l1 with
        | Code q :: l2 =>
            if high_surrogate r && low_surrogate q
            then Some ((r - 55296) * 1024 + (q - 56320) + 65536) :: decode_elems l2
            else Some rune_error :: decode_elems l1
        | _ => Some rune_error :: decode_elems l1
        end
      else Some r :: decode_elems l1
  | Byte a :: l1 =>
      if n_of a <? 128 then Some (n_of a) :: decode_elems l1
      else match l1 with
           | Byte b :: l2 =>
               if rune2 a b then Some (n_of a mod 32 * 64 + n_of b mod 64) :: decode_elems l2
               else match l2 with
                    | Byte c :: l3 =>
                        if rune3 a b c
                        then Some (n_of a mod 16 * 4096 + n_of b mod 64 * 64 + n_of c mod 64) :: decode_elems l3
                        else match l3 with
                             | Byte d :: l4 =>
                                 if rune4 a b c d
                                 then Some (n_of a mod 8 * 262144 + n_of b mod 64 * 4096 + n_of c mod 64 * 64 +
                                              n_of d mod 64) :: decode_elems l4
                                 else None :: decode_elems l1
                             | _ => None :: decode_elems l1
                             end
                    | _ => None :: decode_elems l1
                    end
           | _ => None :: decode_elems l1
           end
  end.

Definition bytes_of (s : string) : list elem := Byte <$> list_ascii_of_string s.

(** [range s] *)
Definition runes (s : string) : list (option N) := decode_elems (bytes_of s).

Definition chr (n : N) : ascii := ascii_of_N n.

(** [utf8.AppendRune] *)
Definition encode_rune (r : N) : string :=
  if r <? 128 then String (chr r) ""
  else if r <? 2048 then String (chr (192 + r / 64)) (String (chr (128 + r mod 64)) "")
  else if surrogate r || (1114111 <? r) then String (chr 239) (String (chr 191) (String (chr 189) ""))
  else if r <? 65536 then
    String (chr (224 + r / 4096)) (String (chr (128 + r / 64 mod 64)) (String (chr (128 + r mod 64)) ""))
  else String (chr (240 + r / 262144)) (String (chr (128 + r / 4096 mod 64))
         (String (chr (128 + r / 64 mod 64)) (String (chr (128 + r mod 64)) ""))).

Fixpoint str_concat (l : list string) : string :=
  match l with [] => ""%string | s :: l => s +:+ str_concat l end.

(** * Strings *)

Definition hex_val (a : ascii) : N :=
  if is_digit a then n_of a - 48 else if byte_is 97 102 a then n_of a - 87 else n_of a - 55.

Definition hex4 (a b c d : ascii) : N := hex_val a * 4096 + hex_val b * 256 + hex_val c * 16 + hex_val d.

(** The character a one-letter escape stands for. *)
Definition escaped (a : ascii) : ascii :=
  if is_byte 98 a then chr 8 else if is_byte 102 a then chr 12 else if is_byte 110 a then chr 10
  else if is_byte 114 a then chr 13 else if is_byte 116 a then chr 9 else a.

Fixpoint unescape (l : string) : list elem :=
  match l with
  | EmptyString => []
  | String a l1 =>
      if Ascii.eqb a backslash then
        match l1 with
        | EmptyString => []
        | String b l2 =>
            if is_byte 117 b then
              match l2 with
              | String h1 (String h2 (String h3 (String h4 l3))) => Code (hex4 h1 h2 h3 h4) :: unescape l3
              | _ => []
              end
            else Byte (escaped b) :: unescape l2
        end
      else Byte a :: unescape l1
  end.

Definition rune_or_error (o : option N) : N := default rune_error o.

(** The Go string of a lexeme; invalid UTF-8 is replaced. *)
Definition unquote (l : string) : string :=
  str_concat (encode_rune ∘ rune_or_error <$> decode_elems (unescape l)).

Definition hex_nibble (n : N) : ascii := hex_digit (n mod 16).

(** A backslash, u and four hexadecimal digits. *)
Definition escape_u (r : N) : string :=
  String backslash (String "u" (String (hex_nibble (r / 4096)) (String (hex_nibble (r / 256))
    (String (hex_nibble (r / 16)) (String (hex_nibble r) ""))))).

Definition escape_letter (a : ascii) : string := String backslash (String a "").

(** The characters the encoder escapes besides the control characters. *)
Definition html_char (r : N) : bool := (r =? 60) || (r =? 62) || (r =? 38).

Definition quote_rune (o : option N) : string :=
  match o with
  | None => escape_u rune_error
  | Some r =>
      if (r =? 34) || (r =? 92) then escape_letter (chr r)
      else if r =? 8 then escape_letter "b" else if r =? 12 then escape_letter "f"
      else if r =? 10 then escape_letter "n" else if r =? 13 then escape_letter "r"
      else if r =? 9 then escape_letter "t"
      else if (r <? 32) || html_char r || (r =? 8232) || (r =? 8233) then escape_u r
      else encode_rune r
  end.

(** The lexeme of a Go string. *)
Definition quoted (s : string) : string := str_concat (quote_rune <$> runes s).

Definition in_quotes (l : string) : string := String quote (l +:+ String quote "").

(** The encoding of a Go string. *)
Definition marshal_string (s : string) : string := in_quotes (quoted s).

(** * Compaction *)

(** What [appendCompact] does to the text of a string. *)
Fixpoint escape_html (l : string) : string :=
  match l with
  | EmptyString => ""
  | String a l1 =>
      if html_char (n_of a) then escape_u (n_of a) +:+ escape_html l1
      else match l1 with
           | String b (String c l3) =>
               if is_byte 226 a && is_byte 128 b && byte_is 168 169 c
               then escape_u (8192 + n_of c - 128) +:+ escape_html l3
               else String a (escape_html l1)
           | _ => String a (escape_html l1)
           end
  end%string.

Definition join (sep : string) (l : list string) : string :=
  match l with
  | [] => ""
  | s :: l => s +:+ str_concat ((λ t, sep +:+ t) <$> l)
  end%string.

Definition in_braces (s : string) : string := String "{" (s +:+ "}").
Definition in_brackets (s : string) : string := String "[" (s +:+ "]").

(** A value without insignificant space, as the encoder writes raw text. *)
Fixpoint compact (v : json) : string :=
  match v with
  | JNull => "null"
  | JBool b => if b then "true" else "false"
  | JNumber l => l
  | JString l => in_quotes (escape_html l)
  | JArray es => in_brackets (join "," ((λ '(_, e), compact e) <$> es))
  | JObject ms => in_braces (join "," ((λ '(k, (_, e)), in_quotes (escape_html k) +:+ String ":" (compact e)) <$> ms))
  end%string.

(** * Go values *)

(** A [json.RawMessage]: the empty one is nil. *)
Abbreviation raw_message := string.

(** [map[string]json.RawMessage], not nil. *)
Abbreviation raw_map := (gmap string raw_message).

(** Marshals a raw message: nil is null, the rest is compacted and must be valid. *)
Definition marshal_raw (raw : raw_message) : option string :=
  if String.eqb raw "" then Some "null"%string else compact ∘ snd <$> parse raw.

(** An object of texts already encoded, in the order given. *)
Definition object_text (ms : list (string * string)) : string :=
  in_braces (join "," ((λ '(k, t), marshal_string k +:+ String ":" t) <$> ms)).
Definition array_text (es : list string) : string := in_brackets (join "," es).

(** The keys of a map come out sorted. *)
Definition key_le {A} (x y : string * A) : bool := String.leb x.1 y.1.
Definition sorted_members {A} (m : gmap string A) : list (string * A) := sort_by key_le (map_to_list m).

Definition marshal_raw_map (m : raw_map) : option string :=
  ts ← mapM (λ '(k, raw), pair k <$> marshal_raw raw) (sorted_members m);
  Some (object_text ts).

Definition marshal_raw_list (l : list raw_message) : option string :=
  ts ← mapM marshal_raw l; Some (array_text ts).

Definition marshal_bool (b : bool) : string := if b then "true" else "false".

(** Members into a map: the last one of a key stays. *)
Definition add_members (ms : list (string * (string * json))) (m : raw_map) : raw_map :=
  foldl (λ m '(k, (raw, _)), <[unquote k := raw]> m) m ms.

(** Decoding into a map that is nil or not; [None] is an error. *)
Definition decode_map (v : json) (m : option raw_map) : option (option raw_map) :=
  match v with
  | JNull => Some None
  | JObject ms => Some (Some (add_members ms (default ∅ m)))
  | _ => None
  end.

Definition unmarshal_map (s : string) : option (option raw_map) :=
  '(_, v) ← parse s; decode_map v None.

(** Into a slice of raw messages, nil for null. *)
Definition decode_list (v : json) : option (list raw_message) :=
  match v with
  | JNull => Some []
  | JArray es => Some es.*1
  | _ => None
  end.

Definition unmarshal_list (s : string) : option (list raw_message) :=
  '(_, v) ← parse s; decode_list v.

(** Into a string and a bool that keep their value on null. *)
Definition decode_string (v : json) (old : string) : option string :=
  match v with JNull => Some old | JString l => Some (unquote l) | _ => None end.

Definition decode_bool (v : json) (old : bool) : option bool :=
  match v with JNull => Some old | JBool b => Some b | _ => None end.

(** A number into an [int] of 64 bits. *)
Definition parse_int (l : string) : option Z :=
  match l with
  | String a l' =>
      if is_byte 45 a
      then match parse_digits 0 l', l' with
           | Some n, String _ _ => if n <=? 2 ^ 63 then Some (- Z.of_N n)%Z else None
           | _, _ => None
           end
      else match parse_digits 0 l with
           | Some n => if n <? 2 ^ 63 then Some (Z.of_N n) else None
           | None => None
           end
  | EmptyString => None
  end.

Definition decode_int (v : json) (old : Z) : option Z :=
  match v with JNull => Some old | JNumber l => parse_int l | _ => None end.

(** The name a member is matched under: letters folded, with the two runes
    outside ASCII that fold to letters. *)
Fixpoint fold_name (s : string) : string :=
  match s with
  | EmptyString => ""
  | String a s1 =>
      match s1 with
      | String b s2 =>
          if is_byte 197 a && is_byte 191 b then String "s" (fold_name s2)
          else match s2 with
               | String c s3 =>
                   if is_byte 226 a && is_byte 132 b && is_byte 170 c then String "k" (fold_name s3)
                   else String (to_lower a) (fold_name s1)
               | _ => String (to_lower a) (fold_name s1)
               end
      | _ => String (to_lower a) (fold_name s1)
      end
  end%string.

(** A member is for the field of a struct with this name. *)
Definition for_field (name key : string) : bool := String.eqb (fold_name (unquote key)) name.

(** Decoding into a struct: every member updates its field, an error in one is
    an error of the whole. *)
Definition decode_struct {A} (field : string → string → json → A → option A) (v : json) (a : A) : option A :=
  match v with
  | JNull => Some a
  | JObject ms => foldl (λ acc '(k, (raw, v)), a ← acc; field k raw v a) (Some a) ms
  | _ => None
  end.

Definition unmarshal_struct {A} (field : string → string → json → A → option A) (s : string) (a : A) : option A :=
  '(_, v) ← parse s; decode_struct field v a.

(** * Examples *)

Example parse_sample :
  fst <$> parse (js " {'a' : [1, -2.5e+3, 'x\u00e9'] , 'b':{}} ") =
    Some (js "{'a' : [1, -2.5e+3, 'x\u00e9'] , 'b':{}}").
Proof. reflexivity. Qed.

Example compact_sample :
  marshal_raw (js " {'a' : [1, -2.5e+3, '<x>'] , 'b':{ }} ") =
    Some (js "{'a':[1,-2.5e+3,'\u003cx\u003e'],'b':{}}").
Proof. reflexivity. Qed.

Example invalid_samples :
  Valid <$> [js "{'a':01}"; js "{'a' 1}"; js "[1,]"; "nulls"; ""; js "'\x'"; "1e"; js "{'a':1}}"]%string =
    [false; false; false; false; false; false; false; false].
Proof. reflexivity. Qed.

Example unquote_sample :
  unquote "\ud83d\ude00\ud83dx\n" = unquote (quoted (unquote "\ud83d\ude00\ud83dx\n")).
Proof. reflexivity. Qed.
