(* ===== verification/JsonFacts.v ===== *)
(** The encoder of encoding/json writes what its decoder reads back: compacted
    values, quoted strings and sorted objects survive the round trip. *)

From S2P Require Import Prelude.
From S2P Require Import GoStrings.
From S2P Require Import Json.

From Stdlib Require Import ZifyBool.

Local Open Scope list_scope.
Local Open Scope N_scope.

(** * Texts *)

Lemma consumed_app t r : consumed (t +:+ r) r = t.
Proof.
  unfold consumed. rewrite length_str_app, Nat.add_sub.
  induction t as [|a t IH]; [by destruct r|]. cbn. by rewrite IH.
Qed.

Lemma str_app_cons a s t : String a s +:+ t = String a (s +:+ t).
Proof. done. Qed.

Lemma str_concat_app l1 l2 : str_concat (l1 ++ l2) = str_concat l1 +:+ str_concat l2.
Proof. induction l1 as [|s l1 IH]; [done|]. cbn. by rewrite IH, str_app_assoc. Qed.

Lemma list_ascii_app s t : list_ascii_of_string (s +:+ t) = list_ascii_of_string s ++ list_ascii_of_string t.
Proof. induction s as [|a s IH]; [done|]. cbn. by rewrite IH. Qed.

Lemma bytes_of_app s t : bytes_of (s +:+ t) = bytes_of s ++ bytes_of t.
Proof. unfold bytes_of. by rewrite list_ascii_app, fmap_app. Qed.

(** * Lexemes *)

Definition plain_byte (a : ascii) : bool :=
  negb (Ascii.eqb a quote) && negb (Ascii.eqb a backslash) && negb (n_of a <? 32).

Inductive lex : string → Prop :=
  | lex_nil : lex ""
  | lex_char a l : plain_byte a = true → lex l → lex (String a l)
  | lex_letter b l : simple_escape b = true → lex l → lex (String backslash (String b l))
  | lex_u h1 h2 h3 h4 l :
      is_hex h1 && is_hex h2 && is_hex h3 && is_hex h4 = true → lex l →
      lex (String backslash (String "u" (String h1 (String h2 (String h3 (String h4 l)))))).
#[export] Hint Constructors lex : erent.

Lemma is_byte_eq n a : is_byte n a = true → a = chr n.
Proof. unfold is_byte, chr. intros <-%N.eqb_eq. by rewrite ascii_N_embedding. Qed.

Lemma lexeme_lex s l r : lexeme s = Some (l, r) → lex l ∧ s = l +:+ String quote r.
Proof.
  revert l r. induction s as [s IH] using string_length_ind. intros l r.
  destruct s as [|a s1]; [done|]. cbn [lexeme].
  destruct (Ascii.eqb_spec a quote) as [->|Hq]; [intros [= <- <-]; split; [constructor|done]|].
  destruct (Ascii.eqb_spec a backslash) as [->|Hb].
  - destruct s1 as [|b s2]; [done|]. destruct (simple_escape b) eqn:Hsb.
    + destruct (lexeme s2) as [[l2 r2]|] eqn:Hl; [|done]. intros [= <- <-].
      apply IH in Hl as [Hl ->]; [|cbn; lia]. auto with erent.
    + destruct (is_byte 117 b) eqn:Hu; [|done].
      destruct s2 as [|h1 [|h2 [|h3 [|h4 s3]]]]; try done.
      destruct (_ && _) eqn:Hh; [|done].
      destruct (lexeme s3) as [[l2 r2]|] eqn:Hl; [|done]. intros [= <- <-].
      apply IH in Hl as [Hl ->]; [|cbn; lia]. apply is_byte_eq in Hu as ->.
      split; [by apply lex_u|done].
  - destruct (N_of_ascii a <? 32) eqn:Hc; [done|].
    destruct (lexeme s1) as [[l2 r2]|] eqn:Hl; [|done]. intros [= <- <-].
    apply IH in Hl as [Hl ->]; [|cbn; lia]. split; [|done]. constructor; [|done].
    unfold plain_byte, n_of. by rewrite Hc, (proj2 (Ascii.eqb_neq a quote)), (proj2 (Ascii.eqb_neq a backslash)).
Qed.

Lemma lex_lexeme l r : lex l → lexeme (l +:+ String quote r) = Some (l, r).
Proof.
  induction 1 as [|a l Ha Hl IH|b l Hb Hl IH|h1 h2 h3 h4 l Hh Hl IH]; [done|..]; rewrite !str_app_cons; cbn [lexeme].
  - unfold plain_byte, n_of in Ha. rewrite !andb_true_iff, !negb_true_iff in Ha. destruct Ha as [[-> ->] ->].
    by rewrite IH.
  - rewrite Hb, IH. done.
  - change (simple_escape "u") with false. change (is_byte 117 "u") with true. cbn [Ascii.eqb]. rewrite Hh, IH. done.
Qed.

Lemma lex_app l1 l2 : lex l1 → lex l2 → lex (l1 +:+ l2).
Proof. induction 1; intros; rewrite ?str_app_cons; auto with erent. Qed.

Lemma below_16 (p : N → bool) :
  forallb p [0; 1; 2; 3; 4; 5; 6; 7; 8; 9; 10; 11; 12; 13; 14; 15] = true → ∀ n, n < 16 → p n = true.
Proof.
  intros Hall n Hn. rewrite forallb_forall in Hall. apply Hall. cbn. lia.
Qed.

Lemma is_hex_nibble n : is_hex (hex_nibble n) = true.
Proof. apply (below_16 (λ m, is_hex (hex_digit m))); [done|]. by apply N.mod_lt. Qed.

Lemma lex_escape_u r l : lex l → lex (escape_u r +:+ l).
Proof. intros Hl. unfold escape_u. rewrite !str_app_cons. apply lex_u; [|done]. by rewrite !is_hex_nibble. Qed.

Lemma escape_html_cons a l :
  is_byte 226 a = false →
  escape_html (String a l) = if html_char (n_of a) then escape_u (n_of a) +:+ escape_html l
                             else String a (escape_html l).
Proof. intros Ha. cbn [escape_html]. destruct (html_char _); [done|]. destruct l as [|b [|c l]]; by rewrite ?Ha. Qed.

Lemma simple_escape_cases b :
  simple_escape b = true → is_byte 226 b = false ∧ html_char (n_of b) = false ∧ is_byte 117 b = false.
Proof. unfold simple_escape. rewrite !orb_true_iff. intros Hb. repeat destruct Hb as [Hb|Hb]; apply is_byte_eq in Hb as ->; done. Qed.

Lemma lex_escape_html l : lex l → lex (escape_html l).
Proof.
  induction l as [l IH] using string_length_ind. destruct 1 as [|a l Ha Hl|b l Hb Hl|h1 h2 h3 h4 l Hh Hl].
  - constructor.
  - cbn [escape_html]. destruct (html_char (n_of a)); [apply lex_escape_u, IH; [cbn; lia|done]|].
    assert (Hrec : lex (String a (escape_html l))) by (constructor; [done|]; apply IH; [cbn; lia|done]).
    destruct l as [|b [|c l3]]; [done..|].
    destruct (is_byte 226 a && is_byte 128 b && byte_is 168 169 c) eqn:He; [|done].
    rewrite !andb_true_iff in He. destruct He as [[_ Hb%is_byte_eq] Hc]. subst b.
    apply lex_escape_u, IH; [cbn; lia|]. inversion Hl as [|? ? _ Hl'|? ? _ _ Heq|? ? ? ? ? _ _ Heq]; subst; [|done..].
    inversion Hl'; subst; [done| |]; unfold byte_is in Hc; done.
  - destruct (simple_escape_cases b Hb) as (H1 & H2 & _).
    rewrite escape_html_cons by done. change (html_char (n_of backslash)) with false. cbn match.
    rewrite escape_html_cons, H2 by done. apply lex_letter; [done|]. apply IH; [cbn; lia|done].
  - rewrite !andb_true_iff in Hh. destruct Hh as [[[Hh1 Hh2] Hh3] Hh4].
    assert (Hx : ∀ h m, is_hex h = true → escape_html (String h m) = String h (escape_html m)).
    { intros h m Hh. unfold is_hex, is_digit, byte_is in Hh. rewrite escape_html_cons.
      - unfold html_char, n_of. replace (_ || _) with false; [done|]. symmetry. lia.
      - unfold is_byte. lia. }
    rewrite escape_html_cons by done. change (html_char (n_of backslash)) with false. cbn match.
    rewrite escape_html_cons by done. change (html_char (n_of "u")) with false. cbn match.
    rewrite !Hx by done. apply lex_u; [by rewrite Hh1, Hh2, Hh3, Hh4|]. apply IH; [cbn; lia|done].
Qed.

(** * UTF-8 *)

(** Unicode scalar values. *)
Definition scalar (r : N) : bool := negb (surrogate r) && (r <=? 1114111).

Lemma n_of_chr n : n < 256 → n_of (chr n) = n.
Proof. apply N_ascii_embedding. Qed.

Ltac byte_cases := unfold rune2, rune3, rune4, cont, byte_is, is_byte, n_of, chr in *; rewrite ?N_ascii_embedding by div_lia.

Lemma rune2_encoded x y : 2 <= x < 32 → y < 64 → rune2 (chr (192 + x)) (chr (128 + y)) = true.
Proof. intros. byte_cases. lia. Qed.

Lemma rune2_lead a b : 224 <= n_of a → rune2 a b = false.
Proof. intros. byte_cases. lia. Qed.

Lemma rune3_lead a b c : 240 <= n_of a → rune3 a b c = false.
Proof. intros. byte_cases. lia. Qed.

Lemma rune3_encoded x y z :
  x < 16 → y < 64 → z < 64 → (x = 0 → 32 <= y) → (x = 13 → y < 32) →
  rune3 (chr (224 + x)) (chr (128 + y)) (chr (128 + z)) = true.
Proof. intros. byte_cases. lia. Qed.

Lemma rune4_encoded x y z t :
  x <= 4 → y < 64 → z < 64 → t < 64 → (x = 0 → 16 <= y) → (x = 4 → y < 16) →
  rune4 (chr (240 + x)) (chr (128 + y)) (chr (128 + z)) (chr (128 + t)) = true.
Proof. intros. byte_cases. lia. Qed.

Lemma decode_encode_rune r l :
  scalar r = true → decode_elems (bytes_of (encode_rune r) ++ l) = Some r :: decode_elems l.
Proof.
  unfold scalar. intros [Hs Hr]%andb_true_iff. apply negb_true_iff in Hs. apply N.leb_le in Hr.
  unfold encode_rune. rewrite Hs. destruct (N.ltb_spec r 128) as [H1|H1].
  { cbn. by rewrite n_of_chr, (proj2 (N.ltb_lt _ _)) by lia. }
  destruct (N.ltb_spec r 2048) as [H2|H2].
  { cbn [bytes_of list_ascii_of_string fmap list_fmap app decode_elems]. unfold bytes_of. cbn.
    rewrite !n_of_chr by div_lia. rewrite (proj2 (N.ltb_ge _ _)) by div_lia.
    rewrite rune2_encoded by div_lia. do 2 f_equal. div_lia. }
  replace (1114111 <? r) with false by (symmetry; apply N.ltb_ge; lia). cbn [orb].
  unfold surrogate in Hs. destruct (N.ltb_spec r 65536) as [H3|H3].
  { unfold bytes_of. cbn. rewrite !n_of_chr by div_lia. rewrite (proj2 (N.ltb_ge _ _)) by div_lia.
    rewrite rune2_lead by (rewrite n_of_chr by div_lia; div_lia).
    rewrite rune3_encoded by div_lia. do 2 f_equal. div_lia. }
  unfold bytes_of. cbn. rewrite !n_of_chr by div_lia. rewrite (proj2 (N.ltb_ge _ _)) by div_lia.
  rewrite rune2_lead by (rewrite n_of_chr by div_lia; div_lia).
  rewrite rune3_lead by (rewrite n_of_chr by div_lia; div_lia).
  rewrite rune4_encoded by div_lia. do 2 f_equal. div_lia.
Qed.

Definition valid_utf8 (s : string) : Prop :=
  ∃ rs, Forall (λ r, scalar r = true) rs ∧ s = str_concat (encode_rune <$> rs).

Lemma runes_encoded rs :
  Forall (λ r, scalar r = true) rs → runes (str_concat (encode_rune <$> rs)) = Some <$> rs.
Proof.
  unfold runes. induction 1 as [|r rs Hr Hrs IH]; [done|].
  cbn [fmap list_fmap str_concat]. by rewrite bytes_of_app, decode_encode_rune, <- IH.
Qed.

(** * Quoting *)

Fixpoint no_backslash (s : string) : bool :=
  match s with "" => true | String a s => negb (Ascii.eqb a backslash) && no_backslash s end%string.

Lemma unescape_bytes s l : no_backslash s = true → unescape (s +:+ l) = bytes_of s ++ unescape l.
Proof.
  induction s as [|a s IH]; [done|]. cbn [no_backslash]. rewrite andb_true_iff, negb_true_iff. intros [Ha Hs].
  rewrite str_app_cons. cbn [unescape]. rewrite Ha, IH by done. done.
Qed.

Lemma chr_inj n m : n < 256 → m < 256 → chr n = chr m → n = m.
Proof. intros Hn Hm Heq. by rewrite <- (n_of_chr n), <- (n_of_chr m), Heq. Qed.

Lemma plain_chr n : n < 256 → 32 <= n → n ≠ 34 → n ≠ 92 → plain_byte (chr n) = true.
Proof.
  intros Hn Hlo Hq Hb. unfold plain_byte. rewrite n_of_chr, !andb_true_iff, !negb_true_iff by done.
  rewrite !Ascii.eqb_neq, N.ltb_ge. repeat split; [..|done]; intros Heq;
    [apply Hq, (chr_inj n 34)|apply Hb, (chr_inj n 92)]; done.
Qed.

(** The bytes of an encoded rune that is neither a control character nor one of
    the two special ones stand for themselves. *)
Lemma encode_rune_plain r :
  32 <= r → r ≠ 34 → r ≠ 92 → lex (encode_rune r) ∧ no_backslash (encode_rune r) = true.
Proof.
  intros Hlo Hq Hb.
  assert (Hall : Forall (λ a, plain_byte a = true) (list_ascii_of_string (encode_rune r))).
  { unfold encode_rune.
    destruct (N.ltb_spec r 128); [|destruct (N.ltb_spec r 2048); [|destruct (surrogate r || (1114111 <? r)) eqn:Hs;
      [|apply orb_false_iff in Hs as [_ Hs%N.ltb_ge]; destruct (N.ltb_spec r 65536)]]];
      cbn [list_ascii_of_string]; repeat constructor; apply plain_chr; div_lia. }
  revert Hall. generalize (encode_rune r). induction s as [|a s IH]; [by split; constructor|].
  cbn [list_ascii_of_string]. intros [Ha Hs]%Forall_cons. destruct (IH Hs) as [IH1 IH2].
  split; [by constructor|]. cbn [no_backslash]. rewrite IH2, andb_true_r.
  unfold plain_byte in Ha. rewrite !andb_true_iff in Ha. apply Ha.
Qed.

Lemma lex_letter_only b : simple_escape b = true → lex (escape_letter b).
Proof. intros. apply lex_letter; [done|constructor]. Qed.

Lemma lex_u_only r : lex (escape_u r).
Proof. rewrite <- (str_app_nil_r (escape_u r)). apply lex_escape_u. constructor. Qed.

Lemma lex_quote_rune o : lex (quote_rune o).
Proof.
  destruct o as [r|]; [|apply lex_u_only]. unfold quote_rune.
  destruct (N.eqb_spec r 34) as [->|]; [by apply lex_letter_only|].
  destruct (N.eqb_spec r 92) as [->|]; [by apply lex_letter_only|]. cbn [orb].
  repeat case_match; try (by apply lex_letter_only); [apply lex_u_only|].
  apply encode_rune_plain; lia.
Qed.

Lemma lex_quoted s : lex (quoted s).
Proof.
  unfold quoted. induction (runes s) as [|o l IH]; [constructor|]. cbn. apply lex_app; [apply lex_quote_rune|done].
Qed.

Lemma hex_val_nibble n : hex_val (hex_nibble n) = n mod 16.
Proof.
  apply N.eqb_eq. apply (below_16 (λ m, hex_val (hex_digit m) =? m)); [done|]. by apply N.mod_lt.
Qed.

Lemma hex4_nibbles r :
  r < 65536 →
  hex4 (hex_nibble (r / 4096)) (hex_nibble (r / 256)) (hex_nibble (r / 16)) (hex_nibble r) = r.
Proof. intros Hr. unfold hex4. rewrite !hex_val_nibble. div_lia. Qed.

Lemma unescape_quote_rune r l :
  scalar r = true → decode_elems (unescape (quote_rune (Some r) +:+ l)) = Some r :: decode_elems (unescape l).
Proof.
  intros Hr. unfold quote_rune.
  destruct (N.eqb_spec r 34) as [->|H34]; [done|]. destruct (N.eqb_spec r 92) as [->|H92]; [done|]. cbn [orb].
  destruct (N.eqb_spec r 8) as [->|]; [done|]. destruct (N.eqb_spec r 12) as [->|]; [done|].
  destruct (N.eqb_spec r 10) as [->|]; [done|]. destruct (N.eqb_spec r 13) as [->|]; [done|].
  destruct (N.eqb_spec r 9) as [->|]; [done|].
  destruct (_ || _) eqn:He.
  - assert (Hlt : r < 8234) by (unfold html_char in He; lia).
    unfold escape_u. rewrite !str_app_cons. cbn [unescape].
    change (Ascii.eqb backslash backslash) with true. change (is_byte 117 "u") with true. cbn match.
    rewrite hex4_nibbles by lia. cbn [decode_elems].
    unfold scalar in Hr. apply andb_true_iff in Hr as [->%negb_true_iff _]. done.
  - destruct (encode_rune_plain r) as [_ Hn]; [lia|done..|].
    rewrite unescape_bytes by done. by apply decode_encode_rune.
Qed.

Lemma unquote_quoted s : valid_utf8 s → unquote (quoted s) = s.
Proof.
  intros (rs & Hrs & ->). unfold unquote, quoted. rewrite runes_encoded by done.
  assert (Hd : decode_elems (unescape (str_concat (quote_rune <$> (Some <$> rs)))) = Some <$> rs).
  { induction Hrs as [|r rs Hr Hrs IH]; [done|]. cbn [fmap list_fmap str_concat].
    rewrite unescape_quote_rune by done. f_equal. exact IH. }
  rewrite Hd. f_equal. clear. induction rs as [|r rs IH]; [done|]. cbn. f_equal. exact IH.
Qed.

(** A rune the decoder finds is a scalar value, so what it builds is valid. *)
Lemma decode_elems_scalar l :
  Forall (λ e, match e with Code n => n < 65536 | _ => True end) l →
  Forall (λ o, scalar (rune_or_error o) = true) (decode_elems l).
Proof.
  remember (length l) as n eqn:Hn. revert l Hn. induction n as [n IH] using lt_wf_ind. intros l -> Hl.
  assert (IH' : ∀ l', (length l' < length l)%nat → Forall (λ e, match e with Code n => n < 65536 | _ => True end) l' →
    Forall (λ o, scalar (rune_or_error o) = true) (decode_elems l')) by (intros l' Hlt; by eapply IH).
  clear IH. destruct l as [|[a|r] l1]; [constructor|..]; apply Forall_cons in Hl as [Hr Hl].
  - cbn [decode_elems]. pose proof (N_of_ascii_lt a).
    destruct (N.ltb_spec (n_of a) 128).
    { constructor; [unfold scalar, rune_or_error, surrogate; cbn; lia|]. apply IH'; [cbn; lia|done]. }
    assert (Hbad : Forall (λ o, scalar (rune_or_error o) = true) (None :: decode_elems l1))
      by (constructor; [done|]; apply IH'; [cbn; lia|done]).
    destruct l1 as [|[b|] l2]; [done| |done]. apply Forall_cons in Hl as [_ Hl].
    pose proof (N_of_ascii_lt b). destruct (rune2 a b) eqn:H2.
    { constructor; [|apply IH'; [cbn; lia|done]]. clear -H2. unfold scalar, rune_or_error, surrogate, n_of; cbn.
      byte_cases. div_lia. }
    destruct l2 as [|[c|] l3]; [done| |done]. apply Forall_cons in Hl as [_ Hl].
    destruct (rune3 a b c) eqn:H3.
    { constructor; [|apply IH'; [cbn; lia|done]]. clear -H3. unfold scalar, rune_or_error, surrogate, n_of; cbn.
      byte_cases. div_lia. }
    destruct l3 as [|[d|] l4]; [done| |done]. apply Forall_cons in Hl as [_ Hl].
    destruct (rune4 a b c d) eqn:H4; [|done].
    constructor; [|apply IH'; [cbn; lia|done]]. clear -H4. unfold scalar, rune_or_error, surrogate, n_of; cbn.
    byte_cases. div_lia.
  - cbn [decode_elems]. destruct (surrogate r) eqn:Hs.
    + assert (Hbad : Forall (λ o, scalar (rune_or_error o) = true) (Some rune_error :: decode_elems l1))
        by (constructor; [done|]; apply IH'; [cbn; lia|done]).
      destruct l1 as [|[|q] l2]; [done..|]. apply Forall_cons in Hl as [_ Hl].
      destruct (high_surrogate r && low_surrogate q) eqn:Hp; [|done].
      constructor; [|apply IH'; [cbn; lia|done]]. clear -Hp.
      unfold high_surrogate, low_surrogate, scalar, rune_or_error, surrogate in *. cbn. lia.
    + constructor; [|apply IH'; [cbn; lia|done]]. unfold scalar, rune_or_error. cbn. rewrite Hs. cbn. lia.
Qed.

Lemma hex_val_lt a : is_hex a = true → hex_val a < 16.
Proof. unfold is_hex, hex_val, is_digit, byte_is, n_of. intros H. repeat case_match; lia. Qed.

Lemma lex_codes l : lex l → Forall (λ e, match e with Code n => n < 65536 | _ => True end) (unescape l).
Proof.
  induction 1 as [|a l Ha Hl IH|b l Hb Hl IH|h1 h2 h3 h4 l Hh Hl IH]; cbn [unescape]; [constructor|..].
  - unfold plain_byte in Ha. rewrite !andb_true_iff, !negb_true_iff in Ha. destruct Ha as [[_ ->] _].
    by constructor.
  - destruct (simple_escape_cases b Hb) as (_ & _ & ->). by constructor.
  - change (Ascii.eqb backslash backslash) with true. change (is_byte 117 "u") with true. cbn match.
    constructor; [|done]. rewrite !andb_true_iff in Hh. destruct Hh as [[[H1 H2] H3] H4].
    apply hex_val_lt in H1, H2, H3, H4. unfold hex4. lia.
Qed.

Lemma unquote_valid l : lex l → valid_utf8 (unquote l).
Proof.
  intros Hl. exists (rune_or_error <$> decode_elems (unescape l)).
  split; [|unfold unquote; by rewrite <- list_fmap_compose].
  apply Forall_fmap. apply decode_elems_scalar, lex_codes, Hl.
Qed.

(** * Numbers *)

(** Nothing that could continue a number. *)
Definition stops (s : string) : bool :=
  match s with String a _ => negb (number_char a) | EmptyString => true end.

Lemma take_while_spec p s d r :
  take_while p s = (d, r) → s = d +:+ r ∧
  ∀ r', match r' with String a _ => p a = false | EmptyString => True end → take_while p (d +:+ r') = (d, r').
Proof.
  assert (Hstop : ∀ r', match r' with String a _ => p a = false | EmptyString => True end →
    take_while p r' = (""%string, r')) by (by intros [|b r'] Hr; [|cbn; rewrite Hr]).
  revert d r. induction s as [|a s IH]; intros d r; cbn [take_while]; [by intros [= <- <-]|].
  destruct (p a) eqn:Ha; [|by intros [= <- <-]].
  destruct (take_while p s) as [d' r0] eqn:Ht. intros [= <- <-]. destruct (IH _ _ eq_refl) as [-> Hd].
  split; [done|]. intros r' Hr. rewrite str_app_cons. cbn [take_while]. by rewrite Ha, Hd.
Qed.

Lemma number_spec s l r :
  number s = Some (l, r) → s = l +:+ r ∧ number_ok l = true ∧
  ∀ r', stops r' = true → number (l +:+ r') = Some (l, r').
Proof.
  unfold number. destruct (take_while number_char s) as [l0 r0] eqn:Ht.
  destruct (number_ok l0) eqn:Hok; [|done]. intros [= <- <-]. apply take_while_spec in Ht as [-> Ht].
  split; [done|]. split; [done|]. intros r' Hr. rewrite Ht, Hok; [done|].
  destruct r'; [done|]. by apply negb_true_iff.
Qed.

Lemma number_text l r : (∃ s r0, number s = Some (l, r0)) → stops r = true → number (l +:+ r) = Some (l, r).
Proof. intros (s & r0 & Hn) Hr. apply number_spec in Hn as (_ & _ & Hn). by apply Hn. Qed.

(** * Values *)

(** The values the decoder builds inside so many open arrays and objects. *)
Inductive wf : N → json → Prop :=
  | wf_null d : wf d JNull
  | wf_bool d b : wf d (JBool b)
  | wf_number d l : (∃ s r, number s = Some (l, r)) → wf d (JNumber l)
  | wf_string d l : lex l → wf d (JString l)
  | wf_array d es : d < max_depth → Forall (λ e, wf (d + 1) e.2) es → wf d (JArray es)
  | wf_object d ms : d < max_depth → Forall (λ m, lex m.1 ∧ wf (d + 1) m.2.2) ms → wf d (JObject ms).
#[export] Hint Constructors wf : erent.

Lemma expect_Some c s r : expect c s = Some r → s = String c r.
Proof. destruct s as [|a s]; [done|]. cbn. destruct (Ascii.eqb_spec a c) as [->|]; [|done]. by intros [= ->]. Qed.

Lemma expect_cons c s : expect c (String c s) = Some s.
Proof. cbn. by rewrite Ascii.eqb_refl. Qed.

Lemma value_wf n :
  (∀ d s v r, value n d s = Some (v, r) → wf d v) ∧
  (∀ d s ms r, members n d s = Some (ms, r) → Forall (λ m, lex m.1 ∧ wf d m.2.2) ms) ∧
  (∀ d s es r, elements n d s = Some (es, r) → Forall (λ e, wf d e.2) es).
Proof.
  induction n as [|n (IHv & IHm & IHe)]; [done|]. split; [|split].
  - intros d [|a s1] v r; [done|]. cbn [value].
    destruct (Ascii.eqb a quote).
    { destruct (lexeme s1) as [[l r0]|] eqn:Hl; [|done]. intros [= <- <-].
      apply lexeme_lex in Hl as [Hl _]. by constructor. }
    destruct (Ascii.eqb a "{").
    { destruct (N.leb_spec max_depth d); [done|]. destruct (expect _ _); [intros [= <- <-]; by constructor|].
      destruct (members n (d + 1) _) as [[ms r0]|] eqn:Hm; [|done]. intros [= <- <-].
      constructor; [done|]. by eapply IHm. }
    destruct (Ascii.eqb a "[").
    { destruct (N.leb_spec max_depth d); [done|]. destruct (expect _ _); [intros [= <- <-]; by constructor|].
      destruct (elements n (d + 1) _) as [[ms r0]|] eqn:Hm; [|done]. intros [= <- <-].
      constructor; [done|]. by eapply IHe. }
    unfold literal. repeat case_match; try done; try (intros [= <- <-]; constructor).
    destruct (number _) as [[l r0]|] eqn:Hn; [|done]. intros [= <- <-]. constructor. eauto.
  - intros d s ms r. cbn [members].
    destruct (expect quote s) as [r0|]; [|done]. cbn [mbind option_bind].
    destruct (lexeme r0) as [[k r1]|] eqn:Hk; [|done]. cbn [mbind option_bind].
    apply lexeme_lex in Hk as [Hk _].
    destruct (expect ":" _) as [r2|]; [|done]. cbn [mbind option_bind].
    destruct (value n d _) as [[v r3]|] eqn:Hv; [|done]. cbn [mbind option_bind]. apply IHv in Hv.
    destruct (expect "," _) as [r4|].
    + destruct (members n d _) as [[ms' r5]|] eqn:Hm; [|done]. intros [= <- <-]. apply IHm in Hm. by constructor.
    + destruct (expect "}" _) as [r4|]; [|done]. intros [= <- <-]. by repeat constructor.
  - intros d s es r. cbn [elements].
    destruct (value n d s) as [[v r1]|] eqn:Hv; [|done]. cbn [mbind option_bind]. apply IHv in Hv.
    destruct (expect "," _) as [r2|].
    + destruct (elements n d _) as [[es' r3]|] eqn:Hm; [|done]. intros [= <- <-]. apply IHe in Hm. by constructor.
    + destruct (expect "]" _) as [r2|]; [|done]. intros [= <- <-]. by repeat constructor.
Qed.

Section json_ind.
Context (P : json → Prop) (Hnull : P JNull) (Hbool : ∀ b, P (JBool b)) (Hnumber : ∀ l, P (JNumber l))
  (Hstring : ∀ l, P (JString l)) (Harray : ∀ es, Forall (λ e, P e.2) es → P (JArray es))
  (Hobject : ∀ ms, Forall (λ m, P m.2.2) ms → P (JObject ms)).

Fixpoint json_ind' (v : json) : P v :=
  match v with
  | JNull => Hnull
  | JBool b => Hbool b
  | JNumber l => Hnumber l
  | JString l => Hstring l
  | JArray es => Harray es ((fix go es : Forall (λ e, P e.2) es :=
      match es with [] => Forall_nil_2 _ | e :: es => Forall_cons_2 _ e es (json_ind' e.2) (go es) end) es)
  | JObject ms => Hobject ms ((fix go ms : Forall (λ m, P m.2.2) ms :=
      match ms with [] => Forall_nil_2 _ | m :: ms => Forall_cons_2 _ m ms (json_ind' m.2.2) (go ms) end) ms)
  end.
End json_ind.

(** What a compacted value reads back as: its raw texts are compacted too. *)
Fixpoint norm (v : json) : json :=
  match v with
  | JString l => JString (escape_html l)
  | JArray es => JArray ((λ '(_, e), (compact e, norm e)) <$> es)
  | JObject ms => JObject ((λ '(k, (_, e)), (escape_html k, (compact e, norm e))) <$> ms)
  | _ => v
  end.

(** The text is read as the value at this depth, whatever follows that does not
    continue it. *)
Definition reads (d : N) (t : string) (v : json) : Prop :=
  (∃ a t', t = String a t' ∧ json_space a = false ∧ a ≠ "]"%char) ∧
  ∀ n rest, (2 * String.length t ≤ n)%nat → stops rest = true → value n d (t +:+ rest) = Some (v, rest).

Lemma skip_reads d t v rest : reads d t v → skip (t +:+ rest) = t +:+ rest.
Proof. intros [(a & t' & -> & Ha & _) _]. rewrite str_app_cons. cbn [skip]. by rewrite Ha. Qed.

Definition member_text (m : string * (string * json)) : string := in_quotes m.1 +:+ String ":" m.2.1.

Lemma in_quotes_app k s : in_quotes k +:+ s = String quote (k +:+ String quote s).
Proof. unfold in_quotes. by rewrite str_app_cons, str_app_assoc. Qed.

Lemma join_cons sep s l : l ≠ [] → join sep (s :: l) = s +:+ sep +:+ join sep l.
Proof. destruct l as [|t l]; [done|]. intros _. cbn. by rewrite str_app_assoc. Qed.

Lemma length_join_cons sep s t l :
  String.length (join sep (s :: t :: l)) = (String.length s + String.length sep + String.length (join sep (t :: l)))%nat.
Proof. rewrite join_cons by done. rewrite !length_str_app. lia. Qed.

Lemma skip_member m s : skip (member_text m +:+ s) = member_text m +:+ s.
Proof. unfold member_text. by rewrite str_app_assoc, in_quotes_app. Qed.

Lemma members_reads d ms n rest :
  ms ≠ [] → Forall (λ m, lex m.1 ∧ reads d m.2.1 m.2.2) ms →
  (2 * String.length (join "," (member_text <$> ms)) ≤ n)%nat →
  members n d (join "," (member_text <$> ms) +:+ String "}" rest) = Some (ms, rest).
Proof.
  revert n. induction ms as [|[k [t v]] ms IH]; intros n Hne Hms Hn; [done|].
  apply Forall_cons in Hms as [[Hk Hr] Hms]. cbn [fst snd] in Hk, Hr.
  assert (Hhead : ∀ s, member_text (k, (t, v)) +:+ s = String quote (k +:+ String quote (String ":" (t +:+ s)))).
  { intros s. unfold member_text. cbn [fst snd]. by rewrite str_app_assoc, in_quotes_app. }
  assert (Hlen : (String.length (member_text (k, (t, v))) = String.length k + String.length t + 3)%nat).
  { unfold member_text, in_quotes. cbn [fst snd]. rewrite !length_str_app. cbn [String.length].
    rewrite length_str_app. cbn [String.length]. lia. }
  destruct n as [|n]; [destruct ms; [|rewrite !fmap_cons, length_join_cons in Hn]; cbn in Hn; try lia;
    rewrite str_app_nil_r in Hn; lia|].
  assert (Hstep : ∀ s, members (S n) d (member_text (k, (t, v)) +:+ s) =
    '(v, r3) ← value n d (t +:+ s);
    let m := (k, (consumed (t +:+ s) r3, v)) in
    match expect "," (skip r3) with
    | Some r4 => '(ms, r5) ← members n d (skip r4); Some (m :: ms, r5)
    | None => r4 ← expect "}" (skip r3); Some ([m], r4)
    end).
  { intros s. rewrite Hhead. cbn [members]. rewrite expect_cons. cbn [mbind option_bind].
    rewrite lex_lexeme by done. cbn [mbind option_bind].
    change (skip (String ":" (t +:+ s))) with (String ":" (t +:+ s)). rewrite expect_cons.
    cbn [mbind option_bind]. rewrite (skip_reads d t v s) by done. done. }
  destruct ms as [|m2 ms].
  - cbn [fmap list_fmap join str_concat] in Hn |- *. rewrite str_app_nil_r in Hn |- *. rewrite Hstep.
    destruct Hr as [_ Hr]. rewrite Hr by (done || lia). cbn [mbind option_bind].
    by rewrite consumed_app.
  - rewrite !fmap_cons, length_join_cons in Hn. rewrite fmap_cons, join_cons, !str_app_assoc, Hstep by done.
    destruct Hr as [_ Hr]. rewrite Hr by (done || lia). cbn [mbind option_bind]. rewrite consumed_app.
    change (expect "," (skip ("," +:+ join "," (member_text <$> m2 :: ms) +:+ String "}" rest)))
      with (Some (join "," (member_text <$> m2 :: ms) +:+ String "}" rest)). cbv iota beta zeta.
    assert (Hs : skip (join "," (member_text <$> m2 :: ms) +:+ String "}" rest) =
                 join "," (member_text <$> m2 :: ms) +:+ String "}" rest).
    { rewrite fmap_cons. cbn [join]. rewrite str_app_assoc. apply skip_member. }
    rewrite Hs, IH; [done|done|done|]. rewrite fmap_cons. lia.
Qed.

Lemma elements_reads d es n rest :
  es ≠ [] → Forall (λ e, reads d e.1 e.2) es → (2 * String.length (join "," es.*1) < n)%nat →
  elements n d (join "," es.*1 +:+ String "]" rest) = Some (es, rest).
Proof.
  revert n. induction es as [|[t v] es IH]; intros n Hne Hes Hn; [done|].
  apply Forall_cons in Hes as [Hr Hes]. cbn [fst snd] in Hr. destruct n as [|n]; [lia|].
  destruct es as [|e2 es].
  - cbn [fmap list_fmap join str_concat fst] in Hn |- *. rewrite str_app_nil_r in Hn |- *. cbn [elements].
    destruct Hr as [_ Hr]. rewrite Hr by (done || lia). cbn [mbind option_bind].
    rewrite consumed_app. done.
  - rewrite !fmap_cons, length_join_cons in Hn. cbn [fst] in Hn.
    rewrite fmap_cons, join_cons, !str_app_assoc by done. cbn [elements fst].
    destruct Hr as [_ Hr]. rewrite Hr by (done || lia). cbn [mbind option_bind]. rewrite consumed_app.
    change (expect "," (skip ("," +:+ join "," (e2 :: es).*1 +:+ String "]" rest)))
      with (Some (join "," (e2 :: es).*1 +:+ String "]" rest)). cbv iota beta zeta.
    assert (Hs : skip (join "," (e2 :: es).*1 +:+ String "]" rest) = join "," (e2 :: es).*1 +:+ String "]" rest).
    { rewrite fmap_cons. cbn [join]. rewrite str_app_assoc. apply Forall_cons in Hes as [He2 _].
      by eapply skip_reads. }
    rewrite Hs, IH; [done|done|done|]. rewrite fmap_cons. cbn in Hn |- *. lia.
Qed.

(** A text that starts with none of the marks of a value is a number. *)
Lemma number_head l : number_ok l = true → ∃ a l', l = String a l' ∧ (is_digit a = true ∨ a = "-"%char).
Proof.
  destruct l as [|a l']; [done|]. unfold number_ok. intros Hok. exists a, l'. split; [done|].
  destruct (is_byte 45 a) eqn:Hm; [right; by apply is_byte_eq in Hm|]. left.
  destruct (is_digit a) eqn:Hd; [done|]. exfalso. revert Hok. cbn [after_int].
  assert (H0 : is_byte 48 a = false).
  { destruct (is_byte 48 a) eqn:H0; [|done]. apply is_byte_eq in H0. by subst. }
  rewrite H0. unfold after_digits. cbn [take_while]. by rewrite Hd.
Qed.

Lemma reads_number d l : (∃ s r, number s = Some (l, r)) → reads d l (JNumber l).
Proof.
  intros Hl. destruct Hl as (s & r & Hn). pose proof (number_spec s l r Hn) as (_ & Hok & Ht).
  destruct (number_head l Hok) as (a & l' & -> & Ha).
  assert (Hne : (json_space a = false ∧ a ≠ "]"%char) ∧ Ascii.eqb a quote = false ∧ Ascii.eqb a "{" = false ∧ Ascii.eqb a "[" = false ∧
                Ascii.eqb a "n" = false ∧ Ascii.eqb a "t" = false ∧ Ascii.eqb a "f" = false).
  { destruct Ha as [Ha| ->]; [|done]. rewrite !Ascii.eqb_neq. unfold json_space, is_digit, byte_is, is_byte in *.
    split; [split; [lia|by intros ->]|]. split_and!; intros ->; done. }
  destruct Hne as (Hs & H1 & H2 & H3 & H4 & H5 & H6). split; [by exists a, l'|].
  intros n rest Hfuel Hstop. destruct n as [|n]; [cbn in Hfuel; lia|]. rewrite str_app_cons. cbn [value].
  rewrite H1, H2, H3, H4, H5, H6. rewrite <- str_app_cons, Ht by done. done.
Qed.

Lemma reads_string d l : lex l → reads d (in_quotes l) (JString l).
Proof.
  intros Hl. split; [by eexists _, _|]. intros n rest Hn Hs. rewrite in_quotes_app.
  destruct n as [|n]; [cbn in Hn; lia|]. cbn [value]. rewrite Ascii.eqb_refl, lex_lexeme by done. done.
Qed.

Lemma expect_ne c a s : c ≠ a → expect c (String a s) = None.
Proof. intros Hne. cbn. by destruct (Ascii.eqb_spec a c) as [->|]. Qed.

Lemma reads_object d ms :
  d < max_depth → Forall (λ m, lex m.1 ∧ reads (d + 1) m.2.1 m.2.2) ms →
  reads d (in_braces (join "," (member_text <$> ms))) (JObject ms).
Proof.
  intros Hd Hms. split; [by eexists _, _|]. intros n rest Hn Hs. unfold in_braces in *. cbn [String.length] in Hn.
  rewrite length_str_app in Hn. destruct n as [|n]; [lia|]. rewrite str_app_cons, str_app_assoc. cbn [value].
  change (Ascii.eqb "{" quote) with false. change (Ascii.eqb "{" "{") with true. cbv iota.
  rewrite (proj2 (N.leb_gt _ _)) by done. change ("}" +:+ rest) with (String "}" rest).
  destruct ms as [|m ms]; [done|].
  assert (Hsk : ∀ s, skip (join "," (member_text <$> m :: ms) +:+ s) = join "," (member_text <$> m :: ms) +:+ s).
  { intros s. rewrite fmap_cons. cbn [join]. rewrite str_app_assoc. apply skip_member. }
  assert (Hex : ∀ s, expect "}" (join "," (member_text <$> m :: ms) +:+ s) = None).
  { intros s. rewrite fmap_cons. cbn [join]. unfold member_text at 1. rewrite !str_app_assoc, in_quotes_app.
    by apply expect_ne. }
  rewrite Hsk, Hex, members_reads; [done..|lia].
Qed.

Lemma reads_array d es :
  d < max_depth → Forall (λ e, reads (d + 1) e.1 e.2) es →
  reads d (in_brackets (join "," es.*1)) (JArray es).
Proof.
  intros Hd Hes. split; [by eexists _, _|]. intros n rest Hn Hs. unfold in_brackets in *. cbn [String.length] in Hn.
  rewrite length_str_app in Hn. cbn [String.length] in Hn. destruct n as [|n]; [lia|].
  rewrite str_app_cons, str_app_assoc. cbn [value].
  change (Ascii.eqb "[" quote) with false. change (Ascii.eqb "[" "{") with false.
  change (Ascii.eqb "[" "[") with true. cbv iota.
  rewrite (proj2 (N.leb_gt _ _)) by done. change ("]" +:+ rest) with (String "]" rest).
  destruct es as [|[t v] es]; [done|].
  pose proof Hes as [He _]%Forall_cons. cbn [fst snd] in He. destruct He as [(a & t' & -> & Ha & Hb) _].
  assert (Htext : ∀ s, ∃ s', join "," ((String a t', v) :: es).*1 +:+ s = String a s')
    by (intros s; eexists; reflexivity).
  destruct (Htext (String "]" rest)) as [s' Hs'].
  assert (Hsk : skip (join "," ((String a t', v) :: es).*1 +:+ String "]" rest) =
                join "," ((String a t', v) :: es).*1 +:+ String "]" rest).
  { rewrite Hs'. cbn [skip]. by rewrite Ha. }
  rewrite Hsk. rewrite Hs' at 1. rewrite expect_ne by done. rewrite elements_reads; [done..|lia].
Qed.

Lemma literal_text w v rest : literal w v (w +:+ rest) = Some (v, rest).
Proof. unfold literal, HasPrefix. by rewrite prefix_app, str_drop_app. Qed.

Lemma reads_literal d word v :
  (word, v) ∈ [("null", JNull); ("true", JBool true); ("false", JBool false)]%string → reads d word v.
Proof.
  rewrite !elem_of_cons, elem_of_nil. intros [[= -> ->]|[[= -> ->]|[[= -> ->]|[]]]].
  all: split; [by eexists _, _|]; intros [|n] rest Hn _; [cbn in Hn; lia|].
  - apply (literal_text "null").
  - apply (literal_text "true").
  - apply (literal_text "false").
Qed.

(** A well-formed value, compacted, reads back. *)
Lemma compact_reads v : ∀ d, wf d v → reads d (compact v) (norm v).
Proof.
  induction v as [|b|l|l|es IH|ms IH] using json_ind'; intros d Hwf;
    inversion Hwf as [| |? ? Hnum|? ? Hlex|? ? Hd Hall|? ? Hd Hall]; subst; cbn [compact norm].
  - apply reads_literal. set_solver.
  - apply reads_literal. destruct b; set_solver.
  - by apply reads_number.
  - by apply reads_string, lex_escape_html.
  - replace ((λ '(_, e), compact e) <$> es) with (((λ '(_, e), (compact e, norm e)) <$> es).*1)
      by (rewrite <- list_fmap_compose; apply list_fmap_ext; by intros ? []).
    apply reads_array; [done|]. apply Forall_fmap. rewrite Forall_forall in *. intros [raw e] He. cbn.
    by apply (IH (raw, e)), (Hall (raw, e)).
  - replace ((λ '(k, (_, e)), in_quotes (escape_html k) +:+ String ":" (compact e)) <$> ms)
      with (member_text <$> ((λ '(k, (_, e)), (escape_html k, (compact e, norm e))) <$> ms))
      by (rewrite <- list_fmap_compose; apply list_fmap_ext; by intros ? [? []]).
    apply reads_object; [done|]. apply Forall_fmap. rewrite Forall_forall in *. intros [k [raw e]] He. cbn.
    destruct (Hall (k, (raw, e)) He) as [Hk He']. split; [by apply lex_escape_html|]. by apply (IH (k, (raw, e))).
Qed.

Lemma reads_parse t v : reads 0 t v → parse t = Some (t, v).
Proof.
  intros Hr. unfold parse. pose proof (skip_reads 0 t v "" Hr) as Hs. rewrite str_app_nil_r in Hs. rewrite Hs.
  destruct Hr as [_ Hr]. specialize (Hr (fuel_for t) ""%string ltac:(unfold fuel_for; lia) eq_refl).
  rewrite str_app_nil_r in Hr. rewrite Hr. cbn. rewrite <- (str_app_nil_r t) at 1. by rewrite consumed_app.
Qed.

Lemma parse_wf s raw v : parse s = Some (raw, v) → wf 0 v.
Proof.
  unfold parse. destruct (value _ _ _) as [[v0 r]|] eqn:Hv; [|done]. cbn. case_match; [|done].
  intros [= <- <-]. by eapply value_wf.
Qed.
