(* ===== verification/JsonRaw.v ===== *)
(** The raw text of a value: what the decoder keeps of it ([json.RawMessage])
    reads back as the same value, and so do the maps the encoder writes. *)

From S2P Require Import Prelude.
From S2P Require Import GoStrings.
From S2P Require Import Json.
From S2P Require Import JsonFacts.

Local Open Scope list_scope.
Local Open Scope N_scope.

(** * Raw text *)

(** A text that is not empty and does not start with white space. *)
Definition dense (s : string) : bool :=
  match s with String a _ => negb (json_space a) | EmptyString => false end.

Lemma skip_dense s : dense s = true → skip s = s.
Proof. destruct s as [|a s]; [done|]. cbn. by destruct (json_space a). Qed.

Fixpoint spaces (s : string) : bool :=
  match s with "" => true | String a s => json_space a && spaces s end%string.

Lemma skip_spaces w s : spaces w = true → dense s = true → skip (w +:+ s) = s.
Proof.
  induction w as [|a w IH]; [by intros _; apply skip_dense|]. cbn [spaces]. intros [Ha Hw]%andb_true_iff Hs.
  rewrite str_app_cons. cbn [skip]. rewrite Ha. by apply IH.
Qed.

Lemma skip_split s : ∃ w, spaces w = true ∧ s = w +:+ skip s.
Proof.
  induction s as [|a s (w & Hw & Hs)]; [by exists ""%string|]. cbn [skip]. destruct (json_space a) eqn:Ha.
  - exists (String a w). cbn [spaces]. rewrite Ha, Hw, str_app_cons. split; [done|]. by f_equal.
  - by exists ""%string.
Qed.

Lemma space_stops w c s : spaces w = true → number_char c = false → stops (w +:+ String c s) = true.
Proof.
  destruct w as [|a w]; cbn [spaces]; [intros _ Hc; cbn; by rewrite Hc|].
  intros [Ha _]%andb_true_iff _. cbn. unfold json_space in Ha. rewrite !orb_true_iff in Ha.
  repeat destruct Ha as [Ha|Ha]; apply is_byte_eq in Ha as ->; done.
Qed.

(** What a scanner of the decoder reads, with the fuel it needs, does not depend
    on what follows, on more fuel, or on being less deep. *)
Definition replays {A} (scan : nat → N → string → option (A * string)) (slack : nat) (d : N) (t : string) (x : A)
    (follow : string → Prop) : Prop :=
  ∀ n d' r, (2 * String.length t + slack ≤ n)%nat → d' <= d → follow r → scan n d' (t +:+ r) = Some (x, r).

Definition no_bracket (s : string) : Prop := match s with String a _ => a ≠ "]"%char | EmptyString => True end.

Lemma literal_split w v0 s v r : literal w v0 s = Some (v, r) → v = v0 ∧ s = w +:+ r.
Proof.
  unfold literal. destruct (HasPrefix s w) eqn:Hp; [|done]. intros [= <- <-]. split; [done|].
  by apply HasPrefix_split.
Qed.

Lemma expect_skip c s r :
  expect c (skip s) = Some r → ∃ w, spaces w = true ∧ s = w +:+ String c r.
Proof.
  intros H%expect_Some. destruct (skip_split s) as (w & Hw & Hs). exists w. split; [done|]. by rewrite <- H.
Qed.

Lemma value_literal n d w v rest :
  (w, v) ∈ [("null", JNull); ("true", JBool true); ("false", JBool false)]%string →
  value (S n) d (w +:+ rest) = Some (v, rest).
Proof.
  rewrite !elem_of_cons, elem_of_nil. intros [[= -> ->]|[[= -> ->]|[[= -> ->]|[]]]];
    [apply (literal_text "null")|apply (literal_text "true")|apply (literal_text "false")].
Qed.

Lemma str_app_nil_l (s : string) : ""%string +:+ s = s.
Proof. done. Qed.

Ltac str_norm := repeat first [rewrite str_app_assoc | rewrite str_app_cons | rewrite str_app_nil_l].

Ltac len_norm H := repeat first [rewrite str_app_cons in H | rewrite length_str_app in H | progress cbn [String.length] in H].

(** The three scanners. *)
Definition value_local n := ∀ d s v r, value n d s = Some (v, r) →
  ∃ t, s = t +:+ r ∧ dense t = true ∧ no_bracket t ∧ replays value 0 d t v (λ r, stops r = true).
Definition members_local n := ∀ d s ms r, members n d s = Some (ms, r) →
  ∃ t, s = t +:+ String "}" r ∧ dense t = true ∧
    ∀ n d' r, (2 * String.length t ≤ n)%nat → d' <= d → members n d' (t +:+ String "}" r) = Some (ms, r).
Definition elements_local n := ∀ d s es r, elements n d s = Some (es, r) →
  ∃ t, s = t +:+ String "]" r ∧ dense t = true ∧ no_bracket t ∧
    ∀ n d' r, (2 * String.length t < n)%nat → d' <= d → elements n d' (t +:+ String "]" r) = Some (es, r).

Lemma spaces_app v w : spaces (v +:+ w) = spaces v && spaces w.
Proof. induction v as [|a v IH]; [done|]. rewrite str_app_cons. cbn [spaces]. by rewrite IH, andb_assoc. Qed.

Lemma dense_app s t : dense s = true → dense (s +:+ t) = true.
Proof. by destruct s. Qed.

Lemma skip_next w c s : spaces w = true → json_space c = false → skip (w +:+ String c s) = String c s.
Proof. intros Hw Hc. apply skip_spaces; [done|]. cbn. by rewrite Hc. Qed.

Lemma elements_local_S n : value_local n → elements_local n → elements_local (S n).
Proof.
  intros IHv IHe d s es r. cbn [elements].
  destruct (value n d s) as [[v r1]|] eqn:Hv; [|done]. cbn [mbind option_bind].
  apply IHv in Hv as (t & -> & Hdt & Hbt & Ht). rewrite consumed_app. cbv zeta.
  destruct (expect "," (skip r1)) as [r2|] eqn:Hc.
  - apply expect_skip in Hc as (w & Hw & ->).
    destruct (elements n d (skip r2)) as [[es' r3]|] eqn:He; [|done]. intros [= <- <-].
    apply IHe in He as (t2 & Ht2 & Hdt2 & _ & He). destruct (skip_split r2) as (w2 & Hw2 & Hr2). rewrite Ht2 in Hr2.
    exists (t +:+ w +:+ "," +:+ w2 +:+ t2). rewrite Hr2.
    split; [by rewrite !str_app_assoc|]. split; [by apply dense_app|].
    split; [by destruct t|]. intros n' d' r' Hn Hd. rewrite !length_str_app in Hn. cbn [String.length] in Hn.
    destruct n' as [|n']; [lia|]. rewrite !str_app_assoc. cbn [elements].
    rewrite Ht; [|lia|done|by apply space_stops]. cbn [mbind option_bind]. rewrite consumed_app.
    change ("," +:+ w2 +:+ t2 +:+ String "]" r') with (String "," (w2 +:+ t2 +:+ String "]" r')).
    rewrite skip_next, expect_cons by done. rewrite skip_spaces by (done || by apply dense_app).
    rewrite He by (done || lia). done.
  - destruct (expect "]" (skip r1)) as [r2|] eqn:Hb; [|done]. intros [= <- <-].
    apply expect_skip in Hb as (w & Hw & ->).
    exists (t +:+ w). split; [by rewrite str_app_assoc|]. split; [by apply dense_app|]. split; [by destruct t|].
    intros n' d' r' Hn Hd. rewrite !length_str_app in Hn. destruct n' as [|n']; [lia|].
    rewrite !str_app_assoc. cbn [elements]. rewrite Ht; [|lia|done|by apply space_stops].
    cbn [mbind option_bind]. rewrite consumed_app, skip_next by done.
    rewrite expect_ne, expect_cons by done. done.
Qed.

Lemma members_local_S n : value_local n → members_local n → members_local (S n).
Proof.
  intros IHv IHm d s ms r. cbn [members].
  destruct (expect quote s) as [r0|] eqn:Hq; [|done]. apply expect_Some in Hq as ->. cbn [mbind option_bind].
  destruct (lexeme r0) as [[k r1]|] eqn:Hk; [|done]. apply lexeme_lex in Hk as [Hk ->]. cbn [mbind option_bind].
  destruct (expect ":" (skip r1)) as [r2|] eqn:Hc; [|done]. apply expect_skip in Hc as (w1 & Hw1 & ->).
  cbn [mbind option_bind]. destruct (skip_split r2) as (w2 & Hw2 & Hr2).
  destruct (value n d (skip r2)) as [[v r3]|] eqn:Hv; [|done]. cbn [mbind option_bind].
  apply IHv in Hv as (t & Ht2 & Hdt & _ & Ht). rewrite Ht2 in Hr2 |- *. rewrite consumed_app. cbv zeta. subst r2.
  assert (Hstep : ∀ n' d' r',
    members (S n') d' (String quote (k +:+ String quote (w1 +:+ String ":" (w2 +:+ t +:+ r')))) =
    '(v, r3) ← value n' d' (t +:+ r');
    let m := (k, (consumed (t +:+ r') r3, v)) in
    match expect "," (skip r3) with
    | Some r4 => '(ms, r5) ← members n' d' (skip r4); Some (m :: ms, r5)
    | None => r4 ← expect "}" (skip r3); Some ([m], r4)
    end).
  { intros n' d' r'. cbn [members]. rewrite expect_cons. cbn [mbind option_bind].
    rewrite lex_lexeme by done. cbn [mbind option_bind]. rewrite skip_next, expect_cons by done.
    cbn [mbind option_bind]. rewrite skip_spaces by (done || by apply dense_app). done. }
  destruct (expect "," (skip r3)) as [r4|] eqn:Hc.
  - apply expect_skip in Hc as (w & Hw & ->).
    destruct (members n d (skip r4)) as [[ms' r5]|] eqn:He; [|done]. intros [= <- <-].
    apply IHm in He as (t2 & Ht3 & Hdt2 & He). destruct (skip_split r4) as (w3 & Hw3 & Hr4). rewrite Ht3 in Hr4.
    exists (String quote (k +:+ String quote (w1 +:+ String ":" (w2 +:+ t +:+ w +:+ "," +:+ w3 +:+ t2)))).
    rewrite Hr4. split; [str_norm; done|]. split; [done|]. intros n' d' r' Hn Hd.
    len_norm Hn. destruct n' as [|n']; [lia|]. str_norm. rewrite Hstep.
    rewrite Ht; [|lia|done|by apply space_stops]. cbn [mbind option_bind]. rewrite consumed_app, skip_next, expect_cons by done.
    change (""%string +:+ ?x) with x.
    rewrite skip_spaces by (done || by apply dense_app). rewrite He by (done || lia). done.
  - destruct (expect "}" (skip r3)) as [r4|] eqn:Hb; [|done]. intros [= <- <-].
    apply expect_skip in Hb as (w & Hw & ->).
    exists (String quote (k +:+ String quote (w1 +:+ String ":" (w2 +:+ t +:+ w)))).
    split; [str_norm; done|]. split; [done|]. intros n' d' r' Hn Hd.
    len_norm Hn. destruct n' as [|n']; [lia|]. str_norm. rewrite Hstep.
    rewrite Ht; [|lia|done|by apply space_stops]. cbn [mbind option_bind]. rewrite consumed_app, skip_next by done.
    rewrite expect_ne, expect_cons by done. done.
Qed.


Lemma expect_dense c t x y : dense t = true → expect c (t +:+ x) = None → expect c (t +:+ y) = None.
Proof. destruct t as [|a t]; [done|]. intros _. rewrite !str_app_cons. cbn. by destruct (Ascii.eqb a c). Qed.

(** A value is local when what [value] reads of [s] reads back whatever follows. *)
Definition local_value (d : N) (s : string) (v : json) (r : string) : Prop :=
  ∃ t, s = t +:+ r ∧ dense t = true ∧ no_bracket t ∧ replays value 0 d t v (λ r, stops r = true).

(** Objects and arrays alike: an opening byte, a closing byte, what is between. *)
Section Bracketed.
Context {A} (op cl : ascii) (inner : nat → N → string → option (list A * string)) (mk : list A → json).
Hypothesis op_space : json_space op = false.
Hypothesis op_bracket : op ≠ "]"%char.
Hypothesis cl_space : json_space cl = false.
Hypothesis bracket_value : ∀ n d s, value (S n) d (String op s) =
  if max_depth <=? d then None
  else match expect cl (skip s) with
       | Some r => Some (mk [], r)
       | None => '(xs, r) ← inner n (d + 1) (skip s); Some (mk xs, r)
       end.

Lemma bracket_opens n d d' s : d < max_depth → d' <= d →
  value (S n) d' (String op s) =
  match expect cl (skip s) with
  | Some r => Some (mk [], r)
  | None => '(xs, r) ← inner n (d' + 1) (skip s); Some (mk xs, r)
  end.
Proof. intros Hd Hd'. rewrite bracket_value. by rewrite (proj2 (N.leb_gt max_depth d')) by lia. Qed.

Lemma bracket_local n d s v r :
  (∀ s xs r, inner n (d + 1) s = Some (xs, r) → ∃ t, s = t +:+ String cl r ∧ dense t = true ∧
     ∀ n d' r, (2 * String.length t < n)%nat → d' <= d + 1 → inner n d' (t +:+ String cl r) = Some (xs, r)) →
  value (S n) d (String op s) = Some (v, r) → local_value d (String op s) v r.
Proof using All.
  intros IH. rewrite bracket_value. destruct (N.leb_spec max_depth d) as [|Hlt]; [done|].
  destruct (expect cl (skip s)) as [r0|] eqn:He.
  - intros [= <- <-]. apply expect_skip in He as (w & Hw & ->). exists (String op (w +:+ String cl "")).
    split; [str_norm; done|]. split; [cbn; by rewrite op_space|]. split; [done|].
    intros n' d' r' Hn Hd _. len_norm Hn. destruct n' as [|n']; [lia|]. str_norm.
    by rewrite (bracket_opens _ d), skip_next, expect_cons by done.
  - destruct (inner n (d + 1) (skip s)) as [[xs r0]|] eqn:Hm; [|done]. intros [= <- <-].
    destruct (skip_split s) as (w & Hw & Hs). apply IH in Hm as (t & Ht & Hdt & Hm). rewrite Ht in Hs, He.
    exists (String op (w +:+ t +:+ String cl "")). split; [rewrite Hs; str_norm; done|].
    split; [cbn; by rewrite op_space|]. split; [done|]. intros n' d' r' Hn Hd _. len_norm Hn.
    destruct n' as [|n']; [lia|]. str_norm.
    rewrite (bracket_opens _ d), skip_spaces by (done || by apply dense_app).
    assert (Hx : expect cl (t +:+ String cl r') = None) by by eapply expect_dense.
    by rewrite Hx, Hm by lia.
Qed.
End Bracketed.

Lemma string_local d s l r : lexeme s = Some (l, r) → local_value d (String quote s) (JString l) r.
Proof.
  intros [Hl ->]%lexeme_lex. exists (in_quotes l). rewrite in_quotes_app. repeat (split; [done|]).
  intros n' d' r' Hn _ Hs. destruct (reads_string d' l Hl) as [_ Hr]. apply Hr; [lia|done].
Qed.

Lemma literal_local d w v0 s v r :
  (w, v0) ∈ [("null", JNull); ("true", JBool true); ("false", JBool false)]%string →
  literal w v0 s = Some (v, r) → local_value d s v r.
Proof.
  intros Hin [-> ->]%literal_split. exists w. split; [done|].
  assert (Hw : dense w = true ∧ no_bracket w ∧ (0 < String.length w)%nat).
  { revert Hin. rewrite !elem_of_cons, elem_of_nil.
    intros [[= -> _]|[[= -> _]|[[= -> _]|[]]]]; (split; [done|split; [done|cbn; lia]]). }
  destruct Hw as (Hdw & Hbw & Hlen). do 2 (split; [done|]). intros n' d' r' Hn _ _. destruct n' as [|n']; [lia|].
  by apply value_literal.
Qed.

Lemma number_local d s l r : number s = Some (l, r) → local_value d s (JNumber l) r.
Proof.
  intros Hn. pose proof (number_spec _ _ _ Hn) as (Hs & Hok & _). exists l. split; [done|].
  assert (Hr : ∀ d', reads d' l (JNumber l)) by (intros; apply reads_number; eauto).
  destruct (Hr 0) as [(b & l' & -> & Hsp & Hbr) _]. split; [cbn; by rewrite Hsp|]. split; [done|].
  intros n' d' r' Hn' _ Hst. destruct (Hr d') as [_ Hr']. apply Hr'; [lia|done].
Qed.

Lemma value_local_S n : members_local n → elements_local n → value_local (S n).
Proof.
  intros IHm IHe d [|a s1] v r; [done|]. change (value (S n) d (String a s1) = Some (v, r) → local_value d (String a s1) v r).
  destruct (Ascii.eqb_spec a "{") as [->|Ho].
  { apply (bracket_local "{" "}" members JObject); [done..|]. intros s xs r0 (t & Ht & Hdt & Hm)%IHm.
    exists t. split_and!; [done..|]. intros. apply Hm; [lia|done]. }
  destruct (Ascii.eqb_spec a "[") as [->|Hb].
  { apply (bracket_local "[" "]" elements JArray); [done..|]. intros s xs r0 (t & Ht & Hdt & _ & Hm)%IHe. by exists t. }
  apply Ascii.eqb_neq in Ho, Hb. cbn [value]. rewrite Ho, Hb.
  destruct (Ascii.eqb_spec a quote) as [->|_].
  { destruct (lexeme s1) as [[l r0]|] eqn:Hl; [|done]. intros [= <- <-]. by apply string_local. }
  destruct (Ascii.eqb a "n"); [apply literal_local; set_solver|].
  destruct (Ascii.eqb a "t"); [apply literal_local; set_solver|].
  destruct (Ascii.eqb a "f"); [apply literal_local; set_solver|].
  destruct (number (String a s1)) as [[l r0]|] eqn:Hn; [|done]. intros [= <- <-]. by apply number_local.
Qed.

Lemma scanners_local n : value_local n ∧ members_local n ∧ elements_local n.
Proof.
  induction n as [|n (IHv & IHm & IHe)]; [split; [|split]; intros d s x r; done|].
  split; [by apply value_local_S|]. split; [by apply members_local_S|by apply elements_local_S].
Qed.

(** A value's raw text reads back as the value, no deeper than it stood. *)
Lemma value_reads n d s v r :
  value n d s = Some (v, r) → ∃ t, s = t +:+ r ∧ ∀ d', d' <= d → reads d' t v.
Proof.
  intros Hv. destruct (scanners_local n) as [Hl _]. apply Hl in Hv as (t & -> & Hdt & Hbt & Ht).
  exists t. split; [done|]. intros d' Hd. split.
  - destruct t as [|a t]; [done|]. exists a, t. split; [done|]. split; [|done]. by apply negb_true_iff.
  - intros m rest Hm Hs. apply Ht; [lia|done|done].
Qed.

Lemma members_reads_raw n d s ms r :
  members n d s = Some (ms, r) → Forall (λ m, lex m.1 ∧ reads 0 m.2.1 m.2.2) ms.
Proof.
  revert s ms r. induction n as [|n IH]; intros s ms r; [done|]. cbn [members].
  destruct (expect quote s) as [r0|]; [|done]. cbn [mbind option_bind].
  destruct (lexeme r0) as [[k r1]|] eqn:Hk; [|done]. cbn [mbind option_bind]. apply lexeme_lex in Hk as [Hk _].
  destruct (expect ":" _) as [r2|]; [|done]. cbn [mbind option_bind].
  destruct (value n d (skip r2)) as [[v r3]|] eqn:Hv; [|done]. cbn [mbind option_bind]. cbv zeta.
  assert (Hm : lex k ∧ reads 0 (consumed (skip r2) r3) v).
  { split; [done|]. apply value_reads in Hv as (t & -> & Ht). rewrite consumed_app. apply Ht. lia. }
  destruct (expect "," _) as [r4|].
  - destruct (members n d _) as [[ms' r5]|] eqn:He; [|done]. intros [= <- <-]. apply IH in He. by apply Forall_cons.
  - destruct (expect "}" _) as [r4|]; [|done]. intros [= <- <-]. constructor; [exact Hm|constructor].
Qed.

Lemma elements_reads_raw n d s es r :
  elements n d s = Some (es, r) → Forall (λ e, reads 0 e.1 e.2) es.
Proof.
  revert s es r. induction n as [|n IH]; intros s es r; [done|]. cbn [elements].
  destruct (value n d s) as [[v r1]|] eqn:Hv; [|done]. cbn [mbind option_bind]. cbv zeta.
  assert (Hm : reads 0 (consumed s r1) v).
  { apply value_reads in Hv as (t & -> & Ht). rewrite consumed_app. apply Ht. lia. }
  destruct (expect "," _) as [r2|].
  - destruct (elements n d _) as [[es' r3]|] eqn:He; [|done]. intros [= <- <-]. apply IH in He. by apply Forall_cons.
  - destruct (expect "]" _) as [r2|]; [|done]. intros [= <- <-]. constructor; [exact Hm|constructor].
Qed.

(** * Raw messages *)

(** The raw message of a member or element found inside [d] open arrays and
    objects: it reads as one value. *)
Definition raw_ok (d : N) (raw : raw_message) : Prop := ∃ v, parse raw = Some (raw, v) ∧ wf d v.

(** What the encoder writes for a raw message. *)
Definition compacted (raw : raw_message) : string :=
  match parse raw with Some (_, v) => compact v | None => ""%string end.

Lemma raw_ok_nonempty d raw : raw_ok d raw → raw ≠ ""%string.
Proof. by intros (v & Hv & _) ->. Qed.

Lemma raw_ok_valid d raw : raw_ok d raw → Valid raw = true.
Proof. intros (v & Hv & _). unfold Valid. by rewrite Hv. Qed.

Lemma marshal_raw_ok d raw : raw_ok d raw → marshal_raw raw = Some (compacted raw).
Proof.
  intros Hr. unfold marshal_raw, compacted. rewrite (proj2 (String.eqb_neq raw "")) by by eapply raw_ok_nonempty.
  by destruct Hr as (v & -> & _).
Qed.

Lemma wf_weaken d d' v : wf d v → d' <= d → wf d' v.
Proof.
  revert d d'. induction v as [|b|l|l|es IH|ms IH] using json_ind'; intros d d' Hwf Hd;
    inversion Hwf as [| |? ? Hnum|? ? Hlex|? ? Hlt Hall|? ? Hlt Hall]; subst; constructor; try done; try lia.
  - rewrite Forall_forall in *. intros e He. apply (IH e He (d + 1)); [by apply Hall|lia].
  - rewrite Forall_forall in *. intros m Hm. split; [by apply Hall|]. apply (IH m Hm (d + 1)); [by apply Hall|lia].
Qed.

Lemma raw_ok_weaken d d' raw : raw_ok d raw → d' <= d → raw_ok d' raw.
Proof. intros (v & Hp & Hwf) Hd. exists v. split; [done|]. by eapply wf_weaken. Qed.

(** A compacted message is a raw message again. *)
Definition norm_of (raw : raw_message) : json := match parse raw with Some (_, v) => norm v | None => JNull end.

Lemma compacted_reads d raw : raw_ok d raw → ∀ d', d' <= d → reads d' (compacted raw) (norm_of raw).
Proof.
  intros (v & Hp & Hwf) d' Hd. unfold compacted, norm_of. rewrite Hp. apply compact_reads. by eapply wf_weaken.
Qed.

Lemma norm_wf v d : wf d v → wf d (norm v).
Proof.
  revert d. induction v as [|b|l|l|es IH|ms IH] using json_ind'; intros d Hwf;
    inversion Hwf as [| |? ? Hnum|? ? Hlex|? ? Hlt Hall|? ? Hlt Hall]; subst; cbn [norm]; try done; constructor; try done.
  - by apply lex_escape_html.
  - apply Forall_fmap. rewrite Forall_forall in *. intros [raw e] He. cbn. apply (IH (raw, e)); [done|].
    by apply (Hall (raw, e)).
  - apply Forall_fmap. rewrite Forall_forall in *. intros [k [raw e]] He. cbn.
    destruct (Hall (k, (raw, e)) He) as [Hk Hwe]. split; [by apply lex_escape_html|]. by apply (IH (k, (raw, e))).
Qed.

Lemma compacted_ok d raw : raw_ok d raw → raw_ok d (compacted raw).
Proof.
  intros Hr. exists (norm_of raw). split; [apply reads_parse, (compacted_reads d raw Hr); lia|].
  destruct Hr as (v & Hp & Hwf). unfold norm_of. rewrite Hp. by apply norm_wf.
Qed.

(** The members of an object: valid keys and raw messages one level deeper. *)
Definition member_ok (d : N) (m : string * (string * json)) : Prop :=
  lex m.1 ∧ parse m.2.1 = Some (m.2.1, m.2.2) ∧ wf (d + 1) m.2.2.

Lemma parse_members raw s ms d :
  parse s = Some (raw, JObject ms) → wf d (JObject ms) → Forall (member_ok d) ms.
Proof.
  unfold parse. destruct (value (fuel_for s) 0 (skip s)) as [[v0 r]|] eqn:Hv; [|done]. cbn [mbind option_bind].
  case_match; [|done]. intros [= _ ->] Hwf.
  inversion Hwf as [| | | | |? ? _ Hall]; subst.
  assert (Hr : Forall (λ m, lex m.1 ∧ reads 0 m.2.1 m.2.2) ms).
  { revert Hv. unfold fuel_for. cbn [Nat.mul Nat.add value]. destruct (skip s) as [|a s1]; [done|].
    destruct (Ascii.eqb a quote); [by destruct (lexeme s1) as [[? ?]|]|].
    destruct (Ascii.eqb a "{"); [|].
    - destruct (_ <=? _); [done|]. destruct (expect _ _); [by intros [= <- _]|].
      destruct (members _ _ _) as [[ms' r']|] eqn:Hm; [|done]. intros [= <- _]. by eapply members_reads_raw.
    - destruct (Ascii.eqb a "["); [destruct (_ <=? _); [done|]; destruct (expect _ _); [done|];
        by destruct (elements _ _ _) as [[? ?]|]|].
      unfold literal. repeat case_match; try done. by destruct (number _) as [[? ?]|]. }
  rewrite Forall_forall in *. intros m Hm. destruct (Hr m Hm) as [Hk Hrd]. split; [done|].
  split; [by apply reads_parse|]. by apply Hall.
Qed.

Lemma member_raw_ok d m : member_ok d m → raw_ok (d + 1) m.2.1.
Proof. intros (_ & Hp & Hwf). by exists m.2.2. Qed.

(** * Maps of raw messages *)

(** What decoding leaves in a map found at depth [d]: valid keys and raw
    messages. *)
Definition good_map (d : N) (m : raw_map) : Prop := map_Forall (λ k raw, valid_utf8 k ∧ raw_ok (d + 1) raw) m.

Lemma good_map_empty d : good_map d ∅.
Proof. apply map_Forall_empty. Qed.

Lemma good_map_insert d k raw m : valid_utf8 k → raw_ok (d + 1) raw → good_map d m → good_map d (<[k := raw]> m).
Proof. intros. by apply map_Forall_insert_2. Qed.

Lemma add_members_good d ms m : Forall (member_ok d) ms → good_map d m → good_map d (add_members ms m).
Proof.
  revert m. induction ms as [|[k [raw v]] ms IH]; intros m Hms Hm; [done|].
  apply Forall_cons in Hms as [Hk Hms]. apply IH; [done|]. apply good_map_insert; [|by apply member_raw_ok in Hk|done].
  apply unquote_valid, Hk.
Qed.

Lemma decode_map_good d raw v m m' :
  parse raw = Some (raw, v) → wf d v → (∀ x, m = Some x → good_map d x) →
  decode_map v m = Some (Some m') → good_map d m'.
Proof.
  destruct v as [| | | | |ms]; try done. intros Hp Hwf Hm [= <-]. apply add_members_good.
  - by eapply parse_members.
  - destruct m; cbn; [by apply Hm|apply good_map_empty].
Qed.

Lemma unmarshal_map_good s m : unmarshal_map s = Some (Some m) → good_map 0 m.
Proof.
  unfold unmarshal_map. destruct (parse s) as [[raw v]|] eqn:Hp; [|done]. cbn [mbind option_bind].
  destruct v as [| | | | |ms]; try done. intros [= <-].
  apply add_members_good; [|apply good_map_empty]. eapply parse_members; [done|]. by eapply parse_wf.
Qed.

Lemma mapM_Some_fmap {A B} (f : A → option B) (g : A → B) l :
  (∀ x, x ∈ l → f x = Some (g x)) → mapM f l = Some (g <$> l).
Proof.
  induction l as [|x l IH]; intros Hf; [done|]. cbn. rewrite Hf by set_solver. cbn.
  rewrite IH; [done|]. intros y Hy. apply Hf. set_solver.
Qed.

Lemma elem_of_sorted_members {A} (m : gmap string A) k x : (k, x) ∈ sorted_members m ↔ m !! k = Some x.
Proof. unfold sorted_members. by rewrite elem_of_sort_by, elem_of_map_to_list. Qed.

Lemma NoDup_sorted_keys {A} (m : gmap string A) : NoDup (sorted_members m).*1.
Proof. apply NoDup_fmap_sort_by, NoDup_fst_map_to_list. Qed.

(** An object whose keys are valid, each once, decodes to the map of its members. *)
Lemma add_members_lookup (l : list (string * raw_message)) ms m :
  NoDup l.*1 → Forall2 (λ p m, unquote m.1 = p.1 ∧ m.2.1 = p.2) l ms →
  ∀ k, add_members ms m !! k =
    match (list_to_map l : gmap string raw_message) !! k with Some raw => Some raw | None => m !! k end.
Proof.
  intros Hnd Hms. revert m. induction Hms as [|[k raw] [k' [raw' v]] l ms [Hk Hr] Hms IH]; intros m k2.
  - done.
  - cbn [fst snd] in Hk, Hr. subst. rewrite fmap_cons in Hnd. apply NoDup_cons in Hnd as [Hk Hnd].
    change (add_members _ m) with (add_members ms (<[unquote k' := raw]> m)). rewrite IH by done.
    rewrite list_to_map_cons. destruct (decide (unquote k' = k2)) as [<-|Hne].
    + cbn [fst] in Hk. rewrite not_elem_of_list_to_map_1 by done. by rewrite !lookup_insert_eq.
    + by rewrite !lookup_insert_ne by done.
Qed.

(** What the encoder writes for a list of members, read back. *)
Definition norm_members (l : list (string * raw_message)) : list (string * (string * json)) :=
  (λ p, (quoted p.1, (compacted p.2, norm_of p.2))) <$> l.

Definition members_text (l : list (string * raw_message)) : string :=
  object_text (prod_map id compacted <$> l).

Definition members_good (d : N) (l : list (string * raw_message)) : Prop :=
  Forall (λ p, valid_utf8 p.1 ∧ raw_ok (d + 1) p.2) l.

Lemma members_text_reads d l d' :
  d < max_depth → members_good d l → d' <= d → reads d' (members_text l) (JObject (norm_members l)).
Proof.
  intros Hlt Hl Hd.
  replace (members_text l) with (in_braces (join "," (member_text <$> norm_members l)))
    by (unfold members_text, object_text, norm_members; by rewrite <- !list_fmap_compose).
  apply reads_object; [lia|]. unfold norm_members. apply Forall_fmap.
  eapply Forall_impl; [exact Hl|]. intros [k raw] [_ Hr]. split; [apply lex_quoted|].
  apply (compacted_reads (d + 1)); [done|lia].
Qed.

Lemma members_text_map d l :
  d < max_depth → members_good d l → NoDup l.*1 →
  unmarshal_map (members_text l) = Some (Some (compacted <$> list_to_map l)).
Proof.
  intros Hlt Hl Hnd. pose proof (members_text_reads d l 0 Hlt Hl ltac:(lia)) as Hr. apply reads_parse in Hr.
  unfold unmarshal_map. rewrite Hr. cbn [mbind option_bind decode_map]. do 2 f_equal. apply map_eq. intros k.
  rewrite (add_members_lookup (prod_map id compacted <$> l) (norm_members l)).
  - cbn [from_option id]. rewrite lookup_empty, lookup_fmap, list_to_map_fmap, lookup_fmap.
    by destruct (list_to_map l !! k).
  - rewrite <- list_fmap_compose. exact Hnd.
  - unfold norm_members. apply Forall2_fmap, Forall_Forall2_diag. eapply Forall_impl; [exact Hl|].
    intros [k' raw] [Hk _]. split; [|done]. by apply unquote_quoted.
Qed.

(** What the encoder writes for a decoded map decodes to the same members,
    compacted. *)
Lemma marshal_raw_map_ok d m :
  d < max_depth → good_map d m → ∃ t, marshal_raw_map m = Some t ∧ (∃ v, ∀ d', d' <= d → reads d' t v) ∧
    unmarshal_map t = Some (Some (compacted <$> m)) ∧ HasPrefix t "{" = true.
Proof.
  intros Hlt Hm. set (l := sorted_members m).
  assert (Hl : members_good d l).
  { apply Forall_forall. intros [k raw] Hin. apply elem_of_sorted_members in Hin. by apply (Hm k raw). }
  exists (members_text l). split; [|split; [|split]].
  - unfold marshal_raw_map. rewrite (mapM_Some_fmap _ (prod_map id compacted)); [done|].
    intros [k raw] Hin. unfold members_good in Hl. rewrite Forall_forall in Hl. destruct (Hl _ Hin) as [_ Hr].
    cbn [snd] in Hr. by rewrite (marshal_raw_ok _ _ Hr).
  - eexists. intros d' Hd. by apply (members_text_reads d).
  - rewrite (members_text_map d) by (done || apply NoDup_sorted_keys). do 3 f_equal.
    apply map_eq. intros k. destruct (m !! k) as [raw|] eqn:Hk.
    + apply elem_of_list_to_map_1; [apply NoDup_sorted_keys|]. by apply elem_of_sorted_members.
    + apply not_elem_of_list_to_map_1. intros ([k' raw] & -> & Hin)%list_elem_of_fmap.
      apply elem_of_sorted_members in Hin. cbn in Hk. congruence.
  - apply (prefix_app "{").
Qed.

Lemma marshal_bool_ok d b : raw_ok d (marshal_bool b) ∧ compacted (marshal_bool b) = marshal_bool b.
Proof. split; [|by destruct b]. exists (JBool b). split; [by destruct b|constructor]. Qed.

Lemma marshal_string_ok d s : raw_ok d (marshal_string s).
Proof.
  exists (JString (quoted s)). split; [|constructor; apply lex_quoted].
  apply reads_parse, reads_string, lex_quoted.
Qed.

(** A list of raw messages. *)
Lemma marshal_raw_list_ok d l :
  d < max_depth → Forall (raw_ok (d + 1)) l →
  marshal_raw_list l = Some (array_text (compacted <$> l)) ∧
  (∀ d', d' <= d → reads d' (array_text (compacted <$> l)) (JArray ((λ raw, (compacted raw, norm_of raw)) <$> l))) ∧
  raw_ok d (array_text (compacted <$> l)).
Proof.
  intros Hlt Hl.
  assert (Hr : ∀ d', d' <= d →
    reads d' (array_text (compacted <$> l)) (JArray ((λ raw, (compacted raw, norm_of raw)) <$> l))).
  { intros d' Hd. replace (compacted <$> l) with (((λ raw, (compacted raw, norm_of raw)) <$> l).*1)
      by (by rewrite <- list_fmap_compose).
    apply reads_array; [lia|]. apply Forall_fmap. eapply Forall_impl; [exact Hl|]. intros raw Hraw.
    apply (compacted_reads (d + 1)); [done|lia]. }
  split; [|split; [done|]].
  - unfold marshal_raw_list. rewrite (mapM_Some_fmap _ compacted); [done|]. intros raw Hin.
    rewrite Forall_forall in Hl. by eapply marshal_raw_ok, Hl.
  - eexists. split; [apply reads_parse, Hr; lia|]. constructor; [done|]. apply Forall_fmap.
    eapply Forall_impl; [exact Hl|]. intros raw Hraw. destruct (compacted_ok _ _ Hraw) as (v & Hp & Hv).
    cbn. destruct Hraw as (v0 & Hp0 & Hv0). unfold norm_of. rewrite Hp0. by apply norm_wf.
Qed.

(** Decoding into a struct keeps what every member keeps. *)
Lemma decode_struct_ind {A} (P : A → Prop) (field : string → string → json → A → option A) d raw v a a' :
  parse raw = Some (raw, v) → wf d v →
  (∀ k r x b b', member_ok d (k, (r, x)) → P b → field k r x b = Some b' → P b') →
  P a → decode_struct field v a = Some a' → P a'.
Proof.
  intros Hp Hwf Hf Ha. destruct v as [| | | | |ms]; try done; [by intros [= <-]|]. cbn [decode_struct].
  pose proof (parse_members _ _ _ _ Hp Hwf) as Hms. clear Hp Hwf. revert a Ha.
  assert (Hnone : ∀ l, foldl (λ (acc : option A) '(k, (r, x)), b ← acc; field k r x b) None l = None)
    by (induction l as [|[? [? ?]] l IH]; [done|exact IH]).
  induction ms as [|[k [r x]] ms IH]; intros a Ha; cbn [foldl mbind option_bind]; [by intros [= <-]|].
  apply Forall_cons in Hms as [Hm Hms]. destruct (field k r x a) as [b|] eqn:Hb; [|by rewrite Hnone].
  apply IH; [done|]. by eapply Hf.
Qed.

Lemma parse_raw s raw v : parse s = Some (raw, v) → parse raw = Some (raw, v).
Proof.
  unfold parse at 1. destruct (value (fuel_for s) 0 (skip s)) as [[v0 r]|] eqn:Hv; [|done]. cbn [mbind option_bind].
  case_match; [|done]. intros [= <- <-]. apply value_reads in Hv as (t & -> & Ht). rewrite consumed_app.
  apply reads_parse, Ht. lia.
Qed.

(** How many arrays and objects stand inside each other. *)
Fixpoint nesting (v : json) : N :=
  match v with
  | JArray es => 1 + foldr N.max 0 ((λ '(_, e), nesting e) <$> es)
  | JObject ms => 1 + foldr N.max 0 ((λ '(_, (_, e)), nesting e) <$> ms)
  | _ => 0
  end.

Lemma foldr_max_le (l : list N) n : n ∈ l → n <= foldr N.max 0 l.
Proof. induction l as [|m l IH]; [by intros ?%not_elem_of_nil|]. cbn. intros [->|Hn]%elem_of_cons; [lia|]. specialize (IH Hn). lia. Qed.

Lemma wf_nesting v : ∀ d d', wf d v → nesting v + d' <= max_depth → wf d' v.
Proof.
  induction v as [|b|l|l|es IH|ms IH] using json_ind'; intros d d' Hwf Hn;
    inversion Hwf as [| |? ? Hnum|? ? Hlex|? ? Hlt Hall|? ? Hlt Hall]; subst; constructor; try done.
  all: cbn [nesting] in Hn; try lia; rewrite Forall_forall in *.
  - intros [raw e] He. cbn. apply (IH (raw, e) He (d + 1)); [by apply (Hall (raw, e))|]. cbn.
    assert (nesting e <= foldr N.max 0 ((λ '(_, e), nesting e) <$> es)); [|lia].
    apply foldr_max_le, list_elem_of_fmap. by exists (raw, e).
  - intros [k [raw e]] He. cbn. destruct (Hall (k, (raw, e)) He) as [Hk Hw]. split; [done|].
    apply (IH (k, (raw, e)) He (d + 1)); [done|]. cbn.
    assert (nesting e <= foldr N.max 0 ((λ '(_, (_, e)), nesting e) <$> ms)); [|lia].
    apply foldr_max_le, list_elem_of_fmap. by exists (k, (raw, e)).
Qed.
