(* ===== verification/NetUrl.v ===== *)
(** What the program reads of [net/url]: the fields of a parsed URL, the path as
    it is written ([EscapedPath]), and the parser, which is left open: the theorems
    hold for any. *)

From S2P Require Import Prelude.
From S2P Require Import GoStrings.

Local Open Scope N_scope.

(** What the code reads of a parsed [net/url.URL]: the fields, and the result of
    the method [Hostname]. *)
Record URL := {
  url_Scheme : string; url_User : option string; url_Host : string; url_Path : string;
  url_RawQuery : string; url_ForceQuery : bool; url_Fragment : string;
  url_Hostname : string; url_RawPath : string
}.

Definition IsAbs (u : URL) : bool := negb (String.eqb (url_Scheme u) "").

(** * The path as it is written *)

Definition is_alnum (a : ascii) : bool := is_digit a || byte_is 65 90 a || byte_is 97 122 a.

(** [shouldEscape] of a byte in a path. *)
Definition shouldEscape (a : ascii) : bool := negb (is_alnum a || in_set "-_.~$&+,/:;=@" a).

(** [escape]: [%] and two digits in upper case. *)
Fixpoint escape (s : string) : string :=
  match s with
  | EmptyString => EmptyString
  | String a s =>
      if shouldEscape a then
        String "%" (String (to_upper (hex_digit (N_of_ascii a / 16)))
          (String (to_upper (hex_digit (N_of_ascii a mod 16))) (escape s)))
      else String a (escape s)
  end.

(** [validEncoded]. *)
Definition valid_encoded_byte (a : ascii) : bool := in_set "!$&'()*+,;=:@[]%" a || negb (shouldEscape a).
Definition validEncoded (s : string) : bool := negb (str_existsb (λ a, negb (valid_encoded_byte a)) s).

Definition unhex (a : ascii) : option N :=
  let n := N_of_ascii a in
  if is_digit a then Some (n - 48)
  else if byte_is 97 102 a then Some (n - 87)
  else if byte_is 65 70 a then Some (n - 55)
  else None.

(** [unescape] in a path. *)
Fixpoint unescape (s : string) : option string :=
  match s with
  | EmptyString => Some EmptyString
  | String a s1 =>
      if Ascii.eqb a "%" then
        match s1 with
        | String h (String l s2) =>
            match unhex h, unhex l with
            | Some h, Some l => String (ascii_of_N (16 * h + l)) <$> unescape s2
            | _, _ => None
            end
        | _ => None
        end
      else String a <$> unescape s1
  end.

(** [URL.EscapedPath]: the raw path if it is an encoding of the path. *)
Definition EscapedPath (path rawpath : string) : string :=
  if negb (String.eqb rawpath "") && validEncoded rawpath && bool_decide (unescape rawpath = Some path) then rawpath
  else if String.eqb path "*" then "*" else escape path.

Definition url_EscapedPath (u : URL) : string := EscapedPath (url_Path u) (url_RawPath u).

Example escaped_paths :
  (EscapedPath "/a b" "", EscapedPath "/a/b" "/a%2Fb", EscapedPath "/a/b" "/a%2fc", EscapedPath "/a?" "/a%3F") =
  ("/a%20b", "/a%2Fb", "/a/b", "/a%3F")%string.
Proof. reflexivity. Qed.

(** The default encoding starts and ends a path with a slash where the path does. *)
Lemma escape_slash s : HasPrefix s "/" = true → HasPrefix (escape s) "/" = true.
Proof.
  destruct s as [|a s]; [done|]. unfold HasPrefix. cbn [String.prefix]. destruct (ascii_dec "/" a) as [<-|]; [|done].
  intros _. change (escape (String "/" s)) with (String "/" (escape s)). cbn [String.prefix].
  destruct (ascii_dec "/" "/"); [by destruct (escape s)|done].
Qed.

Lemma EscapedPath_slash path rawpath :
  HasPrefix path "/" = true → rawpath = ""%string ∨ HasPrefix rawpath "/" = true →
  HasPrefix (EscapedPath path rawpath) "/" = true.
Proof.
  intros Hp Hr. unfold EscapedPath. destruct (_ && bool_decide _) eqn:Hu.
  - destruct Hr as [->|Hr]; [done|exact Hr].
  - destruct (String.eqb_spec path "*") as [->|]; [done|]. by apply escape_slash.
Qed.

(** [url.Parse], [None] on an error: the operations work with any parser. *)
Class UrlParser := url_Parse : string → option URL.
