(* ===== verification/NetHttp.v ===== *)
(** What the program uses of [net/http] on the wire: canonical names of headers,
    the operations of [http.Header], and a request as the server hands it over. *)

From S2P Require Import Prelude.
From S2P Require Import GoStrings.
From S2P Require Import NetUrl.

Local Open Scope list_scope.

(** * Names of headers *)

(** The bytes of a token of RFC 7230. *)
Definition header_byte (a : ascii) : bool :=
  is_digit a || byte_is 65 90 a || byte_is 97 122 a || in_set "!#$%&'*+-.^_`|~" a.

Fixpoint all_bytes (p : ascii → bool) (s : string) : bool :=
  match s with EmptyString => true | String a s => p a && all_bytes p s end.

Fixpoint canonical_from (upper : bool) (s : string) : string :=
  match s with
  | EmptyString => ""
  | String a s => let c := if upper then to_upper a else to_lower a in String c (canonical_from (is_byte 45 c) s)
  end.

(** [textproto.CanonicalMIMEHeaderKey]: a name with another byte stays. *)
Definition CanonicalMIMEHeaderKey (s : string) : string :=
  if all_bytes header_byte s then canonical_from true s else s.

Example canonical_names :
  CanonicalMIMEHeaderKey <$> ["x-api-key"; "AUTHORIZATION"; "content-TYPE"; "a b"; "openai-beta"]%string =
  ["X-Api-Key"; "Authorization"; "Content-Type"; "a b"; "Openai-Beta"]%string.
Proof. reflexivity. Qed.

(** * Headers with their lines *)

Abbreviation Header := (gmap string (list string)).

(** [h[key]], for a name that is canonical. *)
Definition hdr_lines (h : Header) (key : string) : list string := default [] (h !! key).

Definition hdr_Get (h : Header) (key : string) : string :=
  default ""%string (head (hdr_lines h (CanonicalMIMEHeaderKey key))).
Definition hdr_Set (h : Header) (key value : string) : Header := <[CanonicalMIMEHeaderKey key := [value]]> h.
Definition hdr_Del (h : Header) (key : string) : Header := delete (CanonicalMIMEHeaderKey key) h.
Definition hdr_has (h : Header) (key : string) : bool := bool_decide (is_Some (h !! key)).

Definition blank_bytes : string := String " " (String "009" (String "010" (String "013" ""))).

(** [textproto.TrimString], and the white space within a line of a header. *)
Definition TrimString (s : string) : string := Trim s blank_bytes.
Definition trimOWS (s : string) : string := Trim s (String " " (String "009" "")).

(** [httpguts.HeaderValuesContainsToken]. *)
Definition HeaderValuesContainsToken (values : list string) (token : string) : bool :=
  existsb (λ v, existsb (λ part, EqualFold (trimOWS part) token) (Split v ",")) values.

Lemma hdr_Set_ne h key value k : CanonicalMIMEHeaderKey key ≠ k → hdr_Set h key value !! k = h !! k.
Proof. intros Hk. unfold hdr_Set. by rewrite lookup_insert_ne. Qed.

Lemma hdr_Del_ne h key k : CanonicalMIMEHeaderKey key ≠ k → hdr_Del h key !! k = h !! k.
Proof. intros Hk. unfold hdr_Del. by rewrite lookup_delete_ne. Qed.

(** What a series of deletions leaves. *)
Lemma hdr_Del_all (l : list string) h k :
  foldl hdr_Del h l !! k = if bool_decide (k ∈ CanonicalMIMEHeaderKey <$> l) then None else h !! k.
Proof.
  revert h. induction l as [|x l IH]; intros h; [done|]. cbn [foldl]. rewrite IH. cbn [fmap list_fmap].
  destruct (decide (CanonicalMIMEHeaderKey x = k)) as [<-|Hne].
  - rewrite (bool_decide_true (_ ∈ _ :: _)) by left. case_match; [done|]. apply lookup_delete_eq.
  - rewrite hdr_Del_ne by done.
    rewrite (bool_decide_ext (k ∈ CanonicalMIMEHeaderKey x :: _) (k ∈ CanonicalMIMEHeaderKey <$> l)); [done|].
    rewrite elem_of_cons. naive_solver.
Qed.

(** * Requests *)

(** [http.Request] as far as it is forwarded; [hr_Body] is what reading it gives. *)
Record server_request := {
  hr_Method : string; hr_URL : URL; hr_Host : string; hr_Header : Header; hr_ContentLength : Z;
  hr_Body : res string; hr_RemoteAddr : string
}.

(** A request that the transport may send again: it has no body, and its method
    or a header says that it is idempotent. *)
Definition no_body (r : server_request) : bool := (hr_ContentLength r =? 0)%Z.
Definition isReplayable (r : server_request) : bool :=
  no_body r && (bool_decide (hr_Method r ∈ ["GET"; "HEAD"; "OPTIONS"; "TRACE"]%string) ||
                hdr_has (hr_Header r) "Idempotency-Key" || hdr_has (hr_Header r) "X-Idempotency-Key").
