(* ===== verification/GoConv.v ===== *)
(** The conversions of the standard library that reading the configuration
    uses: [strconv.Atoi] and [ParseBool], [time.ParseDuration] with its binary64
    fractions, [net.SplitHostPort], and a few functions of [strings]. *)

From Stdlib Require Import SpecFloat.
From S2P Require Import Prelude.
From S2P Require Import GoStrings.
From S2P Require Import Schema.
From S2P Require Import Stores.

Local Open Scope list_scope.
Local Open Scope N_scope.

(** * strconv *)

(** [strconv.Atoi] into an [int] of 64 bits. *)
Definition Atoi (s : string) : option Z :=
  let '(neg, digits) := match s with
                        | String a s' => if is_byte 45 a then (true, s') else if is_byte 43 a then (false, s') else (false, s)
                        | EmptyString => (false, s)
                        end in
  n ← match digits with EmptyString => None | _ => parse_digits 0 digits end;
  if neg then (if n <=? 2 ^ 63 then Some (- Z.of_N n)%Z else None)
  else if n <? 2 ^ 63 then Some (Z.of_N n) else None.

Definition ParseBool (s : string) : option bool :=
  if bool_decide (s ∈ ["1"; "t"; "T"; "true"; "TRUE"; "True"]%string) then Some true
  else if bool_decide (s ∈ ["0"; "f"; "F"; "false"; "FALSE"; "False"]%string) then Some false
  else None.

(** * strings *)

(** [strings.ToUpper] of text without runes outside ASCII. *)
Definition ToUpper (s : string) : string := str_map to_upper s.

(** [strings.ReplaceAll] of one byte by another. *)
Definition replace_byte (a b : ascii) (s : string) : string :=
  str_map (λ c, if Ascii.eqb c a then b else c) s.

(** [strings.IndexByte] and the last index. *)
Fixpoint IndexByte (s : string) (a : ascii) : option nat :=
  match s with
  | EmptyString => None
  | String b s => if Ascii.eqb b a then Some O else S <$> IndexByte s a
  end.

Fixpoint LastIndexByte (s : string) (a : ascii) : option nat :=
  match s with
  | EmptyString => None
  | String b s => match LastIndexByte s a with
                  | Some i => Some (S i)
                  | None => if Ascii.eqb b a then Some O else None
                  end
  end.

(** * net.SplitHostPort *)

Definition addrErr (addr why : string) : gerror := Opaque ("address " +:+ addr +:+ ": " +:+ why).

Definition missingPort : string := "missing port in address".
Definition tooManyColons : string := "too many colons in address".

(** The host and the port, or what is wrong with the address. *)
Definition SplitHostPort (hostport : string) : res (string * string) :=
  match LastIndexByte hostport ":" with
  | None => Err (addrErr hostport missingPort)
  | Some i =>
      let finish host j k :=
        if str_existsb (Ascii.eqb "[") (str_drop j hostport)
        then Err (addrErr hostport "unexpected '[' in address")
        else if str_existsb (Ascii.eqb "]") (str_drop k hostport)
        then Err (addrErr hostport "unexpected ']' in address")
        else Ok (host, str_drop (S i) hostport) in
      if HasPrefix hostport "[" then
        match IndexByte hostport "]" with
        | None => Err (addrErr hostport "missing ']' in address")
        | Some close =>
            if bool_decide (S close = String.length hostport) then Err (addrErr hostport missingPort)
            else if bool_decide (S close = i) then finish (substring 1 (close - 1) hostport) 1%nat (S close)
            else if HasPrefix (str_drop (S close) hostport) ":" then Err (addrErr hostport tooManyColons)
            else Err (addrErr hostport missingPort)
        end
      else
        let host := substring 0 i hostport in
        if str_existsb (Ascii.eqb ":") host then Err (addrErr hostport tooManyColons)
        else finish host O O
  end%string.

(** * time.ParseDuration *)

(** binary64: 53 bits of precision, the exponent below 1024. *)
Definition float_of_N (n : N) : spec_float :=
  binary_normalize 53 1024 (Z.of_N n) 0 false.
Definition float_mul : spec_float → spec_float → spec_float := SFmul 53 1024.
Definition float_div : spec_float → spec_float → spec_float := SFdiv 53 1024.

(** The conversion to [uint64] of a float that is not negative and fits. *)
Definition uint64_of_float (f : spec_float) : N :=
  match f with
  | S754_finite false m e => Z.to_N (Z.shiftl (Zpos m) e)
  | _ => 0
  end.

(** The digits of a number up to 2^63; [None] on overflow. *)
Fixpoint leadingInt (x : N) (s : string) : option (N * string) :=
  match s with
  | String c s' =>
      if is_digit c then
        if 2 ^ 63 / 10 <? x then None
        else let x := x * 10 + digit_value c in if 2 ^ 63 <? x then None else leadingInt x s'
      else Some (x, s)
  | EmptyString => Some (x, s)
  end.

(** The digits of a fraction; those that no longer fit are skipped. *)
Fixpoint leadingFraction (overflow : bool) (x : N) (scale : spec_float) (s : string) : N * spec_float * string :=
  match s with
  | String c s' =>
      if is_digit c then
        if overflow || ((2 ^ 63 - 1) / 10 <? x) then leadingFraction true x scale s'
        else let y := x * 10 + digit_value c in
             if 2 ^ 63 <? y then leadingFraction true x scale s'
             else leadingFraction false y (float_mul scale (float_of_N 10)) s'
      else (x, scale, s)
  | EmptyString => (x, scale, s)
  end.

(** The unit: everything up to the next digit or point. *)
Fixpoint unit_name (s : string) : string * string :=
  match s with
  | String c s' =>
      if is_byte 46 c || is_digit c then (EmptyString, s)
      else let (u, r) := unit_name s' in (String c u, r)
  | EmptyString => (EmptyString, s)
  end.

Definition micro_sign : string := String "194"%char (String "181"%char "s").
Definition micro_greek : string := String "206"%char (String "188"%char "s").

Definition unitMap (u : string) : option N :=
  if String.eqb u "ns" then Some 1
  else if String.eqb u "us" || String.eqb u micro_sign || String.eqb u micro_greek then Some 1000
  else if String.eqb u "ms" then Some 1000000
  else if String.eqb u "s" then Some 1000000000
  else if String.eqb u "m" then Some (60 * 1000000000)
  else if String.eqb u "h" then Some (3600 * 1000000000)
  else None.

(** One number with its unit, and what follows it. *)
Definition duration_item (s : string) : option (N * string) :=
  match s with
  | EmptyString => None
  | String c _ =>
      if negb (is_byte 46 c || is_digit c) then None else
      '(v, s1) ← leadingInt 0 s;
      let pre := negb (bool_decide (String.length s = String.length s1)) in
      let '(f, scale, s2, post) :=
        match s1 with
        | String p s1' =>
            if is_byte 46 p then
              let '(f, scale, s2) := leadingFraction false 0 (float_of_N 1) s1' in
              (f, scale, s2, negb (bool_decide (String.length s1' = String.length s2)))
            else (0, float_of_N 1, s1, false)
        | EmptyString => (0, float_of_N 1, s1, false)
        end in
      if negb (pre || post) then None else
      let (u, s3) := unit_name s2 in
      u ← unitMap u;
      if 2 ^ 63 / u <? v then None else
      let v := v * u in
      let v := if 0 <? f then v + uint64_of_float (float_mul (float_of_N f) (float_div (float_of_N u) scale)) else v in
      if 2 ^ 63 <? v then None else Some (v, s3)
  end.

(** The sum of the items; each takes at least one byte. *)
Fixpoint duration_sum (fuel : nat) (d : N) (s : string) : option N :=
  match s with
  | EmptyString => Some d
  | _ => match fuel with
         | O => None
         | S fuel =>
             '(v, s) ← duration_item s;
             if 2 ^ 63 <? d + v then None else duration_sum fuel (d + v) s
         end
  end.

Definition duration_sign (s : string) : bool * string :=
  match s with
  | String c s' => if is_byte 45 c then (true, s') else if is_byte 43 c then (false, s') else (false, s)
  | EmptyString => (false, s)
  end.

(** A duration in nanoseconds, in 64 bits. *)
Definition ParseDuration (s : string) : option time :=
  let (neg, s) := duration_sign s in
  if String.eqb s "0" then Some 0%Z
  else if String.eqb s "" then None
  else d ← duration_sum (String.length s) 0 s;
       if neg then Some (if d =? 2 ^ 63 then (- 2 ^ 63)%Z else (- Z.of_N d)%Z)
       else if 2 ^ 63 - 1 <? d then None else Some (Z.of_N d).

(** * Examples *)

Example durations :
  ParseDuration <$> ["15m"; "1h30m"; "1.5s"; "-2m"; "0"; ".5h"; "300ms"; "9223372036854775807ns"]%string =
    Some <$> [15 * minute; 90 * minute; 1500 * millisecond; - 2 * minute; 0; 30 * minute; 300 * millisecond;
              9223372036854775807]%Z.
Proof. vm_compute. reflexivity. Qed.

Example no_durations :
  ParseDuration <$> [""; "soon"; "10"; "1d"; "."; ".s"; "-"; "1 s"; "9223372036854775808ns"; "2562048h"]%string =
    [None; None; None; None; None; None; None; None; None; None].
Proof. vm_compute. reflexivity. Qed.

Example addresses :
  SplitHostPort <$> [":8080"; "127.0.0.1:9090"; "[::1]:50051"; "host:"]%string =
    Ok <$> [("", "8080"); ("127.0.0.1", "9090"); ("::1", "50051"); ("host", "")]%string.
Proof. vm_compute. reflexivity. Qed.

Example no_addresses :
  (λ s, match SplitHostPort s with Err e => Some (error_text e) | _ => None end) <$>
    ["8080"; "::1:80"; "[::1"; "[::1]80:1"; "a[b:1"; ""]%string =
  Some <$> ["address 8080: missing port in address"; "address ::1:80: too many colons in address";
    "address [::1: missing ']' in address"; "address [::1]80:1: missing port in address";
    "address a[b:1: unexpected '[' in address"; "address : missing port in address"]%string.
Proof. vm_compute. reflexivity. Qed.
