(* ===== verification/ConfigSpec.v ===== *)
(** What a configuration that loads guarantees: the bounds of every setting,
    what the other components rely on, and that acceptable settings load. *)

From S2P Require Import Prelude.
From S2P Require Import GoStrings.
From S2P Require Import Codec.
From S2P Require Import Schema.
From S2P Require Import Stores.
From S2P Require Import Security.
From S2P Require Import NetUrl.
From S2P Require Import GoConv.
From S2P Require Import Config.

Local Open Scope list_scope.
Local Open Scope N_scope.

(** * Durations *)

Lemma parse_digits_ge s x y : parse_digits x s = Some y → x <= y.
Proof.
  revert x. induction s as [|c s IH]; intros x; simpl; [intros [= ->]; lia|].
  destruct (is_digit c); [|done]. intros Hy%IH. lia.
Qed.

(** A text that does not start with a digit. *)
Definition no_digit (s : string) : bool :=
  match s with String c _ => negb (is_digit c) | EmptyString => true end.

Lemma leadingInt_digits ds x y rest :
  parse_digits x ds = Some y → y <= 2 ^ 63 → no_digit rest = true →
  leadingInt x (ds +:+ rest) = Some (y, rest).
Proof.
  intros Hp Hy Hr. revert x Hp. induction ds as [|c ds IH]; intros x Hp.
  - injection Hp as ->. change ("" +:+ rest) with rest. destruct rest as [|r rest]; [done|].
    cbn in Hr. cbn [leadingInt]. by destruct (is_digit r).
  - cbn [parse_digits] in Hp. change (String c ds +:+ rest) with (String c (ds +:+ rest)). cbn [leadingInt].
    destruct (is_digit c); [|done]. pose proof (parse_digits_ge _ _ _ Hp) as Hle.
    set (d := digit_value c) in *. change (2 ^ 63) with 9223372036854775808 in *.
    change (9223372036854775808 / 10) with 922337203685477580.
    destruct (N.ltb_spec 922337203685477580 x); [lia|].
    destruct (N.ltb_spec 9223372036854775808 (x * 10 + d)); [lia|]. by apply IH.
Qed.

Lemma FormatUint_head n : ∃ c s, FormatUint n = String c s ∧ is_digit c = true.
Proof.
  pose proof (ParseUint_FormatUint n (N.size n) (N.size_gt n)) as Hp. unfold ParseUint in Hp.
  destruct (FormatUint n) as [|c s]; [done|]. exists c, s. split; [done|].
  cbn [parse_digits] in Hp. by destruct (is_digit c).
Qed.

Lemma FormatUint_digits n : parse_digits 0 (FormatUint n) = Some n.
Proof.
  pose proof (ParseUint_FormatUint n (N.size n) (N.size_gt n)) as Hp. unfold ParseUint in Hp.
  destruct (FormatUint n); [done|]. destruct (parse_digits _ _); [|done]. by destruct (_ <? _); naive_solver.
Qed.

(** The units, and the letters they are written with. *)
Lemma unitMap_letters u k :
  unitMap u = Some k → 1 <= k <= 3600 * 1000000000 ∧ u ≠ ""%string ∧ no_digit u = true ∧
    HasPrefix u "." = false ∧ unit_name u = (u, ""%string).
Proof.
  unfold unitMap. intros Hu.
  repeat match type of Hu with
  | (if ?b then _ else _) = _ => destruct b eqn:?
  end; [..|done]; injection Hu as <-; prop_guards;
  repeat match goal with
  | H : String.eqb _ _ = true |- _ => apply String.eqb_eq in H as ->
  | H : _ || _ = true |- _ => apply orb_true_iff in H as [H|H]
  end; (split; [lia|]); (split; [done|]); (split; [reflexivity|]); (split; reflexivity).
Qed.

Lemma duration_item_int n u k :
  unitMap u = Some k → n * k <= 2 ^ 63 → duration_item (FormatUint n +:+ u) = Some (n * k, ""%string).
Proof.
  intros Hu Hn. destruct (unitMap_letters u k Hu) as (Hk & Hne & Hd & Hp & Hun).
  destruct (FormatUint_head n) as (c & s & Hf & Hc). unfold duration_item.
  rewrite Hf at 1. change (String c s +:+ u) with (String c (s +:+ u)). cbn match beta. rewrite Hc, orb_true_r. cbn [negb].
  rewrite (leadingInt_digits (FormatUint n) 0 n u); [|apply FormatUint_digits|nia|done].
  cbn [mbind option_bind]. rewrite length_str_app.
  rewrite bool_decide_eq_false_2 by (rewrite Hf; cbn [String.length]; lia). cbn [negb].
  destruct u as [|p u']; [done|].
  assert (Hdot : is_byte 46 p = false).
  { cbn [HasPrefix String.prefix] in Hp. unfold HasPrefix in Hp. cbn [String.prefix] in Hp.
    destruct (ascii_dec "." p) as [<-|Hpd].
    - by destruct u'.
    - unfold is_byte. apply N.eqb_neq. intros Heq. apply Hpd.
      rewrite <- (ascii_N_embedding p), Heq. reflexivity. }
  rewrite Hdot. cbn [orb negb]. rewrite Hun, Hu. cbn [mbind option_bind].
  destruct (N.ltb_spec (2 ^ 63 / k) n) as [Hlt|Hge].
  { exfalso. apply N.lt_nge in Hlt. apply Hlt. apply N.div_le_lower_bound; lia. }
  change (0 <? 0) with false. cbn match beta.
  destruct (N.ltb_spec (2 ^ 63) (n * k)); [lia|done].
Qed.

Lemma ParseDuration_int n u k :
  unitMap u = Some k → n * k < 2 ^ 63 → ParseDuration (FormatUint n +:+ u) = Some (Z.of_N (n * k)).
Proof.
  intros Hu Hn. pose proof (duration_item_int n u k Hu ltac:(lia)) as Hitem.
  destruct (FormatUint_head n) as (c & s & Hf & Hc).
  destruct (unitMap_letters u k Hu) as (_ & Hne & Hd & _).
  unfold ParseDuration. rewrite Hf in *. change (String c s +:+ u) with (String c (s +:+ u)) in *.
  assert (Hsign : duration_sign (String c (s +:+ u)) = (false, String c (s +:+ u))).
  { unfold duration_sign, is_byte. unfold is_digit, byte_is in Hc. prop_guards.
    apply N.leb_le in H, H0. destruct (N.eqb_spec (N_of_ascii c) 45); [lia|].
    by destruct (N.eqb_spec (N_of_ascii c) 43); [lia|]. }
  rewrite Hsign. destruct (String.eqb_spec (String c (s +:+ u)) "0") as [Heq|_].
  { exfalso. injection Heq as _ Heq. destruct s; [|done]. by destruct u. }
  destruct (String.eqb_spec (String c (s +:+ u)) "") as [Heq|_]; [done|].
  cbn [String.length duration_sum]. rewrite Hitem. cbn [mbind option_bind]. rewrite N.add_0_l.
  destruct (N.ltb_spec (2 ^ 63) (n * k)); [lia|].
  replace (duration_sum _ (n * k) "") with (Some (n * k)) by by destruct (String.length _).
  cbn [mbind option_bind]. destruct (N.ltb_spec (2 ^ 63 - 1) (n * k)); [lia|done].
Qed.

Lemma duration_sum_le fuel d s v : d <= 2 ^ 63 → duration_sum fuel d s = Some v → v <= 2 ^ 63.
Proof.
  revert d s. induction fuel as [|fuel IH]; intros d [|c s] Hd Hv; cbn [duration_sum] in Hv;
    try (injection Hv as <-; done); [done|].
  destruct (duration_item _) as [[v' s']|]; [|done]. cbn [mbind option_bind] in Hv.
  destruct (N.ltb_spec (2 ^ 63) (d + v')); [done|]. by apply (IH (d + v') s').
Qed.

(** A parsed duration fits 64 bits. *)
Lemma ParseDuration_range s v : ParseDuration s = Some v → (- 2 ^ 63 <= v < 2 ^ 63)%Z.
Proof.
  unfold ParseDuration. destruct (duration_sign s) as [neg s'].
  destruct (String.eqb s' "0"); [intros [= <-]; lia|]. destruct (String.eqb s' ""); [done|].
  destruct (duration_sum _ 0 s') as [d|] eqn:Hd; [|done]. apply duration_sum_le in Hd; [|lia].
  cbn [mbind option_bind]. destruct neg.
  - destruct (N.eqb_spec d (2 ^ 63)); intros [= <-]; lia.
  - destruct (N.ltb_spec (2 ^ 63 - 1) d); [done|]. intros [= <-]. lia.
Qed.

(** * The settings *)

Lemma bind_Ok {A B} (r : res A) (f : A → res B) b : (r ≫= f) = Ok b ↔ ∃ a, r = Ok a ∧ f a = Ok b.
Proof.
  destruct r as [a|e|]; cbn; split; [by eauto|by intros (? & [= <-] & ?)|done|by intros (? & ? & ?)|done|by intros (? & ? & ?)].
Qed.

Lemma refuse_if_Ok b msg u : refuse_if b msg = Ok u ↔ b = false.
Proof. destruct b, u; split; done. Qed.

Lemma eqb_empty s : String.eqb s "" = false ↔ s ≠ ""%string.
Proof. apply String.eqb_neq. Qed.

(** A duration in force: the default, or a positive one that was set. *)
Definition duration_setting (lookup : string → option string) (key : string) (fallback d : time) : Prop :=
  match lookup key with
  | None => d = fallback
  | Some raw => ParseDuration (TrimSpace raw) = Some d ∧ (0 < d)%Z
  end.

Definition duration_ok (d : time) : Prop := (0 < d < 2 ^ 63)%Z.

Section lookup.
Variable lookup : string → option string.

Lemma positiveDuration_Ok key fallback d :
  positiveDuration lookup key fallback = Ok d ↔ duration_setting lookup key fallback d.
Proof.
  unfold positiveDuration, duration_setting. destruct (lookup key) as [raw|]; [|split; congruence].
  destruct (ParseDuration (TrimSpace raw)) as [v|]; [|split; [done|by intros [? _]]].
  destruct (Z.leb_spec v 0); split; try done; [intros [[= ->] ?]; lia|by intros [= ->]|by intros [[= ->] _]].
Qed.

Lemma duration_setting_ok key fallback d :
  duration_ok fallback → duration_setting lookup key fallback d → duration_ok d.
Proof.
  unfold duration_setting. destruct (lookup key); [|by intros ? ->].
  intros _ [Hp ?]. apply ParseDuration_range in Hp. split; [done|lia].
Qed.

Definition integer_setting (key : string) (fallback v : Z) : Prop :=
  match lookup key with
  | None => v = fallback
  | Some raw => Atoi (TrimSpace raw) = Some v ∧ (0 <= v)%Z
  end.

Lemma nonNegativeInt_Ok key fallback v : nonNegativeInt lookup key fallback = Ok v ↔ integer_setting key fallback v.
Proof.
  unfold nonNegativeInt, integer_setting. destruct (lookup key) as [raw|]; [|split; congruence].
  destruct (Atoi (TrimSpace raw)) as [n|]; [|split; [done|by intros [? _]]].
  destruct (Z.ltb_spec n 0); split; try done; [intros [[= ->] ?]; lia|by intros [= ->]|by intros [[= ->] _]].
Qed.

Definition boolean_setting (key : string) (fallback v : bool) : Prop :=
  match lookup key with
  | None => v = fallback
  | Some raw => ParseBool (TrimSpace raw) = Some v
  end.

Lemma booleanValue_Ok key fallback v : booleanValue lookup key fallback = Ok v ↔ boolean_setting key fallback v.
Proof.
  unfold booleanValue, boolean_setting. destruct (lookup key) as [raw|]; [|split; congruence].
  destruct (ParseBool (TrimSpace raw)); split; congruence.
Qed.

Lemma SplitHostPort_total s : SplitHostPort s ≠ Panic.
Proof.
  unfold SplitHostPort. cbv zeta. repeat first [done | case_step].
Qed.

Lemma validateAddress_Ok a u :
  validateAddress a = Ok u ↔ a ≠ ""%string ∧ ∃ hp, SplitHostPort a = Ok hp.
Proof.
  destruct u. unfold validateAddress. destruct (String.eqb_spec a "") as [->|Hne].
  - split; [done|]. by intros [? _].
  - pose proof (SplitHostPort_total a). destruct (SplitHostPort a); split; try done; [eauto|].
    by intros (_ & ? & ?).
Qed.

(** What a text setting is: the default or what was set, without the white space
    around it. *)
Definition text_setting (key fallback : string) : string := TrimSpace (default fallback (lookup key)).

(** The configuration the environment describes. *)
Definition configured (cfg : Config) : Prop :=
  cf_Environment cfg = text_setting "APP_ENV" "development" ∧ cf_Environment cfg ≠ ""%string ∧
  cf_HTTPAddress cfg = text_setting "HTTP_ADDR" ":8080" ∧ (∃ hp, SplitHostPort (cf_HTTPAddress cfg) = Ok hp) ∧
  cf_DatabaseURL cfg = text_setting "DATABASE_URL" defaultDatabaseURL ∧ cf_DatabaseURL cfg ≠ ""%string ∧
  duration_setting lookup "DATABASE_CONNECT_TIMEOUT" (10 * second) (cf_DatabaseConnectTimeout cfg) ∧
  duration_setting lookup "OIDC_DISCOVERY_TIMEOUT" (10 * second) (cf_OIDCDiscoveryTimeout cfg) ∧
  jc_Secret (cf_JWT cfg) = default ""%string (lookup "JWT_SECRET") ∧ (32 <= String.length (jc_Secret (cf_JWT cfg)))%nat ∧
  jc_Issuer (cf_JWT cfg) = text_setting "JWT_ISSUER" "ai-gateway" ∧ jc_Issuer (cf_JWT cfg) ≠ ""%string ∧
  jc_Audience (cf_JWT cfg) = text_setting "JWT_AUDIENCE" "ai-gateway-api" ∧ jc_Audience (cf_JWT cfg) ≠ ""%string ∧
  duration_setting lookup "JWT_ACCESS_TTL" (15 * minute) (jc_AccessTTL (cf_JWT cfg)) ∧
  duration_setting lookup "JWT_REFRESH_TTL" (168 * hour) (jc_RefreshTTL (cf_JWT cfg)) ∧
  rc_Address (cf_Redis cfg) = text_setting "REDIS_ADDR" "localhost:6379" ∧ rc_Address (cf_Redis cfg) ≠ ""%string ∧
  rc_Password (cf_Redis cfg) = default ""%string (lookup "REDIS_PASSWORD") ∧
  integer_setting "REDIS_DB" 0 (rc_DB (cf_Redis cfg)) ∧
  boolean_setting "COOKIE_SECURE" false (cf_CookieSecure cfg) ∧
  cf_BootstrapUsername cfg = text_setting "BOOTSTRAP_ADMIN_USERNAME" "" ∧
  cf_BootstrapPassword cfg = default ""%string (lookup "BOOTSTRAP_ADMIN_PASSWORD") ∧
  (cf_BootstrapUsername cfg = ""%string ↔ cf_BootstrapPassword cfg = ""%string) ∧
  (cf_BootstrapPassword cfg = ""%string ∨ (8 <= String.length (cf_BootstrapPassword cfg))%nat) ∧
  cf_BootstrapRole cfg = text_setting "BOOTSTRAP_ADMIN_ROLE" "admin" ∧ cf_BootstrapRole cfg ≠ ""%string.

Lemma pair_empty a b : xorb (String.eqb a "") (String.eqb b "") = false ↔ (a = ""%string ↔ b = ""%string).
Proof. destruct (String.eqb_spec a ""), (String.eqb_spec b ""); naive_solver. Qed.

Lemma password_long p :
  negb (String.eqb p "") && (String.length p <? 8)%nat = false ↔ p = ""%string ∨ (8 <= String.length p)%nat.
Proof. destruct (String.eqb_spec p ""), (Nat.ltb_spec (String.length p) 8); cbn; naive_solver lia. Qed.

Lemma load_Ok cfg : load lookup = Ok cfg ↔ configured cfg.
Proof.
  unfold load. cbv zeta.
  repeat setoid_rewrite bind_Ok. setoid_rewrite positiveDuration_Ok. setoid_rewrite nonNegativeInt_Ok.
  setoid_rewrite booleanValue_Ok. setoid_rewrite refuse_if_Ok. setoid_rewrite validateAddress_Ok.
  setoid_rewrite orb_false_iff. setoid_rewrite pair_empty. setoid_rewrite password_long.
  setoid_rewrite eqb_empty. setoid_rewrite Nat.ltb_ge.
  unfold configured, text_setting, valueOrDefault. split.
  - intros (d1 & H1 & d2 & H2 & d3 & H3 & d4 & H4 & db & H5 & cs & H6 & Hrest).
    destruct Hrest as (_ & He & [] & (Ha & Hhp) & _ & Hu & _ & Hr & _ & Hs & _ & (Hi & Hau) & _ & Hb & _ & Hp & _ & Hro & [= <-]).
    cbn. tauto.
  - destruct cfg as [env addr url d1 d2 [secret issuer audience d3 d4] [raddr rpw rdb] cs un pw role]. cbn.
    intros (-> & He & -> & Hhp & -> & Hu & H1 & H2 & -> & Hs & -> & Hi & -> & Hau & H3 & H4 & -> & Hr & -> & Hdb & Hcs & -> & -> & Hb & Hp & -> & Hro).
    exists d1; split; [done|]. exists d2; split; [done|]. exists d3; split; [done|]. exists d4; split; [done|].
    exists rdb; split; [done|]. exists cs; split; [done|].
    exists tt; split; [done|]. exists tt; split.
    { split; [|done]. unfold defaultHTTPAddress. intros Heq. destruct Hhp as [hp Hhp]. rewrite Heq in Hhp. discriminate Hhp. }
    do 7 (exists tt; split; [done|]). done.
Qed.

Lemma load_total : load lookup ≠ Panic.
Proof.
  unfold load, positiveDuration, nonNegativeInt, booleanValue, validateAddress, refuse_if. cbv zeta.
  intros Hp. repeat match type of Hp with
  | (?r ≫= _) = Panic =>
      let E := fresh in destruct r eqn:E; cbn [mbind res_bind] in Hp;
      [|discriminate Hp|clear Hp; revert E; repeat first [discriminate | case_step]; try discriminate]
  end; try discriminate; try (by intros; eapply SplitHostPort_total).
Qed.
End lookup.

(** The API configuration that the environment describes is the one that is
    loaded: every setting is the default or what was set, trimmed and in range,
    and nothing else loads; no environment makes the loader panic. *)
Theorem load_correct lookup :
  load lookup ≠ Panic ∧ ∀ cfg, load lookup = Ok cfg ↔ configured lookup cfg.
Proof. split; [apply load_total|]. intros cfg. apply load_Ok. Qed.

(** A duration written as a number and a unit is read back in nanoseconds,
    for every unit and as long as it fits 63 bits. *)
Theorem duration_roundtrip n u k :
  unitMap u = Some k → n * k < 2 ^ 63 → ParseDuration (FormatUint n +:+ u) = Some (Z.of_N (n * k)).
Proof. apply ParseDuration_int. Qed.

Lemma duration_roundtrip_witness :
  9223372036 * 1000000000 < 2 ^ 63 ∧ ParseDuration (FormatUint 9223372036 +:+ "s") = Some (9223372036 * second)%Z.
Proof.
  split; [reflexivity|]. change (9223372036 * second)%Z with (Z.of_N (9223372036 * 1000000000)).
  apply (duration_roundtrip 9223372036 "s" 1000000000); reflexivity.
Defined.

(** * The API process *)

Section api.
Context `{UrlParser}.

Definition http_url (s : string) : Prop :=
  ∃ u, url_Parse s = Some u ∧ url_Host u ≠ ""%string ∧ (url_Scheme u = "http" ∨ url_Scheme u = "https")%string.

Lemma validateAbsoluteHTTPURL_Ok key s u : validateAbsoluteHTTPURL key s = Ok u → http_url s.
Proof.
  unfold validateAbsoluteHTTPURL, http_url. destruct (url_Parse s) as [p|]; [|done].
  rewrite refuse_if_Ok, orb_false_iff, eqb_empty. intros [Hh Hs]. exists p. split; [done|]. split; [done|].
  destruct (String.eqb_spec (url_Scheme p) "http"); [by left|].
  destruct (String.eqb_spec (url_Scheme p) "https"); [by right|done].
Qed.

(** A provider that is set up has everything its login needs. *)
Definition oidc_ready (c : OIDCConfig) : Prop :=
  od_ClientID c ≠ ""%string ∧ http_url (od_Issuer c) ∧ http_url (od_RedirectURL c).

Lemma loadOidcConfig_Ok lookup provider c :
  loadOidcConfig lookup provider = Ok c →
  od_Provider c = TrimSpace provider ∧ od_Provider c ≠ ""%string ∧ (Enabled c = true → oidc_ready c).
Proof.
  unfold loadOidcConfig. cbv zeta. rewrite bind_Ok. intros (u & Hp%refuse_if_Ok & Hc). apply eqb_empty in Hp.
  destruct (Enabled _) eqn:He; cbn [negb] in Hc.
  - do 5 (apply bind_Ok in Hc as (? & ? & Hc)). injection Hc as <-. cbn. split; [done|]. split; [done|].
    intros _. rewrite !refuse_if_Ok in *. rename select (String.eqb (od_ClientID _) _ = false) into Hid.
    apply eqb_empty in Hid. split; [done|]. split; by eapply validateAbsoluteHTTPURL_Ok.
  - injection Hc as <-. cbn. split; [done|]. split; [done|]. by rewrite He.
Qed.

(** A gRPC address with a port in range. *)
Definition grpc_address (a : string) (requireHost : bool) : Prop :=
  ∃ host port n, SplitHostPort a = Ok (host, port) ∧ Atoi port = Some n ∧ (1 <= n <= 65535)%Z ∧
    (requireHost = true → host ≠ ""%string).

Lemma validateGRPCAddress_Ok key a requireHost u :
  validateGRPCAddress key a requireHost = Ok u → grpc_address a requireHost.
Proof.
  unfold validateGRPCAddress, grpc_address. destruct (SplitHostPort a) as [[host port]|e|]; [|done..].
  cbv zeta. destruct (Atoi port) as [n|] eqn:Hn; [|done].
  destruct (Z.ltb_spec n 1); [done|]. destruct (Z.ltb_spec 65535 n); [done|]. cbn [orb].
  intros Hb. exists host, port, n. split; [done|]. split; [done|]. split; [lia|].
  intros ->. by destruct (String.eqb_spec host "").
Qed.

(** Mutual TLS is set up completely or not at all. *)
Definition tls_consistent (t : GRPCTLSConfig) : Prop :=
  t = Build_GRPCTLSConfig "" "" "" "" ∨ (tl_CAFile t ≠ "" ∧ tl_CertFile t ≠ "" ∧ tl_KeyFile t ≠ "")%string.

Lemma loadGRPCTLS_Ok lookup t : loadGRPCTLS lookup = Ok t → tls_consistent t.
Proof.
  unfold loadGRPCTLS, tls_consistent. cbv zeta. set (c := Build_GRPCTLSConfig _ _ _ _). generalize c. clear.
  intros [ca cert key name]. cbn.
  destruct (String.eqb_spec ca ""), (String.eqb_spec cert ""), (String.eqb_spec key ""), (String.eqb_spec name "");
    cbn; intros [= <-]; subst; cbn; auto.
Qed.

Lemma loadUpstreamClient_Ok lookup c :
  loadUpstreamClient lookup = Ok c → grpc_address (uc_Target c) true ∧ duration_ok (uc_Timeout c) ∧ tls_consistent (uc_TLS c).
Proof.
  unfold loadUpstreamClient. cbv zeta. rewrite bind_Ok. intros (? & Ha%validateGRPCAddress_Ok & Hc).
  apply bind_Ok in Hc as (d & Hd%positiveDuration_Ok & Hc). apply bind_Ok in Hc as (t & Ht%loadGRPCTLS_Ok & [= <-]).
  cbn. split; [done|]. split; [|done]. eapply duration_setting_ok; [|exact Hd]. by split.
Qed.

Lemma loadUpstreamServer_Ok lookup c :
  loadUpstreamServer lookup = Ok c → grpc_address (us_Address c) false ∧ duration_ok (us_DiscoveryTimeout c) ∧
    duration_ok (us_RequestTimeout c) ∧ duration_ok (us_ShutdownTimeout c) ∧ tls_consistent (us_TLS c).
Proof.
  unfold loadUpstreamServer. cbv zeta. rewrite bind_Ok. intros (? & Ha%validateGRPCAddress_Ok & Hc).
  do 3 (apply bind_Ok in Hc as (? & ?%positiveDuration_Ok & Hc)). apply bind_Ok in Hc as (t & Ht%loadGRPCTLS_Ok & [= <-]).
  cbn. split; [done|]. split_and!; [..|done]; (eapply duration_setting_ok; [|eassumption]); by split.
Qed.

Lemma LoadOAuthEncryptionKey_Ok env key :
  LoadOAuthEncryptionKey env = Ok key ↔
  Base64.StdDecode (TrimSpace (env "OAUTH_ENCRYPTION_KEY"%string)) = Some key ∧ String.length key = 32%nat.
Proof.
  unfold LoadOAuthEncryptionKey. destruct (Base64.StdDecode _) as [k|]; [|split; [done|by intros [? _]]].
  destruct (Nat.eqb_spec (String.length k) 32); split; try done; [by intros [= ->]|by intros [[= ->] _]|by intros [[= ->] ?]].
Qed.

Lemma api_configuration_spec lookup c :
  loadAPIConfiguration lookup = Ok c →
  let cfg := ac_runtime c in
  configured lookup cfg ∧
  duration_ok (cf_DatabaseConnectTimeout cfg) ∧ duration_ok (cf_OIDCDiscoveryTimeout cfg) ∧
  duration_ok (jc_AccessTTL (cf_JWT cfg)) ∧ duration_ok (jc_RefreshTTL (cf_JWT cfg)) ∧
  (32 <= String.length (jc_Secret (cf_JWT cfg)))%nat ∧
  (Enabled (ac_oai c) = true → oidc_ready (ac_oai c) ∧ ∃ key, ac_oauthEncryptionKey c = Some key) ∧
  (∀ key, ac_oauthEncryptionKey c = Some key → aes_key_ok key = true ∧ String.length key = 32%nat) ∧
  grpc_address (uc_Target (ac_upstream c)) true ∧ duration_ok (uc_Timeout (ac_upstream c)) ∧
  tls_consistent (uc_TLS (ac_upstream c)).
Proof.
  unfold loadAPIConfiguration. rewrite bind_Ok. intros (cfg & Hl%load_Ok & Hc).
  apply bind_Ok in Hc as (oai & Hoai & Hc). apply bind_Ok in Hc as (up & Hup & Hc).
  apply bind_Ok in Hc as (key & Hkey & [= <-]). cbn [ac_runtime ac_oai ac_upstream ac_oauthEncryptionKey].
  assert (Hoai' : loadOidcConfig lookup "oai" = Ok oai) by by destruct (loadOidcConfig _ _).
  assert (Hup' : loadUpstreamClient lookup = Ok up) by by destruct (loadUpstreamClient _).
  apply loadOidcConfig_Ok in Hoai' as (_ & _ & Hready). apply loadUpstreamClient_Ok in Hup' as Hclient.
  assert (Hk : ∀ k, key = Some k → String.length k = 32%nat).
  { intros k ->. destruct (_ || _) in Hkey; [|done]. destruct (LoadOAuthEncryptionKey _) as [k'|e|] eqn:Hload; [|done..].
    injection Hkey as ->. by apply LoadOAuthEncryptionKey_Ok in Hload as [_ ?]. }
  pose proof Hl as (_ & _ & _ & _ & _ & _ & H1 & H2 & _ & Hs & _ & _ & _ & _ & H3 & H4 & _).
  split; [done|]. do 4 (split; [by eapply duration_setting_ok; [|eassumption]; split|]). split; [done|].
  split; [|split; [|done]].
  - intros Hen. split; [auto|]. rewrite Hen in Hkey. cbn [orb] in Hkey.
    destruct (LoadOAuthEncryptionKey _); [|done..]. injection Hkey as <-. eauto.
  - intros k Hk'. apply Hk in Hk' as Hlen. split; [|done]. unfold aes_key_ok. by rewrite Hlen.
Qed.

(** C27: what the API relies on after its configuration loaded: every timeout and
    lifetime is positive and fits 64 bits, the secret of the access tokens is
    long enough, the address of the upstream has a host and a port, mutual TLS
    is complete or off; and with a provider set up there are its URLs and an
    encryption key that AES-256 takes. *)
Theorem api_configuration_safe lookup c :
  loadAPIConfiguration lookup = Ok c →
  let cfg := ac_runtime c in
  configured lookup cfg ∧
  duration_ok (cf_DatabaseConnectTimeout cfg) ∧ duration_ok (cf_OIDCDiscoveryTimeout cfg) ∧
  duration_ok (jc_AccessTTL (cf_JWT cfg)) ∧ duration_ok (jc_RefreshTTL (cf_JWT cfg)) ∧
  (32 <= String.length (jc_Secret (cf_JWT cfg)))%nat ∧
  (Enabled (ac_oai c) = true → oidc_ready (ac_oai c) ∧ ∃ key, ac_oauthEncryptionKey c = Some key) ∧
  (∀ key, ac_oauthEncryptionKey c = Some key → aes_key_ok key = true ∧ String.length key = 32%nat) ∧
  grpc_address (uc_Target (ac_upstream c)) true ∧ duration_ok (uc_Timeout (ac_upstream c)) ∧
  tls_consistent (uc_TLS (ac_upstream c)).
Proof. apply api_configuration_spec. Qed.

(** * No panics *)

Lemma bind_total {A B} (r : res A) (f : A → res B) : r ≠ Panic → (∀ a, f a ≠ Panic) → r ≫= f ≠ Panic.
Proof. intros Hr Hf. destruct r; [apply Hf|done..]. Qed.

Lemma refuse_if_total b msg : refuse_if b msg ≠ Panic.
Proof. by destruct b. Qed.

Lemma wrap_load_total {A} msg (r : res A) : r ≠ Panic → wrap_load msg r ≠ Panic.
Proof. by destruct r. Qed.

Lemma positiveDuration_total lookup key fallback : positiveDuration lookup key fallback ≠ Panic.
Proof. unfold positiveDuration. by repeat case_step. Qed.

Lemma validateAbsoluteHTTPURL_total key s : validateAbsoluteHTTPURL key s ≠ Panic.
Proof. unfold validateAbsoluteHTTPURL. case_step; [apply refuse_if_total|done]. Qed.

Lemma validateGRPCAddress_total key a b : validateGRPCAddress key a b ≠ Panic.
Proof.
  unfold validateGRPCAddress. pose proof (SplitHostPort_total a). destruct (SplitHostPort a) as [[host port]|e|]; [|done..].
  cbv zeta. by repeat case_step.
Qed.

Lemma loadAPIConfiguration_total lookup : loadAPIConfiguration lookup ≠ Panic.
Proof.
  unfold loadAPIConfiguration, loadOidcConfig, loadUpstreamClient, loadGRPCTLS, LoadOAuthEncryptionKey. cbv zeta.
  apply bind_total; [apply load_total|]. intros cfg.
  apply bind_total; [|intros oai; apply bind_total; [|intros up; apply bind_total; [|done]]].
  - apply wrap_load_total, bind_total; [apply refuse_if_total|]. intros _. case_step; [done|].
    repeat (apply bind_total; [apply refuse_if_total || apply validateAbsoluteHTTPURL_total|]; intros ?). done.
  - apply wrap_load_total, bind_total; [apply validateGRPCAddress_total|]. intros _.
    apply bind_total; [apply positiveDuration_total|]. intros d. apply bind_total; [|done]. by repeat case_step.
  - repeat case_step; done.
Qed.
End api.

(** * A configuration at work *)

#[local] Instance plain_urls : UrlParser := λ s,
  if HasPrefix s "https://" then Some (Build_URL "https" None (TrimPrefix s "https://") "" "" false "" "" "") else None.

Definition sample_environment (key : string) : option string :=
  ({["JWT_SECRET" := "0123456789abcdef0123456789abcdef"; "JWT_ACCESS_TTL" := " 20m ";
     "OAI_ISSUER" := " https://auth.example.com "; "OAI_CLIENT_ID" := "client"; "OAI_REDIRECT_URL" := "https://gw.example.com/cb";
     "OAUTH_ENCRYPTION_KEY" := Base64.StdEncode "0123456789abcdef0123456789abcdef"]}%string : gmap string string) !! key.

Lemma api_configuration_safe_witness :
  ∃ c, loadAPIConfiguration sample_environment = Ok c ∧ oidc_ready (ac_oai c) ∧
    jc_AccessTTL (cf_JWT (ac_runtime c)) = (20 * minute)%Z ∧
    ∃ key, ac_oauthEncryptionKey c = Some key ∧ aes_key_ok key = true.
Proof.
  assert (Hok : match loadAPIConfiguration sample_environment with
                | Ok c => Enabled (ac_oai c) && (jc_AccessTTL (cf_JWT (ac_runtime c)) =? 20 * minute)%Z
                | _ => false end = true) by (vm_compute; reflexivity).
  destruct (loadAPIConfiguration sample_environment) as [c|e|] eqn:Hc; [|discriminate Hok..].
  apply andb_true_iff in Hok as [He Ht%Z.eqb_eq].
  destruct (api_configuration_safe sample_environment c Hc) as (_ & _ & _ & _ & _ & _ & Hen & Hk & _).
  destruct (Hen He) as [Hr [key Hkey]]. exists c. split; [reflexivity|]. split; [exact Hr|]. split; [exact Ht|].
  exists key. split; [exact Hkey|apply Hk, Hkey].
Defined.
