(* ===== verification/Sim.v ===== *)
(** A concrete instance of every service: stores that follow their documented
    meaning at each call, a clock, a counter as source of randomness, a toy
    AEAD and a toy password hash.  It shows that the laws assumed of the
    services hold together, and the examples run the operations on it. *)

From S2P Require Import Prelude.
From S2P Require Import GoStrings.
From S2P Require Import Codec.
From S2P Require Import Schema.
From S2P Require Import Integrity.
From S2P Require Import Stores.
From S2P Require Import World.
From S2P Require Import Security.

From stdpp Require Import countable strings.

Local Open Scope list_scope.

Fixpoint str_repeat (a : ascii) (n : nat) : string :=
  match n with O => "" | S n => String a (str_repeat a n) end.

(** The clock moves by one second at every call. *)
Definition sim_now (n : nat) : time := (Z.of_nat n * second)%Z.

Definition sim_rand (n k : nat) : res string :=
  Ok (str_repeat (ascii_of_nat (n mod 256)) k).

#[export] Instance sim_env : Env := {|
  fault := λ _, False;
  now_at := sim_now;
  rand_read := sim_rand;
  sql_exec := λ A n s d, sql_step (sim_now n) s d;
  redis_exec := λ A n c r, redis_step (sim_now n) c r;
  casbin_exec := λ A n k c, (Ok (casbin_step k c).1, (casbin_step k c).2)
|}.

Lemma length_str_repeat a n : String.length (str_repeat a n) = n.
Proof. induction n; simpl; congruence. Qed.

#[export] Instance sim_env_laws : EnvLaws.
Proof.
  split; intros; [done| |by left..].
  left. eexists. split; [reflexivity|]. apply length_str_repeat.
Qed.

(** The tag is made of the key and the nonce, so that opening with another key
    or nonce fails. *)
Definition sim_tag (key nonce : string) : string :=
  substring 0 16 (hex_sha256 (key +:+ nonce)).

Definition sim_open (key nonce c : string) : option string :=
  if String.prefix (sim_tag key nonce) c
  then Some (str_drop 16 c) else None.

#[export] Instance sim_aead : Aead := {|
  gcm_seal := λ key nonce p, sim_tag key nonce +:+ p;
  gcm_open := sim_open
|}.

Lemma length_sim_tag key nonce : String.length (sim_tag key nonce) = 16%nat.
Proof. unfold sim_tag. apply length_substring. rewrite length_hex_sha256. lia. Qed.

#[export] Instance sim_aead_laws : AeadLaws.
Proof.
  split; intros; cbn [gcm_seal gcm_open sim_aead]; unfold sim_open.
  - rewrite (GoStrings.prefix_app (sim_tag key nonce) p).
    by rewrite <- (length_sim_tag key nonce), str_drop_app.
  - rewrite length_str_app, length_sim_tag. lia.
Qed.

#[export] Instance sim_bcrypt : Bcrypt := {|
  bcrypt_generate := λ n p,
    if (72 <? String.length p)%nat then Err bcrypt_ErrPasswordTooLong
    else Ok ("$2a$" +:+ p);
  bcrypt_compare := λ h p, String.eqb h ("$2a$" +:+ p)
|}.

#[export] Instance sim_bcrypt_laws : BcryptLaws.
Proof.
  split; intros n p; simpl; destruct (Nat.ltb_spec 72 (String.length p)).
  - by rewrite (proj2 (Nat.leb_gt _ _)).
  - rewrite (proj2 (Nat.leb_le _ _)) by done. left. eauto.
  - done.
  - intros h [= <-]. apply String.eqb_refl.
  - done.
  - intros h [= <-]. cbn [String.length]. lia.
Qed.

(** A service that fails at every call: the other extreme the laws allow. *)
Definition down_env : Env := {|
  fault := λ e, e = context_DeadlineExceeded;
  now_at := sim_now;
  rand_read := λ _ _, Err context_DeadlineExceeded;
  sql_exec := λ A n s d, Err context_DeadlineExceeded;
  redis_exec := λ A n c r, (Err context_DeadlineExceeded, r);
  casbin_exec := λ A n k c, (Err context_DeadlineExceeded, c)
|}.

Lemma down_env_laws : @EnvLaws down_env.
Proof.
  split.
  - intros e ->. by right.
  - intros. right. by exists context_DeadlineExceeded.
  - intros. right. by exists context_DeadlineExceeded.
  - intros. right. exists context_DeadlineExceeded, r. split_and!; [done|done|by left].
  - intros. right. by exists context_DeadlineExceeded.
Qed.

(** Any countable type has an encoding as a string of binary digits. *)
Fixpoint bits_of (p : positive) : string :=
  match p with
  | xH => ""
  | xO p => String "0" (bits_of p)
  | xI p => String "1" (bits_of p)
  end.

Fixpoint of_bits (s : string) : positive :=
  match s with
  | EmptyString => xH
  | String a s => if Ascii.eqb a "0" then xO (of_bits s) else xI (of_bits s)
  end.

Lemma of_bits_of p : of_bits (bits_of p) = p.
Proof. induction p as [p IH|p IH|]; cbn; congruence. Qed.

(** * A sample database *)

(** Rows inserted one statement after the other; integrity follows from it. *)
Definition ins (t : table) (rs : list (row t)) (d : db) : db :=
  match insert_all t 0 rs d with Ok (_, d') => d' | _ => d end.

Lemma ins_wf t rs d : db_wf d → db_wf (ins t rs d).
Proof.
  intros Hwf. unfold ins. destruct (insert_all t 0 rs d) as [[rs' d']| |] eqn:Hi; [|done..].
  by eapply insert_all_wf.
Qed.

Definition sample_key : string := "0123456789abcdef0123456789abcdef".
Definition sample_nonce : string := "nonce-nonce-".
Definition sealed (plain : string) : string :=
  Base64.StdEncode (sample_nonce +:+ gcm_seal sample_key sample_nonce plain).

Definition sample_account (userid : N) (disabled : bool) (account token : string) : OAuthInfo :=
  Build_OAuthInfo 0 userid (sealed token) account disabled "a@example.com" None (sealed "id")
    None (sealed "refresh") "codex" 0 0.

(** Two users; the first has two accounts, one of them disabled, and an
    external key; the second has one account. *)
Definition sample_accounts_db : db :=
  ins external_api_keys
     [Build_ExternalApikey 0 1 (hex_sha256 "ext") (sealed "ext") "https://api.example.com/v1"
        (Build_ExternalApikeySuffix "chat/completions" "responses" "messages") 0 0]
  (ins oauth_infos [sample_account 1 false "acc-1" "token-1"; sample_account 1 true "acc-2" "token-2";
                    sample_account 2 false "acc-3" "token-3"]
  (ins users [Build_User 0 "alice" "$2a$alice-password" "user" true 0 0;
              Build_User 0 "bob" "$2a$bob-password" "admin" true 0 0] empty_db)).

(** The same with an API key of the first user, bound to all it has. *)
Definition sample_db : db :=
  ins api_key_external_keys [Build_ApikeyExternalKey 1 1 1 0]
  (ins api_key_accounts [Build_Apikeyaccounts 1 1 1 0; Build_Apikeyaccounts 1 1 2 0]
  (ins api_keys [Build_ApikeyInfo 0 1 (hex_sha256 "sk-sample") "sk-sample" false None 0 0]
     sample_accounts_db)).

Lemma sample_accounts_db_wf : db_wf sample_accounts_db.
Proof. unfold sample_accounts_db. repeat apply ins_wf. apply empty_db_wf. Qed.

Lemma sample_db_wf : db_wf sample_db.
Proof. unfold sample_db. do 3 apply ins_wf. apply sample_accounts_db_wf. Qed.

Definition sample_world : world :=
  Build_world sample_db ∅ (Build_casbin [] []) 0.

Definition sample_accounts_world : world :=
  Build_world sample_accounts_db ∅ (Build_casbin [] []) 0.

Lemma sample_world_wf : db_wf (w_db sample_world).
Proof. exact sample_db_wf. Qed.

Example sample_sizes :
  (length (t_users sample_db), length (t_oauth sample_db), length (t_keys sample_db),
   length (t_bind sample_db), length (t_ext sample_db), length (t_extbind sample_db))
  = (2, 3, 1, 2, 1, 1)%nat.
Proof. vm_compute. reflexivity. Qed.

Example sealed_opens : Decrypt sample_key (sealed "token-1") = Ok "token-1".
Proof. vm_compute. reflexivity. Qed.
