(* ===== verification/SecuritySpec.v ===== *)
(** The contract of internal/security: what is encrypted under a key decrypts
    under it, a ciphertext that is not authentic is refused, and a password is
    accepted by its own hash. *)

From S2P Require Import Prelude.
From S2P Require Import GoStrings.
From S2P Require Import Codec.
From S2P Require Import Schema.
From S2P Require Import Stores.
From S2P Require Import World.
From S2P Require Import Security.
From S2P Require Import Sim.

Local Open Scope list_scope.

Section spec.
Context `{EnvLaws} `{AeadLaws}.

(** Encryption under an AES key gives a text that decrypts to the plaintext,
    and touches no store; it fails only for a key of another length or when the
    random source does. *)
Theorem Encrypt_Decrypt key plaintext w :
  wp (Encrypt key plaintext) (λ r w',
    w_db w' = w_db w ∧ w_redis w' = w_redis w ∧ w_casbin w' = w_casbin w ∧
    match r with
    | Ok c => aes_key_ok key = true ∧ Decrypt key c = Ok plaintext
    | Err e => aes_key_ok key = false ∨
               ∃ e', fault e' ∧ e = Wrapped "generate AES-GCM nonce" e'
    | Panic => False
    end) w.
Proof.
  assert (Hs : ∀ n, w_db (Nat.iter n tick w) = w_db w ∧ w_redis (Nat.iter n tick w) = w_redis w ∧
                    w_casbin (Nat.iter n tick w) = w_casbin w) by (induction n; done).
  apply wp_Encrypt.
  - intros e n He. by destruct (Hs n) as (? & ? & ?).
  - intros c n Hc Hk. by destruct (Hs n) as (? & ? & ?).
Qed.

(** Decryption never panics, whatever the stored text; it succeeds exactly on
    the base64 text of a nonce and an authentic ciphertext with its tag. *)
Theorem Decrypt_correct key encoded :
  match Decrypt key encoded with
  | Ok plaintext =>
      aes_key_ok key = true ∧ ∃ raw, Base64.StdDecode encoded = Some raw ∧
        (nonceSize + overhead ≤ String.length raw)%nat ∧
        gcm_open key (substring 0 nonceSize raw) (str_drop nonceSize raw) = Some plaintext
  | Err _ =>
      aes_key_ok key = false ∨ Base64.StdDecode encoded = None ∨
      ∃ raw, Base64.StdDecode encoded = Some raw ∧
        ((String.length raw < nonceSize + overhead)%nat ∨
         gcm_open key (substring 0 nonceSize raw) (str_drop nonceSize raw) = None)
  | Panic => False
  end.
Proof.
  unfold Decrypt, aes_NewCipher. destruct (aes_key_ok key); cbn; [|by left].
  destruct (Base64.StdDecode encoded) as [raw|]; [|by right; left].
  case_bool_decide as Hl; [right; right; eauto|].
  destruct (gcm_open _ _ _) as [p|] eqn:Ho; [|right; right; exists raw; by auto].
  split; [done|]. exists raw. split_and!; [done|unfold nonceSize, overhead in *; lia|done].
Qed.

Context `{BcryptLaws}.

(** A hash accepts its own password; hashing is refused only for a password
    longer than 72 bytes or a failure of the random source. *)
Theorem HashPassword_verifies password w :
  wp (HashPassword password) (λ r w', w_db w' = w_db w ∧
    match r with
    | Ok h => VerifyPassword password h = true ∧ (String.length password ≤ 72)%nat
    | Err e => fault e ∨ e = bcrypt_ErrPasswordTooLong ∧ (72 < String.length password)%nat
    | Panic => False
    end) w.
Proof.
  unfold wp, HashPassword. cbn [fst snd w_db tick]. split; [done|].
  pose proof (bcrypt_generate_law (w_step w) password) as Hlaw.
  destruct (Nat.leb_spec (String.length password) 72).
  - destruct Hlaw as [[h Hh]|[e [Hh Hf]]]; rewrite Hh; [|by left].
    split; [|done]. by eapply bcrypt_compare_generate.
  - rewrite Hlaw. by right.
Qed.
End spec.

Lemma Encrypt_Decrypt_witness :
  ∃ c, (Encrypt sample_key "secret" sample_world).1 = Ok c ∧ Decrypt sample_key c = Ok "secret"%string.
Proof.
  pose proof (Encrypt_Decrypt sample_key "secret" sample_world) as Hwp.
  destruct (wp_Ok _ _ _ Hwp ltac:(vm_compute; reflexivity)) as (c & Hr & _ & _ & _ & _ & Hd).
  exists c. split; [exact Hr|exact Hd].
Defined.

Lemma HashPassword_verifies_witness :
  ∃ h, (HashPassword "correct horse" sample_world).1 = Ok h ∧ VerifyPassword "correct horse" h = true.
Proof.
  pose proof (HashPassword_verifies "correct horse" sample_world) as Hwp.
  destruct (wp_Ok _ _ _ Hwp ltac:(vm_compute; reflexivity)) as (h & Hr & _ & Hd & _).
  exists h. split; [exact Hr|exact Hd].
Defined.
