(* ===== verification/RefreshTokens.v ===== *)
(** middleware/redis/refresh_token.go: the refresh tokens of the sessions.  Redis
    holds the user of each token under the hash of the token; using a token
    replaces it by a new one in a single script. *)

From S2P Require Import Prelude.
From S2P Require Import GoStrings.
From S2P Require Import Codec.
From S2P Require Import Schema.
From S2P Require Import Integrity.
From S2P Require Import Stores.
From S2P Require Import SingleUse.
From S2P Require Import World.
From S2P Require Import Security.
From S2P Require Import Sim.

Local Open Scope list_scope.
Local Open Scope N_scope.

Definition ErrRefreshTokenNotFound : gerror :=
  Sentinel "rdb.ErrRefreshTokenNotFound" "refresh token not found".
Definition refreshTokenPrefix : string := "refresh_token:".

(** [refreshTokenKey] as a function of the digest. *)
Definition digestKey (digest : string) : string := refreshTokenPrefix +:+ digest.
Definition refreshTokenKey (refreshToken : string) : string := digestKey (hex_sha256 refreshToken).

(** [ttl.Milliseconds()] *)
Definition Milliseconds (ttl : time) : Z := Z.quot ttl millisecond.

Section with_env.
Context `{Env}.

Definition newRefreshToken : M string :=
  randomBytes ← wrap_err "generate refresh token" (rand_bytes 32);
  mret (Base64.RawURLEncode randomBytes).

Definition CreateRefreshToken (userID : N) (ttl : time) : M string :=
  refreshToken ← newRefreshToken;
  _ ← wrap_err "store refresh token" (rds (SET (refreshTokenKey refreshToken) (FormatUint userID) ttl));
  mret refreshToken.

Definition RotateRefreshToken (oldRefreshToken : string) (ttl : time) : M (string * N) :=
  newToken ← newRefreshToken;
  r ← attempt (rds (EVAL_rotate (refreshTokenKey oldRefreshToken) (refreshTokenKey newToken) (Milliseconds ttl)));
  match r with
  | inl None => throw ErrRefreshTokenNotFound
  | inr e => throw (if errors_Is e redis_Nil then ErrRefreshTokenNotFound
                    else Wrapped "rotate refresh token" e)
  | inl (Some userIDValue) =>
      match ParseUint userIDValue 64 with
      | Some userID =>
          if userID =? 0
          then _ ← attempt (rds (DEL (refreshTokenKey newToken))); throw ErrRefreshTokenNotFound
          else mret (newToken, userID)
      | None => _ ← attempt (rds (DEL (refreshTokenKey newToken))); throw ErrRefreshTokenNotFound
      end
  end.

Definition DeleteRefreshToken (refreshToken : string) : M unit :=
  wrap_err "delete refresh token" (rds (DEL (refreshTokenKey refreshToken))).
End with_env.

(** * Rules *)

Lemma digestKey_inj d d' : digestKey d = digestKey d' → d = d'.
Proof. apply str_app_inv_head. Qed.

(** The user a stored value names. *)
Definition token_user (v : string) : option N := ParseUint v 64.

Section rules.
Context `{EnvLaws}.

(** The token that a call at this point generates. *)
Definition drawn (w : world) : option string :=
  match rand_read (w_step w) 32 with Ok s => Some (Base64.RawURLEncode s) | _ => None end.

Definition same_tables (w w' : world) : Prop := w_db w' = w_db w ∧ w_casbin w' = w_casbin w.

Lemma wp_newRefreshToken (Q : res string → world → Prop) w :
  (∀ e, fault e → Q (Err (Wrapped "generate refresh token" e)) (tick w)) →
  (∀ t, drawn w = Some t → Q (Ok t) (tick w)) → wp newRefreshToken Q w.
Proof.
  intros He Hok. unfold newRefreshToken. wp_step. apply wp_wrap_err. wp_step; [by apply He|].
  wp_step. apply Hok. unfold drawn. rename select (rand_read _ _ = _) into Hs. by rewrite Hs.
Qed.

Lemma wp_CreateRefreshToken u ttl (Q : res string → world → Prop) w :
  (∀ e w', same_tables w w' → (∃ m e', fault e' ∧ e = Wrapped m e') →
     (w_redis w' = w_redis w ∨ ∃ t, drawn w = Some t ∧
        w_redis w' = <[refreshTokenKey t := (FormatUint u, expiry (now_at (S (w_step w))) ttl)]> (w_redis w)) →
     Q (Err e) w') →
  (∀ t w', same_tables w w' → drawn w = Some t → w_step w' = S (S (w_step w)) →
     w_redis w' = <[refreshTokenKey t := (FormatUint u, expiry (now_at (S (w_step w))) ttl)]> (w_redis w) →
     Q (Ok t) w') →
  wp (CreateRefreshToken u ttl) Q w.
Proof.
  intros He Hok. unfold CreateRefreshToken. wp_step. apply wp_newRefreshToken.
  - intros e Hf. apply He; [done|by eauto|by left].
  - intros t Ht. wp_step. apply wp_wrap_err. wp_step.
    + intros e r' Hf [->| ->]; (apply He; [done|by eauto|]); eauto.
    + wp_step. by apply Hok.
Qed.

(** The state after a rotation. *)
Definition rotated (old new v : string) (ttl : time) (w w' : world) : Prop :=
  w_redis w' = <[refreshTokenKey new :=
      (v, Some (now_at (S (w_step w)) + Milliseconds ttl * millisecond)%Z)]>
    (delete (refreshTokenKey old) (w_redis w)).

Lemma wp_RotateRefreshToken old ttl (Q : res (string * N) → world → Prop) w :
  let stored := rget (now_at (S (w_step w))) (refreshTokenKey old) (w_redis w) in
  (∀ e w', same_tables w w' → (∃ m e', fault e' ∧ e = Wrapped m e') →
     (w_redis w' = w_redis w ∨ w_redis w' = delete (refreshTokenKey old) (w_redis w) ∨
      ∃ t v, drawn w = Some t ∧ stored = Some v ∧ rotated old t v ttl w w') → Q (Err e) w') →
  (∀ w', same_tables w w' → stored = None → w_redis w' = w_redis w → Q (Err ErrRefreshTokenNotFound) w') →
  (∀ v w', same_tables w w' → stored = Some v → (Milliseconds ttl <= 0)%Z →
     w_redis w' = delete (refreshTokenKey old) (w_redis w) →
     Q (Err (Wrapped "rotate refresh token" (Opaque "ERR invalid expire time"))) w') →
  (∀ v w', same_tables w w' → stored = Some v → (token_user v = None ∨ token_user v = Some 0) →
     Q (Err ErrRefreshTokenNotFound) w') →
  (∀ t v u w', same_tables w w' → drawn w = Some t → stored = Some v → token_user v = Some u → u ≠ 0 →
     (0 < Milliseconds ttl)%Z → rotated old t v ttl w w' → Q (Ok (t, u)) w') →
  wp (RotateRefreshToken old ttl) Q w.
Proof.
  intros stored He Hno Hbad Hnot Hok. unfold RotateRefreshToken. wp_step. apply wp_newRefreshToken.
  { intros e Hf. apply He; [done|by eauto|by left]. }
  intros t Ht. do 2 wp_step. wp_step; cbn [redis_step]; unfold rotateRefreshTokenScript; fold stored.
  - intros e r' Hf Hr'. wp_step. rewrite (fault_Is e redis_Nil) by done. apply He; [done|by eauto|].
    destruct stored as [v|] eqn:Hst; [|destruct Hr'; subst; by left].
    destruct (Milliseconds ttl <=? 0)%Z; destruct Hr' as [->| ->]; auto.
    right; right. exists t, v. done.
  - destruct stored as [v|] eqn:Hst; [|wp_step; by apply Hno].
    destruct (Milliseconds ttl <=? 0)%Z eqn:Hpx.
    { wp_step. apply Z.leb_le in Hpx. by eapply Hbad. }
    apply Z.leb_gt in Hpx. unfold token_user in *.
    assert (Hdel : ParseUint v 64 = None ∨ ParseUint v 64 = Some 0 →
      wp (attempt (rds (DEL (refreshTokenKey t))) ≫= λ _ : () + gerror, throw ErrRefreshTokenNotFound) Q
        (tick (set_redis (<[refreshTokenKey t:=(v, Some (now_at (S (w_step w)) + Milliseconds ttl * millisecond)%Z)]>
                            (delete (refreshTokenKey old) (w_redis w))) (tick w)))).
    { intros Hv. do 2 wp_step. wp_step; [intros e r' _ _|]; wp_step; by eapply Hnot. }
    destruct (ParseUint v 64) as [u|] eqn:Hu; [|by apply Hdel; left].
    destruct (u =? 0) eqn:Hz; prop_guards; [subst u; by apply Hdel; right|].
    wp_step. by eapply Hok.
Qed.

Lemma wp_DeleteRefreshToken t (Q : res unit → world → Prop) w :
  (∀ e w', same_tables w w' → (∃ m e', fault e' ∧ e = Wrapped m e') →
     (w_redis w' = w_redis w ∨ w_redis w' = delete (refreshTokenKey t) (w_redis w)) → Q (Err e) w') →
  (∀ w', same_tables w w' → w_redis w' = delete (refreshTokenKey t) (w_redis w) → Q (Ok tt) w') →
  wp (DeleteRefreshToken t) Q w.
Proof.
  intros He Hok. unfold DeleteRefreshToken. apply wp_wrap_err. wp_step.
  - intros e r' Hf Hr'. apply He; [done|by eauto|exact Hr'].
  - by apply Hok.
Qed.
End rules.

(** * The tokens as a transition system *)

(** The tokens, by digest, that were sent to Redis for a user, and those that
    were accepted in exchange for a new one. *)
Record token_state := {
  ts_world : world;
  ts_issued : list (string * N);
  ts_taken : list (string * N)
}.

Section tokens.
Context `{EnvLaws}.

(** The token a call generates, as issued to a user. *)
Definition issue (w : world) (user : option N) : list (string * N) :=
  match drawn w, user with
  | Some t, Some u => [(hex_sha256 t, u)]
  | _, _ => []
  end.

(** The user Redis has for a token, expired or not. *)
Definition held_by (t : string) (w : world) : option N :=
  match w_redis w !! refreshTokenKey t with Some (v, _) => token_user v | None => None end.

Inductive token_step : token_state → token_state → Prop :=
  | step_create u ttl r w' s : 0 < u < 2 ^ 64 →
      CreateRefreshToken u ttl (ts_world s) = (r, w') →
      token_step s (Build_token_state w' (issue (ts_world s) (Some u) ++ ts_issued s) (ts_taken s))
  | step_rotate old ttl new u w' s :
      RotateRefreshToken old ttl (ts_world s) = (Ok (new, u), w') →
      token_step s (Build_token_state w' (issue (ts_world s) (Some u) ++ ts_issued s)
                      ((hex_sha256 old, u) :: ts_taken s))
  | step_rotate_failed old ttl e w' s :
      RotateRefreshToken old ttl (ts_world s) = (Err e, w') →
      token_step s (Build_token_state w' (issue (ts_world s) (held_by old (ts_world s)) ++ ts_issued s)
                      (ts_taken s))
  | step_delete t r w' s :
      DeleteRefreshToken t (ts_world s) = (r, w') →
      token_step s (Build_token_state w' (ts_issued s) (ts_taken s))
  | step_elsewhere w' s :
      (∀ d, w_redis w' !! digestKey d = w_redis (ts_world s) !! digestKey d) →
      token_step s (Build_token_state w' (ts_issued s) (ts_taken s)).

Definition no_tokens (s : token_state) : Prop :=
  (∀ d, w_redis (ts_world s) !! digestKey d = None) ∧ ts_issued s = [] ∧ ts_taken s = [].

Record tokens_inv (s : token_state) : Prop := {
  ti_family : family token_user digestKey (ts_issued s) (ts_taken s) (w_redis (ts_world s));
  ti_users x : x ∈ ts_issued s → x.2 ≠ 0;
  ti_taken x : x ∈ ts_taken s → x ∈ ts_issued s
}.

Lemma tokens_inv_init s : no_tokens s → tokens_inv s.
Proof.
  intros (Hr & Hi & Ht). split; rewrite ?Hi, ?Ht; [|intros x Hx; by apply not_elem_of_nil in Hx|done].
  split; [intros k data t; by rewrite Hr|]. intros k. unfold present. rewrite Hr. cbn. lia.
Qed.

Lemma rotated_family (issued taken : list (string * N)) old t v u ttl w w' :
  family token_user digestKey issued taken (w_redis w) →
  rget (now_at (S (w_step w))) (refreshTokenKey old) (w_redis w) = Some v →
  token_user v = Some u → rotated old t v ttl w w' →
  family token_user digestKey ((hex_sha256 t, u) :: issued) ((hex_sha256 old, u) :: taken) (w_redis w') ∧
  (hex_sha256 old, u) ∈ issued.
Proof.
  intros Hf Hg Hv Hr. apply rget_lookup in Hg as [e He]. split.
  - rewrite Hr. unfold refreshTokenKey in *. apply (family_insert _ _ digestKey_inj); [|done].
    apply (family_take _ _ digestKey_inj); [done|]. by rewrite He.
  - destruct (fm_stored _ _ _ _ _ Hf _ _ _ He) as (a & Ha & Hd). congruence.
Qed.

Lemma family_issue (issued taken : list (string * N)) r w u :
  family token_user digestKey issued taken r → family token_user digestKey (issue w u ++ issued) taken r.
Proof.
  intros Hf. unfold issue. destruct (drawn w) as [t|]; [|done]. destruct u; [|done].
  by apply family_attempt.
Qed.

(** What a rotation does, whatever it answers. *)
Lemma RotateRefreshToken_inv old ttl r w w' (issued taken : list (string * N)) :
  RotateRefreshToken old ttl w = (r, w') →
  family token_user digestKey issued taken (w_redis w) → (∀ x, x ∈ issued → x.2 ≠ 0) →
  match r with
  | Ok (new, u) => u ≠ 0 ∧ (hex_sha256 old, u) ∈ issued ∧
      family token_user digestKey (issue w (Some u) ++ issued) ((hex_sha256 old, u) :: taken) (w_redis w')
  | Err _ => family token_user digestKey (issue w (held_by old w) ++ issued) taken (w_redis w')
  | Panic => False
  end.
Proof.
  intros Hcall Hf Hus.
  assert (Hwp : wp (RotateRefreshToken old ttl) (λ r w', match r with
    | Ok (new, u) => u ≠ 0 ∧ (hex_sha256 old, u) ∈ issued ∧
        family token_user digestKey (issue w (Some u) ++ issued) ((hex_sha256 old, u) :: taken) (w_redis w')
    | Err _ => family token_user digestKey (issue w (held_by old w) ++ issued) taken (w_redis w')
    | Panic => False end) w).
  { apply wp_RotateRefreshToken.
    - intros e w1 _ _ [Hr|[Hr|(t & v & Ht & Hg & Hr)]].
      + apply family_issue. by rewrite Hr.
      + apply family_issue. rewrite Hr. unfold refreshTokenKey. by apply family_delete.
      + apply rget_lookup in Hg as Hl. destruct Hl as [x Hl].
        destruct (fm_stored _ _ _ _ _ Hf _ _ _ Hl) as (u & _ & Hd).
        unfold issue, held_by. rewrite Ht, Hl, Hd, Hr. unfold refreshTokenKey.
        apply (family_insert _ _ digestKey_inj); [|done]. by apply family_delete.
    - intros w1 _ _ Hr. apply family_issue. by rewrite Hr.
    - intros v w1 _ _ _ Hr. apply family_issue. rewrite Hr. unfold refreshTokenKey. by apply family_delete.
    - intros v w1 _ Hg Hv. apply rget_lookup in Hg as [x Hl].
      destruct (fm_stored _ _ _ _ _ Hf _ _ _ Hl) as (u & Ha & Hd). specialize (Hus _ Ha). cbn in Hus.
      destruct Hv; congruence.
    - intros t v u w1 _ Ht Hg Hv Hu _ Hr. split; [done|].
      destruct (rotated_family issued taken old t v u ttl w w1) as [Hf' Hin]; [done..|].
      split; [done|]. unfold issue. by rewrite Ht. }
  unfold wp in Hwp. by rewrite Hcall in Hwp.
Qed.

Lemma issue_users w u s :
  (∀ x, u = Some x → x ≠ 0) → (∀ x, x ∈ ts_issued s → x.2 ≠ 0) → ∀ x, x ∈ issue w u ++ ts_issued s → x.2 ≠ 0.
Proof.
  intros Hu Hs x [Hx|Hx]%elem_of_app; [|by auto]. unfold issue in Hx.
  destruct (drawn w), u as [u|]; try by apply not_elem_of_nil in Hx.
  apply list_elem_of_singleton in Hx as ->. by apply Hu.
Qed.

Lemma CreateRefreshToken_family u ttl r w w' (issued taken : list (string * N)) :
  CreateRefreshToken u ttl w = (r, w') → u < 2 ^ 64 → family token_user digestKey issued taken (w_redis w) →
  family token_user digestKey (issue w (Some u) ++ issued) taken (w_redis w').
Proof.
  intros Hcall Hu Hf.
  assert (Hset : ∀ t x, drawn w = Some t → family token_user digestKey (issue w (Some u) ++ issued) taken
            (<[refreshTokenKey t := (FormatUint u, x)]> (w_redis w))).
  { intros t x Ht. unfold issue, refreshTokenKey. rewrite Ht.
    apply (family_insert _ _ digestKey_inj); [done|]. by apply ParseUint_FormatUint. }
  assert (Hwp : wp (CreateRefreshToken u ttl) (λ _ w',
    family token_user digestKey (issue w (Some u) ++ issued) taken (w_redis w')) w).
  { apply wp_CreateRefreshToken.
    - intros e w1 _ _ [Hr|(t & Ht & Hr)]; rewrite Hr; [by apply family_issue|by apply Hset].
    - intros t w1 _ Ht _ Hr. rewrite Hr. by apply Hset. }
  unfold wp in Hwp. by rewrite Hcall in Hwp.
Qed.

Lemma DeleteRefreshToken_family t r w w' (issued taken : list (string * N)) :
  DeleteRefreshToken t w = (r, w') → family token_user digestKey issued taken (w_redis w) →
  family token_user digestKey issued taken (w_redis w').
Proof.
  intros Hcall Hf.
  assert (Hwp : wp (DeleteRefreshToken t) (λ _ w', family token_user digestKey issued taken (w_redis w')) w).
  { apply wp_DeleteRefreshToken.
    - intros e w1 _ _ [->| ->]; [done|unfold refreshTokenKey; by apply family_delete].
    - intros w1 _ ->. unfold refreshTokenKey. by apply family_delete. }
  unfold wp in Hwp. by rewrite Hcall in Hwp.
Qed.

Lemma held_by_user s old x :
  tokens_inv s → held_by old (ts_world s) = Some x → x ≠ 0.
Proof.
  intros [Hf Hu _] Hh. unfold held_by in Hh. destruct (_ !! _) as [[v t]|] eqn:Hl; [|done].
  destruct (fm_stored _ _ _ _ _ Hf _ _ _ Hl) as (u & Ha & Hd). specialize (Hu _ Ha). cbn in Hu. congruence.
Qed.

Lemma tokens_inv_step s s' : token_step s s' → tokens_inv s → tokens_inv s'.
Proof.
  intros Hstep Hinv. pose proof Hinv as [Hf Hu Ht]. destruct Hstep.
  - rename select (CreateRefreshToken _ _ _ = _) into Hc. split; cbn.
    + eapply CreateRefreshToken_family; [exact Hc|lia|done].
    + apply issue_users; [|done]. intros x [= <-]. lia.
    + intros x Hx. apply elem_of_app. auto.
  - rename select (RotateRefreshToken _ _ _ = _) into Hc.
    destruct (RotateRefreshToken_inv _ _ _ _ _ _ _ Hc Hf Hu) as (Hne & Hin & Hf'). split; cbn; [done|..].
    + apply issue_users; [|done]. by intros x [= <-].
    + intros x [->|Hx]%elem_of_cons; apply elem_of_app; auto.
  - rename select (RotateRefreshToken _ _ _ = _) into Hc.
    pose proof (RotateRefreshToken_inv _ _ _ _ _ _ _ Hc Hf Hu) as Hf'. split; cbn; [done|..].
    + apply issue_users; [|done]. intros x. by apply held_by_user.
    + intros x Hx. apply elem_of_app. auto.
  - rename select (DeleteRefreshToken _ _ = _) into Hc. split; cbn; [|done..].
    by eapply DeleteRefreshToken_family.
  - split; cbn; [|done..]. by eapply family_same.
Qed.

(** * The contract *)

(** C11: however creations, rotations and deletions interleave and whichever of
    their commands fail or lose their reply, a refresh token is accepted only
    for the user it was issued to, and at most as often as it was issued: a
    token that was used once is not accepted again. *)
Theorem refresh_token_once s s' :
  no_tokens s → rtc token_step s s' →
  (∀ digest user, (digest, user) ∈ ts_taken s' → (digest, user) ∈ ts_issued s') ∧
  ∀ digest, (times digest (ts_taken s') <= times digest (ts_issued s'))%nat.
Proof.
  intros Hi Hs. apply tokens_inv_init in Hi.
  assert (Hinv : tokens_inv s').
  { induction Hs as [|s1 s2 s3 Hstep _ IH]; [done|]. by apply IH, (tokens_inv_step s1). }
  destruct Hinv as [[_ Hc] _ Ht]. split; [by auto|]. intros d. specialize (Hc d). lia.
Qed.
End tokens.

(** * Witness *)

Definition no_token : token_state :=
  Build_token_state (Build_world empty_db ∅ (Build_casbin [] []) 0) [] [].

Lemma no_token_none : no_tokens no_token.
Proof. split_and!; [intros d; apply lookup_empty|reflexivity..]. Qed.

(** A token is created for the second user and rotated. *)
Definition sample_refresh : string := Base64.RawURLEncode (str_repeat (Ascii.ascii_of_nat 0) 32).
Definition created_tokens : token_state :=
  Build_token_state (CreateRefreshToken 2 hour (ts_world no_token)).2
    (issue (ts_world no_token) (Some 2) ++ []) [].
Definition rotated_tokens : token_state :=
  Build_token_state (RotateRefreshToken sample_refresh hour (ts_world created_tokens)).2
    (issue (ts_world created_tokens) (Some 2) ++ ts_issued created_tokens) [(hex_sha256 sample_refresh, 2)].

Lemma rotated_answer :
  ∃ new, (RotateRefreshToken sample_refresh hour (ts_world created_tokens)).1 = Ok (new, 2).
Proof. eexists. vm_compute. reflexivity. Qed.

Lemma rotated_reachable : rtc token_step no_token rotated_tokens.
Proof.
  destruct rotated_answer as [new Hnew].
  eapply rtc_l; [apply (step_create 2 hour (CreateRefreshToken 2 hour (ts_world no_token)).1); [by_decide|apply surjective_pairing]|].
  eapply rtc_l; [|apply rtc_refl].
  apply (step_rotate sample_refresh hour new 2 _ created_tokens). rewrite <- Hnew. apply surjective_pairing.
Qed.

Lemma refresh_token_once_witness :
  length (ts_taken rotated_tokens) = 1%nat ∧
  ((∀ digest user, (digest, user) ∈ ts_taken rotated_tokens → (digest, user) ∈ ts_issued rotated_tokens) ∧
   ∀ digest, (times digest (ts_taken rotated_tokens) <= times digest (ts_issued rotated_tokens))%nat).
Proof.
  split; [reflexivity|].
  exact (refresh_token_once no_token rotated_tokens no_token_none rotated_reachable).
Defined.
