(* ===== verification/Directory.v ===== *)
(** directory/upstream: the gRPC client of the upstream service as the API uses
    it.  The chat calls pass their errors on, every other call turns the status of a failed RPC into one of the errors of
    errors.go, and an empty answer into a failure.  The generated client, with
    the service behind it, is a parameter. *)

From S2P Require Import Prelude.
From S2P Require Import GoStrings.
From S2P Require Import Schema.
From S2P Require Import Stores.
From S2P Require Import World.

Local Open Scope list_scope.
Local Open Scope N_scope.

(** * errors.go *)

Definition ErrInvalidDeviceFlow : gerror :=
  Sentinel "upstream.ErrInvalidDeviceFlow" "invalid device authorization request".
Definition ErrDeviceFlowRejected : gerror :=
  Sentinel "upstream.ErrDeviceFlowRejected" "device authorization rejected".
Definition ErrDeviceFlowFailed : gerror :=
  Sentinel "upstream.ErrDeviceFlowFailed" "device authorization failed".
Definition ErrDeviceFlowTimeout : gerror :=
  Sentinel "upstream.ErrDeviceFlowTimeout" "device authorization timed out".
Definition ErrInvalidRefresh : gerror :=
  Sentinel "upstream.ErrInvalidRefresh" "invalid token refresh request".
Definition ErrRefreshRejected : gerror :=
  Sentinel "upstream.ErrRefreshRejected" "refresh token rejected; reauthorization required".
Definition ErrRefreshFailed : gerror :=
  Sentinel "upstream.ErrRefreshFailed" "token refresh failed".
Definition ErrRefreshTimeout : gerror :=
  Sentinel "upstream.ErrRefreshTimeout" "token refresh timed out".
Definition ErrInvalidExchange : gerror :=
  Sentinel "upstream.ErrInvalidExchange" "invalid token exchange request".
Definition ErrProviderUnavailable : gerror :=
  Sentinel "upstream.ErrProviderUnavailable" "oauth provider unavailable".
Definition ErrExchangeRejected : gerror :=
  Sentinel "upstream.ErrExchangeRejected" "authorization code rejected".
Definition ErrUpstreamUnavailable : gerror :=
  Sentinel "upstream.ErrUpstreamUnavailable" "oauth upstream unavailable".
Definition ErrExchangeTimeout : gerror :=
  Sentinel "upstream.ErrExchangeTimeout" "token exchange timed out".
Definition ErrExchangeFailed : gerror :=
  Sentinel "upstream.ErrExchangeFailed" "token exchange failed".
Definition ErrInvalidIDToken : gerror :=
  Sentinel "upstream.ErrInvalidIDToken" "invalid ID token".

(** * Messages *)

(** [timestamppb.Timestamp]; [AsTime] of a valid one counts nanoseconds from the
    Unix epoch, as [time] does everywhere. *)
Record Timestamp := { ts_Seconds : Z; ts_Nanos : Z }.

Definition CheckValid (t : Timestamp) : bool :=
  ((-62135596800 <=? ts_Seconds t) && (ts_Seconds t <=? 253402300799) &&
   (0 <=? ts_Nanos t) && (ts_Nanos t <? 1000000000))%Z.

Definition AsTime (t : Timestamp) : time := (ts_Seconds t * second + ts_Nanos t)%Z.

(** The zero [time.Time], January 1 of year 1. *)
Definition zero_time : time := (-62135596800 * second)%Z.
Definition IsZero (t : time) : bool := (t =? zero_time)%Z.

Record DeviceFlowResponse := {
  df_DeviceAuthId : string; df_UserCode : string; df_IntervalSeconds : N; df_VerificationUrl : string
}.
Record DeviceAuthorizationResponse := { da_AuthorizationCode : string; da_CodeVerifier : string }.
Record ProviderResponse := {
  pr_Issuer : string; pr_AuthURL : string; pr_TokenURL : string; pr_DeviceAuthURL : string;
  pr_UserInfoURL : string; pr_JwksURL : string; pr_Algorithms : list string; pr_RawClaims : string
}.
Record VerifyResponse := {
  vr_Issuer : string; vr_Subject : string; vr_Audience : list string; vr_Nonce : string; vr_ClaimsJson : string;
  vr_ExpiresAt : option Timestamp; vr_IssuedAt : option Timestamp
}.
Record TokenResponse := {
  tr_AccessToken : string; tr_RefreshToken : string; tr_TokenType : string;
  tr_ExpiresAt : option Timestamp; tr_IdToken : string
}.

(** [token.Extra("id_token")]: absent, a string, or a value of another type. *)
Inductive extra := ExtraNil | ExtraString (s : string) | ExtraOther.

(** [oauth2.Token] with its extra field. *)
Record Token := {
  tok_AccessToken : string; tok_RefreshToken : string; tok_TokenType : string;
  tok_Expiry : time; tok_IDToken : extra
}.

(** * The client *)

(** The generated client: each call may answer with a message, with nothing, or
    fail with any error. *)
Definition rpc_result (A : Type) : Type := option A + gerror.

Class UpstreamClient := {
  rpc_GetDeviceFlowCode : nat → string → rpc_result DeviceFlowResponse;
  rpc_PollDeviceFlow : nat → string → string → string → N → rpc_result DeviceAuthorizationResponse;
  rpc_GetProvider : nat → string → rpc_result ProviderResponse;
  rpc_Verifier : nat → string → string → rpc_result VerifyResponse;
  rpc_ExchangeCode : nat → string → string → string → string → rpc_result TokenResponse;
  rpc_RefreshToken : nat → string → string → rpc_result TokenResponse
}.

(** [status.Code]. *)
Fixpoint status_Code (e : gerror) : code :=
  match e with
  | StatusError c _ => c
  | Wrapped _ e => status_Code e
  | _ => Unknown
  end.

Definition deviceFlowError (e : gerror) : gerror :=
  match status_Code e with
  | InvalidArgument => ErrInvalidDeviceFlow
  | FailedPrecondition | NotFound => ErrProviderUnavailable
  | Unauthenticated | PermissionDenied => ErrDeviceFlowRejected
  | DeadlineExceeded => ErrDeviceFlowTimeout
  | Canceled => context_Canceled
  | Unavailable => ErrUpstreamUnavailable
  | _ => ErrDeviceFlowFailed
  end.

Definition providerError (e : gerror) : gerror :=
  match status_Code e with
  | FailedPrecondition | NotFound => ErrProviderUnavailable
  | InvalidArgument | Unauthenticated => ErrInvalidIDToken
  | Canceled => context_Canceled
  | _ => ErrUpstreamUnavailable
  end.

Definition exchangeError (e : gerror) : gerror :=
  match status_Code e with
  | InvalidArgument => ErrInvalidExchange
  | FailedPrecondition | NotFound => ErrProviderUnavailable
  | Unauthenticated => ErrExchangeRejected
  | Unavailable => ErrUpstreamUnavailable
  | DeadlineExceeded => ErrExchangeTimeout
  | Canceled => context_Canceled
  | _ => ErrExchangeFailed
  end.

Definition refreshError (e : gerror) : gerror :=
  match status_Code e with
  | InvalidArgument => ErrInvalidRefresh
  | FailedPrecondition | NotFound => ErrProviderUnavailable
  | Unauthenticated => ErrRefreshRejected
  | Unavailable => ErrUpstreamUnavailable
  | DeadlineExceeded => ErrRefreshTimeout
  | Canceled => context_Canceled
  | _ => ErrRefreshFailed
  end.

(** One RPC: it leaves the process, and a failure is translated. *)
Definition rpc {A} (call : nat → rpc_result A) (translate : gerror → gerror) (empty : gerror) : M A :=
  λ w, match call (w_step w) with
       | inl (Some a) => (Ok a, tick w)
       | inl None => (Err empty, tick w)
       | inr e => (Err (translate e), tick w)
       end.

Section directory.
Context `{UpstreamClient}.

Definition GetDeviceFlowCode (provider : string) : M DeviceFlowResponse :=
  result ← rpc (λ n, rpc_GetDeviceFlowCode n provider) deviceFlowError ErrDeviceFlowFailed;
  _ ← reject_if (blank (df_DeviceAuthId result) || blank (df_UserCode result) ||
        (df_IntervalSeconds result =? 0) || (900 <? df_IntervalSeconds result) ||
        blank (df_VerificationUrl result)) ErrDeviceFlowFailed;
  mret result.

Definition PollDeviceFlow (provider authID userCode : string) (intervalSeconds : N) :
  M DeviceAuthorizationResponse :=
  result ← rpc (λ n, rpc_PollDeviceFlow n provider authID userCode intervalSeconds)
             deviceFlowError ErrDeviceFlowFailed;
  _ ← reject_if (blank (da_AuthorizationCode result) || blank (da_CodeVerifier result))
        ErrDeviceFlowFailed;
  mret result.

Definition GetProvider (issuer : string) : M ProviderResponse :=
  rpc (λ n, rpc_GetProvider n issuer) providerError ErrProviderUnavailable.

Definition Verifier (rawIDToken provider : string) : M VerifyResponse :=
  rpc (λ n, rpc_Verifier n rawIDToken provider) providerError ErrInvalidIDToken.

(** The token of an answer; an expiry out of range is [failed]. *)
Definition token_of (response : TokenResponse) (failed : gerror) : res Token :=
  expiry ← match tr_ExpiresAt response with
           | None => Ok zero_time
           | Some t => if CheckValid t then Ok (AsTime t) else Err failed
           end;
  Ok (Build_Token (tr_AccessToken response) (tr_RefreshToken response) (tr_TokenType response)
        expiry (ExtraString (tr_IdToken response))).

Definition Exchange (c verifier provider flowType : string) : M Token :=
  response ← rpc (λ n, rpc_ExchangeCode n c verifier provider flowType) exchangeError ErrExchangeFailed;
  _ ← reject_if (String.eqb (tr_AccessToken response) "") ErrExchangeFailed;
  lift (token_of response ErrExchangeFailed).

Definition RefreshToken (refreshtoken provider : string) : M Token :=
  response ← rpc (λ n, rpc_RefreshToken n refreshtoken provider) refreshError ErrRefreshFailed;
  _ ← reject_if (blank (tr_AccessToken response)) ErrRefreshFailed;
  lift (token_of response ErrRefreshFailed).

End directory.

Lemma preserves_rpc {A} (call : nat → rpc_result A) translate empty : preserves_wf (rpc call translate empty).
Proof. intros w. unfold rpc. by destruct (call _) as [[a|]|e]. Qed.
#[export] Hint Resolve preserves_rpc : erent.

(** * Chat *)

(** [upstream.ChatRequest]; a nil map of headers is the empty one. *)
Record ChatRequest := {
  cr_Data : string; cr_Secret : string; cr_Endpoint : string; cr_Authmode : string;
  cr_AuthHeader : string; cr_AuthPrefix : string; cr_Headers : gmap string string
}.

(** A server stream as its reader sees it: the contents of the messages that
    arrive and how it ends, [None] being [io.EOF]. *)
Record rpc_stream := { st_contents : list string; st_end : option gerror }.

(** The chat calls of the generated client; [ChatResponse] is its content. *)
Class ChatClient := {
  rpc_ChatStream : nat → ChatRequest → rpc_stream + gerror;
  rpc_ChatNonStream : nat → ChatRequest → rpc_result string
}.

Section chat.
Context `{ChatClient}.

Definition ChatStream (body secret authmode endpoint authHeader authPrefix : string)
    (headers : gmap string string) : M rpc_stream :=
  λ w, match rpc_ChatStream (w_step w)
               (Build_ChatRequest body secret endpoint authmode authHeader authPrefix headers) with
       | inl stream => (Ok stream, tick w)
       | inr e => (Err e, tick w)
       end.

Definition ChatNonStream (body secret authmode endpoint authHeader authPrefix : string)
    (headers : gmap string string) : M string :=
  rpc (λ n, rpc_ChatNonStream n
         (Build_ChatRequest body secret endpoint authmode authHeader authPrefix headers))
    (λ e, e) (StatusError Internal "empty upstream response").
End chat.

(** * Lemmas *)

(** The calls read and write no store; whatever they fail with is one of the
    errors of errors.go or a cancellation. *)
Definition directory_errors : list gerror :=
  [ErrInvalidDeviceFlow; ErrDeviceFlowRejected; ErrDeviceFlowFailed; ErrDeviceFlowTimeout;
   ErrInvalidRefresh; ErrRefreshRejected; ErrRefreshFailed; ErrRefreshTimeout; ErrInvalidExchange;
   ErrProviderUnavailable; ErrExchangeRejected; ErrUpstreamUnavailable; ErrExchangeTimeout;
   ErrExchangeFailed; ErrInvalidIDToken; context_Canceled].

Definition device_errors : list gerror :=
  [ErrInvalidDeviceFlow; ErrProviderUnavailable; ErrDeviceFlowRejected; ErrDeviceFlowTimeout;
   context_Canceled; ErrUpstreamUnavailable; ErrDeviceFlowFailed].
Definition provider_errors : list gerror :=
  [ErrProviderUnavailable; ErrInvalidIDToken; context_Canceled; ErrUpstreamUnavailable].
Definition exchange_errors : list gerror :=
  [ErrInvalidExchange; ErrProviderUnavailable; ErrExchangeRejected; ErrUpstreamUnavailable;
   ErrExchangeTimeout; context_Canceled; ErrExchangeFailed].
Definition refresh_errors : list gerror :=
  [ErrInvalidRefresh; ErrProviderUnavailable; ErrRefreshRejected; ErrUpstreamUnavailable;
   ErrRefreshTimeout; context_Canceled; ErrRefreshFailed].

Lemma deviceFlowError_in e : deviceFlowError e ∈ device_errors.
Proof. unfold deviceFlowError. destruct (status_Code e); by_decide. Qed.
Lemma providerError_in e : providerError e ∈ provider_errors.
Proof. unfold providerError. destruct (status_Code e); by_decide. Qed.
Lemma exchangeError_in e : exchangeError e ∈ exchange_errors.
Proof. unfold exchangeError. destruct (status_Code e); by_decide. Qed.
Lemma refreshError_in e : refreshError e ∈ refresh_errors.
Proof. unfold refreshError. destruct (status_Code e); by_decide. Qed.

Lemma wp_rpc {A} (call : nat → rpc_result A) translate empty (errs : list gerror) (Q : res A → world → Prop) w :
  (∀ e, translate e ∈ errs) → empty ∈ errs →
  (∀ e, e ∈ errs → Q (Err e) (tick w)) →
  (∀ a, call (w_step w) = inl (Some a) → Q (Ok a) (tick w)) →
  wp (rpc call translate empty) Q w.
Proof.
  intros Ht He Herr Hok. unfold wp, rpc.
  destruct (call (w_step w)) as [[a|]|e] eqn:Hc; cbn; auto.
Qed.

Section rules.
Context `{UpstreamClient}.

Lemma wp_GetDeviceFlowCode provider (Q : res DeviceFlowResponse → world → Prop) w :
  (∀ e, e ∈ device_errors → Q (Err e) (tick w)) →
  (∀ r, rpc_GetDeviceFlowCode (w_step w) provider = inl (Some r) →
        blank (df_DeviceAuthId r) = false → blank (df_UserCode r) = false →
        1 <= df_IntervalSeconds r <= 900 → blank (df_VerificationUrl r) = false → Q (Ok r) (tick w)) →
  wp (GetDeviceFlowCode provider) Q w.
Proof.
  intros He Hok. unfold GetDeviceFlowCode. wp_step.
  apply (wp_rpc _ _ _ device_errors); [apply deviceFlowError_in|by_decide|done|].
  intros r Hr. wp_step. wp_step; [apply He; by_decide|].
  prop_guards. wp_step. apply Hok; (done || lia).
Qed.

Lemma wp_PollDeviceFlow provider authID userCode i (Q : res DeviceAuthorizationResponse → world → Prop) w :
  (∀ e, e ∈ device_errors → Q (Err e) (tick w)) →
  (∀ r, rpc_PollDeviceFlow (w_step w) provider authID userCode i = inl (Some r) →
        blank (da_AuthorizationCode r) = false → blank (da_CodeVerifier r) = false → Q (Ok r) (tick w)) →
  wp (PollDeviceFlow provider authID userCode i) Q w.
Proof.
  intros He Hok. unfold PollDeviceFlow. wp_step.
  apply (wp_rpc _ _ _ device_errors); [apply deviceFlowError_in|by_decide|done|].
  intros r Hr. wp_step. wp_step; [apply He; by_decide|].
  prop_guards. wp_step. by apply Hok.
Qed.

Lemma wp_Verifier raw provider (Q : res VerifyResponse → world → Prop) w :
  (∀ e, e ∈ provider_errors → Q (Err e) (tick w)) →
  (∀ r, rpc_Verifier (w_step w) raw provider = inl (Some r) → Q (Ok r) (tick w)) →
  wp (Verifier raw provider) Q w.
Proof.
  intros He Hok. apply (wp_rpc _ _ _ provider_errors); try done; [apply providerError_in|by_decide].
Qed.

Lemma token_of_spec r failed :
  token_of r failed = Err failed ∨
  ∃ t, token_of r failed = Ok t ∧ tok_AccessToken t = tr_AccessToken r ∧
       tok_RefreshToken t = tr_RefreshToken r ∧ tok_IDToken t = ExtraString (tr_IdToken r) ∧
       tok_Expiry t = match tr_ExpiresAt r with None => zero_time | Some s => AsTime s end.
Proof.
  unfold token_of. destruct (tr_ExpiresAt r) as [s|]; cbn; [destruct (CheckValid s); cbn|]; eauto 10.
Qed.

(** The token answers the response of the RPC. *)
Definition answers_token (r : TokenResponse) (t : Token) : Prop :=
  tok_AccessToken t = tr_AccessToken r ∧ tok_RefreshToken t = tr_RefreshToken r ∧
  tok_IDToken t = ExtraString (tr_IdToken r) ∧
  tok_Expiry t = match tr_ExpiresAt r with None => zero_time | Some s => AsTime s end.

Lemma wp_Exchange c verifier provider flowType (Q : res Token → world → Prop) w :
  (∀ e, e ∈ exchange_errors → Q (Err e) (tick w)) →
  (∀ r t, rpc_ExchangeCode (w_step w) c verifier provider flowType = inl (Some r) →
          answers_token r t → tok_AccessToken t ≠ ""%string → Q (Ok t) (tick w)) →
  wp (Exchange c verifier provider flowType) Q w.
Proof.
  intros He Hok. assert (Hf : ErrExchangeFailed ∈ exchange_errors) by by_decide.
  unfold Exchange. wp_step.
  apply (wp_rpc _ _ _ exchange_errors); [apply exchangeError_in|done|done|].
  intros r Hr. wp_step. wp_step; [by apply He|]. wp_step.
  destruct (token_of_spec r ErrExchangeFailed) as [->|(t & -> & Ha & ? & ? & ?)]; [by apply He|].
  eapply Hok; [done|by unfold answers_token|]. rewrite Ha. by apply String.eqb_neq.
Qed.

Lemma wp_RefreshToken refreshtoken provider (Q : res Token → world → Prop) w :
  (∀ e, e ∈ refresh_errors → Q (Err e) (tick w)) →
  (∀ r t, rpc_RefreshToken (w_step w) refreshtoken provider = inl (Some r) →
          answers_token r t → blank (tok_AccessToken t) = false → Q (Ok t) (tick w)) →
  wp (RefreshToken refreshtoken provider) Q w.
Proof.
  intros He Hok. assert (Hf : ErrRefreshFailed ∈ refresh_errors) by by_decide.
  unfold RefreshToken. wp_step.
  apply (wp_rpc _ _ _ refresh_errors); [apply refreshError_in|done|done|].
  intros r Hr. wp_step. wp_step; [by apply He|]. wp_step.
  destruct (token_of_spec r ErrRefreshFailed) as [->|(t & -> & Ha & ? & ? & ?)]; [by apply He|].
  eapply Hok; [done|by unfold answers_token|]. by rewrite Ha.
Qed.

(** * The contract *)

(** Every call of the client answers or fails with one of the errors of
    errors.go (or a cancellation), whatever status the RPC ended with and
    whatever it answered; it changes no store, and it never answers with an
    incomplete message. *)
Theorem directory_calls_total provider authID userCode i raw c verifier flowType refreshtoken w :
  let outcome {A} (errs : list gerror) (ok : A → Prop) (r : res A) (w' : world) :=
    w' = tick w ∧ match r with Ok a => ok a | Err e => e ∈ errs | Panic => False end in
  wp (GetDeviceFlowCode provider) (outcome device_errors (λ r,
    blank (df_DeviceAuthId r) = false ∧ blank (df_UserCode r) = false ∧
    blank (df_VerificationUrl r) = false ∧ 1 <= df_IntervalSeconds r <= 900)) w ∧
  wp (PollDeviceFlow provider authID userCode i) (outcome device_errors (λ r,
    blank (da_AuthorizationCode r) = false ∧ blank (da_CodeVerifier r) = false)) w ∧
  wp (Verifier raw provider) (outcome provider_errors (λ _, True)) w ∧
  wp (Exchange c verifier provider flowType) (outcome exchange_errors (λ t,
    tok_AccessToken t ≠ ""%string)) w ∧
  wp (RefreshToken refreshtoken provider) (outcome refresh_errors (λ t,
    blank (tok_AccessToken t) = false)) w.
Proof.
  split_and!.
  - by apply wp_GetDeviceFlowCode.
  - by apply wp_PollDeviceFlow.
  - by apply wp_Verifier.
  - by apply wp_Exchange.
  - by apply wp_RefreshToken.
Qed.
End rules.
