(* ===== verification/Oidc.v ===== *)
(** modules/oauth/oidc and modules/oauth/openai: the client configuration of a
    provider, built from its discovery document.  The upstream process discovers
    the provider itself, the API asks the upstream for what it found. *)

From S2P Require Import Prelude.
From S2P Require Import GoStrings.
From S2P Require Import Schema.
From S2P Require Import World.
From S2P Require Import NetUrl.
From S2P Require Import Json.
From S2P Require Import Config.
From S2P Require Import Directory.

Local Open Scope list_scope.
Local Open Scope N_scope.

(** * Data *)

(** golang.org/x/oauth2: [AuthStyle], [Endpoint], and [Config] with its endpoint
    flattened. *)
Inductive AuthStyle := AuthStyleInParams | AuthStyleInHeader.

Record Endpoint := { ep_AuthURL : string; ep_TokenURL : string; ep_DeviceAuthURL : string }.

Record OAuthConfig := {
  oc_ClientID : string; oc_ClientSecret : string; oc_RedirectURL : string;
  oc_AuthURL : string; oc_TokenURL : string; oc_DeviceAuthURL : string;
  oc_AuthStyle : AuthStyle; oc_Scopes : list string
}.

(** What the code reads of go-oidc's [Provider]: its discovery document, its
    endpoint and its user-info URL.  [Claims] decodes the document. *)
Record Provider := { pv_rawClaims : string; pv_Endpoint : Endpoint; pv_UserInfoEndpoint : string }.

(** [provider.Verifier(&Config{ClientID})]. *)
Record IDTokenVerifier := { iv_Provider : Provider; iv_ClientID : string }.

Record OIDCAuth := {
  oa_Provider : option Provider; oa_OauthConfig : option OAuthConfig;
  oa_AuthURLParams : list (string * string); oa_Verifier : option IDTokenVerifier
}.

(** go-oidc's discovery of the provider at an issuer. *)
Class Discovery := oidc_NewProvider : nat → string → Provider + gerror.

(** * openai *)

Definition OaiAuthURLParams : list (string * string) :=
  [("prompt", "login"); ("id_token_add_organizations", "true"); ("codex_cli_simplified_flow", "true")]%string.

Definition OaiScopes : list string := ["openid"; "profile"; "email"; "offline_access"]%string.

(** * oidc.go *)

(** A value into a [[]string]. *)
Definition decode_strings (v : json) : option (list string) :=
  match v with
  | JNull => Some []
  | JArray l => mapM (λ e, decode_string e.2 ""%string) l
  | _ => None
  end.

Definition methods_field (key : string) (_ : raw_message) (v : json) (methods : list string) : option (list string) :=
  if for_field "token_endpoint_auth_methods_supported" key then decode_strings v else Some methods.

(** The loop over the advertised methods: the last one it knows before the first
    [client_secret_basic], and whether it knows any. *)
Fixpoint choose_method (methods : list string) (style : AuthStyle) (supported : bool) : AuthStyle * bool :=
  match methods with
  | [] => (style, supported)
  | method :: methods =>
      if String.eqb method "client_secret_basic" then (AuthStyleInHeader, true)
      else if String.eqb method "client_secret_post" then choose_method methods AuthStyleInParams true
      else choose_method methods style supported
  end.

Definition auth_style (clientSecret rawClaims : string) : res AuthStyle :=
  if String.eqb clientSecret "" then Ok AuthStyleInParams else
  match unmarshal_struct methods_field rawClaims [] with
  | None => Err (Wrapped "read OIDC authentication methods" (Opaque "json"))
  | Some [] => Ok AuthStyleInHeader
  | Some methods =>
      let (style, supported) := choose_method methods AuthStyleInHeader false in
      if supported then Ok style
      else Err (Opaque "OIDC provider has no supported client secret authentication method")
  end.

Definition buildOAuthConfig (cfg : OIDCConfig) (endpoint : Endpoint) (rawClaims : string) (scopes : list string) :
  res OAuthConfig :=
  style ← auth_style (od_ClientSecret cfg) rawClaims;
  Ok (Build_OAuthConfig (od_ClientID cfg) (od_ClientSecret cfg) (od_RedirectURL cfg) (ep_AuthURL endpoint)
        (ep_TokenURL endpoint) (ep_DeviceAuthURL endpoint) style scopes).

(** [provider.Claims(&raw)] with a [json.RawMessage]: the document's own text. *)
Definition raw_claims (doc : string) : option string := fst <$> parse doc.

Section discovery.
Context `{Discovery}.

Definition NewOIDCAuth (n : nat) (cfg : OIDCConfig) (authURLParams : list (string * string)) (scopes : list string) :
  res OIDCAuth :=
  match oidc_NewProvider n (od_Issuer cfg) with
  | inr e => Err e
  | inl provider =>
      match raw_claims (pv_rawClaims provider) with
      | None => Err (Opaque "json")
      | Some rawClaims =>
          oauthConfig ← buildOAuthConfig cfg (pv_Endpoint provider) rawClaims scopes;
          Ok (Build_OIDCAuth (Some provider) (Some oauthConfig) authURLParams
                (Some (Build_IDTokenVerifier provider (od_ClientID cfg))))
      end
  end.
End discovery.

(** * remote.go *)

Section remote.
Context `{UpstreamClient} `{UrlParser}.

Definition upstream_endpoint_ok (endpoint : string) : bool :=
  match url_Parse endpoint with
  | None => false
  | Some u =>
      negb (String.eqb (url_Host u) "") && bool_decide (url_User u = None) &&
      (String.eqb (url_Scheme u) "https" || String.eqb (url_Scheme u) "http")
  end.

(** [directory] says whether the pointer is set. *)
Definition NewRemoteOIDCAuth (cfg : OIDCConfig) (directory : bool) (params : list (string * string))
    (scopes : list string) : M OIDCAuth :=
  _ ← reject_if (negb directory) (Opaque "upstream directory is required");
  response ← GetProvider (od_Issuer cfg);
  _ ← reject_if (negb (String.eqb (pr_Issuer response) (od_Issuer cfg))) (Opaque "upstream issuer mismatch");
  _ ← reject_if (negb (forallb upstream_endpoint_ok [pr_AuthURL response; pr_TokenURL response]))
        (Opaque "invalid upstream endpoint");
  oauthConfig ← lift (buildOAuthConfig cfg
    (Build_Endpoint (pr_AuthURL response) (pr_TokenURL response) (pr_DeviceAuthURL response))
    (pr_RawClaims response) scopes);
  mret (Build_OIDCAuth None (Some oauthConfig) params None).
End remote.
