(* ===== verification/OidcSpec.v ===== *)
(** What the client configuration of a provider is: how the client secret is
    sent, and what the API checks before it trusts the upstream's answer. *)

From S2P Require Import Prelude.
From S2P Require Import GoStrings.
From S2P Require Import Schema.
From S2P Require Import World.
From S2P Require Import NetUrl.
From S2P Require Import Json.
From S2P Require Import Config.
From S2P Require Import ConfigSpec.
From S2P Require Import Directory.
From S2P Require Import Oidc.

Local Open Scope list_scope.
Local Open Scope string_scope.

Definition basic : string := "client_secret_basic".
Definition post : string := "client_secret_post".

Lemma choose_method_spec methods style supported :
  choose_method methods style supported =
    if bool_decide (basic ∈ methods) then (AuthStyleInHeader, true)
    else if bool_decide (post ∈ methods) then (AuthStyleInParams, true)
    else (style, supported).
Proof.
  revert style supported. induction methods as [|m ms IH]; intros style supported; cbn [choose_method]; [done|].
  fold basic post. destruct (String.eqb_spec m basic) as [->|Hb].
  - by rewrite bool_decide_eq_true_2 by by left.
  - destruct (String.eqb_spec m post) as [->|Hp]; rewrite IH.
    + rewrite (bool_decide_ext (basic ∈ post :: ms) (basic ∈ ms)) by (rewrite elem_of_cons; naive_solver).
      rewrite (bool_decide_eq_true_2 (post ∈ post :: ms)) by by left.
      repeat case_bool_decide; done.
    + rewrite (bool_decide_ext (basic ∈ m :: ms) (basic ∈ ms)) by (rewrite elem_of_cons; naive_solver).
      by rewrite (bool_decide_ext (post ∈ m :: ms) (post ∈ ms)) by (rewrite elem_of_cons; naive_solver).
Qed.

Lemma buildOAuthConfig_spec cfg endpoint rawClaims scopes :
  let advertised := unmarshal_struct methods_field rawClaims [] in
  match buildOAuthConfig cfg endpoint rawClaims scopes with
  | Ok c =>
      c = Build_OAuthConfig (od_ClientID cfg) (od_ClientSecret cfg) (od_RedirectURL cfg) (ep_AuthURL endpoint)
            (ep_TokenURL endpoint) (ep_DeviceAuthURL endpoint) (oc_AuthStyle c) scopes ∧
      (od_ClientSecret cfg = "" ∧ oc_AuthStyle c = AuthStyleInParams ∨
       od_ClientSecret cfg ≠ "" ∧ ∃ methods, advertised = Some methods ∧
         ((methods = [] ∨ basic ∈ methods) ∧ oc_AuthStyle c = AuthStyleInHeader ∨
          basic ∉ methods ∧ post ∈ methods ∧ oc_AuthStyle c = AuthStyleInParams))
  | Err _ => od_ClientSecret cfg ≠ "" ∧
      ∀ methods, advertised = Some methods → methods ≠ [] ∧ basic ∉ methods ∧ post ∉ methods
  | Panic => False
  end.
Proof.
  cbv zeta. unfold buildOAuthConfig, auth_style. destruct (String.eqb_spec (od_ClientSecret cfg) "") as [He|Hne].
  - cbn. split; [done|]. by left.
  - destruct (unmarshal_struct methods_field rawClaims []) as [[|m ms]|]; cbn [mbind res_bind].
    + split; [done|]. right. split; [done|]. exists []. split; [done|]. left. by split; [left|].
    + rewrite choose_method_spec. case_bool_decide as Hb; [|case_bool_decide as Hp]; cbn [mbind res_bind].
      * split; [done|]. right. split; [done|]. exists (m :: ms). split; [done|]. left. by split; [right|].
      * split; [done|]. right. split; [done|]. exists (m :: ms). split; [done|]. by right.
      * split; [done|]. by intros methods [= <-].
    + by split.
Qed.

(** The client secret is sent in the way the provider advertises: the first
    choice is the authorization header, taken when the provider lists it or lists
    nothing, then the form; a provider that takes neither is refused, and without
    a secret nothing has to be read. *)
Theorem buildOAuthConfig_correct cfg endpoint rawClaims scopes :
  let advertised := unmarshal_struct methods_field rawClaims [] in
  match buildOAuthConfig cfg endpoint rawClaims scopes with
  | Ok c =>
      c = Build_OAuthConfig (od_ClientID cfg) (od_ClientSecret cfg) (od_RedirectURL cfg) (ep_AuthURL endpoint)
            (ep_TokenURL endpoint) (ep_DeviceAuthURL endpoint) (oc_AuthStyle c) scopes ∧
      (od_ClientSecret cfg = "" ∧ oc_AuthStyle c = AuthStyleInParams ∨
       od_ClientSecret cfg ≠ "" ∧ ∃ methods, advertised = Some methods ∧
         ((methods = [] ∨ basic ∈ methods) ∧ oc_AuthStyle c = AuthStyleInHeader ∨
          basic ∉ methods ∧ post ∈ methods ∧ oc_AuthStyle c = AuthStyleInParams))
  | Err _ => od_ClientSecret cfg ≠ "" ∧
      ∀ methods, advertised = Some methods → methods ≠ [] ∧ basic ∉ methods ∧ post ∉ methods
  | Panic => False
  end.
Proof. apply buildOAuthConfig_spec. Qed.

Section remote.
Context `{UpstreamClient} `{UrlParser}.

Lemma upstream_endpoint_http s :
  upstream_endpoint_ok s = true → http_url s ∧ ∃ u, url_Parse s = Some u ∧ url_User u = None.
Proof.
  unfold upstream_endpoint_ok, http_url. destruct (url_Parse s) as [u|]; [|done].
  intros [[Hh Hu]%andb_true_iff Hs]%andb_true_iff. apply negb_true_iff, String.eqb_neq in Hh.
  apply bool_decide_eq_true in Hu. apply orb_true_iff in Hs. rewrite !String.eqb_eq in Hs.
  split; exists u; split; try done. split; [done|]. tauto.
Qed.

(** The API only takes a provider from the upstream that answers for the
    issuer it asked for and whose endpoints are absolute HTTP URLs without user
    information; it then has its configuration and neither a provider nor a
    verifier of its own.  Otherwise it starts with an error, never with half a
    configuration. *)
Theorem NewRemoteOIDCAuth_correct cfg directory params scopes w :
  wp (NewRemoteOIDCAuth cfg directory params scopes) (λ r w', same_stores w w' ∧
    match r with
    | Ok auth => directory = true ∧ ∃ response c, rpc_GetProvider (w_step w) (od_Issuer cfg) = inl (Some response) ∧
        pr_Issuer response = od_Issuer cfg ∧
        (∀ s, s ∈ [pr_AuthURL response; pr_TokenURL response] → http_url s ∧ ∃ u, url_Parse s = Some u ∧ url_User u = None) ∧
        auth = Build_OIDCAuth None (Some c) params None ∧ oc_AuthURL c = pr_AuthURL response ∧
        oc_TokenURL c = pr_TokenURL response ∧ oc_ClientID c = od_ClientID cfg ∧ oc_RedirectURL c = od_RedirectURL cfg
    | Err e => e ∈ provider_errors ∨ ∀ n t, e ≠ Sentinel n t
    | Panic => False
    end) w.
Proof.
  unfold NewRemoteOIDCAuth. wp_step. destruct directory; cbn [negb reject_if]; [|wp_step; split; [by repeat split|]; by right].
  do 2 wp_step. apply (wp_rpc _ _ _ provider_errors); [apply providerError_in|by_decide| |].
  - intros e He. split; [by repeat split|]. by left.
  - intros response Hr. do 2 wp_step; [split; [by repeat split|]; by right|]. prop_guards.
    rename select (String.eqb _ _ = true) into Hi. apply String.eqb_eq in Hi.
    do 2 wp_step; [split; [by repeat split|]; by right|]. prop_guards.
    rename select (forallb _ _ = true) into Hf. cbn [forallb] in Hf. prop_guards.
    pose proof (buildOAuthConfig_spec cfg (Build_Endpoint (pr_AuthURL response) (pr_TokenURL response)
      (pr_DeviceAuthURL response)) (pr_RawClaims response) scopes) as Hb. cbv zeta in Hb.
    wp_step. destruct (buildOAuthConfig _ _ _ _) as [c|e|] eqn:Hc; [| |done].
    + wp_step. split; [by repeat split|]. split; [done|]. exists response, c. split; [done|]. split; [done|]. split.
      { intros s Hs. apply upstream_endpoint_http. rewrite !elem_of_cons, elem_of_nil in Hs.
        destruct Hs as [->|[->|[]]]; done. }
      destruct Hb as [Heq _]. split; [done|]. rewrite Heq. done.
    + split; [by repeat split|]. right. intros n t ->. unfold buildOAuthConfig, auth_style in Hc.
      revert Hc. repeat case_step; cbn; try done; congruence.
Qed.
End remote.
