(* ===== verification/Rbac.v ===== *)
(** middleware/casbin: the roles and permissions behind authentication.  The
    role of a user is a column of the database, mirrored in the Casbin policy
    each time the user is authorized.  Follows casbin.go; the enforcer is the
    store of Stores.v, with the model that model.conf embeds. *)

From S2P Require Import Prelude.
From S2P Require Import GoStrings.
From S2P Require Import Schema.
From S2P Require Import Stores.
From S2P Require Import World.
From S2P Require Import Tenants.
From S2P Require Import Security.
From S2P Require Import Sim.

Local Open Scope list_scope.

Definition RoleUser : string := "user".
Definition RoleAdmin : string := "admin".
Definition RoleTest : string := "test".
Definition PermissionDashboardView : string := "dashboard:view".
Definition userPrefix : string := "user:".
Definition rolePrefix : string := "role:".

Definition ErrUnsupportedRole : gerror := Sentinel "casbinrbac.ErrUnsupportedRole" "unsupported role".
Definition supportedRoles : list string := [RoleUser; RoleAdmin; RoleTest].

Definition IsSupportedRole (roleCode : string) : bool :=
  bool_decide (TrimSpace roleCode ∈ supportedRoles).

Definition UserSubject (userID : N) : string := userPrefix +:+ FormatUint userID.
Definition RoleSubject (roleCode : string) : string := rolePrefix +:+ TrimSpace roleCode.

(** [sort.Strings]: by bytes. *)
Definition sort_Strings : list string → list string := sort_by String.leb.

Definition RoleCodes (subjects : list string) : list string :=
  sort_Strings ((λ s, TrimPrefix s rolePrefix) <$> select (λ s, HasPrefix s rolePrefix) subjects).

(** The rules of the enforcer have the two fields of the policy definition; the
    set drops repeated codes before sorting. *)
Definition PermissionCodes (rules : list (string * string)) : list string :=
  sort_Strings (dedup_from [] (select (λ p, negb (blank p)) (snd <$> rules))).

Section with_env.
Context `{Env}.

(** One round of the loop. *)
Definition seed_role (roleCode : string) : M unit :=
  let subject := RoleSubject roleCode in
  permissions ← wrap_err ("load permissions for " +:+ roleCode) (cas (GetPermissionsForUser subject));
  if bool_decide (snd <$> permissions = [PermissionDashboardView])
  then mret tt
  else _ ← wrap_err ("clear permissions for " +:+ roleCode) (cas (DeletePermissionsForUser subject));
       wrap_err ("grant dashboard permission to " +:+ roleCode)
         (cas (AddPermissionForUser subject PermissionDashboardView)).

Fixpoint seed (roles : list string) : M unit :=
  match roles with
  | [] => mret tt
  | roleCode :: roles => _ ← seed_role roleCode; seed roles
  end.

Definition SeedDefaultPolicies : M unit := seed supportedRoles.

Definition AuthorizationForUser (userID : N) (roleCode : string) : M (list string * list string) :=
  let roleCode := TrimSpace roleCode in
  _ ← reject_if (negb (IsSupportedRole roleCode)) (Wrapped roleCode ErrUnsupportedRole);
  let subject := UserSubject userID in
  let desiredRole := RoleSubject roleCode in
  currentRoles ← wrap_err "load direct user roles" (cas (GetRolesForUser subject));
  _ ← (if bool_decide (currentRoles = [desiredRole])
       then mret tt
       else _ ← wrap_err "clear user roles" (cas (DeleteRolesForUser subject));
            wrap_err "assign user role" (cas (AddRoleForUser subject desiredRole)));
  roleSubjects ← wrap_err "load user roles" (cas (GetImplicitRolesForUser subject));
  permissionRules ← wrap_err "load user permissions" (cas (GetImplicitPermissionsForUser subject));
  mret (RoleCodes roleSubjects, PermissionCodes permissionRules).
End with_env.

(** * The policy *)

(** The policies of a role: exactly the dashboard. *)
Definition seeded (c : casbin) : Prop :=
  ∀ r, r ∈ supportedRoles → snd <$> perms_of (RoleSubject r) c = [PermissionDashboardView].

(** What the program puts into the policy: users have roles, roles have
    permissions. *)
Definition policy_ok (c : casbin) : Prop :=
  (∀ s r, (s, r) ∈ g_rules c → ∃ u, s = UserSubject u) ∧
  (∀ s p, (s, p) ∈ p_rules c → ∃ r, s = RoleSubject r).

(** The user has this role and no other. *)
Definition assigned (u : N) (role : string) (c : casbin) : Prop :=
  roles_of (UserSubject u) c = [RoleSubject role].

(** [c'] differs from [c] in the roles of one user at most. *)
Definition roles_changed (u : N) (c c' : casbin) : Prop :=
  p_rules c' = p_rules c ∧ ∀ v, v ≠ u → roles_of (UserSubject v) c' = roles_of (UserSubject v) c.

Lemma UserSubject_inj u v : UserSubject u = UserSubject v → u = v.
Proof. intros Heq. apply FormatUint_inj. by eapply str_app_inv_head. Qed.

Lemma subjects_disjoint u r : UserSubject u ≠ RoleSubject r.
Proof. done. Qed.

Lemma roles_of_select s t c :
  s ≠ t → roles_of t (Build_casbin (select (λ r, negb (String.eqb r.1 s)) (g_rules c)) (p_rules c)) = roles_of t c.
Proof.
  intros Hne. unfold roles_of. cbn. f_equal. rewrite select_select. apply select_ext.
  intros x _. destruct (String.eqb x.1 t) eqn:Hx; [|apply andb_false_r].
  apply String.eqb_eq in Hx. rewrite Hx, andb_true_r. apply negb_true_iff, String.eqb_neq. congruence.
Qed.

Lemma roles_of_cleared s l p :
  roles_of s (Build_casbin (select (λ r, negb (String.eqb r.1 s)) l) p) = [].
Proof.
  unfold roles_of. cbn. rewrite select_none; [done|]. intros x [Hx _]%elem_of_select.
  by apply negb_true_iff in Hx.
Qed.

Lemma select_snoc {A} (p : A → bool) l x :
  select p (l ++ [x]) = select p l ++ (if p x then [x] else []).
Proof. rewrite select_app. cbn. by destruct (p x). Qed.

Lemma roles_of_add s role t c :
  roles_of t (Build_casbin (add_rule (s, role) (g_rules c)) (p_rules c)) =
  if String.eqb s t && negb (bool_decide ((s, role) ∈ g_rules c))
  then roles_of t c ++ [role] else roles_of t c.
Proof.
  unfold roles_of, add_rule. cbn [g_rules]. case_bool_decide; [by rewrite andb_false_r|].
  rewrite andb_true_r, select_snoc. cbn [fst]. destruct (String.eqb s t); [|by rewrite app_nil_r].
  by rewrite fmap_app.
Qed.

(** With users and roles apart, the roles of a user lead no further. *)
Lemma roles_of_role r c : policy_ok c → roles_of (RoleSubject r) c = [].
Proof.
  intros [Hg _]. unfold roles_of. rewrite select_none; [done|]. intros [s x] Hin. cbn.
  apply String.eqb_neq. intros ->. destruct (Hg _ _ Hin) as [u Hu]. by symmetry in Hu.
Qed.

Lemma perms_of_user u c : policy_ok c → perms_of (UserSubject u) c = [].
Proof.
  intros [_ Hp]. unfold perms_of. apply select_none. intros [s x] Hin. cbn.
  apply String.eqb_neq. intros ->. by destruct (Hp _ _ Hin) as [r Hr].
Qed.

Lemma implicit_roles_assigned u r c :
  policy_ok c → assigned u r c → implicit_roles (UserSubject u) c = [RoleSubject r].
Proof.
  intros Hok Ha. unfold implicit_roles. destruct (g_rules c) as [|g l] eqn:Hg.
  - unfold assigned, roles_of in Ha. by rewrite Hg in Ha.
  - assert (Hone : dedup_from [] [RoleSubject r] = [RoleSubject r]).
    { apply dedup_from_id; [apply NoDup_singleton|]. intros x _. apply not_elem_of_nil. }
    cbn [length closure]. rewrite fmap_cons, fmap_nil. cbn [concat]. unfold assigned in Ha. rewrite app_nil_r, Ha, Hone.
    cbn [app]. rewrite (fmap_cons (λ u, roles_of u c)), fmap_nil, roles_of_role by done. done.
Qed.

Lemma implicit_perms_assigned u r c :
  policy_ok c → assigned u r c → implicit_perms (UserSubject u) c = perms_of (RoleSubject r) c.
Proof.
  intros Hok Ha. unfold implicit_perms. rewrite (implicit_roles_assigned u r) by done.
  rewrite !fmap_cons, fmap_nil, perms_of_user by done. cbn. by rewrite app_nil_r.
Qed.

Lemma RoleCodes_one r : RoleCodes [RoleSubject r] = [TrimSpace r].
Proof.
  unfold RoleCodes, select, HasPrefix, RoleSubject. cbn [List.filter]. rewrite prefix_app.
  cbn [fmap list_fmap]. rewrite TrimPrefix_app. done.
Qed.

Lemma seeded_permissions r c :
  r ∈ supportedRoles → seeded c → PermissionCodes (perms_of (RoleSubject r) c) = [PermissionDashboardView].
Proof. intros Hr Hs. unfold PermissionCodes. by rewrite (Hs r Hr). Qed.

Lemma policy_ok_assign u role c :
  policy_ok c →
  policy_ok (Build_casbin (add_rule (UserSubject u, RoleSubject role)
    (select (λ r, negb (String.eqb r.1 (UserSubject u))) (g_rules c))) (p_rules c)).
Proof.
  intros [Hg Hp]. split; cbn; [|done]. intros s r. unfold add_rule.
  assert (Hsel : ∀ x, x ∈ select (λ r, negb (String.eqb r.1 (UserSubject u))) (g_rules c) → x ∈ g_rules c)
    by (intros x; rewrite elem_of_select; tauto).
  case_bool_decide; [by intros ?%Hsel%Hg|].
  rewrite elem_of_app, list_elem_of_singleton. intros [Hin%Hsel%Hg|[= -> ->]]; eauto.
Qed.

Lemma policy_ok_clear u c :
  policy_ok c →
  policy_ok (Build_casbin (select (λ r, negb (String.eqb r.1 (UserSubject u))) (g_rules c)) (p_rules c)).
Proof. intros [Hg Hp]. split; cbn; [|done]. intros s r [_ Hin]%elem_of_select. by eapply Hg. Qed.

Lemma roles_changed_refl u c : roles_changed u c c.
Proof. done. Qed.

Lemma roles_changed_clear u c :
  roles_changed u c (Build_casbin (select (λ r, negb (String.eqb r.1 (UserSubject u))) (g_rules c)) (p_rules c)).
Proof.
  split; [done|]. intros v Hv. apply roles_of_select. intros Heq. by apply Hv, eq_sym, UserSubject_inj.
Qed.

Lemma assigned_changed u role c :
  let c' := Build_casbin (add_rule (UserSubject u, RoleSubject role)
    (select (λ r, negb (String.eqb r.1 (UserSubject u))) (g_rules c))) (p_rules c) in
  assigned u role c' ∧ roles_changed u c c'.
Proof.
  set (c1 := Build_casbin (select (λ r, negb (String.eqb r.1 (UserSubject u))) (g_rules c)) (p_rules c)).
  assert (Hne : (UserSubject u, RoleSubject role) ∉ g_rules c1).
  { cbn. intros [Hf _]%elem_of_select. cbn [fst] in Hf. by rewrite String.eqb_refl in Hf. }
  pose proof (roles_of_add (UserSubject u) (RoleSubject role)) as Hadd.
  split.
  - unfold assigned. specialize (Hadd (UserSubject u) c1). cbn [g_rules p_rules c1] in Hadd. rewrite Hadd.
    rewrite String.eqb_refl, bool_decide_eq_false_2 by done. cbn [negb andb].
    unfold c1. by rewrite roles_of_cleared.
  - split; [done|]. intros v Hv. specialize (Hadd (UserSubject v) c1). cbn [g_rules p_rules c1] in Hadd.
    rewrite Hadd, (proj2 (String.eqb_neq _ _)) by (intros ?%UserSubject_inj; congruence).
    by apply roles_changed_clear.
Qed.

Lemma supported_trim r : r ∈ supportedRoles → TrimSpace r = r.
Proof.
  unfold supportedRoles. rewrite !elem_of_cons. intros [->|[->|[->|Hin]]]; [done..|].
  by apply not_elem_of_nil in Hin.
Qed.

Section rules.
Context `{EnvLaws}.

Definition authorization_error (roleCode : string) (e : gerror) : Prop :=
  IsSupportedRole (TrimSpace roleCode) = false ∧ e = Wrapped (TrimSpace roleCode) ErrUnsupportedRole ∨
  ∃ m e', fault e' ∧ e = Wrapped m e'.

Lemma wp_AuthorizationForUser u roleCode (Q : res (list string * list string) → world → Prop) w :
  policy_ok (w_casbin w) →
  (∀ e w', w_db w' = w_db w → w_redis w' = w_redis w → policy_ok (w_casbin w') →
     roles_changed u (w_casbin w) (w_casbin w') → authorization_error roleCode e → Q (Err e) w') →
  (∀ w', w_db w' = w_db w → w_redis w' = w_redis w → policy_ok (w_casbin w') →
     roles_changed u (w_casbin w) (w_casbin w') → assigned u (TrimSpace roleCode) (w_casbin w') →
     IsSupportedRole (TrimSpace roleCode) = true →
     Q (Ok ([TrimSpace (TrimSpace roleCode)],
            PermissionCodes (perms_of (RoleSubject (TrimSpace roleCode)) (w_casbin w)))) w') →
  wp (AuthorizationForUser u roleCode) Q w.
Proof.
  intros Hok He Hs. unfold AuthorizationForUser. cbv zeta. set (role := TrimSpace roleCode) in *.
  assert (Herr : ∀ m e w', w_db w' = w_db w → w_redis w' = w_redis w → policy_ok (w_casbin w') →
     roles_changed u (w_casbin w) (w_casbin w') → fault e → Q (Err (Wrapped m e)) w')
    by (intros; apply He; [done..|right; eauto]).
  wp_step. wp_step.
  { rename select (negb _ = true) into Hb. apply negb_true_iff in Hb. apply He; try done. left. done. }
  rename select (negb _ = false) into Hsup. apply negb_false_iff in Hsup.
  wp_step. apply wp_wrap_err. wp_step; [by intros; apply Herr|].
  wp_step. apply (wp_mono _ (λ r w', w_db w' = w_db w ∧ w_redis w' = w_redis w ∧
    policy_ok (w_casbin w') ∧ roles_changed u (w_casbin w) (w_casbin w') ∧
    match r with
    | Ok _ => assigned u role (w_casbin w')
    | Err e => ∃ m e', fault e' ∧ e = Wrapped m e'
    | Panic => False end)); cycle 1.
  { case_bool_decide as Hcur; [wp_step; done|].
    wp_step. apply wp_wrap_err. wp_step; [intros; split_and!; try done; eauto|].
    apply wp_wrap_err. wp_step.
    - intros e Hf. do 2 (split; [done|]). split; [by apply policy_ok_clear|].
      split; [apply roles_changed_clear|eauto].
    - pose proof (assigned_changed u role (w_casbin w)) as [Ha Hc].
      do 2 (split; [done|]). split; [exact (policy_ok_assign u role _ Hok)|]. done. }
  intros [[]|e|] w1 (Hd & Hr & Hok1 & Hc & Hx); [|destruct Hx as (m & e' & Hf & ->); by apply Herr|done].
  wp_step. apply wp_wrap_err. wp_step; [by intros; apply Herr|].
  wp_step. apply wp_wrap_err. wp_step; [by intros; apply Herr|].
  wp_step. rewrite (implicit_roles_assigned u role), (implicit_perms_assigned u role), RoleCodes_one by done.
  unfold perms_of. rewrite (proj1 Hc). by apply Hs.
Qed.
End rules.

(** * Seeding *)

Lemma perms_of_select s t c :
  s ≠ t → perms_of t (Build_casbin (g_rules c) (select (λ r, negb (String.eqb r.1 s)) (p_rules c))) = perms_of t c.
Proof.
  intros Hne. unfold perms_of. cbn. rewrite select_select. apply select_ext.
  intros x _. destruct (String.eqb x.1 t) eqn:Hx; [|apply andb_false_r].
  apply String.eqb_eq in Hx. rewrite Hx, andb_true_r. apply negb_true_iff, String.eqb_neq. congruence.
Qed.

Lemma perms_of_grant s obj t c :
  perms_of s c = [] →
  perms_of t (Build_casbin (g_rules c) (add_rule (s, obj) (p_rules c))) =
  if String.eqb s t then [(s, obj)] else perms_of t c.
Proof.
  intros Hs. unfold perms_of, add_rule in *. cbn [p_rules]. case_bool_decide as Hin.
  - assert (Hel : (s, obj) ∈ select (λ r, String.eqb r.1 s) (p_rules c)).
    { apply elem_of_select. by rewrite String.eqb_refl. }
    rewrite Hs in Hel. by apply not_elem_of_nil in Hel.
  - rewrite select_snoc. cbn [fst]. destruct (String.eqb s t) eqn:Hst; [|by rewrite app_nil_r].
    apply String.eqb_eq in Hst as <-. by rewrite Hs.
Qed.

(** What clearing and granting does to the policy. *)
Definition granted (subject : string) (c : casbin) : casbin :=
  Build_casbin (g_rules c) (add_rule (subject, PermissionDashboardView)
    (select (λ r, negb (String.eqb r.1 subject)) (p_rules c))).

Lemma perms_of_granted s t c :
  perms_of t (granted s c) = if String.eqb s t then [(s, PermissionDashboardView)] else perms_of t c.
Proof.
  pose proof (perms_of_grant s PermissionDashboardView t
    (Build_casbin (g_rules c) (select (λ r, negb (String.eqb r.1 s)) (p_rules c)))) as Hg.
  unfold granted. cbn [g_rules p_rules] in Hg. rewrite Hg.
  - destruct (String.eqb s t) eqn:Hst; [done|]. apply perms_of_select. by apply String.eqb_neq.
  - unfold perms_of. cbn [p_rules]. apply select_none. intros x [Hx _]%elem_of_select. by apply negb_true_iff in Hx.
Qed.

Lemma policy_ok_granted r c : policy_ok c → policy_ok (granted (RoleSubject r) c).
Proof.
  intros [Hg Hp]. split; [done|]. cbn. intros s p. unfold add_rule.
  assert (Hsel : ∀ x, x ∈ select (λ x, negb (String.eqb x.1 (RoleSubject r))) (p_rules c) → x ∈ p_rules c)
    by (intros x; rewrite elem_of_select; tauto).
  case_bool_decide; [by intros ?%Hsel%Hp|].
  rewrite elem_of_app, list_elem_of_singleton. intros [Hin%Hsel%Hp|[= -> ->]]; eauto.
Qed.

Lemma policy_ok_revoked s c :
  policy_ok c → policy_ok (Build_casbin (g_rules c) (select (λ r, negb (String.eqb r.1 s)) (p_rules c))).
Proof. intros [Hg Hp]. split; [done|]. intros t p [_ Hin]%elem_of_select. by eapply Hp. Qed.

Section seeding.
Context `{EnvLaws}.

(** The policy a seeding leaves, whether or not it succeeds. *)
Definition seeding (roles : list string) (r : res unit) (w w' : world) : Prop :=
  w_db w' = w_db w ∧ w_redis w' = w_redis w ∧ g_rules (w_casbin w') = g_rules (w_casbin w) ∧
  policy_ok (w_casbin w') ∧
  (∀ s, s ∉ RoleSubject <$> roles → perms_of s (w_casbin w') = perms_of s (w_casbin w)) ∧
  match r with
  | Ok _ => ∀ x, x ∈ roles → snd <$> perms_of (RoleSubject x) (w_casbin w') = [PermissionDashboardView]
  | Err e => ∃ m e', fault e' ∧ e = Wrapped m e'
  | Panic => False
  end.

Lemma wp_seed_role role (Q : res unit → world → Prop) w :
  policy_ok (w_casbin w) → (∀ r w', seeding [role] r w w' → Q r w') → wp (seed_role role) Q w.
Proof.
  intros Hok HQ. unfold seed_role. cbv zeta. set (s := RoleSubject role).
  assert (Hout : ∀ t, t ∉ RoleSubject <$> [role] → s ≠ t).
  { intros t Ht <-. apply Ht. by apply list_elem_of_singleton. }
  wp_step. apply wp_wrap_err. wp_step.
  { intros e Hf. apply HQ. repeat (split; [done|]). eauto. }
  case_bool_decide as Hcur.
  { wp_step. apply HQ. repeat (split; [done|]). intros x ->%list_elem_of_singleton. exact Hcur. }
  wp_step. apply wp_wrap_err. wp_step.
  { intros e Hf. apply HQ. repeat (split; [done|]). eauto. }
  apply wp_wrap_err. wp_step.
  - intros e Hf. apply HQ. do 3 (split; [done|]). split; [by apply policy_ok_revoked|].
    split; [|eauto]. intros t Ht. apply perms_of_select. by apply Hout.
  - apply HQ. change (seeding [role] (Ok tt) w (tick (set_casbin (granted s (w_casbin w)) w))).
    do 3 (split; [done|]). split; [by apply policy_ok_granted|]. cbn [w_casbin tick set_casbin].
    split.
    + intros t Ht. rewrite perms_of_granted, (proj2 (String.eqb_neq s t)) by auto. done.
    + intros x ->%list_elem_of_singleton. by rewrite perms_of_granted, String.eqb_refl.
Qed.

Lemma seeding_failed role roles r w w1 :
  is_Ok r = false → seeding [role] r w w1 → seeding (role :: roles) r w w1.
Proof.
  intros Hr (Hd & Hrd & Hg & Hok & Hp & Hs). do 4 (split; [done|]). split; [|by destruct r].
  intros s Hn. apply Hp. rewrite fmap_cons in Hn. set_solver.
Qed.

Lemma seeding_cons role roles r w w1 w2 :
  seeding [role] (Ok tt) w w1 → seeding roles r w1 w2 → seeding (role :: roles) r w w2.
Proof.
  intros (Hd1 & Hr1 & Hg1 & _ & Hp1 & Hs1) (Hd2 & Hr2 & Hg2 & Hok2 & Hp2 & Hs2).
  do 3 (split; [congruence|]). split; [exact Hok2|]. split.
  - intros s Hs. rewrite fmap_cons in Hs. apply not_elem_of_cons in Hs as [Hne Hs].
    rewrite Hp2, Hp1; [done| |done]. by intros ->%list_elem_of_singleton.
  - destruct r as [[]|e|]; [|done..]. intros x [->|Hx]%elem_of_cons; [|by apply Hs2].
    destruct (decide (RoleSubject role ∈ RoleSubject <$> roles)) as [Hin|Hnin].
    + apply list_elem_of_fmap in Hin as (y & Heq & Hy). rewrite Heq. by apply Hs2.
    + rewrite Hp2 by done. apply Hs1. by apply list_elem_of_singleton.
Qed.

Lemma wp_seed roles w :
  policy_ok (w_casbin w) → wp (seed roles) (λ r w', seeding roles r w w') w.
Proof.
  revert w. induction roles as [|role roles IH]; intros w Hok; cbn [seed].
  - wp_step. repeat (split; [done|]). intros x Hx. by apply not_elem_of_nil in Hx.
  - wp_step. apply wp_seed_role; [done|]. intros [[]|e|] w1 Hs; [|by apply seeding_failed..].
    assert (Hok1 : policy_ok (w_casbin w1)) by apply Hs.
    eapply wp_mono; [|by apply IH]. intros r w2. by apply seeding_cons.
Qed.

(** After seeding, each supported role has exactly the dashboard permission,
    no assignment of a user has changed and no other subject's permissions have;
    it fails only when the enforcer does, and the policy then still keeps users
    and roles apart. *)
Theorem SeedDefaultPolicies_correct w :
  policy_ok (w_casbin w) →
  wp SeedDefaultPolicies (λ r w', w_db w' = w_db w ∧ w_redis w' = w_redis w ∧
    g_rules (w_casbin w') = g_rules (w_casbin w) ∧ policy_ok (w_casbin w') ∧
    (∀ s, s ∉ RoleSubject <$> supportedRoles → perms_of s (w_casbin w') = perms_of s (w_casbin w)) ∧
    match r with
    | Ok _ => seeded (w_casbin w')
    | Err e => ∃ m e', fault e' ∧ e = Wrapped m e'
    | Panic => False
    end) w.
Proof. intros Hok. exact (wp_seed supportedRoles w Hok). Qed.

(** * Authorizing a user with a supported role *)

(** The state outside the database and the sessions: the policy keeps its form,
    the permissions of the roles and the roles of everybody else. *)
Definition policy_kept (u : N) (w w' : world) : Prop :=
  policy_ok (w_casbin w') ∧ seeded (w_casbin w') ∧ roles_changed u (w_casbin w) (w_casbin w').

Definition policy_ready (w : world) : Prop := policy_ok (w_casbin w) ∧ seeded (w_casbin w).

Definition wrapped_fault (e : gerror) : Prop := ∃ m e', fault e' ∧ e = Wrapped m e'.

Lemma wrapped_fault_Is e s : own_sentinel s = true → wrapped_fault e → errors_Is e s = false.
Proof.
  intros Hs (m & e' & Hf & ->). destruct s as [n t| | |]; try done.
  rewrite errors_Is_wrapped. by apply fault_Is.
Qed.

Lemma wp_authorize u roleCode (Q : res (list string * list string) → world → Prop) w :
  policy_ready w → roleCode ∈ supportedRoles →
  (∀ e w', w_db w' = w_db w → w_redis w' = w_redis w → policy_kept u w w' → wrapped_fault e → Q (Err e) w') →
  (∀ w', w_db w' = w_db w → w_redis w' = w_redis w → policy_kept u w w' →
     assigned u roleCode (w_casbin w') → Q (Ok ([roleCode], [PermissionDashboardView])) w') →
  wp (AuthorizationForUser u roleCode) Q w.
Proof.
  intros [Hok Hs] Hr He Hsucc. assert (Ht : TrimSpace roleCode = roleCode) by by apply supported_trim.
  assert (Hkeep : ∀ w', roles_changed u (w_casbin w) (w_casbin w') → seeded (w_casbin w')).
  { intros w' [Hp _] x Hx. unfold perms_of. rewrite Hp. by apply Hs. }
  apply wp_AuthorizationForUser; [done|..].
  - intros e w' Hd Hrd Hok' Hc [[Hsup _]|Hf]; [|apply He; [done|done| |done]].
    + rewrite Ht in Hsup. unfold IsSupportedRole in Hsup. rewrite Ht in Hsup. by prop_guards.
    + split; [done|]. split; [by apply Hkeep|done].
  - intros w' Hd Hrd Hok' Hc Ha _. rewrite !Ht in *. rewrite seeded_permissions by done.
    apply Hsucc; [done|done| |done]. split; [done|]. split; [by apply Hkeep|done].
Qed.
(** Authorizing a user makes the role of the database its only role in the
    policy, whatever roles it had, and leaves every other user's roles and all
    permissions alone; with a seeded policy it answers exactly that role and the
    dashboard permission. *)
Theorem AuthorizationForUser_correct u roleCode w :
  policy_ok (w_casbin w) → seeded (w_casbin w) → roleCode ∈ supportedRoles →
  wp (AuthorizationForUser u roleCode) (λ r w', w_db w' = w_db w ∧ w_redis w' = w_redis w ∧
    policy_ok (w_casbin w') ∧ seeded (w_casbin w') ∧ roles_changed u (w_casbin w) (w_casbin w') ∧
    match r with
    | Ok (roles, permissions) => roles = [roleCode] ∧ permissions = [PermissionDashboardView] ∧
        assigned u roleCode (w_casbin w')
    | Err e => ∃ m e', fault e' ∧ e = Wrapped m e'
    | Panic => False
    end) w.
Proof.
  intros Hok Hs Hr. apply wp_authorize; [done|done|..].
  - intros e w' Hd Hrd (Hk1 & Hk2 & Hk3) He. auto 7.
  - intros w' Hd Hrd (Hk1 & Hk2 & Hk3) Ha. auto 8.
Qed.
End seeding.

(** * Witnesses *)

Definition sample_policy : casbin :=
  Build_casbin [("user:1", "role:admin"); ("user:2", "role:admin")]
    ((λ r, (RoleSubject r, PermissionDashboardView)) <$> supportedRoles).

Definition policy_world : world := Build_world sample_db ∅ sample_policy 0.

Lemma sample_policy_ok : policy_ok sample_policy.
Proof.
  split; intros s r; cbn [g_rules p_rules sample_policy].
  - rewrite !elem_of_cons. intros [[= -> ->]|[[= -> ->]|Hin]];
      [by exists 1%N|by exists 2%N|by apply not_elem_of_nil in Hin].
  - intros (x & [= -> ->] & _)%list_elem_of_fmap. eauto.
Qed.

Lemma sample_policy_seeded : seeded sample_policy.
Proof.
  intros r. unfold supportedRoles. rewrite !elem_of_cons.
  intros [->|[->|[->|Hin]]]; [vm_compute; reflexivity..|by apply not_elem_of_nil in Hin].
Qed.

Lemma empty_policy_ok : policy_ok (w_casbin sample_world).
Proof. split; intros ? ? Hin; by apply not_elem_of_nil in Hin. Qed.

Lemma SeedDefaultPolicies_correct_witness : seeded (w_casbin (SeedDefaultPolicies sample_world).2).
Proof.
  pose proof (SeedDefaultPolicies_correct sample_world empty_policy_ok) as Hwp.
  destruct (wp_Ok _ _ _ Hwp ltac:(vm_compute; reflexivity)) as ([] & _ & _ & _ & _ & _ & _ & Hs). exact Hs.
Defined.

Lemma AuthorizationForUser_correct_witness :
  (AuthorizationForUser 1 "user" policy_world).1 = Ok ([RoleUser], [PermissionDashboardView]).
Proof.
  pose proof (AuthorizationForUser_correct 1 "user" policy_world sample_policy_ok sample_policy_seeded
    ltac:(by_decide)) as Hwp.
  destruct (wp_Ok _ _ _ Hwp ltac:(vm_compute; reflexivity)) as ([roles perms] & Heq & _ & _ & _ & _ & _ & Hr & Hp & _).
  rewrite Heq, Hr, Hp. reflexivity.
Defined.
