(* ===== verification/Jwt.v ===== *)
(** middleware/jwt: the access tokens and the filter that turns one into the
    identity of a request.  Follows claims.go, manager.go and filter.go; signing,
    verification and the claim checks of golang-jwt are a parameter with the laws
    the program relies on. *)

From S2P Require Import Prelude.
From S2P Require Import GoStrings.
From S2P Require Import Schema.
From S2P Require Import Stores.
From S2P Require Import World.
From S2P Require Import Http.
From S2P Require Import Sim.

From stdpp Require Import countable strings.

Local Open Scope list_scope.
Local Open Scope N_scope.

Definition ErrInvalidToken : gerror := Sentinel "jwtservice.ErrInvalidToken" "invalid token".

(** [Claims] with its registered claims; a date is absent or a whole second. *)
Record Claims := {
  cm_Username : string; cm_Role : list string; cm_Permissions : list string;
  cm_Issuer : string; cm_Subject : string; cm_Audience : list string;
  cm_IssuedAt : option time; cm_ExpiresAt : option time
}.

Record JWTManager := {
  jm_secret : string; jm_issuer : string; jm_audience : string; jm_ttl : time; jm_RefreshTTL : time
}.

(** [jwt.NewNumericDate] *)
Definition NewNumericDate (t : time) : time := (t / second * second)%Z.

(** [SignedString] with HS256, and [ParseWithClaims] with the options of the
    manager: the signature, the algorithm, the issuer, the audience, the
    expiry and the issue date are checked at the given instant. *)
Class JwtLib := {
  jwt_SignedString : string → Claims → string + gerror;
  jwt_ParseWithClaims : time → string → string → string → string → option Claims;
  jwt_carries : Claims → Prop
}.

Definition claims_valid (now : time) (issuer audience : string) (c : Claims) : Prop :=
  cm_Issuer c = issuer ∧ audience ∈ cm_Audience c ∧
  (∃ e, cm_ExpiresAt c = Some e ∧ (now < e)%Z) ∧ ∀ i, cm_IssuedAt c = Some i → (i <= now)%Z.

(** Letters, digits and the punctuation of the compact form. *)
Definition plain_char (a : ascii) : bool := (N_of_ascii a <? 128) && negb (space1 a).
Definition plain (s : string) : bool := negb (str_existsb (λ a, negb (plain_char a)) s).

Class JwtLaws `{JwtLib} : Prop := {
  jwt_parse_signed now secret issuer audience c tok :
    jwt_carries c → jwt_SignedString secret c = inl tok → issuer ≠ ""%string → audience ≠ ""%string →
    claims_valid now issuer audience c → jwt_ParseWithClaims now secret issuer audience tok = Some c;
  jwt_parse_same now secret issuer audience c c' tok :
    jwt_carries c → jwt_SignedString secret c = inl tok →
    jwt_ParseWithClaims now secret issuer audience tok = Some c' → c' = c;
  jwt_parse_valid now secret issuer audience c tok :
    issuer ≠ ""%string → audience ≠ ""%string →
    jwt_ParseWithClaims now secret issuer audience tok = Some c → claims_valid now issuer audience c;
  jwt_compact secret c tok : jwt_SignedString secret c = inl tok → plain tok = true ∧ tok ≠ ""%string;
  jwt_sign_error secret c e : jwt_SignedString secret c = inr e → transport_error e
}.

(** What the filter stores in the Gin context. *)
Record identity := {
  id_userID : N; id_username : string; id_roles : list string; id_permissions : list string
}.

Section with_env.
Context `{Env} `{JwtLib}.

Definition GenerateTokenWithPermissions (m : JWTManager) (userID : N) (username : string)
    (roles permissions : list string) : M string :=
  now ← Now;
  let claims := Build_Claims username roles permissions (jm_issuer m) (FormatUint userID)
        [jm_audience m] (Some (NewNumericDate now)) (Some (NewNumericDate (now + jm_ttl m)%Z)) in
  match jwt_SignedString (jm_secret m) claims with
  | inl token => mret token
  | inr e => throw e
  end.

Definition GenerateToken (m : JWTManager) (userID : N) (username role : string) : M string :=
  GenerateTokenWithPermissions m userID username [role] [].

Definition ParseToken (m : JWTManager) (tokenString : string) : M Claims :=
  now ← Now;
  match jwt_ParseWithClaims now (jm_secret m) (jm_issuer m) (jm_audience m) tokenString with
  | Some claims => mret claims
  | None => throw ErrInvalidToken
  end.

Definition JwtFilter {D} (m : JWTManager) (authorization : string) : M (identity + reply D) :=
  match Fields authorization with
  | [scheme; tokenString] =>
      if EqualFold scheme "Bearer" then
        r ← attempt (ParseToken m tokenString);
        match r with
        | inr _ => mret (inr (Error 401 40100 "invalid or expired token"))
        | inl claims =>
            match ParseUint (cm_Subject claims) 64 with
            | Some userID =>
                if (userID =? 0)%N then mret (inr (Error 401 40100 "invalid user identity"))
                else mret (inl (Build_identity userID (cm_Username claims) (cm_Role claims)
                                  (cm_Permissions claims)))
            | None => mret (inr (Error 401 40100 "invalid user identity"))
            end
        end
      else mret (inr (Error 401 40100 "missing or invalid authorization header"))
  | _ => mret (inr (Error 401 40100 "missing or invalid authorization header"))
  end%string.
End with_env.

(** * The header *)

Lemma plain_cons a s : plain (String a s) = true → plain_char a = true ∧ plain s = true.
Proof. unfold plain. cbn. rewrite negb_true_iff, orb_false_iff, negb_false_iff, negb_true_iff. tauto. Qed.

Lemma fields_from_plain a cur s :
  plain_char a = true → fields_from cur (String a s) = fields_from (cur +:+ String a "") s.
Proof.
  unfold plain_char. rewrite andb_true_iff, negb_true_iff, N.ltb_lt. intros [Hlt Hsp].
  assert (H2 : ∀ b, space2 a b = false).
  { intros b. unfold space2, is_byte. by rewrite (proj2 (N.eqb_neq (N_of_ascii a) 194)) by lia. }
  assert (H3 : ∀ b c, space3 a b c = false).
  { intros b c. unfold space3, is_byte. rewrite !(proj2 (N.eqb_neq (N_of_ascii a) _)) by lia. done. }
  destruct s as [|b [|c s]]; cbn [fields_from]; by rewrite Hsp, ?H2, ?H3.
Qed.

Lemma fields_from_word p cur s :
  plain p = true → fields_from cur (p +:+ s) = fields_from (cur +:+ p) s.
Proof.
  revert cur. induction p as [|a p IH]; intros cur; [by rewrite str_app_nil_r|].
  intros [Ha Hp]%plain_cons. change (String a p +:+ s) with (String a (p +:+ s)).
  rewrite fields_from_plain, IH by done. by rewrite str_app_assoc.
Qed.

Lemma Fields_two p q :
  plain p = true → plain q = true → p ≠ ""%string → q ≠ ""%string →
  Fields (p +:+ String " " q) = [p; q].
Proof.
  intros Hp Hq Hnp Hnq. unfold Fields. rewrite fields_from_word by done.
  assert (Hsp : fields_from p (String " " q) = p :: fields_from "" q).
  { destruct q as [|b [|c q]]; cbn [fields_from]; cbn [space1];
      replace (space1 " ") with true by reflexivity; unfold flush_field;
      by rewrite (proj2 (String.eqb_neq p "")). }
  change ("" +:+ p) with p. rewrite Hsp. f_equal.
  pose proof (fields_from_word q "" "" Hq) as Hw. rewrite str_app_nil_r in Hw. rewrite Hw. cbn.
  unfold flush_field. by rewrite (proj2 (String.eqb_neq q "")).
Qed.

(** * Rules *)

Section rules.
Context `{EnvLaws} `{JwtLaws}.

(** The claims of a token generated at an instant. *)
Definition issued_claims (m : JWTManager) (u : N) (username : string) (roles permissions : list string)
    (now : time) : Claims :=
  Build_Claims username roles permissions (jm_issuer m) (FormatUint u) [jm_audience m]
    (Some (NewNumericDate now)) (Some (NewNumericDate (now + jm_ttl m)%Z)).

(** A token made for a user at an instant. *)
Definition access_token (m : JWTManager) (u : N) (username : string) (roles permissions : list string)
    (now : time) (tok : string) : Prop :=
  jwt_SignedString (jm_secret m) (issued_claims m u username roles permissions now) = inl tok.

Lemma wp_GenerateToken m u username roles permissions (Q : res string → world → Prop) w :
  (∀ e, jwt_SignedString (jm_secret m) (issued_claims m u username roles permissions (now_at (w_step w))) = inr e →
        Q (Err e) (tick w)) →
  (∀ tok, access_token m u username roles permissions (now_at (w_step w)) tok → Q (Ok tok) (tick w)) →
  wp (GenerateTokenWithPermissions m u username roles permissions) Q w.
Proof.
  intros He Hok. unfold GenerateTokenWithPermissions. do 2 wp_step.
  fold (issued_claims m u username roles permissions (now_at (w_step w))).
  destruct (jwt_SignedString _ _) as [tok|e] eqn:Hs; wp_step; [by apply Hok|by apply He].
Qed.

(** The filter lets a request through only with a bearer token that the
    library accepts at this instant for this issuer and audience, unexpired and
    naming a user; it answers 401 otherwise, and touches no store. *)
Theorem JwtFilter_correct {D} m authorization w :
  jm_issuer m ≠ ""%string → jm_audience m ≠ ""%string →
  wp (JwtFilter (D := D) m authorization) (λ r w',
    w_db w' = w_db w ∧ w_redis w' = w_redis w ∧ w_casbin w' = w_casbin w ∧
    match r with
    | Ok (inl i) => ∃ scheme tok c, Fields authorization = [scheme; tok] ∧ EqualFold scheme "Bearer" = true ∧
        jwt_ParseWithClaims (now_at (w_step w)) (jm_secret m) (jm_issuer m) (jm_audience m) tok = Some c ∧
        claims_valid (now_at (w_step w)) (jm_issuer m) (jm_audience m) c ∧
        ParseUint (cm_Subject c) 64 = Some (id_userID i) ∧ id_userID i ≠ 0 ∧
        i = Build_identity (id_userID i) (cm_Username c) (cm_Role c) (cm_Permissions c)
    | Ok (inr a) => reply_status a = 401%Z
    | _ => False
    end) w.
Proof.
  intros Hi Ha. unfold JwtFilter.
  destruct (Fields authorization) as [|scheme [|tok [|]]]; try by wp_step.
  destruct (EqualFold scheme "Bearer") eqn:Hb; [|by wp_step].
  unfold ParseToken. do 4 wp_step. destruct (jwt_ParseWithClaims _ _ _ _ _) as [c|] eqn:Hp; wp_step; [|by wp_step].
  destruct (ParseUint (cm_Subject c) 64) as [u|] eqn:Hu; [|by wp_step].
  destruct (u =? 0) eqn:Hz; prop_guards; wp_step; [done|].
  do 3 (split; [done|]). exists scheme, tok, c. split_and!; try done. by eapply jwt_parse_valid.
Qed.

(** C38: an access token identifies its user, with the name, roles and permissions
    it was made for, at any later point until it expires; from then on it is
    refused. *)
Theorem access_token_identifies {D} m u username roles permissions now0 tok w :
  jm_issuer m ≠ ""%string → jm_audience m ≠ ""%string → 0 < u < 2 ^ 64 →
  jwt_carries (issued_claims m u username roles permissions now0) →
  access_token m u username roles permissions now0 tok →
  (NewNumericDate now0 <= now_at (w_step w))%Z →
  wp (JwtFilter (D := D) m ("Bearer " +:+ tok)) (λ r _,
    if (now_at (w_step w) <? NewNumericDate (now0 + jm_ttl m))%Z
    then r = Ok (inl (Build_identity u username roles permissions))
    else ∃ a, r = Ok (inr a) ∧ reply_status a = 401%Z) w.
Proof.
  intros Hi Ha Hu Hj Htok Hclock. destruct (jwt_compact _ _ _ Htok) as [Hplain Hne].
  unfold JwtFilter. change ("Bearer " +:+ tok) with ("Bearer" +:+ String " " tok).
  rewrite Fields_two by done. replace (EqualFold "Bearer" "Bearer") with true by (symmetry; vm_compute; reflexivity).
  unfold ParseToken. do 4 wp_step. set (c := issued_claims m u username roles permissions now0) in *.
  destruct (_ <? _)%Z eqn:Ht; prop_guards.
  - rewrite (jwt_parse_signed _ _ _ _ c) by first [done|split_and!; [done|by apply list_elem_of_singleton|eauto|by intros i [= <-]]].
    wp_step. cbn [cm_Subject c issued_claims]. rewrite ParseUint_FormatUint by lia.
    rewrite (proj2 (N.eqb_neq u 0)) by lia. by wp_step.
  - destruct (jwt_ParseWithClaims _ _ _ _ _) as [c'|] eqn:Hp; [|wp_step; wp_step; eauto].
    exfalso. destruct (jwt_parse_valid _ _ _ _ _ _ Hi Ha Hp) as (_ & _ & (e & He & Hlt) & _).
    apply (jwt_parse_same _ _ _ _ c) in Hp; [|done..]. subst c'. injection He as <-. lia.
Qed.
End rules.

(** * Witnesses *)

(** A token is the encoding of the secret and the claims. *)
Definition claims_tuple (c : Claims) :
  string * list string * list string * (string * string * list string) * (option Z * option Z) :=
  (cm_Username c, cm_Role c, cm_Permissions c, (cm_Issuer c, cm_Subject c, cm_Audience c),
   (cm_IssuedAt c, cm_ExpiresAt c)).
Definition tuple_claims
    (t : string * list string * list string * (string * string * list string) * (option Z * option Z)) : Claims :=
  let '(n, r, p, (i, s, a), (ia, e)) := t in Build_Claims n r p i s a ia e.

Definition sim_claims_valid (now : time) (issuer audience : string) (c : Claims) : bool :=
  String.eqb (cm_Issuer c) issuer && bool_decide (audience ∈ cm_Audience c) &&
  match cm_ExpiresAt c with Some e => (now <? e)%Z | None => false end &&
  match cm_IssuedAt c with Some i => (i <=? now)%Z | None => true end.

Lemma sim_claims_valid_spec now issuer audience c :
  sim_claims_valid now issuer audience c = true ↔ claims_valid now issuer audience c.
Proof.
  unfold sim_claims_valid, claims_valid.
  rewrite !andb_true_iff, String.eqb_eq, bool_decide_eq_true.
  destruct (cm_ExpiresAt c) as [e|], (cm_IssuedAt c) as [i|]; rewrite ?Z.ltb_lt, ?Z.leb_le; naive_solver.
Qed.

Definition sim_parse (now : time) (secret issuer audience tok : string) : option Claims :=
  '(s, t) ← decode (A := string * _) (of_bits (str_drop 1 tok));
  let c := tuple_claims t in
  if String.eqb s secret && sim_claims_valid now issuer audience c then Some c else None.

#[export] Instance sim_jwt : JwtLib := {|
  jwt_SignedString := λ secret c, inl (String "t" (bits_of (encode (secret, claims_tuple c))));
  jwt_ParseWithClaims := sim_parse;
  jwt_carries := λ _, True
|}.

Lemma sim_parse_signed now secret issuer audience c :
  sim_parse now secret issuer audience (String "t" (bits_of (encode (secret, claims_tuple c)))) =
  if sim_claims_valid now issuer audience c then Some c else None.
Proof.
  unfold sim_parse. cbn [str_drop]. rewrite of_bits_of, decode_encode. cbn [mbind option_bind].
  rewrite String.eqb_refl. by destruct c.
Qed.

Lemma bits_plain p : plain (bits_of p) = true.
Proof. unfold plain. induction p as [p IH|p IH|]; [exact IH..|done]. Qed.

#[export] Instance sim_jwt_laws : JwtLaws.
Proof.
  split; cbn [jwt_SignedString jwt_ParseWithClaims jwt_carries sim_jwt].
  - intros now secret issuer audience c tok _ [= <-] _ _ Hv.
    rewrite sim_parse_signed. by apply sim_claims_valid_spec in Hv as ->.
  - intros now secret issuer audience c c' tok _ [= <-]. rewrite sim_parse_signed.
    by destruct (sim_claims_valid _ _ _ _); intros [= <-].
  - intros now secret issuer audience c tok _ _. unfold sim_parse.
    destruct (decode _) as [[s t]|]; [|done]. cbn [mbind option_bind].
    destruct (_ && _) eqn:Hv; [|done]. intros [= <-]. apply andb_true_iff in Hv as [_ Hv].
    by apply sim_claims_valid_spec.
  - intros secret c tok [= <-]. split; [apply (bits_plain _)|done].
  - done.
Qed.

Definition sample_jwt : JWTManager := Build_JWTManager "secret" "issuer" "audience" (15 * minute)%Z (7 * 24 * hour)%Z.
Definition sample_jwt_token : string :=
  match (GenerateToken sample_jwt 2 "bob" "admin" sample_world).1 with Ok t => t | _ => "" end.

Lemma JwtFilter_correct_witness :
  ∃ i, (JwtFilter (D := unit) sample_jwt ("bearer  " +:+ sample_jwt_token) sample_world).1 = Ok (inl i) ∧
       id_userID i ≠ 0.
Proof.
  pose proof (JwtFilter_correct (D := unit) sample_jwt ("bearer  " +:+ sample_jwt_token) sample_world
    ltac:(discriminate) ltac:(discriminate)) as (_ & _ & _ & Hr).
  assert (Hok : match (JwtFilter (D := unit) sample_jwt ("bearer  " +:+ sample_jwt_token) sample_world).1 with
                | Ok (inl _) => True | _ => False end) by (vm_compute; exact I).
  destruct (JwtFilter (D := unit) sample_jwt ("bearer  " +:+ sample_jwt_token) sample_world).1 as [[i|a]|e|];
    [|destruct Hok..].
  exists i. split; [reflexivity|]. destruct Hr as (scheme & tok & c & _ & _ & _ & _ & _ & Hne & _). exact Hne.
Defined.

Lemma access_token_identifies_witness :
  (JwtFilter (D := unit) sample_jwt ("Bearer " +:+ sample_jwt_token) sample_world).1 =
  Ok (inl (Build_identity 2 "bob" ["admin"%string] [])).
Proof.
  pose proof (access_token_identifies (D := unit) sample_jwt 2 "bob" ["admin"%string] [] 0 sample_jwt_token
    sample_world ltac:(discriminate) ltac:(discriminate) ltac:(by_decide) I ltac:(vm_compute; reflexivity)
    ltac:(by_decide)) as Hr.
  unfold wp in Hr. revert Hr. replace (now_at (w_step sample_world) <? NewNumericDate (0 + jm_ttl sample_jwt))%Z with true
    by (vm_compute; reflexivity). intros Hr. exact Hr.
Defined.

