(* ===== verification/User.v ===== *)
(** modules/user: the local accounts, the current user of a request, and the
    bootstrap administrator of cmd/api.  Follows repository.go, service.go,
    handler.go and bootstrap.go. *)

From S2P Require Import Prelude.
From S2P Require Import GoStrings.
From S2P Require Import Schema.
From S2P Require Import Integrity.
From S2P Require Import Stores.
From S2P Require Import World.
From S2P Require Import Security.
From S2P Require Import Http.
From S2P Require Import Rbac.
From S2P Require Import Sim.

Local Open Scope list_scope.
Local Open Scope N_scope.

Definition ErrNotFound : gerror := Sentinel "user.ErrNotFound" "user not found".
Definition ErrUserNotExists : gerror := Sentinel "user.ErrUserNotExists" "user does not exist".
Definition ErrUserDisabled : gerror := Sentinel "user.ErrUserDisabled" "user is disabled".

Record UserAuth := {
  ua_ID : N; ua_Username : string; ua_PasswordHash : string; ua_RoleCode : string; ua_IsActive : bool
}.

Record CurrentUser := {
  cu_ID : N; cu_Username : string; cu_RoleCode : string; cu_RoleName : string; cu_Roles : list string;
  cu_Permissions : list string; cu_IsActive : bool; cu_CreatedAt : time; cu_UpdatedAt : time
}.

(** [response.UserInfo] *)
Record UserInfo := {
  ui_ID : N; ui_Username : string; ui_RoleCode : string; ui_RoleName : string; ui_Roles : list string;
  ui_Permissions : list string; ui_IsActive : bool; ui_CreatedAt : time; ui_UpdatedAt : time
}.

Section with_env.
Context `{Env} `{Bcrypt}.

(** [errors.Is(err, gorm.ErrRecordNotFound)] becomes the error of the module. *)
Definition find_user (p : User → bool) : M User :=
  r ← attempt (First users p);
  match r with
  | inl model => mret model
  | inr e => throw (if errors_Is e ErrRecordNotFound then ErrNotFound else e)
  end.

Definition to_user_auth (m : User) : UserAuth :=
  Build_UserAuth (usr_ID m) (usr_Username m) (usr_PasswordHash m) (usr_RoleCode m) (usr_IsActive m).

Definition AddUser (username passwordHash roleCode : string) : M User :=
  Create users (Build_User 0 (TrimSpace username) passwordHash roleCode true 0 0).

Definition GetUserAuthByUsername (username : string) : M UserAuth :=
  model ← find_user (λ u, String.eqb (usr_Username u) (TrimSpace username));
  mret (to_user_auth model).

Definition by_id (userID : N) (u : User) : bool := usr_ID u =? userID.

Definition GetUserAuthByID (userID : N) : M UserAuth :=
  model ← find_user (by_id userID); mret (to_user_auth model).

Definition repo_GetUserByID (userID : N) : M CurrentUser :=
  model ← find_user (by_id userID);
  mret (Build_CurrentUser (usr_ID model) (usr_Username model) (usr_RoleCode model) (usr_RoleCode model)
          [usr_RoleCode model] [] (usr_IsActive model) (usr_CreatedAt model) (usr_UpdatedAt model)).

(** [FirstOrCreate]; an empty role is left to the default of the column. *)
Definition CreateBootstrapUser (username passwordHash roleCode : string) : M unit :=
  if String.eqb username "" then mret tt
  else wrap_err "create bootstrap user" (
    r ← attempt (First users (λ u, String.eqb (usr_Username u) username));
    match r with
    | inl _ => mret tt
    | inr e =>
        if errors_Is e ErrRecordNotFound
        then _ ← Create users (Build_User 0 username passwordHash
                   (if String.eqb roleCode "" then RoleUser else roleCode) true 0 0); mret tt
        else throw e
    end).

(** * service.go *)

Definition GetUserByID (userID : N) : M CurrentUser :=
  r ← attempt (repo_GetUserByID userID);
  match r with
  | inr e => throw (if errors_Is e ErrNotFound then ErrUserNotExists else e)
  | inl currentUser =>
      if negb (cu_IsActive currentUser) then throw ErrUserDisabled
      else
        authorization ← AuthorizationForUser (cu_ID currentUser) (cu_RoleCode currentUser);
        mret (Build_CurrentUser (cu_ID currentUser) (cu_Username currentUser) (cu_RoleCode currentUser)
                (cu_RoleName currentUser) authorization.1 authorization.2 (cu_IsActive currentUser)
                (cu_CreatedAt currentUser) (cu_UpdatedAt currentUser))
  end.

(** * handler.go *)

Definition ToUserInfoResponse (u : CurrentUser) : UserInfo :=
  Build_UserInfo (cu_ID u) (cu_Username u) (cu_RoleCode u) (cu_RoleName u) (cu_Roles u)
    (cu_Permissions u) (cu_IsActive u) (cu_CreatedAt u) (cu_UpdatedAt u).

Definition current_user_reply (r : CurrentUser + gerror) : reply UserInfo :=
  match r with
  | inl currentUser => Success (Some (ToUserInfoResponse currentUser))
  | inr e =>
      if errors_Is e ErrUserNotExists then Error 404 40401 "user not found"
      else if errors_Is e ErrUserDisabled then Error 403 40301 "user is disabled"
      else Error 500 50000 "internal server error"
  end.

Definition GetCurrentUser (user : option ctx_value) : M (reply UserInfo) :=
  match user with
  | Some (CtxUint64 userID) =>
      if userID =? 0 then mret (Error 401 40100 "invalid user identity")
      else handle (GetUserByID userID) current_user_reply
  | _ => mret (Error 401 40100 "invalid user identity")
  end.

(** * cmd/api/bootstrap.go *)

Record BootstrapConfig := { bc_Username : string; bc_Password : string; bc_Role : string }.

Definition createBootstrapUser (configuration : BootstrapConfig) : M unit :=
  if String.eqb (bc_Username configuration) "" then mret tt
  else
    _ ← reject_if (negb (IsSupportedRole (bc_Role configuration))) (Opaque "invalid bootstrap role");
    passwordHash ← wrap_err "hash bootstrap password" (HashPassword (bc_Password configuration));
    CreateBootstrapUser (bc_Username configuration) passwordHash (bc_Role configuration).
End with_env.

(** * Rules *)

Section rules.
Context `{EnvLaws} `{!Bcrypt} `{!BcryptLaws}.

Lemma wp_find_user p (Q : res User → world → Prop) w :
  (∀ e w', w_db w' = w_db w → w_redis w' = w_redis w → w_casbin w' = w_casbin w → fault e → Q (Err e) w') →
  (∀ w', w_db w' = w_db w → w_redis w' = w_redis w → w_casbin w' = w_casbin w →
     (∀ u, u ∈ t_users (w_db w) → p u = false) → Q (Err ErrNotFound) w') →
  (∀ u w', w_db w' = w_db w → w_redis w' = w_redis w → w_casbin w' = w_casbin w →
     u ∈ t_users (w_db w) → p u = true → Q (Ok u) w') →
  wp (find_user p) Q w.
Proof.
  intros He Hno Hok. unfold find_user. do 2 wp_step. wp_step.
  - wp_step. is_red. by apply He.
  - wp_step. by apply Hok.
  - wp_step. is_red. by apply Hno.
Qed.

(** The CHECK constraints hold of the stored users. *)
Definition users_ok (d : db) : Prop := ∀ u, u ∈ t_users d → check_ok users u = true.

Lemma users_ok_role d u : users_ok d → u ∈ t_users d → usr_RoleCode u ∈ supportedRoles.
Proof.
  intros Hok Hu. specialize (Hok u Hu). unfold check_ok in Hok.
  apply andb_true_iff in Hok as [_ Hr]. by apply bool_decide_eq_true in Hr.
Qed.

Lemma insert_one_users_ok t now r d r' d' :
  insert_one t now r d = Ok (r', d') → users_ok d → users_ok d'.
Proof.
  intros Hi Hok. apply insert_one_rows in Hi as (-> & -> & Hc & _).
  destruct t; try exact Hok. intros u. cbn. rewrite elem_of_app, list_elem_of_singleton.
  intros [Hu|Hu]; [by apply Hok|]. subst u. exact Hc.
Qed.

Lemma insert_all_users_ok t now rs d rs' d' :
  insert_all t now rs d = Ok (rs', d') → users_ok d → users_ok d'.
Proof.
  revert d rs' d'. induction rs as [|r rs IH]; intros d rs' d'; cbn [insert_all]; [by intros [= _ <-]|].
  destruct (insert_one _ _ _ _) as [[r1 d1]| |] eqn:Hi1; [|done..].
  destruct (insert_all _ _ _ _) as [[rs2 d2]| |] eqn:Hi2; [|done..].
  intros [= _ <-] Hok. eapply IH; [exact Hi2|]. by eapply insert_one_users_ok.
Qed.

Lemma sql_step_users_ok now {A} (s : stmt A) d x d' :
  sql_step now s d = Ok (x, d') → users_ok d → users_ok d'.
Proof.
  destruct s as [t p le|t u p le|t p|t rs|t p a|t p|]; cbn [sql_step]; try by intros [= _ <-].
  - apply insert_all_users_ok.
  - intros [= _ <-] Hok. by destruct a.
  - intros [= _ <-] Hok u Hu. apply Hok. revert Hu. destruct t; cbn; try done.
    rewrite elem_of_select. tauto.
Qed.


(** [d'] is [d] with a new user row. *)
Definition user_added (u : User) (d d' : db) : Prop :=
  d' = bump users (set_rows users (t_users d ++ [u]) d) ∧ usr_ID u = seq_users d ∧
  ∀ v, v ∈ t_users d → usr_Username v ≠ usr_Username u.

Definition new_user (username hash role : string) (u : User) : Prop :=
  usr_Username u = username ∧ usr_PasswordHash u = hash ∧ usr_RoleCode u = role ∧ usr_IsActive u = true.

Lemma wp_Create_user username hash role (Q : res User → world → Prop) w :
  db_wf (w_db w) →
  (∀ e w', w_db w' = w_db w → w_redis w' = w_redis w → w_casbin w' = w_casbin w → fault e → Q (Err e) w') →
  (∀ w', w_db w' = w_db w → w_redis w' = w_redis w → w_casbin w' = w_casbin w →
     (∃ u, u ∈ t_users (w_db w) ∧ usr_Username u = username) → Q (Err ErrDuplicatedKey) w') →
  (∀ w', w_db w' = w_db w → w_redis w' = w_redis w → w_casbin w' = w_casbin w →
     (∀ u, new_user username hash role u → check_ok users u = false) → Q (Err ErrCheckViolated) w') →
  (∀ u w', w_redis w' = w_redis w → w_casbin w' = w_casbin w → new_user username hash role u →
     check_ok users u = true → user_added u (w_db w) (w_db w') → Q (Ok u) w') →
  wp (Create users (Build_User 0 username hash role true 0 0)) Q w.
Proof.
  intros Hwf He Hdup Hchk Hok. wp_step; [by intros; apply He|].
  destruct (insert_one _ _ _ _) as [[u d]|e|] eqn:Hi; [| |done].
  - apply insert_one_rows in Hi as (-> & -> & Hc & _ & _ & Hu). apply Hok; try done.
    split; [done|]. split; [done|]. intros v Hv Heq. apply Hu. apply list_elem_of_fmap.
    exists v. split; [|done]. cbn in Heq |- *. by rewrite Heq.
  - apply insert_one_err in Hi as [[-> Hc]|[[-> Hu]|[_ Hf]]]; [| |done|done|done].
    + apply Hchk; [done..|]. intros u (E1 & E2 & E3 & _). revert Hc. unfold check_ok. cbn.
      by rewrite E1, E2, E3.
    + apply Hdup; [done..|]. apply list_elem_of_fmap in Hu as (v & Heq & Hv). cbn in Heq.
      injection Heq as Heq. by exists v.
Qed.

Definition no_user (p : User → bool) (d : db) : Prop := ∀ u, u ∈ t_users d → p u = false.

(** A request gets the stored account of its identity, with the role of the
    database as its only role and the permissions of that role, and only while
    the account is active; every other request is answered with the status of
    its reason, and no table or session changes. *)
Theorem GetCurrentUser_correct user w :
  db_wf (w_db w) → users_ok (w_db w) → policy_ready w →
  wp (GetCurrentUser user) (λ r w', w_db w' = w_db w ∧ w_redis w' = w_redis w ∧ ∃ a, r = Ok a ∧
    match reply_data a with
    | Some info => reply_status a = 200%Z ∧ ∃ u, user = Some (CtxUint64 (usr_ID u)) ∧
        u ∈ t_users (w_db w) ∧ usr_IsActive u = true ∧
        assigned (usr_ID u) (usr_RoleCode u) (w_casbin w') ∧ policy_kept (usr_ID u) w w' ∧
        info = Build_UserInfo (usr_ID u) (usr_Username u) (usr_RoleCode u) (usr_RoleCode u)
                 [usr_RoleCode u] [PermissionDashboardView] true (usr_CreatedAt u) (usr_UpdatedAt u)
    | None =>
        reply_status a = 401%Z ∧ (∀ id, user = Some (CtxUint64 id) → id = 0) ∨
        ∃ id, user = Some (CtxUint64 id) ∧
          (reply_status a = 404%Z ∧ no_user (by_id id) (w_db w) ∨
           reply_status a = 403%Z ∧ (∃ u, u ∈ t_users (w_db w) ∧ usr_ID u = id ∧ usr_IsActive u = false) ∨
           reply_status a = 500%Z ∧ ∃ e, fault e)
    end) w.
Proof.
  intros Hwf Hok Hpol. unfold GetCurrentUser.
  destruct user as [[id|]|]; [|by wp_step; do 2 (split; [done|]); eexists; split; [done|]; left..].
  destruct (id =? 0) eqn:Hz; prop_guards.
  { wp_step. do 2 (split; [done|]). eexists; split; [done|]. left. split; [done|]. by intros ? [= <-]. }
  apply wp_handle. unfold GetUserByID, repo_GetUserByID. do 3 wp_step. apply wp_find_user.
  - intros e w1 Hd Hr Hc Hf. wp_step. is_red. cbn. is_red. do 2 (split; [done|]). eexists; split; [done|].
    right. exists id. split; [done|]. right; right. cbn. eauto.
  - intros w1 Hd Hr Hc Hn. wp_step. is_red. cbn. do 2 (split; [done|]). eexists; split; [done|].
    right. exists id. split; [done|]. by left.
  - intros u w1 Hd Hr Hc Hin Hid. unfold by_id in Hid. apply N.eqb_eq in Hid. wp_step. cbn [cu_IsActive cu_ID cu_RoleCode].
    destruct (usr_IsActive u) eqn:Hact; cbn [negb].
    + wp_step. apply wp_authorize.
      * by unfold policy_ready; rewrite Hc.
      * by eapply users_ok_role.
      * intros e w2 Hd2 Hr2 _ Hf. do 2 (split; [congruence|]). eexists. split; [done|].
        unfold current_user_reply. rewrite !wrapped_fault_Is by done. right. exists id. split; [done|].
        right; right. destruct Hf as (? & e' & Hf & _). split; [done|by exists e'].
      * intros w2 Hd2 Hr2 (Hk1 & Hk2 & Hk3) Ha. wp_step. do 2 (split; [congruence|]). eexists. split; [done|].
        cbn [current_user_reply Success reply_data rp_body]. split; [done|]. exists u. rewrite Hc in Hk3.
        do 3 (split; [done || by rewrite Hid|]). do 2 (split; [done|]).
        reflexivity.
    + wp_step. do 2 (split; [done|]). eexists. split; [done|]. right. exists id. split; [done|].
      right; left. split; [done|]. by exists u.
Qed.

(** The bootstrap administrator is created only when its name is taken by no
    account, active, with the configured role and a hash that verifies the
    configured password; an existing account of that name is never changed. *)
Theorem createBootstrapUser_correct configuration w :
  db_wf (w_db w) →
  wp (createBootstrapUser configuration) (λ r w', w_redis w' = w_redis w ∧ w_casbin w' = w_casbin w ∧
    match r with
    | Ok _ => w_db w' = w_db w ∧ (bc_Username configuration = ""%string ∨
                ∃ u, u ∈ t_users (w_db w) ∧ usr_Username u = bc_Username configuration) ∨
              ∃ u hash, new_user (bc_Username configuration) hash (bc_Role configuration) u ∧
                usr_RoleCode u ∈ supportedRoles ∧
                bcrypt_compare hash (bc_Password configuration) = true ∧ user_added u (w_db w) (w_db w') ∧
                check_ok users u = true
    | Err e => w_db w' = w_db w ∧
        (IsSupportedRole (bc_Role configuration) = false ∨ wrapped_fault e ∨
         (72 < String.length (bc_Password configuration))%nat ∨
         e = Wrapped "create bootstrap user" ErrCheckViolated)
    | Panic => False
    end) w.
Proof.
  intros Hwf. unfold createBootstrapUser. destruct (String.eqb (bc_Username configuration) "") eqn:Hn.
  { wp_step. apply String.eqb_eq in Hn. auto 6. }
  wp_step. wp_step; [rename select (negb _ = true) into Hs; apply negb_true_iff in Hs; by auto 6|].
  rename select (negb _ = false) into Hs. apply negb_false_iff in Hs.
  assert (Hrole : String.eqb (bc_Role configuration) "" = false).
  { apply String.eqb_neq. intros E. rewrite E in Hs. by vm_compute in Hs. }
  wp_step. apply wp_wrap_err. unfold HashPassword, wp at 1.
  pose proof (bcrypt_generate_law (w_step w) (bc_Password configuration)) as Hlaw.
  destruct (Nat.leb_spec (String.length (bc_Password configuration)) 72).
  2:{ rewrite Hlaw. cbn. auto 7. }
  destruct Hlaw as [[h Hh]|[e [He Hf]]]; [rewrite Hh|rewrite He]; cbn [fst snd].
  2:{ do 2 (split; [done|]). split; [done|]. right; left. by exists "hash bootstrap password"%string, e. }
  unfold CreateBootstrapUser. rewrite Hn. apply wp_wrap_err. do 2 wp_step. wp_step.
  - is_red. wp_step. do 2 (split; [done|]). split; [done|]. right; left. eexists _, _. done.
  - wp_step. rename select (String.eqb _ _ = true) into Hu. apply String.eqb_eq in Hu.
    do 2 (split; [done|]). left. split; [done|]. right. eauto.
  - rename select (∀ r, r ∈ _ → _) into Hnone. is_red. rewrite Hrole. wp_step. apply wp_Create_user; [done|..].
    + intros e w1 Hd Hr Hc Hf. do 2 (split; [done|]). split; [done|]. right; left. eexists _, _. done.
    + intros w1 _ _ _ (u & Hin & Hu). specialize (Hnone u Hin). by rewrite Hu, String.eqb_refl in Hnone.
    + intros w1 Hd Hr Hc _. do 2 (split; [done|]). auto 6.
    + intros u w1 Hr Hc Hnew Hchk Hadd. wp_step. do 2 (split; [done|]). right. exists u, h.
      split; [done|]. split; [|split; [by eapply bcrypt_compare_generate|by split]].
      unfold check_ok in Hchk. apply andb_true_iff in Hchk as [_ Hk]. by apply bool_decide_eq_true in Hk.
Qed.
End rules.

(** * Witnesses *)

Lemma ins_users_ok t rs d : users_ok d → users_ok (ins t rs d).
Proof.
  intros Hok. unfold ins. destruct (insert_all t 0 rs d) as [[rs' d']| |] eqn:Hi; [|done..].
  by eapply insert_all_users_ok.
Qed.

(** Two users, with the roles of the seeded policy. *)
Definition users_db : db :=
  ins users [Build_User 0 "alice" "$2a$alice-password" "user" true 0 0;
             Build_User 0 "bob" "$2a$bob-password" "admin" true 0 0;
             Build_User 0 "carol" "$2a$carol-password" "user" false 0 0] empty_db.

Definition users_world : world := Build_world users_db ∅ sample_policy 0.

Lemma users_world_wf : db_wf (w_db users_world).
Proof. apply ins_wf, empty_db_wf. Qed.

Lemma users_world_ok : users_ok (w_db users_world).
Proof. apply ins_users_ok. intros u Hu. by apply not_elem_of_nil in Hu. Qed.

Lemma users_world_ready : policy_ready users_world.
Proof. split; [exact sample_policy_ok|exact sample_policy_seeded]. Qed.

Lemma GetCurrentUser_correct_witness :
  ∃ a info, (GetCurrentUser (Some (CtxUint64 2)) users_world).1 = Ok a ∧ reply_data a = Some info ∧
    ui_Permissions info = [PermissionDashboardView].
Proof.
  pose proof (GetCurrentUser_correct (Some (CtxUint64 2)) users_world users_world_wf users_world_ok
    users_world_ready) as (_ & _ & a & Ha & Hr).
  assert (Hd : match (GetCurrentUser (Some (CtxUint64 2)) users_world).1 with
               | Ok a => is_Some (reply_data a) | _ => True end) by (vm_compute; eexists; reflexivity).
  rewrite Ha in Hd. destruct Hd as [info Hinfo]. rewrite Hinfo in Hr.
  destruct Hr as (_ & u & _ & _ & _ & _ & _ & Hi). exists a, info.
  split; [exact Ha|]. split; [exact Hinfo|]. rewrite Hi. reflexivity.
Defined.

Definition sample_bootstrap : BootstrapConfig := Build_BootstrapConfig "root-admin" "password123" "admin".

Lemma sample_bootstrap_new u : u ∈ t_users (w_db users_world) → usr_Username u ≠ bc_Username sample_bootstrap.
Proof.
  assert (Hall : forallb (λ u, negb (String.eqb (usr_Username u) "root-admin")) (t_users (w_db users_world)) = true)
    by (vm_compute; reflexivity).
  intros Hin%list_elem_of_In. rewrite forallb_forall in Hall. apply Hall in Hin.
  by apply negb_true_iff, String.eqb_neq in Hin.
Qed.

Lemma createBootstrapUser_correct_witness :
  ∃ u hash, new_user "root-admin" hash "admin" u ∧ bcrypt_compare hash "password123" = true ∧
    user_added u (w_db users_world) (w_db (createBootstrapUser sample_bootstrap users_world).2).
Proof.
  pose proof (createBootstrapUser_correct sample_bootstrap users_world users_world_wf) as Hwp.
  destruct (wp_Ok _ _ _ Hwp ltac:(vm_compute; reflexivity)) as ([] & _ & _ & _ & Hr).
  destruct Hr as [[_ [Hbad|(u & Hin & Hu)]]|(u & hash & Hnew & _ & Hh & Hadd & _)]; [discriminate|..].
  - destruct (sample_bootstrap_new u Hin Hu).
  - exists u, hash. split; [exact Hnew|]. split; [exact Hh|exact Hadd].
Defined.
