(* ===== verification/Auth.v ===== *)
(** modules/auth: registration, login, the rotation of refresh tokens and logout.
    Follows service.go and handler.go; the account is in the database, the role
    in the policy, the session in Redis, the identity in the access token. *)

From S2P Require Import Prelude.
From S2P Require Import GoStrings.
From S2P Require Import Schema.
From S2P Require Import Integrity.
From S2P Require Import Stores.
From S2P Require Import World.
From S2P Require Import Security.
From S2P Require Import Http.
From S2P Require Import RefreshTokens.
From S2P Require Import Rbac.
From S2P Require Import Jwt.
From S2P Require Import User.

Local Open Scope list_scope.
Local Open Scope N_scope.

Definition ErrInvalidRequest : gerror := Sentinel "auth.ErrInvalidRequest" "invalid request".
Definition ErrInvalidRefreshToken : gerror :=
  Sentinel "auth.ErrInvalidRefreshToken" "invalid or expired refresh token".
Definition ErrUserExists : gerror := Sentinel "auth.ErrUserExists" "username already exists".
Definition ErrUserDisabled : gerror := Sentinel "auth.ErrUserDisabled" "user is disabled".

Definition defaultRegistrationRoleCode : string := RoleUser.

Record LoginRequest := { lr_Username : string; lr_Password : string }.
Record RegisterRequest := {
  rr_Username : string; rr_Password : string; rr_CheckPassword : string; rr_Code : string; rr_IAgree : bool
}.

(** The service: its token manager and the hash it compares with when there is
    no account. *)
Record AuthService := { as_jwtManager : JWTManager; as_dummyHash : string }.

Inductive auth_payload :=
  | PLogin (accessToken : string)
  | PAccessToken (accessToken : string).

Abbreviation auth_answer := (reply auth_payload).

Section with_env.
Context `{Env} `{Bcrypt} `{JwtLib}.

(** * service.go *)

Definition accessTokenForUser (s : AuthService) (userAuth : UserAuth) : M string :=
  authorization ← AuthorizationForUser (ua_ID userAuth) (ua_RoleCode userAuth);
  GenerateTokenWithPermissions (as_jwtManager s) (ua_ID userAuth) (ua_Username userAuth)
    authorization.1 authorization.2.

Definition issueTokensForUser (s : AuthService) (userAuth : UserAuth) : M (string * string) :=
  accessToken ← accessTokenForUser s userAuth;
  refreshToken ← CreateRefreshToken (ua_ID userAuth) (jm_RefreshTTL (as_jwtManager s));
  mret (accessToken, refreshToken).

(** The two tokens and whether the credentials are those of an account; the
    flag of a call that fails is not read. *)
Definition Login (s : AuthService) (loginRequest : LoginRequest) : M (string * string * bool) :=
  r ← attempt (GetUserAuthByUsername (lr_Username loginRequest));
  match r with
  | inr e =>
      if errors_Is e ErrNotFound
      then let _ := VerifyPassword (lr_Password loginRequest) (as_dummyHash s) in mret (""%string, ""%string, false)
      else throw e
  | inl userAuth =>
      if negb (VerifyPassword (lr_Password loginRequest) (ua_PasswordHash userAuth))
      then mret (""%string, ""%string, false)
      else if negb (ua_IsActive userAuth) then throw ErrUserDisabled
      else tokens ← issueTokensForUser s userAuth; mret (tokens.1, tokens.2, true)
  end.

Definition register_refused (registerRequest : RegisterRequest) : bool :=
  let username := TrimSpace (rr_Username registerRequest) in
  let passwordLength := String.length (rr_Password registerRequest) in
  (RuneCountInString username <? 3)%nat || (50 <? RuneCountInString username)%nat ||
  (passwordLength <? 8)%nat || (72 <? passwordLength)%nat ||
  negb (String.eqb (rr_Password registerRequest) (rr_CheckPassword registerRequest)) ||
  blank (rr_Code registerRequest) || negb (rr_IAgree registerRequest).

Definition Register (registerRequest : RegisterRequest) : M User :=
  let username := TrimSpace (rr_Username registerRequest) in
  _ ← reject_if (register_refused registerRequest) ErrInvalidRequest;
  passwordHash ← HashPassword (rr_Password registerRequest);
  r ← attempt (AddUser username passwordHash defaultRegistrationRoleCode);
  match r with
  | inr e => throw (if errors_Is e ErrDuplicatedKey then ErrUserExists else e)
  | inl registeredUser =>
      _ ← AuthorizationForUser (usr_ID registeredUser) (usr_RoleCode registeredUser);
      mret registeredUser
  end.

Definition Refresh (s : AuthService) (refreshToken : string) : M (string * string) :=
  r ← attempt (RotateRefreshToken refreshToken (jm_RefreshTTL (as_jwtManager s)));
  match r with
  | inr e => throw (if errors_Is e ErrRefreshTokenNotFound then ErrInvalidRefreshToken else e)
  | inl rotated =>
      r ← attempt (GetUserAuthByID rotated.2);
      match r with
      | inr e => throw (if errors_Is e ErrNotFound then ErrInvalidRefreshToken else e)
      | inl userAuth =>
          if negb (ua_IsActive userAuth) then throw ErrUserDisabled
          else accessToken ← accessTokenForUser s userAuth; mret (accessToken, rotated.1)
      end
  end.

Definition Logout (refreshToken : string) : M unit := DeleteRefreshToken refreshToken.

(** * handler.go *)

Definition refreshCookiePath : string := "/api/v1/auth".

Definition setRefreshCookie (s : AuthService) (cookieSecure : bool) (refreshToken : string) : cookie :=
  Build_cookie "refresh_token" refreshToken (Z.quot (jm_RefreshTTL (as_jwtManager s)) second)
    refreshCookiePath cookieSecure true.

Definition clearRefreshCookie (cookieSecure : bool) : cookie :=
  Build_cookie "refresh_token" "" (-1) refreshCookiePath cookieSecure true.

(** The bodies and the cookie of the request are [None] when binding fails or
    the cookie is missing. *)
Definition Login_handler (s : AuthService) (cookieSecure : bool) (body : option LoginRequest) : M auth_answer :=
  match body with
  | None => mret (Error 400 40000 "invalid request")
  | Some loginRequest =>
      handle (Login s loginRequest) (λ r,
        match r with
        | inl (accessToken, refreshToken, true) =>
            with_cookie (setRefreshCookie s cookieSecure refreshToken) (Success (Some (PLogin accessToken)))
        | inl (_, _, false) => Error 401 40100 "invalid username or password"
        | inr e => if errors_Is e ErrUserDisabled then Error 403 40301 "user is disabled"
                   else Error 500 50000 "internal server error"
        end)
  end.

Definition Register_handler (body : option RegisterRequest) : M auth_answer :=
  match body with
  | None => mret (Error 400 10001 "invalid request")
  | Some registerRequest =>
      handle (Register registerRequest) (λ r,
        match r with
        | inl _ => SuccessWithStatus 201 None "register successful"
        | inr e => if errors_Is e ErrInvalidRequest then Error 400 10001 (error_text e)
                   else if errors_Is e ErrUserExists then Error 409 10002 (error_text e)
                   else Error 500 10500 "internal server error"
        end)
  end.

Definition Refresh_handler (s : AuthService) (cookieSecure : bool) (refresh_token : option string) : M auth_answer :=
  match refresh_token with
  | None | Some ""%string => mret (Error 401 40101 "missing refresh token")
  | Some refreshToken =>
      handle (Refresh s refreshToken) (λ r,
        match r with
        | inl (accessToken, newRefreshToken) =>
            with_cookie (setRefreshCookie s cookieSecure newRefreshToken) (Success (Some (PAccessToken accessToken)))
        | inr e =>
            if errors_Is e ErrInvalidRefreshToken
            then with_cookie (clearRefreshCookie cookieSecure) (Error 401 40101 "invalid or expired refresh token")
            else if errors_Is e ErrUserDisabled
            then with_cookie (clearRefreshCookie cookieSecure) (Error 403 40301 "user is disabled")
            else Error 500 50000 "internal server error"
        end)
  end.

Definition Logout_handler (cookieSecure : bool) (refresh_token : option string) : M auth_answer :=
  match refresh_token with
  | None | Some ""%string => mret (with_cookie (clearRefreshCookie cookieSecure) (Success None))
  | Some refreshToken =>
      handle (Logout refreshToken) (λ r,
        match r with
        | inl _ => with_cookie (clearRefreshCookie cookieSecure) (Success None)
        | inr _ => with_cookie (clearRefreshCookie cookieSecure) (Error 500 50000 "internal server error")
        end)
  end.
End with_env.
