(* ===== verification/AuthSpec.v ===== *)
(** The contract of modules/auth: who gets tokens, for which identity, and what
    registration, login, rotation and logout do to the accounts, the policy and
    the sessions. *)

From S2P Require Import Prelude.
From S2P Require Import GoStrings.
From S2P Require Import Codec.
From S2P Require Import Schema.
From S2P Require Import Integrity.
From S2P Require Import Stores.
From S2P Require Import World.
From S2P Require Import Security.
From S2P Require Import Http.
From S2P Require Import Sim.
From S2P Require Import RefreshTokens.
From S2P Require Import Rbac.
From S2P Require Import Jwt.
From S2P Require Import User.
From S2P Require Import Auth.

Local Open Scope list_scope.
Local Open Scope N_scope.

Section spec.
Context `{EnvLaws} `{!Bcrypt} `{!BcryptLaws} `{JwtLaws}.

(** * Issuing tokens *)

(** Errors from below that the module passes on: of a store, of the random
    source or of the signature. *)
Definition passed_on (e : gerror) : Prop :=
  transport_error e ∨ ∃ m e', transport_error e' ∧ e = Wrapped m e'.

Lemma passed_fault e : fault e → passed_on e.
Proof. left. by apply fault_transport. Qed.

Lemma passed_wrapped e : wrapped_fault e → passed_on e.
Proof. intros (m & e' & Hf & ->). right. exists m, e'. split; [by apply fault_transport|done]. Qed.

Lemma passed_on_Is e s : own_sentinel s = true → passed_on e → errors_Is e s = false.
Proof.
  intros Hs [Hf|(m & e' & Hf & ->)]; [by apply transport_Is|].
  destruct s as [n t| | |]; try done. rewrite errors_Is_wrapped. by apply transport_Is.
Qed.

(** An access token of a stored account, made at some instant. *)
Definition user_token (s : AuthService) (u : User) (tok : string) : Prop :=
  ∃ n, access_token (as_jwtManager s) (usr_ID u) (usr_Username u) [usr_RoleCode u]
         [PermissionDashboardView] (now_at n) tok.

Lemma wp_accessTokenForUser s u (Q : res string → world → Prop) w :
  policy_ready w → usr_RoleCode u ∈ supportedRoles →
  (∀ e w', w_db w' = w_db w → w_redis w' = w_redis w → policy_kept (usr_ID u) w w' → passed_on e → Q (Err e) w') →
  (∀ tok w', w_db w' = w_db w → w_redis w' = w_redis w → policy_kept (usr_ID u) w w' →
     assigned (usr_ID u) (usr_RoleCode u) (w_casbin w') → user_token s u tok → Q (Ok tok) w') →
  wp (accessTokenForUser s (to_user_auth u)) Q w.
Proof.
  intros Hp Hr He Hok. unfold accessTokenForUser. cbn [ua_ID ua_RoleCode ua_Username to_user_auth].
  wp_step. apply wp_authorize; [done|done|..].
  - intros e w1 Hd Hrd Hk Hf. apply He; [done..|]. by apply passed_wrapped.
  - intros w1 Hd Hrd Hk Ha. cbn [fst snd]. apply wp_GenerateToken.
    + intros e Hs. apply He; [done..|]. left. by eapply jwt_sign_error.
    + intros tok Ht. apply Hok; [done..|]. by exists (w_step w1).
Qed.

(** A session of a user: a fresh token with the user under its hash. *)
Definition session_stored (u : N) (ttl : time) (tok : string) (r r' : redis) : Prop :=
  ∃ n, r' = <[refreshTokenKey tok := (FormatUint u, expiry (now_at n) ttl)]> r.

(** A stored session whose token nobody learns: the reply to its creation was
    lost. *)
Definition session_lost (u : N) (ttl : time) (r r' : redis) : Prop :=
  r' = r ∨ ∃ tok, session_stored u ttl tok r r'.

Lemma wp_issueTokens s u (Q : res (string * string) → world → Prop) w :
  let ttl := jm_RefreshTTL (as_jwtManager s) in
  policy_ready w → usr_RoleCode u ∈ supportedRoles →
  (∀ e w', w_db w' = w_db w → session_lost (usr_ID u) ttl (w_redis w) (w_redis w') →
     policy_kept (usr_ID u) w w' → passed_on e → Q (Err e) w') →
  (∀ tok t n w', w_db w' = w_db w → policy_kept (usr_ID u) w w' →
     assigned (usr_ID u) (usr_RoleCode u) (w_casbin w') → user_token s u tok →
     w_step w' = S n →
     w_redis w' = <[refreshTokenKey t := (FormatUint (usr_ID u), expiry (now_at n) ttl)]> (w_redis w) →
     Q (Ok (tok, t)) w') →
  wp (issueTokensForUser s (to_user_auth u)) Q w.
Proof.
  intros ttl Hp Hr He Hok. unfold issueTokensForUser. wp_step. apply wp_accessTokenForUser; [done|done|..].
  - intros e w1 Hd Hrd Hk Hf. apply He; [done| |done|done]. by left.
  - intros tok w1 Hd Hrd Hk Ha Ht. wp_step. cbn [ua_ID to_user_auth]. fold ttl. apply wp_CreateRefreshToken.
    + intros e w2 [Hd2 Hc2] Hf Hrd2. apply He; [congruence| | |by apply passed_wrapped].
      * destruct Hrd2 as [->|(t & _ & ->)]; [left; congruence|]. right. exists t, (S (w_step w1)). by rewrite Hrd.
      * unfold policy_kept. by rewrite Hc2.
    + intros t w2 [Hd2 Hc2] _ Hs2 Hrd2. wp_step. rewrite Hrd in Hrd2.
      eapply (Hok tok t (S (w_step w1))); [congruence|unfold policy_kept; by rewrite Hc2|by rewrite Hc2|done..].
Qed.

(** * The accounts *)

(** The account with this name. *)
Definition named (username : string) (u : User) : bool := String.eqb (usr_Username u) (TrimSpace username).

Lemma wp_by_name username (Q : res UserAuth → world → Prop) w :
  (∀ e w', w_db w' = w_db w → w_redis w' = w_redis w → w_casbin w' = w_casbin w → fault e → Q (Err e) w') →
  (∀ w', w_db w' = w_db w → w_redis w' = w_redis w → w_casbin w' = w_casbin w →
     no_user (named username) (w_db w) → Q (Err ErrNotFound) w') →
  (∀ u w', w_db w' = w_db w → w_redis w' = w_redis w → w_casbin w' = w_casbin w →
     u ∈ t_users (w_db w) → usr_Username u = TrimSpace username → Q (Ok (to_user_auth u)) w') →
  wp (GetUserAuthByUsername username) Q w.
Proof.
  intros He Hno Hok. unfold GetUserAuthByUsername. wp_step. apply wp_find_user; [done|done|].
  intros u w1 Hd Hr Hc Hin Hn. wp_step. apply Hok; [done..|]. by apply String.eqb_eq.
Qed.

Lemma wp_by_id id (Q : res UserAuth → world → Prop) w :
  (∀ e w', w_db w' = w_db w → w_redis w' = w_redis w → w_casbin w' = w_casbin w → fault e → Q (Err e) w') →
  (∀ w', w_db w' = w_db w → w_redis w' = w_redis w → w_casbin w' = w_casbin w →
     no_user (by_id id) (w_db w) → Q (Err ErrNotFound) w') →
  (∀ u w', w_db w' = w_db w → w_redis w' = w_redis w → w_casbin w' = w_casbin w →
     u ∈ t_users (w_db w) → usr_ID u = id → Q (Ok (to_user_auth u)) w') →
  wp (GetUserAuthByID id) Q w.
Proof.
  intros He Hno Hok. unfold GetUserAuthByID. wp_step. apply wp_find_user; [done|done|].
  intros u w1 Hd Hr Hc Hin Hn. wp_step. apply Hok; [done..|]. by apply N.eqb_eq.
Qed.

(** * Login *)

(** The credentials of a request are those of an account. *)
Definition credentials_of (req : LoginRequest) (u : User) (d : db) : Prop :=
  u ∈ t_users d ∧ usr_Username u = TrimSpace (lr_Username req) ∧
  bcrypt_compare (usr_PasswordHash u) (lr_Password req) = true.

Lemma credentials_unique req u v d :
  db_wf d → credentials_of req u d → v ∈ t_users d → usr_Username v = TrimSpace (lr_Username req) → v = u.
Proof.
  intros Hwf (Hu & Hn & _) Hv Hnv. apply (uk_inj users d); [done..|]. cbn. congruence.
Qed.

Lemma wp_Login s req (Q : res (string * string * bool) → world → Prop) w :
  let ttl := jm_RefreshTTL (as_jwtManager s) in
  db_wf (w_db w) → users_ok (w_db w) → policy_ready w →
  (∀ e w', w_db w' = w_db w → passed_on e →
     (∃ u, policy_kept u w w' ∧ session_lost u ttl (w_redis w) (w_redis w')) → Q (Err e) w') →
  (∀ w', w_db w' = w_db w → w_redis w' = w_redis w → w_casbin w' = w_casbin w →
     (∀ u, ¬ credentials_of req u (w_db w)) → Q (Ok (""%string, ""%string, false)) w') →
  (∀ u w', w_db w' = w_db w → w_redis w' = w_redis w → w_casbin w' = w_casbin w →
     credentials_of req u (w_db w) → usr_IsActive u = false → Q (Err ErrUserDisabled) w') →
  (∀ u tok t n w', w_db w' = w_db w → policy_kept (usr_ID u) w w' →
     credentials_of req u (w_db w) → usr_IsActive u = true → user_token s u tok → w_step w' = S n →
     w_redis w' = <[refreshTokenKey t := (FormatUint (usr_ID u), expiry (now_at n) ttl)]> (w_redis w) →
     Q (Ok (tok, t, true)) w') →
  wp (Login s req) Q w.
Proof.
  intros ttl Hwf Hus Hp He Hno Hdis Hok. unfold Login. do 2 wp_step. apply wp_by_name.
  - intros e w1 Hd Hr Hc Hf. is_red. wp_step. apply He; [done|by apply passed_fault|]. exists 0. split; [|left; by rewrite Hr].
    unfold policy_kept. rewrite Hc. by destruct Hp.
  - intros w1 Hd Hr Hc Hn. is_red. wp_step. apply Hno; [done..|]. intros u (Hu & Hname & _).
    specialize (Hn u Hu). unfold named in Hn. by rewrite Hname, String.eqb_refl in Hn.
  - intros u w1 Hd Hr Hc Hu Hname. unfold VerifyPassword. cbn [ua_PasswordHash ua_IsActive to_user_auth].
    destruct (bcrypt_compare (usr_PasswordHash u) (lr_Password req)) eqn:Hcmp; cbn [negb].
    2:{ wp_step. apply Hno; [done..|]. intros v Hv.
        assert (u = v) as <- by (by apply (credentials_unique req v u (w_db w))).
        destruct Hv as (_ & _ & Hv). congruence. }
    assert (Hcred : credentials_of req u (w_db w)) by done.
    destruct (usr_IsActive u) eqn:Hact; cbn [negb]; [|wp_step; by apply (Hdis u)].
    wp_step. apply wp_issueTokens.
    + unfold policy_ready. by rewrite Hc.
    + by eapply users_ok_role.
    + intros e w2 Hd2 Hs Hk Hf. apply He; [congruence|done|]. exists (usr_ID u). unfold policy_kept in *.
      rewrite Hc in Hk. rewrite Hr in Hs. done.
    + intros tok t n w2 Hd2 Hk Ha Ht Hs2 Hr2. wp_step. unfold policy_kept in Hk. rewrite Hc in Hk.
      rewrite Hr in Hr2. eapply (Hok u tok t n); try done. congruence.
Qed.

(** C32: a login gives tokens exactly when the name and the password are those of
    an active account: an access token of that account and one new session of
    it.  A wrong name or password is only reported as such, a disabled account
    gets nothing, and no table changes in any case. *)
Theorem auth_Login_correct s req w :
  db_wf (w_db w) → users_ok (w_db w) → policy_ready w →
  wp (Login s req) (λ r w', w_db w' = w_db w ∧
    match r with
    | Ok (tok, t, true) => ∃ u, credentials_of req u (w_db w) ∧ usr_IsActive u = true ∧
        user_token s u tok ∧ session_stored (usr_ID u) (jm_RefreshTTL (as_jwtManager s)) t (w_redis w) (w_redis w')
    | Ok (tok, t, false) => tok = ""%string ∧ t = ""%string ∧ w_redis w' = w_redis w ∧
        w_casbin w' = w_casbin w ∧ ∀ u, ¬ credentials_of req u (w_db w)
    | Err e => passed_on e ∨ e = ErrUserDisabled ∧ w_redis w' = w_redis w ∧
        ∃ u, credentials_of req u (w_db w) ∧ usr_IsActive u = false
    | Panic => False
    end) w.
Proof.
  intros Hwf Hus Hp. apply wp_Login; [done..| | | |].
  - intros e w' Hd Hf _. auto.
  - intros w' Hd Hr Hc Hn. auto 7.
  - intros u w' Hd Hr Hc Hcr Ha. split; [done|]. right. eauto.
  - intros u tok t n w' Hd Hk Hcr Ha Ht Hs Hr. split; [done|]. exists u.
    split; [done|]. split; [done|]. split; [done|]. by exists n.
Qed.

(** * Registration *)

(** What a registration adds. *)
Definition registered (req : RegisterRequest) (u : User) (d d' : db) : Prop :=
  usr_Username u = TrimSpace (rr_Username req) ∧ usr_RoleCode u = RoleUser ∧ usr_IsActive u = true ∧
  bcrypt_compare (usr_PasswordHash u) (rr_Password req) = true ∧ user_added u d d'.

Lemma not_refused req :
  register_refused req = false →
  (3 <= RuneCountInString (TrimSpace (rr_Username req)) <= 50)%nat ∧
  (8 <= String.length (rr_Password req) <= 72)%nat ∧ rr_Password req = rr_CheckPassword req ∧
  blank (rr_Code req) = false ∧ rr_IAgree req = true.
Proof.
  unfold register_refused. rewrite !orb_false_iff, !negb_false_iff, !Nat.ltb_ge, String.eqb_eq. tauto.
Qed.

(** C34: a registration with acceptable data and a free name adds one active
    account with the default role and a hash that verifies the password, and
    assigns the role; a refused one says why and adds nothing.  When only the
    assignment of the role fails the account stays. *)
Theorem Register_correct req w :
  db_wf (w_db w) → policy_ready w →
  wp (Register req) (λ r w', w_redis w' = w_redis w ∧
    match r with
    | Ok u => register_refused req = false ∧ registered req u (w_db w) (w_db w') ∧
              policy_kept (usr_ID u) w w' ∧ assigned (usr_ID u) RoleUser (w_casbin w')
    | Err e =>
        w_db w' = w_db w ∧
          (e = ErrInvalidRequest ∧ register_refused req = true ∨ fault e ∨
           e = ErrUserExists ∧ ∃ u, u ∈ t_users (w_db w) ∧ usr_Username u = TrimSpace (rr_Username req)) ∨
        wrapped_fault e ∧ ∃ u, registered req u (w_db w) (w_db w')
    | Panic => False
    end) w.
Proof.
  intros Hwf Hp. unfold Register. wp_step. wp_step; [by auto 6|].
  rename select (register_refused req = false) into Href.
  destruct (not_refused req Href) as (Hname & Hlen & _).
  wp_step. unfold HashPassword, wp at 1.
  pose proof (bcrypt_generate_law (w_step w) (rr_Password req)) as Hlaw.
  destruct (Nat.leb_spec (String.length (rr_Password req)) 72); [|lia].
  destruct Hlaw as [[h Hh]|[e [He Hf]]]; [rewrite Hh|rewrite He]; cbn [fst snd]; [|by auto 7].
  do 2 wp_step. unfold AddUser. rewrite TrimSpace_idemp. apply wp_Create_user; [done|..].
  - intros e w1 Hd Hr Hc Hf. wp_step. is_red. split; [done|]. left. split; [done|]. auto.
  - intros w1 Hd Hr Hc (u & Hu & Hn). wp_step. is_red. split; [done|]. left. split; [done|]. right; right.
    split; [done|]. by exists u.
  - intros w1 Hd Hr Hc Hbad. exfalso.
    specialize (Hbad (Build_User 0 (TrimSpace (rr_Username req)) h RoleUser true 0 0) ltac:(done)).
    revert Hbad. unfold check_ok. cbn [usr_Username usr_PasswordHash usr_RoleCode]. cbv zeta.
    apply bcrypt_length in Hh. pose proof (RuneCount_le h).
    rewrite !bool_decide_eq_true_2 by (lia || by_decide). done.
  - intros u w1 Hr Hc (Hn & Hph & Hrole & Hact) Hchk Hadd.
    assert (Hreg : registered req u (w_db w) (w_db w1)).
    { repeat (split; [done|]). split; [rewrite Hph; by eapply bcrypt_compare_generate|done]. }
    wp_step. rewrite Hrole. apply wp_authorize.
    + unfold policy_ready. by rewrite Hc.
    + by_decide.
    + intros e w2 Hd2 Hr2 _ Hf. split; [rewrite Hr2; exact Hr|]. right. rewrite Hd2. eauto.
    + intros w2 Hd2 Hr2 Hk Ha. wp_step. split; [rewrite Hr2; exact Hr|]. rewrite Hd2. unfold policy_kept in *.
      rewrite Hc in Hk. done.
Qed.

(** * Rotation *)

(** What Redis has for a token at an instant. *)
Definition session_of (now : time) (tok : string) (r : redis) : option N :=
  match rget now (refreshTokenKey tok) r with Some v => token_user v | None => None end.

(** What a rotation ends with. *)
Definition rotation (s : AuthService) (old : string) (w : world) (r : res (string * string)) (w' : world) : Prop :=
  let now := now_at (S (w_step w)) in
  let ttl := jm_RefreshTTL (as_jwtManager s) in
  w_db w' = w_db w ∧
  match r with
  | Ok (tok, new) => ∃ u v, rget now (refreshTokenKey old) (w_redis w) = Some v ∧
      token_user v = Some (usr_ID u) ∧ u ∈ t_users (w_db w) ∧ usr_IsActive u = true ∧
      user_token s u tok ∧ rotated old new v ttl w w' ∧ policy_kept (usr_ID u) w w'
  | Err e =>
      passed_on e ∨
      e = ErrInvalidRefreshToken ∧
        (session_of now old (w_redis w) = None ∨ session_of now old (w_redis w) = Some 0 ∨
         ∃ id, session_of now old (w_redis w) = Some id ∧ no_user (by_id id) (w_db w)) ∨
      e = ErrUserDisabled ∧ ∃ u, session_of now old (w_redis w) = Some (usr_ID u) ∧
        u ∈ t_users (w_db w) ∧ usr_IsActive u = false
  | Panic => False
  end.

Lemma wp_Refresh s old w :
  users_ok (w_db w) → policy_ready w → wp (Refresh s old) (rotation s old w) w.
Proof.
  intros Hus Hp. unfold Refresh, rotation, session_of. set (now := now_at _). set (ttl := jm_RefreshTTL _).
  cbv zeta. do 2 wp_step. fold ttl. apply wp_RotateRefreshToken.
  - intros e w1 [Hd Hc] Hf _. rewrite wrapped_fault_Is by done. wp_step. split; [done|]. left. by apply passed_wrapped.
  - intros w1 [Hd Hc] Hn Hr. is_red. wp_step. split; [done|]. right; left. split; [done|].
    fold now in Hn. rewrite Hn. by left.
  - intros v w1 [Hd Hc] Hg _ Hr. wp_step. split; [done|]. left. right. eexists _, _. split; [|done]. done.
  - intros v w1 [Hd Hc] Hg Hv. is_red. wp_step. split; [done|]. right; left. split; [done|].
    fold now in Hg. rewrite Hg. destruct Hv as [->| ->]; auto.
  - intros t v u w1 [Hd Hc] _ Hg Hv Hne _ Hrot. fold now in Hg. rewrite Hg, Hv. do 2 wp_step.
    apply wp_by_id.
    + intros e w2 Hd2 Hr2 Hc2 Hf. is_red. wp_step. split; [congruence|]. left. by apply passed_fault.
    + intros w2 Hd2 Hr2 Hc2 Hn. is_red. wp_step. split; [congruence|]. right; left. split; [done|].
      right; right. rewrite Hd in Hn. eauto.
    + intros x w2 Hd2 Hr2 Hc2 Hx Hid. rewrite Hd in Hx. cbn [snd] in Hid. subst u. cbn [ua_IsActive to_user_auth].
      destruct (usr_IsActive x) eqn:Hact; cbn [negb].
      * wp_step. apply wp_accessTokenForUser.
        -- unfold policy_ready. by rewrite Hc2, Hc.
        -- by eapply users_ok_role.
        -- intros e w3 Hd3 _ _ Hf. split; [congruence|]. by left.
        -- intros tok w3 Hd3 Hr3 Hk Ha Ht. wp_step. split; [congruence|]. exists x, v.
           unfold policy_kept in *. rewrite Hc2, Hc in Hk. unfold rotated in *. by rewrite Hr3, Hr2.
      * wp_step. split; [congruence|]. right; right. split; [done|]. by exists x.
Qed.

(** C33: a rotation gives new tokens exactly for a live session of an active
    account: an access token of that account, and a new session that takes the
    place of the old one.  Without such a session or account it says so, and no
    table changes in any case. *)
Theorem Refresh_correct s old w :
  users_ok (w_db w) → policy_ready w → wp (Refresh s old) (rotation s old w) w.
Proof. apply wp_Refresh. Qed.

(** * Sessions *)

Lemma policy_kept_ready u w w' : policy_kept u w w' → policy_ready w'.
Proof. by intros (? & ? & _). Qed.

Lemma user_id_pos u d : db_wf d → u ∈ t_users d → usr_ID u ≠ 0.
Proof.
  intros Hwf Hu. destruct (tk_id _ _ (Hwf users) eq_refl) as [_ Hid]. specialize (Hid u Hu). cbn in Hid. lia.
Qed.

(** The refresh token of a login opens a session of the account that logged
    in: exchanging it gives an access token of that account, unless its time to
    live has passed by then or a service fails. *)
Theorem login_then_refresh s req u w :
  let ttl := jm_RefreshTTL (as_jwtManager s) in
  db_wf (w_db w) → users_ok (w_db w) → policy_ready w → (0 < Milliseconds ttl)%Z → usr_ID u < 2 ^ 64 →
  credentials_of req u (w_db w) → usr_IsActive u = true →
  wp (r ← Login s req; Refresh s r.1.2) (λ r w',
    match r with
    | Ok (tok, _) => user_token s u tok
    | Err e => passed_on e ∨ e = ErrInvalidRefreshToken ∧
        ∃ n t, expiry (now_at n) ttl = Some t ∧ (t <= now_at (S (S n)))%Z
    | Panic => False
    end) w.
Proof.
  intros ttl Hwf Hus Hp Hms Hmax Hcr Hact. wp_step. apply wp_Login; [done..| | | |].
  - intros e w1 _ Hf _. by left.
  - intros w1 _ _ _ Hn. destruct (Hn u Hcr).
  - intros v w1 _ _ _ (Hv & Hn & _) Hd. rewrite (credentials_unique req u v (w_db w)) in Hd by done. congruence.
  - intros v tok t n w1 Hd Hk Hcv _ _ Hs Hr. assert (v = u) as ->.
    { destruct Hcv as (Hv & Hn & _). by apply (credentials_unique req u v (w_db w)). }
    cbn [fst snd]. pose proof (wp_Refresh s t w1) as Href. unfold rotation in Href. cbv zeta in Href.
    rewrite Hd in Href. specialize (Href Hus (policy_kept_ready _ _ _ Hk)).
    assert (Hget : rget (now_at (S (w_step w1))) (refreshTokenKey t) (w_redis w1) =
      if live (now_at (S (w_step w1))) (FormatUint (usr_ID u), expiry (now_at n) ttl)
      then Some (FormatUint (usr_ID u)) else None) by by rewrite Hr, rget_insert_eq.
    revert Href. apply wp_mono. intros [[tok' new]|e|] w2 [_ Hx]; [| |done].
    + destruct Hx as (x & y & Hg & Hu & Hin & _ & Htok & _).
      rewrite Hget in Hg. destruct (live _ _); [|done]. injection Hg as <-.
      unfold token_user in Hu. rewrite ParseUint_FormatUint in Hu by done. injection Hu as Hid.
      replace u with x; [done|]. apply (pk_inj users (w_db w)); [done|done|apply Hcr|]. cbn. congruence.
    + destruct (live (now_at (S (w_step w1))) (FormatUint (usr_ID u), expiry (now_at n) ttl)) eqn:Hlive.
      * destruct Hx as [Hf|[[-> Hbad]|[-> (x & Hx & Hin & Hdis)]]]; [by left|..].
        all: unfold session_of in *; rewrite Hget in *; unfold token_user in *;
          rewrite ParseUint_FormatUint in * by done.
        -- exfalso. destruct Hbad as [|[[= Hz]|(id & [= <-] & Hno)]]; [done|..].
           ++ by apply (user_id_pos u (w_db w)) in Hz; [|done|apply Hcr].
           ++ specialize (Hno u ltac:(apply Hcr)). unfold by_id in Hno. by rewrite N.eqb_refl in Hno.
        -- exfalso. injection Hx as Hid. assert (x = u) as ->; [|congruence].
           apply (pk_inj users (w_db w)); [done|done|apply Hcr|]. cbn. congruence.
      * destruct Hx as [Hf|[[-> _]|[-> (x & Hx & _)]]]; [by left| |].
        -- right. split; [done|]. unfold live in Hlive. cbn [snd] in Hlive.
           destruct (expiry (now_at n) ttl) as [t'|] eqn:He; [|done]. apply Z.ltb_ge in Hlive.
           rewrite Hs in Hlive. by exists n, t'.
        -- unfold session_of in Hx. by rewrite Hget in Hx.
Qed.

(** C36: after a logout the refresh token opens no session any more. *)
Theorem logout_revokes s tok w :
  wp (_ ← Logout tok; Refresh s tok) (λ r w', w_db w' = w_db w ∧
    ∃ e, r = Err e ∧ (passed_on e ∨ e = ErrInvalidRefreshToken)) w.
Proof.
  wp_step. unfold Logout. apply wp_DeleteRefreshToken.
  - intros e w1 [Hd _] Hf _. split; [done|]. exists e. split; [done|]. left. by apply passed_wrapped.
  - intros w1 [Hd1 _] Hr. unfold Refresh.
    assert (Hno : rget (now_at (S (w_step w1))) (refreshTokenKey tok) (w_redis w1) = None)
      by by rewrite Hr, rget_delete_eq.
    do 2 wp_step. apply wp_RotateRefreshToken; rewrite Hno; try done.
    + intros e w2 [Hd2 _] Hf _. rewrite wrapped_fault_Is by done. wp_step. split; [congruence|].
      exists e. split; [done|]. left. by apply passed_wrapped.
    + intros w2 [Hd2 _] _ _. is_red. wp_step. split; [congruence|]. eauto.
Qed.

(** * The handlers *)

(** A login is answered with the access token in the body and the refresh token
    in a cookie of the auth routes, or with neither. *)
Definition login_answer (s : AuthService) (secure : bool) (body : option LoginRequest) (w w' : world)
    (a : auth_answer) : Prop :=
  match reply_data a with
  | Some data => ∃ req u tok t, body = Some req ∧ credentials_of req u (w_db w) ∧ usr_IsActive u = true ∧
      user_token s u tok ∧ data = PLogin tok ∧ reply_status a = 200%Z ∧
      rp_cookies a = [setRefreshCookie s secure t] ∧
      session_stored (usr_ID u) (jm_RefreshTTL (as_jwtManager s)) t (w_redis w) (w_redis w')
  | None => rp_cookies a = [] ∧ reply_status a ∈ [400; 401; 403; 500]%Z ∧
      (reply_status a = 401%Z → ∃ req, body = Some req ∧ ∀ u, ¬ credentials_of req u (w_db w)) ∧
      (reply_status a = 403%Z → ∃ req u, body = Some req ∧ credentials_of req u (w_db w) ∧ usr_IsActive u = false)
  end.

(** A rotation that is refused for good also takes the cookie back. *)
Definition refresh_answer (s : AuthService) (secure : bool) (body : option string) (w w' : world)
    (a : auth_answer) : Prop :=
  match reply_data a with
  | Some data => ∃ old tok new, body = Some old ∧ data = PAccessToken tok ∧ reply_status a = 200%Z ∧
      rp_cookies a = [setRefreshCookie s secure new] ∧ rotation s old w (Ok (tok, new)) w'
  | None => reply_status a ∈ [401; 403; 500]%Z ∧
      (rp_cookies a = [] ∧ (reply_status a = 401%Z → body = None ∨ body = Some ""%string) ∨
       rp_cookies a = [clearRefreshCookie secure] ∧ reply_status a ≠ 500%Z)
  end.

(** The login handler answers 200 with both tokens exactly for an active
    account, 401 only without one and 403 only for a disabled one; the refresh
    handler hands out the new tokens of a rotation, or takes the cookie back
    when the session is no longer good; none of them changes a table or
    panics. *)
Theorem auth_handlers_correct s secure body cookie w :
  db_wf (w_db w) → users_ok (w_db w) → policy_ready w →
  wp (Login_handler s secure body)
    (λ r w', w_db w' = w_db w ∧ ∃ a, r = Ok a ∧ login_answer s secure body w w' a) w ∧
  wp (Refresh_handler s secure cookie)
    (λ r w', w_db w' = w_db w ∧ ∃ a, r = Ok a ∧ refresh_answer s secure cookie w w' a) w.
Proof.
  intros Hwf Hus Hp. split.
  - unfold Login_handler. destruct body as [req|]; [|wp_step; split; [done|]; eexists; split; [done|];
      split; [done|]; split; [by_decide|done]].
    apply wp_handle, wp_Login; [done..| | | |].
    + intros e w' Hd Hf _. rewrite (passed_on_Is e) by done. split; [done|]. eexists. split; [done|].
      split; [done|]. split; [by_decide|done].
    + intros w' Hd _ _ Hn. split; [done|]. eexists. split; [done|]. split; [done|]. split; [by_decide|].
      split; [|done]. intros _. by exists req.
    + intros u w' Hd _ _ Hcr Ha. split; [done|]. eexists. split; [done|]. split; [done|]. split; [by_decide|].
      split; [done|]. intros _. by exists req, u.
    + intros u tok t n w' Hd _ Hcr Ha Ht _ Hr. split; [done|]. eexists. split; [done|].
      exists req, u, tok, t. repeat (split; [done|]). by exists n.
  - unfold Refresh_handler. destruct cookie as [[|a old]|].
    1,3: wp_step; split; [done|]; eexists; split; [done|]; split; [by_decide|]; left; auto.
    apply wp_handle. pose proof (wp_Refresh s (String a old) w Hus Hp) as Hr. revert Hr. apply wp_mono.
    intros [[tok new]|e|] w' Hr; [| |by destruct Hr].
    + split; [apply Hr|]. eexists. split; [done|]. by exists (String a old), tok, new.
    + destruct Hr as [Hd Hr]. split; [done|]. eexists. split; [done|].
      destruct Hr as [Hf|[[-> _]|[-> _]]].
      * rewrite !(passed_on_Is e) by done. split; [by_decide|]. by left.
      * split; [by_decide|]. by right.
      * split; [by_decide|]. by right.
Qed.
End spec.

(** * The module at work: alice and bob are active, carol is not *)

Definition sample_service : AuthService := Build_AuthService sample_jwt "$2a$dummy".
Definition alice_login : LoginRequest := Build_LoginRequest " alice " "alice-password".
Definition alice_session : world := (Login sample_service alice_login users_world).2.
Definition alice_token : string :=
  match (Login sample_service alice_login users_world).1 with Ok (_, t, _) => t | _ => "" end.

Definition alice : User := Build_User 1 "alice" "$2a$alice-password" "user" true 0 0.

Lemma alice_credentials : credentials_of alice_login alice (w_db users_world).
Proof. split; [|split]; vm_compute; [left|..]; reflexivity. Qed.

Lemma auth_Login_correct_witness :
  ∃ u tok t, (Login sample_service alice_login users_world).1 = Ok (tok, t, true) ∧
    credentials_of alice_login u (w_db users_world) ∧ user_token sample_service u tok.
Proof.
  pose proof (auth_Login_correct sample_service alice_login users_world users_world_wf users_world_ok
    users_world_ready) as Hwp.
  destruct (wp_Ok _ _ _ Hwp ltac:(vm_compute; reflexivity)) as ([[tok t] []] & Ha & _ & Hr).
  - destruct Hr as (u & Hc & _ & Ht & _). exists u, tok, t. split; [exact Ha|]. split; [exact Hc|exact Ht].
  - destruct Hr as (_ & _ & _ & _ & Hn). destruct (Hn alice alice_credentials).
Defined.

Definition dave : RegisterRequest := Build_RegisterRequest "dave" "dave-password" "dave-password" "abcd" true.

Lemma Register_correct_witness :
  ∃ u, (Register dave users_world).1 = Ok u ∧
    registered dave u (w_db users_world) (w_db (Register dave users_world).2).
Proof.
  pose proof (Register_correct dave users_world users_world_wf users_world_ready) as Hwp.
  destruct (wp_Ok _ _ _ Hwp ltac:(vm_compute; reflexivity)) as (u & Ha & _ & _ & Hr & _).
  exists u. split; [exact Ha|exact Hr].
Defined.

Lemma alice_session_ok :
  users_ok (w_db alice_session) ∧ policy_ready alice_session.
Proof.
  assert (Hwp : wp (Login sample_service alice_login)
                  (λ _ w', w_db w' = w_db users_world ∧ policy_ready w') users_world).
  { apply wp_Login; [exact users_world_wf|exact users_world_ok|exact users_world_ready|..].
    - intros e w' Hd _ (u & Hk & _). split; [done|]. by eapply policy_kept_ready.
    - intros w' Hd _ Hc _. split; [done|]. unfold policy_ready. rewrite Hc. apply users_world_ready.
    - intros u w' Hd _ Hc _ _. split; [done|]. unfold policy_ready. rewrite Hc. apply users_world_ready.
    - intros u tok t n w' Hd Hk _ _ _ _ _. split; [done|]. by eapply policy_kept_ready. }
  destruct Hwp as [Hd Hp]. split; [|exact Hp].
  unfold alice_session. rewrite Hd. exact users_world_ok.
Qed.

Lemma Refresh_correct_witness :
  ∃ tok new u, (Refresh sample_service alice_token alice_session).1 = Ok (tok, new) ∧
    user_token sample_service u tok.
Proof.
  pose proof (Refresh_correct sample_service alice_token alice_session (proj1 alice_session_ok)
    (proj2 alice_session_ok)) as Hwp.
  destruct (wp_Ok _ _ _ Hwp ltac:(vm_compute; reflexivity)) as ([tok new] & Ha & _ & u & v & _ & _ & _ & _ & Ht & _).
  exists tok, new, u. split; [exact Ha|exact Ht].
Defined.

Lemma login_then_refresh_witness :
  ∃ tok t, ((r ← Login sample_service alice_login; Refresh sample_service r.1.2) users_world).1 = Ok (tok, t) ∧
    user_token sample_service alice tok.
Proof.
  pose proof (login_then_refresh sample_service alice_login alice users_world users_world_wf users_world_ok
    users_world_ready ltac:(vm_compute; reflexivity) ltac:(vm_compute; reflexivity) alice_credentials
    ltac:(vm_compute; reflexivity)) as Hwp.
  destruct (wp_Ok _ _ _ Hwp ltac:(vm_compute; reflexivity)) as ([tok t] & Ha & Ht).
  exists tok, t. split; [exact Ha|exact Ht].
Defined.

Lemma logout_revokes_witness :
  ∃ e, ((r ← Login sample_service alice_login; _ ← Logout r.1.2; Refresh sample_service r.1.2) users_world).1 = Err e ∧
    (passed_on e ∨ e = ErrInvalidRefreshToken).
Proof.
  assert (Hok : match (Login sample_service alice_login users_world).1 with Ok _ => true | _ => false end = true)
    by (vm_compute; reflexivity).
  destruct (Login sample_service alice_login users_world) as [[r|e|] w] eqn:Hl; [|discriminate Hok..].
  destruct (logout_revokes sample_service r.1.2 w) as (_ & e & He & Hp).
  exists e. split; [|exact Hp]. rewrite <- He. unfold mbind at 1, M_bind at 1. rewrite Hl. reflexivity.
Defined.

Lemma auth_handlers_correct_witness :
  ∃ a tok, (Login_handler sample_service true (Some alice_login) users_world).1 = Ok a ∧
    reply_data a = Some (PLogin tok) ∧ user_token sample_service alice tok.
Proof.
  destruct (auth_handlers_correct sample_service true (Some alice_login) None users_world users_world_wf
    users_world_ok users_world_ready) as [(_ & a & Ha & Hr) _].
  assert (Hd : match (Login_handler sample_service true (Some alice_login) users_world).1 with
               | Ok a => is_Some (reply_data a) | _ => True end) by (vm_compute; eexists; reflexivity).
  rewrite Ha in Hd. destruct Hd as [data Hdata]. unfold login_answer in Hr. rewrite Hdata in Hr.
  destruct Hr as (req & u & tok & t & [= <-] & Hcr & _ & Ht & Hpl & _). exists a, tok.
  split; [exact Ha|]. split; [rewrite <- Hpl; exact Hdata|].
  replace alice with u; [exact Ht|]. apply (credentials_unique alice_login alice u (w_db users_world));
    [exact users_world_wf|exact alice_credentials|exact (proj1 Hcr)|exact (proj1 (proj2 Hcr))].
Defined.
