(* ===== verification/Route.v ===== *)
(** modules/chat/route: the registry that says where the requests for a model
    go, by the kind of credential and the protocol of the client.  The registry
    is filled by init and only read afterwards; what it hands out are copies. *)

From S2P Require Import Prelude.
From S2P Require Import Directory.

From stdpp Require Import countable.

Local Open Scope list_scope.

(** The protocols of translator.go. *)
Inductive Format :=
  | FormatOpenAI | FormatOpenAIResponse | FormatClaude | FormatGemini | FormatCodex | FormatAntigravity.

#[export] Instance Format_eq_dec : EqDecision Format.
Proof. solve_decision. Defined.

Definition format_code (f : Format) : nat :=
  match f with
  | FormatOpenAI => 0 | FormatOpenAIResponse => 1 | FormatClaude => 2
  | FormatGemini => 3 | FormatCodex => 4 | FormatAntigravity => 5
  end.

Definition format_of_code (n : nat) : option Format :=
  [FormatOpenAI; FormatOpenAIResponse; FormatClaude; FormatGemini; FormatCodex; FormatAntigravity] !! n.

#[export] Program Instance Format_countable : Countable Format :=
  inj_countable format_code format_of_code _.
Next Obligation. by intros []. Qed.

Abbreviation AuthMode := string (only parsing).
Definition AuthModeAccessToken : AuthMode := "access_token".
Definition AuthModeAPIKey : AuthMode := "api_key".

Record Route := {
  rt_UpstreamFormat : Format; rt_Endpoint : string; rt_ForceStream : bool;
  rt_AuthHeader : string; rt_AuthPrefix : string; rt_Headers : gmap string string
}.

Abbreviation Registry := (gmap string (gmap string (gmap Format Route))).

Definition ErrUnsupported : gerror := Sentinel "errors.ErrUnsupported" "unsupported operation".

(** A missing inner map is nil: it reads as empty and is made before writing. *)
Definition register (r : Registry) (model : string) (mode : AuthMode) (clientFormat : Format)
    (route : Route) : Registry :=
  let by_mode := default ∅ (r !! model) in
  let by_format := default ∅ (by_mode !! mode) in
  <[model := <[mode := <[clientFormat := route]> by_format]> by_mode]> r.

Definition getRoute (r : Registry) (model : string) (mode : AuthMode) (clientFormat : Format) : res Route :=
  match default ∅ (default ∅ (r !! model) !! mode) !! clientFormat with
  | Some route => Ok route
  | None => Err ErrUnsupported
  end.

(** * init.go *)

Definition codex_models : list string :=
  ["gpt-6-astra"; "gpt-5.6-sol"; "gpt-5.6-terra"; "gpt-5.6-luna"; "gpt-5.5";
   "gpt-5.3-codex-spark"]%string.

Definition client_formats : list Format := [FormatClaude; FormatOpenAIResponse; FormatOpenAI].

Definition codex_route : Route :=
  Build_Route FormatCodex "https://chatgpt.com/backend-api/codex/responses" true
    "Authorization" "Bearer " ∅.

(** The default registry once the package is initialised. *)
Definition init_registry : Registry :=
  fold_left (λ r model,
    fold_left (λ r clientFormat, register r model AuthModeAccessToken clientFormat codex_route)
      client_formats r) codex_models ∅.

(** The package functions work on the default registry, whose state is given. *)
Definition GetRoute (defaultRegistry : Registry) (model : string) (mode : AuthMode) (clientFormat : Format) : res Route :=
  getRoute defaultRegistry model mode clientFormat.

(** * Lemmas *)

Lemma getRoute_register r model mode f route model' mode' f' :
  getRoute (register r model mode f route) model' mode' f' =
    if bool_decide (model' = model ∧ mode' = mode ∧ f' = f) then Ok route else getRoute r model' mode' f'.
Proof.
  unfold getRoute, register. destruct (decide (model' = model)) as [->|Hm].
  2:{ rewrite lookup_insert_ne by done. by rewrite bool_decide_eq_false_2 by naive_solver. }
  rewrite lookup_insert_eq. cbn [from_option id]. destruct (decide (mode' = mode)) as [->|Ha].
  2:{ rewrite lookup_insert_ne by done. by rewrite bool_decide_eq_false_2 by naive_solver. }
  rewrite lookup_insert_eq. cbn [from_option id]. destruct (decide (f' = f)) as [->|Hf].
  2:{ rewrite lookup_insert_ne by done. by rewrite bool_decide_eq_false_2 by naive_solver. }
  by rewrite lookup_insert_eq, bool_decide_eq_true_2.
Qed.

Lemma getRoute_formats fs r model model' mode f :
  getRoute (fold_left (λ r f, register r model AuthModeAccessToken f codex_route) fs r) model' mode f =
    if bool_decide (model' = model ∧ mode = AuthModeAccessToken ∧ f ∈ fs)
    then Ok codex_route else getRoute r model' mode f.
Proof.
  revert r. induction fs as [|g fs IH]; intros r; cbn [fold_left].
  - by rewrite bool_decide_eq_false_2 by set_solver.
  - rewrite IH, getRoute_register. repeat case_bool_decide; set_solver.
Qed.

Lemma getRoute_models ms r model mode f :
  getRoute (fold_left (λ r m, fold_left (λ r f, register r m AuthModeAccessToken f codex_route)
              client_formats r) ms r) model mode f =
    if bool_decide (model ∈ ms ∧ mode = AuthModeAccessToken ∧ f ∈ client_formats)
    then Ok codex_route else getRoute r model mode f.
Proof.
  revert r. induction ms as [|m ms IH]; intros r; cbn [fold_left].
  - by rewrite bool_decide_eq_false_2 by set_solver.
  - rewrite IH, getRoute_formats. repeat case_bool_decide; set_solver.
Qed.

(** After init there is one route for every model and client protocol. *)
Lemma GetRoute_init model mode f :
  GetRoute init_registry model mode f =
    if bool_decide (model ∈ codex_models ∧ mode = AuthModeAccessToken ∧ f ∈ client_formats)
    then Ok codex_route else Err ErrUnsupported.
Proof. apply getRoute_models. Qed.
