(* ===== verification/Translator.v ===== *)
(** modules/translator: the conversion of requests and answers between the
    protocols of the clients and of the upstreams.  The converters themselves
    belong to a third-party SDK and are a parameter; the module chooses when to
    call them and turns a Claude message into the event stream one of them
    expects. *)

From S2P Require Import Prelude.
From S2P Require Import GoStrings.
From S2P Require Import Json.
From S2P Require Import Route.

Local Open Scope list_scope.

(** The SDK: the stream converter keeps a state between the pieces of one
    stream, nil at the start. *)
Class Sdk := {
  sdk_state : Type;
  sdk_nil : sdk_state;
  sdk_TranslateRequest : Format → Format → string → string → bool → string;
  sdk_TranslateStream : Format → Format → string → string → string → string → sdk_state →
    list string * sdk_state;
  sdk_TranslateNonStream : Format → Format → string → string → string → string → sdk_state →
    string * sdk_state
}.

(** * claudeMessageEvents *)

(** A member that may be missing: nil then. *)
Definition member (k : string) (m : raw_map) : raw_message := default ""%string (m !! k).

(** [json.Marshal] of a raw message taken from a decoded text, which is valid. *)
Definition raw_text (raw : raw_message) : string := default ""%string (marshal_raw raw).

(** [json.Marshal] of a [map[string]any] given by its members. *)
Definition map_text (ms : list (string * string)) : string := object_text (sort_by key_le ms).

Definition data_event (data : string) : string := "data: " +:+ data +:+ String (chr 10) (String (chr 10) "").

(** [[]map[string]json.RawMessage]: every element an object or null. *)
Definition unmarshal_maps (s : string) : option (list raw_map) :=
  '(_, v) ← parse s;
  match v with
  | JNull => Some []
  | JArray es => mapM (λ e, default ∅ <$> decode_map e.2 None) es
  | _ => None
  end.

Definition block_kind (block : raw_map) : string :=
  match parse (member "type" block) with
  | Some (_, v) => default ""%string (decode_string v "")
  | None => ""
  end%string.

Definition block_delta (kind : string) (block : raw_map) : option string :=
  if String.eqb kind "text" then
    Some (map_text [("type", marshal_string "text_delta"); ("text", raw_text (member "text" block))])
  else if String.eqb kind "thinking" then
    Some (map_text [("type", marshal_string "thinking_delta"); ("thinking", raw_text (member "thinking" block))])
  else if String.eqb kind "tool_use" then
    Some (map_text [("type", marshal_string "input_json_delta");
                    ("partial_json", marshal_string (member "input" block))])
  else None.

Definition block_start (kind : string) (block : raw_map) : string :=
  map_text (("type", marshal_string kind)
    :: (if String.eqb kind "text" then [("text", marshal_string "")] else [])
    ++ (if String.eqb kind "thinking" then [("thinking", marshal_string "")] else [])
    ++ (if String.eqb kind "tool_use"
        then [("id", raw_text (member "id" block)); ("name", raw_text (member "name" block));
              ("input", map_text [])] else []))%string.

Definition block_events (index : N) (block : raw_map) : option (list string) :=
  let kind := block_kind block in
  delta ← block_delta kind block;
  Some [map_text [("type", marshal_string "content_block_start"); ("index", FormatUint index);
                  ("content_block", block_start kind block)];
        map_text [("type", marshal_string "content_block_delta"); ("index", FormatUint index); ("delta", delta)];
        map_text [("type", marshal_string "content_block_stop"); ("index", FormatUint index)]]%string.

Fixpoint blocks_events (index : N) (blocks : list raw_map) : option (list string) :=
  match blocks with
  | [] => Some []
  | block :: blocks =>
      evs ← block_events index block;
      rest ← blocks_events (index + 1)%N blocks;
      Some (evs ++ rest)
  end.

(** The events in order, without their framing; [None] is the nil result. *)
Definition claude_events (raw : string) : option (list string) :=
  m ← unmarshal_map raw;
  let message := default ∅ m in
  if negb (String.eqb (member "type" message) (js "'message'")) then None else
  blocks ← unmarshal_maps (member "content" message);
  let message := <["content" := "[]"]> message in
  evs ← blocks_events 0 blocks;
  Some (map_text [("type", marshal_string "message_start");
                  ("message", default ""%string (marshal_raw_map message))]
    :: evs ++
    [map_text [("type", marshal_string "message_delta");
               ("delta", map_text [("stop_reason", raw_text (member "stop_reason" message));
                                   ("stop_sequence", raw_text (member "stop_sequence" message))]);
               ("usage", raw_text (member "usage" message))];
     map_text [("type", marshal_string "message_stop")]])%string.

Definition claudeMessageEvents (raw : string) : string :=
  match claude_events raw with
  | Some evs => str_concat (data_event <$> evs)
  | None => ""
  end.

Section with_sdk.
Context `{Sdk}.

Definition TranslateRequest (from to : Format) (model raw : string) (stream : bool) : string :=
  if bool_decide (from = to) then raw else sdk_TranslateRequest from to model raw stream.

Definition TranslateStream (from to : Format) (model originalReq translatedReq raw : string)
    (state : sdk_state) : list string * sdk_state :=
  sdk_TranslateStream from to model originalReq translatedReq raw state.

(** The Claude answers of these two conversions are wrapped into events. *)
Definition wraps_message (from to : Format) (raw : string) : bool :=
  bool_decide (from = FormatClaude) && bool_decide (to ∈ [FormatOpenAI; FormatOpenAIResponse]) && Valid raw.

Definition TranslateNonStream (from to : Format) (model originalReq translatedReq raw : string) : string :=
  let convert raw := (sdk_TranslateNonStream from to model originalReq translatedReq raw sdk_nil).1 in
  if wraps_message from to raw then
    let raw := claudeMessageEvents raw in
    if String.eqb raw "" then ""%string else convert raw
  else convert raw.
End with_sdk.

Example claude_sample :
  claudeMessageEvents (js "{'type':'message','id':'m','content':[{'type':'text','text':'hi'},
    {'type':'tool_use','id':'t','name':'f','input':{'a': 1}}],'stop_reason':'end_turn','usage':{}}") =
  str_concat ((λ s, data_event (js s)) <$>
   ["{'message':{'content':[],'id':'m','stop_reason':'end_turn','type':'message','usage':{}},'type':'message_start'}";
    "{'content_block':{'text':'','type':'text'},'index':0,'type':'content_block_start'}";
    "{'delta':{'text':'hi','type':'text_delta'},'index':0,'type':'content_block_delta'}";
    "{'index':0,'type':'content_block_stop'}";
    "{'content_block':{'id':'t','input':{},'name':'f','type':'tool_use'},'index':1,'type':'content_block_start'}";
    "{'delta':{'partial_json':'{\'a\': 1}','type':'input_json_delta'},'index':1,'type':'content_block_delta'}";
    "{'index':1,'type':'content_block_stop'}";
    "{'delta':{'stop_reason':'end_turn','stop_sequence':null},'type':'message_delta','usage':{}}";
    "{'type':'message_stop'}"]%string).
Proof. vm_compute. reflexivity. Qed.
