(* ===== verification/Upstream.v ===== *)
(** internal/upstreamserver: the process that talks to the providers.  It
    exchanges and refreshes OAuth tokens, verifies ID tokens, runs the device
    login, and forwards chat requests with the credential of the moment.  Every
    RPC is a function of what the outside answers, numbered by step.  Follows
    server.go and chat.go. *)

From S2P Require Import Prelude.
From S2P Require Import GoStrings.
From S2P Require Import Schema.
From S2P Require Import Stores.
From S2P Require Import NetUrl.
From S2P Require Import Json.
From S2P Require Import Directory.
From S2P Require Import Oidc.
From S2P Require Import Translator.

Local Open Scope list_scope.
Local Open Scope Z_scope.

(** * Errors of the outside *)

(** What the errors met by unwrapping say of themselves to [errors.Is] and
    [errors.As]; an error that is several things at once is several links, as
    the expiry of a context, which is also a [net.Error]. *)
Inductive link :=
  | LCanceled
  | LDeadline
  | LUnexpectedEOF
  | LRetrieve (ErrorCode : string) (Response : option Z)
  | LHTTP (StatusCode : Z)
  | LNet (timeout : bool)
  | LStatus (c : code) (msg : string)
  | LOther.

#[export] Instance link_eq_dec : EqDecision link.
Proof. solve_decision. Defined.

(** The links from the outermost error inwards, and the text. *)
Record failure := { fl_chain : list link; fl_text : string }.

Definition failure_Is (f : failure) (l : link) : bool := bool_decide (l ∈ fl_chain f).

(** [errors.As]: the first link of a kind. *)
Definition failure_As {A} (kind : link → option A) (f : failure) : option A := head (omap kind (fl_chain f)).

Definition retrieve_error (l : link) : option (string * option Z) :=
  match l with LRetrieve c r => Some (c, r) | _ => None end.
Definition http_error (l : link) : option Z := match l with LHTTP c => Some c | _ => None end.
Definition net_error (l : link) : option bool := match l with LNet t => Some t | _ => None end.
Definition status_link (l : link) : option (code * string) :=
  match l with LStatus c m => Some (c, m) | _ => None end.

(** Why a context ended, and [status.FromContextError]. *)
Inductive ctx_end := CtxCanceled | CtxDeadline.
Definition ctx_code (e : ctx_end) : code :=
  match e with CtxCanceled => Canceled | CtxDeadline => DeadlineExceeded end.
Definition ctx_status (e : ctx_end) : gerror :=
  match e with
  | CtxCanceled => StatusError Canceled "context canceled"
  | CtxDeadline => StatusError DeadlineExceeded "context deadline exceeded"
  end.

(** * Data *)

Record server := { sv_oidcAuth : gmap string (option OIDCAuth); sv_timeout : time }.

Record ExchangeCodeRequest := {
  er_Code : string; er_CodeVerifier : string; er_Provider : string; er_FlowType : string
}.
Record RefreshTokenRequest := { rr_RefreshToken : string; rr_Provider : string }.
Record VerifyRequest := { vq_Rawidtoken : string; vq_Provider : string }.
Record PollDeviceFlowRequest := {
  pq_Provider : string; pq_DeviceAuthId : string; pq_UserCode : string; pq_IntervalSeconds : N
}.

(** go-oidc's verified token; [Claims] decodes its payload. *)
Record IDToken := {
  it_Issuer : string; it_Subject : string; it_Audience : list string; it_Nonce : string;
  it_Expiry : time; it_IssuedAt : time; it_claims : string
}.

(** A request as it is handed to the HTTP client: every header was set, so it
    has one value and a canonical name. *)
Record http_request := { rq_URL : string; rq_Header : gmap string string; rq_Body : string }.

(** A response: the bytes of the body, then its end or an error; [re_joined] when
    the last bytes come in one read with that. *)
Record http_response := {
  re_StatusCode : Z; re_Body : string; re_Err : option failure; re_joined : bool
}.

(** Everything outside: the context of the RPC and the clock, the third-party
    clients, Go's iteration over maps, the sending side of a stream. *)
Class Outside := {
  out_now : nat → time;
  ctx_Err : nat → option ctx_end;
  oauth2_Exchange : nat → OAuthConfig → string → string → Token + failure;
  oauth2_Refresh : nat → OAuthConfig → string → Token + failure;
  oidc_Verify : nat → IDTokenVerifier → string → option IDToken + failure;
  http_Do : nat → option time → http_request → http_response + failure;
  wait : nat → time → time → option ctx_end;
  range : ∀ {A}, nat → gmap string A → list (string * A);
  stream_Send : nat → string → option failure
}.

(** A request made when its deadline is over gets no answer, a timer that fires
    took its time, the clock does not run backwards, and an iteration meets
    every entry once. *)
Class OutsideLaws `{Outside} : Prop := {
  out_now_mono n : out_now n ≤ out_now (S n);
  http_Do_late n d req : d ≤ out_now n → ∃ f, http_Do n (Some d) req = inr f;
  wait_fires n i d : wait n i d = None → out_now n + i ≤ out_now (S n);
  range_perm A n (m : gmap string A) : range n m ≡ₚ map_to_list m
}.

(** * server.go: errors *)

Definition exchangeErrorCode (ctx : option ctx_end) (err : failure) : code :=
  match ctx with
  | Some e => ctx_code e
  | None =>
      if failure_Is err LDeadline then DeadlineExceeded
      else if failure_Is err LCanceled then Canceled
      else match failure_As retrieve_error err with
           | Some (c, response) =>
               if String.eqb c "invalid_grant" then Unauthenticated
               else match response with
                    | Some s => if (s =? 429) || (500 <=? s) then Unavailable else Internal
                    | None => Internal
                    end
           | None => match failure_As net_error err with Some _ => Unavailable | None => Internal end
           end
  end.

Definition deviceHTTPError (httpStatus : Z) : gerror :=
  let c := if (httpStatus =? 403) || (httpStatus =? 404) then FailedPrecondition
           else if (httpStatus =? 400) || (httpStatus =? 401) then Unauthenticated
           else if (httpStatus =? 429) || (500 <=? httpStatus) then Unavailable
           else Internal in
  StatusError c "device authorization rejected".

Definition chatStreamErrorCode (err : failure) : code :=
  if failure_Is err LCanceled then Canceled
  else if failure_Is err LDeadline then DeadlineExceeded
  else match failure_As http_error err with
  | Some s =>
      if (s =? 400) || (s =? 422) then InvalidArgument
      else if s =? 401 then Unauthenticated
      else if s =? 403 then PermissionDenied
      else if s =? 404 then NotFound
      else if s =? 429 then ResourceExhausted
      else if (s =? 408) || (s =? 504) then DeadlineExceeded
      else if 500 <=? s then Unavailable
      else Internal
  | None =>
      match failure_As net_error err with
      | Some timeout => if timeout : bool then DeadlineExceeded else Unavailable
      | None => if failure_Is err LUnexpectedEOF then Unavailable else Internal
      end
  end.

(** * server.go: tokens *)

(** [timestamppb.New]. *)
Definition timestamp (t : time) : Timestamp := Build_Timestamp (t / second) (t mod second).

Definition tokenResponse (token : Token) : TokenResponse :=
  Build_TokenResponse (tok_AccessToken token) (tok_RefreshToken token) (tok_TokenType token)
    (if IsZero (tok_Expiry token) then None else Some (timestamp (tok_Expiry token)))
    (match tok_IDToken token with ExtraString s => s | _ => ""%string end).

Definition with_redirect (url : string) (c : OAuthConfig) : OAuthConfig :=
  Build_OAuthConfig (oc_ClientID c) (oc_ClientSecret c) url (oc_AuthURL c) (oc_TokenURL c) (oc_DeviceAuthURL c)
    (oc_AuthStyle c) (oc_Scopes c).

(** The configuration of a provider, nil when any pointer on the way is. *)
Definition auth_of (s : server) (provider : string) : option OIDCAuth := mjoin (sv_oidcAuth s !! provider).
Definition config_of (s : server) (provider : string) : option OAuthConfig :=
  auth ← auth_of s provider; oa_OauthConfig auth.

(** The configuration an exchange uses: the device flow has a redirect URL of
    its own, and only one provider. *)
Definition flow_config (cfg : OAuthConfig) (provider flowType : string) : OAuthConfig + gerror :=
  if String.eqb flowType "" || String.eqb flowType "browser" then inl cfg
  else if String.eqb flowType "device" then
    if String.eqb provider "oai" then inl (with_redirect "https://auth.openai.com/deviceauth/callback" cfg)
    else inr (StatusError InvalidArgument "unsupported device provider")
  else inr (StatusError InvalidArgument "invalid flow type").

Section server.
Context `{Outside} `{UrlParser}.
Implicit Types s : server.

Definition ExchangeCode s (n : nat) (request : option ExchangeCodeRequest) : TokenResponse + gerror :=
  match request with
  | None => inr (StatusError InvalidArgument "code, code_verifier and provider are required")
  | Some r =>
      if blank (er_Code r) || blank (er_CodeVerifier r) || String.eqb (er_Provider r) ""
      then inr (StatusError InvalidArgument "code, code_verifier and provider are required")
      else match config_of s (er_Provider r) with
      | None => inr (StatusError FailedPrecondition "provider is not configured")
      | Some cfg =>
          match flow_config cfg (er_Provider r) (er_FlowType r) with
          | inr e => inr e
          | inl cfg =>
              match oauth2_Exchange n cfg (er_Code r) (er_CodeVerifier r) with
              | inr err => inr (StatusError (exchangeErrorCode (ctx_Err (S n)) err) "token exchange failed")
              | inl token => inl (tokenResponse token)
              end
          end
      end
  end.

Definition RefreshToken s (n : nat) (request : option RefreshTokenRequest) : TokenResponse + gerror :=
  match request with
  | None => inr (StatusError InvalidArgument "refresh_token and provider are required")
  | Some r =>
      if blank (rr_RefreshToken r) || blank (rr_Provider r)
      then inr (StatusError InvalidArgument "refresh_token and provider are required")
      else match config_of s (rr_Provider r) with
      | None => inr (StatusError FailedPrecondition "provider is not configured")
      | Some cfg =>
          match oauth2_Refresh n cfg (rr_RefreshToken r) with
          | inr err => inr (StatusError (exchangeErrorCode (ctx_Err (S n)) err) "token refresh failed")
          | inl token => inl (tokenResponse token)
          end
      end
  end.

(** * server.go: providers and ID tokens *)

(** The members of the discovery document the code reads. *)
Record metadata := { md_Issuer : string; md_JWKSURL : string; md_Algorithms : list string }.

Definition metadata_field (key : string) (_ : raw_message) (v : json) (m : metadata) : option metadata :=
  if for_field "issuer" key then
    i ← decode_string v (md_Issuer m); Some (Build_metadata i (md_JWKSURL m) (md_Algorithms m))
  else if for_field "jwks_uri" key then
    j ← decode_string v (md_JWKSURL m); Some (Build_metadata (md_Issuer m) j (md_Algorithms m))
  else if for_field "id_token_signing_alg_values_supported" key then
    a ← decode_strings v; Some (Build_metadata (md_Issuer m) (md_JWKSURL m) a)
  else Some m.

(** [None] is an error of either decoding. *)
Definition toProviderResponse (provider : Provider) : option ProviderResponse :=
  md ← unmarshal_struct metadata_field (pv_rawClaims provider) (Build_metadata "" "" []);
  rawClaims ← raw_claims (pv_rawClaims provider);
  let endpoint := pv_Endpoint provider in
  Some (Build_ProviderResponse (md_Issuer md) (ep_AuthURL endpoint) (ep_TokenURL endpoint)
          (ep_DeviceAuthURL endpoint) (pv_UserInfoEndpoint provider) (md_JWKSURL md) (md_Algorithms md) rawClaims).

(** The loop over the providers, in the order met. *)
Fixpoint find_provider (auths : list (string * option OIDCAuth)) (issuer : string) : ProviderResponse + gerror :=
  match auths with
  | [] => inr (StatusError FailedPrecondition "issuer is not configured")
  | (_, auth) :: auths =>
      match auth ≫= oa_Provider with
      | None => find_provider auths issuer
      | Some provider =>
          match toProviderResponse provider with
          | None => inr (StatusError Internal "invalid provider metadata")
          | Some response =>
              if String.eqb (pr_Issuer response) issuer then inl response else find_provider auths issuer
          end
      end
  end.

Definition GetProvider s (n : nat) (request : option string) : ProviderResponse + gerror :=
  match request with
  | None => inr (StatusError InvalidArgument "issuer is required")
  | Some issuer =>
      if blank issuer then inr (StatusError InvalidArgument "issuer is required")
      else match ctx_Err n with
      | Some e => inr (ctx_status e)
      | None => find_provider (range (S n) (sv_oidcAuth s)) issuer
      end
  end.

(** A time that is set, as a valid timestamp. *)
Definition optional_timestamp (t : time) : option (option Timestamp) :=
  if IsZero t then Some None
  else if CheckValid (timestamp t) then Some (Some (timestamp t)) else None.

Definition toVerifyResponse (token : option IDToken) : option VerifyResponse :=
  token ← token;
  claims ← raw_claims (it_claims token);
  expiresAt ← optional_timestamp (it_Expiry token);
  issuedAt ← optional_timestamp (it_IssuedAt token);
  Some (Build_VerifyResponse (it_Issuer token) (it_Subject token) (it_Audience token) (it_Nonce token) claims
          expiresAt issuedAt).

Definition Verifier s (n : nat) (request : option VerifyRequest) : VerifyResponse + gerror :=
  match request with
  | None => inr (StatusError InvalidArgument "rawidtoken and provider are required")
  | Some r =>
      if blank (vq_Provider r) || blank (vq_Rawidtoken r)
      then inr (StatusError InvalidArgument "rawidtoken and provider are required")
      else match auth_of s (vq_Provider r) ≫= oa_Verifier with
      | None => inr (StatusError FailedPrecondition "provider is not configured")
      | Some verifier =>
          match ctx_Err n with
          | Some e => inr (ctx_status e)
          | None =>
              match oidc_Verify (S n) verifier (vq_Rawidtoken r) with
              | inr err =>
                  let c := exchangeErrorCode (ctx_Err (S (S n))) err in
                  inr (StatusError (if bool_decide (c = Internal) then Unauthenticated else c)
                         "ID token verification failed")
              | inl verified =>
                  match toVerifyResponse verified with
                  | None => inr (StatusError Internal "invalid verified claims")
                  | Some response => inl response
                  end
              end
          end
      end
  end.

(** The health of the service that [Serve] announces. *)
Definition serving s : bool := bool_decide (is_Some (config_of s "oai")).

(** * server.go: the device login *)

Definition LoginDeviceFlowEndpoint : string := "https://auth.openai.com/api/accounts/deviceauth/usercode".
Definition PostTokenEndpoint : string := "https://auth.openai.com/api/accounts/deviceauth/token".

Definition json_request (url body : string) : http_request :=
  Build_http_request url {["Content-Type" := "application/json"]}%string body.

Definition device_field (key : string) (_ : raw_message) (v : json) (r : string * string * string) :
  option (string * string * string) :=
  let '(id, user, interval) := r in
  if for_field "device_auth_id" key then i ← decode_string v id; Some (i, user, interval)
  else if for_field "user_code" key then u ← decode_string v user; Some (id, u, interval)
  else if for_field "interval" key then i ← decode_string v interval; Some (id, user, i)
  else Some r.

Definition device_response (body : string) : option DeviceFlowResponse :=
  v ← decode_first body;
  '(id, user, interval) ← decode_struct device_field v (""%string, ""%string, ""%string);
  interval ← ParseUint interval 32;
  if (interval =? 0)%N || (900 <? interval)%N || String.eqb id "" || String.eqb user "" then None
  else Some (Build_DeviceFlowResponse id user interval "https://auth.openai.com/codex/device").

Definition GetDeviceFlowCode s (n : nat) (request : option string) : DeviceFlowResponse + gerror :=
  match request with
  | None => inr (StatusError InvalidArgument "provider is required")
  | Some provider =>
      if String.eqb provider "" then inr (StatusError InvalidArgument "provider is required")
      else match config_of s provider with
      | None => inr (StatusError FailedPrecondition "device provider is not configured")
      | Some cfg =>
          if negb (String.eqb provider "oai") || String.eqb (oc_ClientID cfg) ""
          then inr (StatusError FailedPrecondition "device provider is not configured")
          else
            let body := map_text [("client_id", marshal_string (oc_ClientID cfg))]%string in
            match url_Parse LoginDeviceFlowEndpoint with
            | None => inr (StatusError Internal "invalid device request")
            | Some _ =>
                match http_Do n (Some (out_now n + sv_timeout s)) (json_request LoginDeviceFlowEndpoint body) with
                | inr err => inr (StatusError (exchangeErrorCode (ctx_Err (S n)) err) "device authorization request failed")
                | inl resp =>
                    if negb (re_StatusCode resp =? 200) then inr (deviceHTTPError (re_StatusCode resp))
                    else match device_response (re_Body resp) with
                         | None => inr (StatusError Internal "invalid device authorization response")
                         | Some r => inl r
                         end
                end
            end
      end
  end.

Definition approval_field (key : string) (_ : raw_message) (v : json) (r : string * string) : option (string * string) :=
  if for_field "authorization_code" key then c ← decode_string v r.1; Some (c, r.2)
  else if for_field "code_verifier" key then c ← decode_string v r.2; Some (r.1, c)
  else Some r.

Definition approval (body : string) : option DeviceAuthorizationResponse :=
  v ← decode_first body;
  '(c, verifier) ← decode_struct approval_field v (""%string, ""%string);
  if String.eqb c "" || String.eqb verifier "" then None
  else Some (Build_DeviceAuthorizationResponse c verifier).

(** [inl None]: approval is still pending. *)
Definition postToken (n : nat) (deadline : time) (request : http_request) :
  option DeviceAuthorizationResponse + gerror :=
  match http_Do n (Some deadline) request with
  | inr err => inr (StatusError (exchangeErrorCode (ctx_Err (S n)) err) "device authorization request failed")
  | inl resp =>
      if (re_StatusCode resp =? 403) || (re_StatusCode resp =? 404) then inl None
      else if negb (re_StatusCode resp =? 200) then inr (deviceHTTPError (re_StatusCode resp))
      else match approval (re_Body resp) with
           | None => inr (StatusError Internal "invalid device authorization response")
           | Some r => inl (Some r)
           end
  end.

(** The loop, from step [n]; [None] is out of fuel. *)
Fixpoint poll (fuel : nat) (n : nat) s (deadline interval : time) (request : http_request) :
  option (DeviceAuthorizationResponse + gerror) :=
  match fuel with
  | O => None
  | S fuel =>
      match url_Parse (rq_URL request) with
      | None => Some (inr (StatusError Internal "invalid device request"))
      | Some _ =>
          match postToken n (Z.min deadline (out_now n + sv_timeout s)) request with
          | inr e => Some (inr e)
          | inl (Some r) => Some (inl r)
          | inl None =>
              match wait (S (S n)) interval deadline with
              | Some e => Some (inr (ctx_status e))
              | None => poll fuel (S (S (S n))) s deadline interval request
              end
          end
      end
  end.

Definition poll_fuel : nat := 901.

Definition PollDeviceFlow s (n : nat) (request : option PollDeviceFlowRequest) :
  option (DeviceAuthorizationResponse + gerror) :=
  let invalid := Some (inr (StatusError InvalidArgument "device auth ID, user code and valid interval are required")) in
  match request with
  | None => invalid
  | Some r =>
      if String.eqb (pq_Provider r) "" || String.eqb (pq_DeviceAuthId r) "" || String.eqb (pq_UserCode r) "" ||
         (pq_IntervalSeconds r =? 0)%N || (900 <? pq_IntervalSeconds r)%N
      then invalid
      else match config_of s (pq_Provider r) with
      | None => Some (inr (StatusError FailedPrecondition "device provider is not configured"))
      | Some _ =>
          if negb (String.eqb (pq_Provider r) "oai")
          then Some (inr (StatusError FailedPrecondition "device provider is not configured"))
          else
            let body := map_text [("device_auth_id", marshal_string (pq_DeviceAuthId r));
                                  ("user_code", marshal_string (pq_UserCode r))]%string in
            poll poll_fuel n s (out_now n + 15 * minute) (Z.of_N (pq_IntervalSeconds r) * second)
              (json_request PostTokenEndpoint body)
      end
  end.
End server.
