(* ===== verification/UpstreamChat.v ===== *)
(** internal/upstreamserver: chat requests.  The body goes to the endpoint of the
    request with its headers and, set last, the credential; the answer comes
    back as one document or line by line.  Follows chat.go and the last part of
    server.go. *)

From S2P Require Import Prelude.
From S2P Require Import GoStrings.
From S2P Require Import Schema.
From S2P Require Import NetUrl.
From S2P Require Import NetHttp.
From S2P Require Import Json.
From S2P Require Import Directory.
From S2P Require Import Upstream.

Local Open Scope list_scope.
Local Open Scope Z_scope.

(** * Headers *)

(** [http.Header.Set]. *)
Definition set_header (h : gmap string string) (key value : string) : gmap string string :=
  <[CanonicalMIMEHeaderKey key := value]> h.

(** The headers of a request: the fixed ones, those of the route in the order the
    iteration meets them, and the credential over all of them. *)
Definition request_headers (accept : string) (headers : list (string * string)) (authHeader authPrefix secret : string) :
  gmap string string :=
  let fixed := set_header (set_header ∅ "Content-Type" "application/json") "Accept" accept in
  set_header (foldl (λ h '(k, v), set_header h k v) fixed headers) authHeader (authPrefix +:+ secret).

(** * Errors *)

(** A [*url.Error] of the parser, which is a [net.Error]; [HTTPError]; the errors
    of [io] and [bufio]. *)
Definition invalid_url : failure := Build_failure [LNet false; LOther] "parse".
Definition HTTPError (StatusCode : Z) : failure := Build_failure [LHTTP StatusCode] "upstream status".
Definition ErrUnexpectedEOF : failure := Build_failure [LUnexpectedEOF] "unexpected EOF".
Definition ErrTooLong : failure := Build_failure [LOther] "bufio.Scanner: token too long".

Definition http_ok (status : Z) : bool := (200 <=? status) && (status <? 300).

(** * Lines *)

(** The limit of the scanner's buffer. *)
Definition maxTokenSize : N := 1024 * 1024.

Definition drop_cr (line : string) : string :=
  match str_rev line with
  | String a r => if is_byte 13 a then str_rev r else line
  | EmptyString => line
  end.

Definition newline : ascii := "010".

(** The lines the scanner gives for the parts between the newlines, and whether
    it stops at one that does not fit its buffer.  What follows the last newline
    is a line too, unless it is empty. *)
Fixpoint scan_lines (joined : bool) (parts : list string) : list string * bool :=
  match parts with
  | [] => ([], false)
  | line :: parts =>
      let size := N.of_nat (String.length line) in
      match parts with
      | [] =>
          if String.eqb line "" then ([], false)
          else if (maxTokenSize <? size)%N || ((maxTokenSize =? size)%N && negb joined) then ([], true)
          else ([drop_cr line], false)
      | _ =>
          if (maxTokenSize <=? size)%N then ([], true)
          else let (lines, long) := scan_lines joined parts in (drop_cr line :: lines, long)
      end
  end.

Definition body_lines (resp : http_response) : list string * bool :=
  scan_lines (re_joined resp) (Split (re_Body resp) newline).

(** * Streams *)

Definition type_field (key : string) (_ : raw_message) (v : json) (type : string) : option string :=
  if for_field "type" key then decode_string v type else Some type.

(** A line that carries a final event. *)
Definition terminal_line (data : string) : bool :=
  HasPrefix data "data:" &&
  match unmarshal_struct type_field (TrimSpace (TrimPrefix data "data:")) ""%string with
  | Some type => bool_decide (type ∈ ["response.completed"; "response.incomplete"; "response.failed"]%string)
  | None => false
  end.

(** What was handed to the stream's sender, and how it went on. *)
Record streamed := { sm_sent : list string; sm_error : option failure }.

Section chat.
Context `{Outside} `{UrlParser}.

(** The loop over the lines: what was sent, and whether a final event was seen or
    with what error sending failed. *)
Fixpoint forward (n : nat) (lines : list string) (terminalSeen : bool) : list string * (bool + failure) :=
  match lines with
  | [] => ([], inl terminalSeen)
  | data :: lines =>
      match stream_Send n data with
      | Some err => ([], inr err)
      | None => let (sent, r) := forward (S n) lines (terminalSeen || terminal_line data) in (data :: sent, r)
      end
  end.

(** What the response says at the end of its lines. *)
Definition scan_result (resp : http_response) (long : bool) : option failure :=
  if long then Some ErrTooLong else re_Err resp.

Definition Stream (n : nat) (request : ChatRequest) : streamed :=
  match url_Parse (cr_Endpoint request) with
  | None => Build_streamed [] (Some invalid_url)
  | Some _ =>
      let headers := request_headers "text/event-stream" (range n (cr_Headers request)) (cr_AuthHeader request)
                       (cr_AuthPrefix request) (cr_Secret request) in
      match http_Do (S n) None (Build_http_request (cr_Endpoint request) headers (cr_Data request)) with
      | inr err => Build_streamed [] (Some err)
      | inl resp =>
          if negb (http_ok (re_StatusCode resp)) then Build_streamed [] (Some (HTTPError (re_StatusCode resp)))
          else
            let (lines, long) := body_lines resp in
            let (sent, r) := forward (S (S n)) lines false in
            Build_streamed sent
              match r with
              | inr err => Some err
              | inl terminalSeen =>
                  match scan_result resp long with
                  | Some err => Some err
                  | None => if terminalSeen then None else Some ErrUnexpectedEOF
                  end
              end
      end
  end.

(** A chat request names its data, a secret and a header for it. *)
Definition complete_request (request : ChatRequest) : bool :=
  negb (blank (cr_Data request)) && negb (blank (cr_Secret request)) && negb (blank (cr_AuthHeader request)).

Definition incomplete : gerror := StatusError InvalidArgument "data, secret and auth header are required".

(** [status.FromError] of an error that carries a status. *)
Definition own_status (f : failure) : option gerror :=
  match fl_chain f with
  | LStatus c m :: _ => Some (StatusError c m)
  | _ => '(c, _) ← failure_As status_link f; Some (StatusError c (fl_text f))
  end.

(** The messages sent and the status of the RPC, [None] being OK. *)
Definition ChatStream (n : nat) (request : option ChatRequest) : list string * option gerror :=
  match request with
  | None => ([], Some incomplete)
  | Some r =>
      if negb (complete_request r) then ([], Some incomplete)
      else match ctx_Err n with
      | Some e => ([], Some (ctx_status e))
      | None =>
          let result := Stream (S n) r in
          (sm_sent result,
           match sm_error result with
           | None => None
           | Some err =>
               Some match ctx_Err (n + 4 + length (sm_sent result))%nat with
                    | Some e => ctx_status e
                    | None => default (StatusError (chatStreamErrorCode err) "upstream stream failed") (own_status err)
                    end
           end)
      end
  end.

(** * One document *)

Definition json_object (body : string) : bool := Valid body && HasPrefix (TrimSpace body) "{".

Definition ChatNonStream (n : nat) (request : option ChatRequest) : string + gerror :=
  match request with
  | None => inr incomplete
  | Some r =>
      if negb (complete_request r) then inr incomplete
      else match url_Parse (cr_Endpoint r) with
      | None => inr (StatusError InvalidArgument "invalid upstream request")
      | Some _ =>
          let headers := request_headers "application/json" (range n (cr_Headers r)) (cr_AuthHeader r)
                           (cr_AuthPrefix r) (cr_Secret r) in
          match http_Do (S n) None (Build_http_request (cr_Endpoint r) headers (cr_Data r)) with
          | inr err => inr (StatusError (chatStreamErrorCode err) "upstream request failed")
          | inl resp =>
              if negb (http_ok (re_StatusCode resp))
              then inr (StatusError (chatStreamErrorCode (HTTPError (re_StatusCode resp))) "upstream request failed")
              else match re_Err resp with
              | Some err => inr (StatusError (chatStreamErrorCode err) "upstream response failed")
              | None =>
                  if json_object (re_Body resp) then inl (re_Body resp)
                  else inr (StatusError Internal "invalid upstream JSON response")
              end
          end
      end
  end.
End chat.

(** * Examples *)

Example scanned :
  scan_lines false (Split ("data: 1" +:+ String "013" (String newline (String newline "rest"))) newline) =
    (["data: 1"; ""; "rest"]%string, false).
Proof. vm_compute. reflexivity. Qed.

Example terminal_lines :
  terminal_line <$> [js "data: {'type':'response.completed'}"; js "data:{'TYPE':'response.failed'}";
                     js "data: {'type':'message_stop'}"; "data: [DONE]"; js "{'type':'response.completed'}"]%string =
    [true; true; false; false; false].
Proof. vm_compute. reflexivity. Qed.
