(* ===== verification/UpstreamSim.v ===== *)
(** A concrete outside for the upstream server: a clock, a provider whose device
    login is approved after a while and whose chat endpoint streams a short
    answer, and a discovery.  It shows that the laws assumed hold together, and
    the witnesses run the RPCs on it. *)

From S2P Require Import Prelude.
From S2P Require Import GoStrings.
From S2P Require Import Schema.
From S2P Require Import Stores.
From S2P Require Import NetUrl.
From S2P Require Import Json.
From S2P Require Import Config.
From S2P Require Import Directory.
From S2P Require Import Oidc.
From S2P Require Import Upstream.
From S2P Require Import UpstreamChat.

Local Open Scope list_scope.
Local Open Scope Z_scope.

(** Ten seconds pass between the steps. *)
Definition sim_now (n : nat) : time := Z.of_nat n * (10 * second).

Definition sim_body : string :=
  js "data: {'type':'response.output_item.done','output_index':0,'item':{'id':'a'}}" +:+ String newline (String newline
  (js "data: {'type':'response.completed','response':{'id':'r','output':[]}}" +:+ String newline (String newline ""))).

(** The approval is pending before the fourth step. *)
Definition sim_answer (n : nat) (url : string) : http_response :=
  if String.eqb url PostTokenEndpoint then
    if (n <? 3)%nat then Build_http_response 403 "" None false
    else Build_http_response 200 (js "{'authorization_code':'c','code_verifier':'v'}") None true
  else if String.eqb url "https://busy.example.com" then Build_http_response 429 "" None true
  else if String.eqb url "https://json.example.com" then Build_http_response 200 (js " {'id':'r'}") None true
  else Build_http_response 200 sim_body None true.

Definition late : failure := Build_failure [LNet true; LDeadline] "context deadline exceeded".

#[export] Instance sim_outside : Outside := {|
  out_now := sim_now;
  ctx_Err := λ _, None;
  oauth2_Exchange := λ _ _ _ _, inl (Build_Token "access" "refresh" "Bearer" (3600 * second) (ExtraString "id"));
  oauth2_Refresh := λ _ _ _, inr (Build_failure [LRetrieve "invalid_grant" (Some 400)] "oauth2");
  oidc_Verify := λ _ _ _, inl None;
  http_Do := λ n d rq,
    match d with
    | Some d => if d <=? sim_now n then inr late else inl (sim_answer n (rq_URL rq))
    | None => inl (sim_answer n (rq_URL rq))
    end;
  wait := λ n i d, if i <=? 10 * second then None else Some CtxDeadline;
  range := λ A n m, map_to_list m;
  stream_Send := λ _ _, None
|}.

#[export] Instance sim_outside_laws : OutsideLaws.
Proof.
  split; cbn.
  - intros n. unfold sim_now. change second with 1000000000. lia.
  - intros n d req Hd. destruct (Z.leb_spec d (sim_now n)); [by eexists|lia].
  - intros n i d. destruct (Z.leb_spec i (10 * second)); [|done]. intros _. unfold sim_now.
    change second with 1000000000 in *. lia.
  - done.
Qed.

#[export] Instance sim_https : UrlParser := λ s,
  if HasPrefix s "https://" then Some (Build_URL "https" None (TrimPrefix s "https://") "" "" false "" "" "") else None.

Definition sim_provider : Provider :=
  Build_Provider (js "{'issuer':'https://auth.example.com','token_endpoint_auth_methods_supported':['client_secret_post']}")
    (Build_Endpoint "https://auth.example.com/authorize" "https://auth.example.com/token" "") "".

#[export] Instance sim_discovery : Discovery := λ _ _, inl sim_provider.

Definition sim_oidc : OIDCConfig :=
  Build_OIDCConfig "oai" "https://auth.example.com" "client" "secret" "https://gw.example.com/cb".

(** What the server sets up from it. *)
Definition sim_auth : OIDCAuth :=
  match NewOIDCAuth 0 sim_oidc OaiAuthURLParams OaiScopes with Ok a => a | _ => Build_OIDCAuth None None [] None end.

Definition sim_server : server := Build_server {["oai"%string := Some sim_auth]} (8 * second).

Definition sim_poll : PollDeviceFlowRequest := Build_PollDeviceFlowRequest "oai" "dev" "user" 5.

(** A request for a stream; the headers try to replace the credential. *)
Definition sim_request (endpoint : string) : ChatRequest :=
  Build_ChatRequest "{}" "token" endpoint "access_token" "Authorization" "Bearer "
    {["authorization"%string := "forged"%string; "openai-beta"%string := "x"%string]}.
