(* ===== verification/UpstreamSpec.v ===== *)
(** The contract of the upstream server's OAuth side: what its errors give away
    and become at the API, that a token arrives as the provider gave it, and
    that the device login ends. *)

From S2P Require Import Prelude.
From S2P Require Import GoStrings.
From S2P Require Import Schema.
From S2P Require Import Stores.
From S2P Require Import NetUrl.
From S2P Require Import Json.
From S2P Require Import Directory.
From S2P Require Import Oidc.
From S2P Require Import Translator.
From S2P Require Import Upstream.

Local Open Scope list_scope.
Local Open Scope Z_scope.

(** * Tokens *)

Lemma AsTime_timestamp t : AsTime (timestamp t) = t.
Proof.
  unfold AsTime, timestamp. cbn [ts_Seconds ts_Nanos]. pose proof (Z.div_mod t second ltac:(done)). lia.
Qed.

(** The years 1 to 9999. *)
Definition valid_time (t : time) : Prop := zero_time ≤ t < 253402300800 * second.

Lemma CheckValid_timestamp t : CheckValid (timestamp t) = true ↔ valid_time t.
Proof.
  unfold CheckValid, timestamp, valid_time, zero_time. cbn [ts_Seconds ts_Nanos].
  change second with 1000000000. pose proof (Z.mod_pos_bound t 1000000000 ltac:(done)).
  pose proof (Z.div_mod t 1000000000 ltac:(done)).
  rewrite !andb_true_iff, !Z.leb_le, Z.ltb_lt. split; intros; split_hyps; repeat split; lia.
Qed.

Definition id_string (t : Token) : string := match tok_IDToken t with ExtraString s => s | _ => ""%string end.

(** What arrives of a token: everything but an ID token that is no string, and
    an expiry that is no date of the calendar makes the answer fail. *)
Lemma token_of_tokenResponse t failed :
  token_of (tokenResponse t) failed =
    if bool_decide (valid_time (tok_Expiry t)) then
      Ok (Build_Token (tok_AccessToken t) (tok_RefreshToken t) (tok_TokenType t) (tok_Expiry t) (ExtraString (id_string t)))
    else Err failed.
Proof.
  unfold token_of, tokenResponse. cbn [tr_ExpiresAt tr_AccessToken tr_RefreshToken tr_TokenType tr_IdToken].
  fold (id_string t). unfold IsZero. destruct (Z.eqb_spec (tok_Expiry t) zero_time) as [He|He].
  - rewrite bool_decide_eq_true_2 by (rewrite He; by split). by rewrite He.
  - rewrite AsTime_timestamp. case_bool_decide as Hv.
    + by rewrite (proj2 (CheckValid_timestamp _) Hv).
    + by rewrite (not_true_is_false _ (λ Hc, Hv (proj1 (CheckValid_timestamp _) Hc))).
Qed.

(** * Errors *)

(** The error of an RPC: a code and one of these fixed texts. *)
Definition fixed_error (texts : list string) (e : gerror) : Prop :=
  ∃ c msg, e = StatusError c msg ∧ c ≠ OK ∧ msg ∈ texts.

Lemma fixed_intro texts c msg :
  bool_decide (c ≠ OK) && bool_decide (msg ∈ texts) = true → fixed_error texts (StatusError c msg).
Proof. intros [?%bool_decide_eq_true ?%bool_decide_eq_true]%andb_true_iff. by exists c, msg. Qed.

Lemma fixed_code texts c msg : c ≠ OK → bool_decide (msg ∈ texts) = true → fixed_error texts (StatusError c msg).
Proof. intros ? ?%bool_decide_eq_true. by exists c, msg. Qed.

Lemma ctx_code_OK e : ctx_code e ≠ OK.
Proof. by destruct e. Qed.

Lemma exchangeErrorCode_OK ctx f : exchangeErrorCode ctx f ≠ OK.
Proof.
  unfold exchangeErrorCode. destruct ctx; [apply ctx_code_OK|]. repeat first [done | case_step].
Qed.

(** The codes a failed call of a provider can have. *)
Definition exchange_codes : list code := [Canceled; DeadlineExceeded; Unauthenticated; Unavailable; Internal].

Lemma exchangeErrorCode_in ctx f : exchangeErrorCode ctx f ∈ exchange_codes.
Proof.
  unfold exchangeErrorCode. destruct ctx as [[]|]; [by_decide..|]. repeat case_step; by_decide.
Qed.

Definition ctx_texts : list string := ["context canceled"; "context deadline exceeded"].
Definition exchange_texts : list string :=
  ["code, code_verifier and provider are required"; "provider is not configured"; "unsupported device provider";
   "invalid flow type"; "token exchange failed"].
Definition refresh_texts : list string :=
  ["refresh_token and provider are required"; "provider is not configured"; "token refresh failed"].
Definition provider_texts : list string :=
  "issuer is required"%string :: "invalid provider metadata"%string :: "issuer is not configured"%string :: ctx_texts.
Definition verify_texts : list string :=
  "rawidtoken and provider are required"%string :: "provider is not configured"%string ::
  "ID token verification failed"%string :: "invalid verified claims"%string :: ctx_texts.
Definition device_texts : list string :=
  "provider is required"%string :: "device auth ID, user code and valid interval are required"%string ::
  "device provider is not configured"%string :: "invalid device request"%string ::
  "device authorization request failed"%string :: "device authorization rejected"%string ::
  "invalid device authorization response"%string :: ctx_texts.

Lemma ctx_status_fixed texts e : (∀ m, m ∈ ctx_texts → m ∈ texts) → fixed_error texts (ctx_status e).
Proof. intros Ht. destruct e; eexists _, _; (split; [reflexivity|]); (split; [done|]); apply Ht; by_decide. Qed.

Lemma deviceHTTPError_fixed status : fixed_error device_texts (deviceHTTPError status).
Proof.
  unfold deviceHTTPError. apply fixed_code; [|reflexivity]. repeat first [done | case_step].
Qed.

Ltac fixed_tac :=
  first [ by apply fixed_intro
        | by apply fixed_code; [first [apply exchangeErrorCode_OK | done]|reflexivity]
        | apply deviceHTTPError_fixed
        | apply ctx_status_fixed; set_solver ].

Section server.
Context `{Outside} `{UrlParser}.

Lemma ExchangeCode_fixed s n req e : ExchangeCode s n req = inr e → fixed_error exchange_texts e.
Proof.
  unfold ExchangeCode, flow_config. repeat case_step; intros [= <-]; try fixed_tac;
    repeat match goal with H : _ = inr _ |- _ => injection H as <- end; fixed_tac.
Qed.

Lemma RefreshToken_fixed s n req e : RefreshToken s n req = inr e → fixed_error refresh_texts e.
Proof. unfold RefreshToken. repeat case_step; intros [= <-]; fixed_tac. Qed.

Lemma find_provider_fixed auths issuer e : find_provider auths issuer = inr e → fixed_error provider_texts e.
Proof.
  induction auths as [|[k auth] auths IH]; cbn [find_provider]; [intros [= <-]; fixed_tac|].
  repeat case_step; try done; intros [= <-]; fixed_tac.
Qed.

Lemma GetProvider_fixed s n req e : GetProvider s n req = inr e → fixed_error provider_texts e.
Proof.
  unfold GetProvider. destruct req as [issuer|]; [|intros [= <-]; fixed_tac].
  destruct (blank issuer); [intros [= <-]; fixed_tac|].
  destruct (ctx_Err n); [intros [= <-]; fixed_tac|apply find_provider_fixed].
Qed.

Lemma Verifier_fixed s n req e : Verifier s n req = inr e → fixed_error verify_texts e.
Proof.
  unfold Verifier. cbv zeta. repeat case_step; intros [= <-]; fixed_tac.
Qed.

Lemma GetDeviceFlowCode_fixed s n req e : GetDeviceFlowCode s n req = inr e → fixed_error device_texts e.
Proof. unfold GetDeviceFlowCode. cbv zeta. repeat case_step; intros [= <-]; fixed_tac. Qed.

Lemma postToken_fixed n d req e : postToken n d req = inr e → fixed_error device_texts e.
Proof. unfold postToken. repeat case_step; intros [= <-]; fixed_tac. Qed.

Lemma poll_fixed fuel n s d i req e : poll fuel n s d i req = Some (inr e) → fixed_error device_texts e.
Proof.
  revert n. induction fuel as [|fuel IH]; intros n; cbn [poll]; [done|].
  destruct (url_Parse _); [|intros [= <-]; fixed_tac].
  destruct (postToken _ _ _) as [[r|]|e'] eqn:Hp; [done| |intros [= <-]; by eapply postToken_fixed].
  destruct (wait _ _ _); [intros [= <-]; fixed_tac|apply IH].
Qed.

Lemma PollDeviceFlow_fixed s n req e : PollDeviceFlow s n req = Some (inr e) → fixed_error device_texts e.
Proof.
  unfold PollDeviceFlow. cbv zeta. generalize poll_fuel. intros fuel.
  destruct req as [r|]; [|intros [= <-]; fixed_tac]. destruct (_ || _); [intros [= <-]; fixed_tac|].
  destruct (config_of _ _); [|intros [= <-]; fixed_tac]. destruct (negb _); [intros [= <-]; fixed_tac|].
  apply poll_fixed.
Qed.
End server.

(** * The device login *)

Section device.
Context `{OutsideLaws} `{UrlParser}.

(** One request for the approval, at a step. *)
Definition attempt s (deadline : time) (request : http_request) (m : nat) : option DeviceAuthorizationResponse + gerror :=
  postToken m (Z.min deadline (out_now m + sv_timeout s)) request.

(** The last round of the loop, at a step. *)
Inductive decided s (deadline interval : time) (request : http_request) (m : nat) :
  DeviceAuthorizationResponse + gerror → Prop :=
  | approved r : attempt s deadline request m = inl (Some r) → decided s deadline interval request m (inl r)
  | failed e : attempt s deadline request m = inr e → decided s deadline interval request m (inr e)
  | given_up e : attempt s deadline request m = inl None → wait (S (S m)) interval deadline = Some e →
                 decided s deadline interval request m (inr (ctx_status e)).

(** A round that leads to the next one. *)
Definition pending s (deadline interval : time) (request : http_request) (m : nat) : Prop :=
  attempt s deadline request m = inl None ∧ wait (S (S m)) interval deadline = None.

Lemma poll_S fuel n s deadline interval request u :
  url_Parse (rq_URL request) = Some u →
  poll (S fuel) n s deadline interval request =
    match attempt s deadline request n with
    | inr e => Some (inr e)
    | inl (Some r) => Some (inl r)
    | inl None =>
        match wait (S (S n)) interval deadline with
        | Some e => Some (inr (ctx_status e))
        | None => poll fuel (S (S (S n))) s deadline interval request
        end
    end.
Proof. intros Hu. cbn [poll]. by rewrite Hu. Qed.

Lemma poll_decides k n s deadline interval request u :
  url_Parse (rq_URL request) = Some u → deadline ≤ out_now n + Z.of_nat k * interval →
  ∃ j x, (j ≤ k)%nat ∧ poll (S k) n s deadline interval request = Some x ∧
    (∀ i, (i < j)%nat → pending s deadline interval request (n + 3 * i)) ∧
    decided s deadline interval request (n + 3 * j) x.
Proof.
  intros Hu. revert n. induction k as [|k IH]; intros n Hd; rewrite (poll_S _ _ _ _ _ _ _ Hu).
  - destruct (http_Do_late n (Z.min deadline (out_now n + sv_timeout s)) request) as [f Hf]; [lia|].
    assert (∃ e, attempt s deadline request n = inr e) as [e He].
    { unfold attempt, postToken. rewrite Hf. eauto. }
    rewrite He. exists 0%nat, (inr e). split; [done|]. split; [done|]. split; [intros i Hi; lia|].
    replace (n + 3 * 0)%nat with n by lia. by apply failed.
  - destruct (attempt s deadline request n) as [[r|]|e] eqn:Ha.
    + exists 0%nat, (inl r). split; [lia|]. split; [done|]. split; [intros i Hi; lia|].
      replace (n + 3 * 0)%nat with n by lia. by apply approved.
    + destruct (wait (S (S n)) interval deadline) as [e|] eqn:Hw.
      * exists 0%nat, (inr (ctx_status e)). split; [lia|]. split; [done|]. split; [intros i Hi; lia|].
        replace (n + 3 * 0)%nat with n by lia. by apply given_up.
      * apply wait_fires in Hw as Hfire. pose proof (out_now_mono n). pose proof (out_now_mono (S n)).
        destruct (IH (S (S (S n)))) as (j & x & Hj & Hx & Hp & Hdec); [lia|].
        exists (S j), x. split; [lia|]. split; [exact Hx|]. split.
        -- intros [|i] Hi; [replace (n + 3 * 0)%nat with n by lia; by split|].
           replace (n + 3 * S i)%nat with (S (S (S n)) + 3 * i)%nat by lia. apply Hp. lia.
        -- by replace (n + 3 * S j)%nat with (S (S (S n)) + 3 * j)%nat by lia.
    + exists 0%nat, (inr e). split; [lia|]. split; [done|]. split; [intros i Hi; lia|].
      replace (n + 3 * 0)%nat with n by lia. by apply failed.
Qed.

(** A request that the device login accepts. *)
Definition poll_request_ok s (r : PollDeviceFlowRequest) : Prop :=
  pq_Provider r = "oai"%string ∧ pq_DeviceAuthId r ≠ ""%string ∧ pq_UserCode r ≠ ""%string ∧
  (1 <= pq_IntervalSeconds r <= 900)%N ∧ is_Some (config_of s "oai").

Definition poll_deadline (n : nat) : time := out_now n + 15 * minute.
Definition poll_request (r : PollDeviceFlowRequest) : http_request :=
  json_request PostTokenEndpoint
    (map_text [("device_auth_id", marshal_string (pq_DeviceAuthId r)); ("user_code", marshal_string (pq_UserCode r))]%string).

Lemma PollDeviceFlow_decides s n r u :
  url_Parse PostTokenEndpoint = Some u → poll_request_ok s r →
  ∃ j x, (j ≤ 900)%nat ∧ PollDeviceFlow s n (Some r) = Some x ∧
    let interval := Z.of_N (pq_IntervalSeconds r) * second in
    (∀ i, (i < j)%nat → pending s (poll_deadline n) interval (poll_request r) (n + 3 * i)) ∧
    decided s (poll_deadline n) interval (poll_request r) (n + 3 * j) x.
Proof.
  intros Hu (Hp & Hi & Hc & Hs & [cfg Hcfg]).
  destruct (poll_decides 900 n s (poll_deadline n) (Z.of_N (pq_IntervalSeconds r) * second) (poll_request r) u Hu)
    as (j & x & Hj & Hx & Hrest).
  { unfold poll_deadline. change minute with (60 * second). change second with 1000000000. lia. }
  exists j, x. split; [done|]. split; [|done]. rewrite <- Hx. unfold PollDeviceFlow. cbv zeta. rewrite Hp, Hcfg.
  rewrite (proj2 (String.eqb_neq _ _) Hi), (proj2 (String.eqb_neq _ _) Hc).
  rewrite (proj2 (N.eqb_neq _ _)) by lia. rewrite (proj2 (N.ltb_ge _ _)) by lia. reflexivity.
Qed.

(** C23: a device login always ends, after at most 901 requests, whatever the
    provider answers: it asks again while the answer is that the approval is
    pending and the interval passes, and the first other answer, or the end of
    the 15 minutes, decides the result. *)
Theorem PollDeviceFlow_ends s n r u :
  url_Parse PostTokenEndpoint = Some u → poll_request_ok s r →
  ∃ j x, (j ≤ 900)%nat ∧ PollDeviceFlow s n (Some r) = Some x ∧
    let interval := Z.of_N (pq_IntervalSeconds r) * second in
    (∀ i, (i < j)%nat → pending s (poll_deadline n) interval (poll_request r) (n + 3 * i)) ∧
    decided s (poll_deadline n) interval (poll_request r) (n + 3 * j) x.
Proof. apply PollDeviceFlow_decides. Qed.
End device.

(** * Nothing of an answer in an error *)

Section relayed.
Context `{Outside} `{UrlParser}.

(** C24: an error of the OAuth calls is a status with one of the texts of the
    program; neither the credentials of the request nor what the provider
    answered shows in it, and it is never mistaken for success. *)
Theorem upstream_errors_fixed s n :
  (∀ req e, ExchangeCode s n req = inr e → fixed_error exchange_texts e) ∧
  (∀ req e, RefreshToken s n req = inr e → fixed_error refresh_texts e) ∧
  (∀ req e, GetProvider s n req = inr e → fixed_error provider_texts e) ∧
  (∀ req e, Verifier s n req = inr e → fixed_error verify_texts e) ∧
  (∀ req e, GetDeviceFlowCode s n req = inr e → fixed_error device_texts e) ∧
  (∀ req e, PollDeviceFlow s n req = Some (inr e) → fixed_error device_texts e).
Proof.
  split; [apply ExchangeCode_fixed|]. split; [apply RefreshToken_fixed|]. split; [apply GetProvider_fixed|].
  split; [apply Verifier_fixed|]. split; [apply GetDeviceFlowCode_fixed|apply PollDeviceFlow_fixed].
Qed.
End relayed.

(** * A login at work *)

From S2P Require Import UpstreamSim.

Lemma PollDeviceFlow_ends_witness :
  ∃ j x, (j ≤ 900)%nat ∧ PollDeviceFlow sim_server 0 (Some sim_poll) = Some x ∧
    decided sim_server (poll_deadline 0) (5 * second) (poll_request sim_poll) (0 + 3 * j) x.
Proof.
  destruct (PollDeviceFlow_ends (H1 := sim_https) sim_server 0 sim_poll
    (Build_URL "https" None "auth.openai.com/api/accounts/deviceauth/token" "" "" false "" "" "")
    ltac:(vm_compute; reflexivity)) as (j & x & Hj & Hx & _ & Hd).
  - split; [reflexivity|]. split; [discriminate|]. split; [discriminate|]. split; [split; discriminate|].
    vm_compute. eexists; reflexivity.
  - exists j, x. split; [exact Hj|]. split; [exact Hx|exact Hd].
Defined.

Example poll_sample :
  PollDeviceFlow sim_server 0 (Some sim_poll) = Some (inl (Build_DeviceAuthorizationResponse "c" "v")).
Proof. vm_compute. reflexivity. Qed.
