(* ===== verification/UpstreamChatSpec.v ===== *)
(** The contract of the upstream server's chat side: where the credential goes,
    that lines are passed on in order and a stream only ends well after a final
    event, and the status every failure becomes. *)

From S2P Require Import Prelude.
From S2P Require Import GoStrings.
From S2P Require Import Schema.
From S2P Require Import NetUrl.
From S2P Require Import NetHttp.
From S2P Require Import Json.
From S2P Require Import Directory.
From S2P Require Import Upstream.
From S2P Require Import UpstreamSpec.
From S2P Require Import UpstreamChat.

Local Open Scope list_scope.
Local Open Scope Z_scope.

(** * Headers *)

Lemma foldl_set_header l h k v :
  foldl (λ h '(k, v), set_header h k v) h l !! k = Some v →
  (∃ k', CanonicalMIMEHeaderKey k' = k ∧ (k', v) ∈ l) ∨ h !! k = Some v.
Proof.
  revert h. induction l as [|[k' v'] l IH]; intros h; [by right|]. cbn [foldl]. intros [(k0 & Hk & Hin)|Hh]%IH.
  - left. exists k0. split; [done|by right].
  - unfold set_header in Hh. apply lookup_insert_Some in Hh as [[Hk ->]|[Hne Hh]]; [|by right].
    left. exists k'. split; [done|by left].
Qed.

Lemma foldl_set_header_in l h k v :
  (k, v) ∈ l → ∃ k' v', (k', v') ∈ l ∧ CanonicalMIMEHeaderKey k' = CanonicalMIMEHeaderKey k ∧
    foldl (λ h '(k, v), set_header h k v) h l !! CanonicalMIMEHeaderKey k = Some v'.
Proof.
  revert h. induction l as [|[k0 v0] l IH] using rev_ind; intros h; [by intros ?%not_elem_of_nil|].
  rewrite foldl_app. cbn [foldl]. intros Hin. unfold set_header at 1.
  destruct (decide (CanonicalMIMEHeaderKey k0 = CanonicalMIMEHeaderKey k)) as [He|Hne].
  - exists k0, v0. split; [apply elem_of_app; right; by left|]. split; [done|]. rewrite He. by rewrite lookup_insert_eq.
  - apply elem_of_app in Hin as [Hin|Hin%list_elem_of_singleton]; [|by injection Hin as -> ->].
    destruct (IH h Hin) as (k' & v' & Hin' & Hk & Hl). exists k', v'. split; [apply elem_of_app; by left|].
    split; [done|]. by rewrite lookup_insert_ne.
Qed.

(** What a request carries: the credential under its header and nowhere else,
    the headers of the route, and the two fixed ones unless the route sets
    them. *)
Definition carries (accept : string) (r : ChatRequest) (req : http_request) : Prop :=
  let credential := CanonicalMIMEHeaderKey (cr_AuthHeader r) in
  rq_URL req = cr_Endpoint r ∧ rq_Body req = cr_Data r ∧
  rq_Header req !! credential = Some (cr_AuthPrefix r +:+ cr_Secret r) ∧
  (∀ k v, rq_Header req !! k = Some v → k ≠ credential →
     (∃ k', CanonicalMIMEHeaderKey k' = k ∧ cr_Headers r !! k' = Some v) ∨
     (k = "Content-Type" ∧ v = "application/json")%string ∨ (k = "Accept"%string ∧ v = accept)) ∧
  (∀ k v, cr_Headers r !! k = Some v → CanonicalMIMEHeaderKey k ≠ credential →
     ∃ k' v', CanonicalMIMEHeaderKey k' = CanonicalMIMEHeaderKey k ∧ cr_Headers r !! k' = Some v' ∧
       rq_Header req !! CanonicalMIMEHeaderKey k = Some v').

Lemma carries_request accept r order :
  order ≡ₚ map_to_list (cr_Headers r) →
  carries accept r (Build_http_request (cr_Endpoint r)
    (request_headers accept order (cr_AuthHeader r) (cr_AuthPrefix r) (cr_Secret r)) (cr_Data r)).
Proof.
  intros Hperm.
  assert (Hin : ∀ k v, (k, v) ∈ order ↔ cr_Headers r !! k = Some v).
  { intros k v. rewrite Hperm. apply elem_of_map_to_list. }
  unfold carries, request_headers. cbn [rq_URL rq_Body rq_Header].
  set (fixed := set_header (set_header ∅ "Content-Type" "application/json") "Accept" accept).
  split; [done|]. split; [done|]. split; [apply lookup_insert_eq|]. split.
  - intros k v Hk Hne. unfold set_header at 1 in Hk. rewrite lookup_insert_ne in Hk by done.
    apply foldl_set_header in Hk as [(k' & Hk' & Hl)|Hf].
    + left. exists k'. split; [done|]. by apply Hin.
    + right. unfold fixed, set_header in Hf.
      change (CanonicalMIMEHeaderKey "Accept") with "Accept"%string in Hf.
      change (CanonicalMIMEHeaderKey "Content-Type") with "Content-Type"%string in Hf.
      apply lookup_insert_Some in Hf as [[<- <-]|[_ Hf]]; [by right|].
      apply lookup_insert_Some in Hf as [[<- <-]|[_ Hf]]; [by left|]. by rewrite lookup_empty in Hf.
  - intros k v Hk Hne. apply Hin, (foldl_set_header_in _ fixed) in Hk as (k' & v' & Hk' & Hc & Hl).
    exists k', v'. split; [done|]. split; [by apply Hin|]. unfold set_header at 1. by rewrite lookup_insert_ne.
Qed.

(** * Lines *)

Section chat.
Context `{Outside} `{UrlParser}.

Lemma forward_sent n lines seen :
  (forward n lines seen).1 `prefix_of` lines ∧
  (∀ t, (forward n lines seen).2 = inl t → (forward n lines seen).1 = lines ∧ t = seen || existsb terminal_line lines) ∧
  (∀ f, (forward n lines seen).2 = inr f → ∃ m data, stream_Send m data = Some f).
Proof.
  revert n seen. induction lines as [|data lines IH]; intros n seen; cbn [forward].
  - cbn. split; [done|]. split; [|done]. intros t [= <-]. split; [done|]. by rewrite orb_false_r.
  - destruct (stream_Send n data) as [f|] eqn:Hs.
    + cbn. split; [apply prefix_nil|]. split; [done|]. intros f' [= <-]. eauto.
    + destruct (IH (S n) (seen || terminal_line data)) as (Hp & Ht & Hf).
      destruct (forward (S n) lines _) as [sent r]. cbn [fst snd existsb] in *.
      split; [by apply prefix_cons|]. split; [|done]. intros t Hr. destruct (Ht t Hr) as [-> ->].
      split; [done|]. by rewrite orb_assoc.
Qed.

(** The request a chat RPC makes. *)
Definition chat_request (accept : string) (n : nat) (r : ChatRequest) : http_request :=
  Build_http_request (cr_Endpoint r)
    (request_headers accept (range n (cr_Headers r)) (cr_AuthHeader r) (cr_AuthPrefix r) (cr_Secret r)) (cr_Data r).

(** What becomes of a stream, by what the provider does. *)
Definition stream_spec (n : nat) (r : ChatRequest) (result : streamed) : Prop :=
  match url_Parse (cr_Endpoint r) with
  | None => result = Build_streamed [] (Some invalid_url)
  | Some _ =>
      match http_Do (S n) None (chat_request "text/event-stream" n r) with
      | inr f => result = Build_streamed [] (Some f)
      | inl resp =>
          if http_ok (re_StatusCode resp) then
            let (lines, long) := body_lines resp in
            sm_sent result `prefix_of` lines ∧
            match sm_error result with
            | None => sm_sent result = lines ∧ long = false ∧ re_Err resp = None ∧ ∃ l, l ∈ lines ∧ terminal_line l = true
            | Some f => (∃ m data, stream_Send m data = Some f) ∨
                        (sm_sent result = lines ∧
                         ((long = true ∧ f = ErrTooLong) ∨ (long = false ∧ re_Err resp = Some f) ∨
                          (long = false ∧ re_Err resp = None ∧ f = ErrUnexpectedEOF ∧
                           ∀ l, l ∈ lines → terminal_line l = false)))
            end
          else result = Build_streamed [] (Some (HTTPError (re_StatusCode resp)))
      end
  end.

Lemma Stream_spec n r : stream_spec n r (Stream n r).
Proof.
  unfold stream_spec, Stream. destruct (url_Parse _); [|done]. cbv zeta. fold (chat_request "text/event-stream" n r).
  destruct (http_Do _ _ _) as [resp|f]; [|done]. destruct (http_ok _); [|done]. cbn [negb].
  destruct (body_lines resp) as [lines long]. destruct (forward_sent (S (S n)) lines false) as (Hp & Ht & Hf).
  destruct (forward (S (S n)) lines false) as [sent [seen|f]]; cbn [fst snd sm_sent sm_error] in *.
  - destruct (Ht seen eq_refl) as [-> Hseen]. cbn [orb] in Hseen. split; [done|]. unfold scan_result.
    destruct long; [right; split; [done|]; by left|].
    destruct (re_Err resp) as [f|]; [right; split; [done|]; right; by left|].
    destruct seen; symmetry in Hseen.
    + apply existsb_exists in Hseen as (l & Hin & Hl). repeat split; try done. exists l.
      split; [by apply list_elem_of_In|done].
    + right. split; [done|]. right; right. repeat split; try done. intros l Hin. apply not_true_is_false.
      intros Hl. rewrite <- not_true_iff_false in Hseen. apply Hseen, existsb_exists. exists l.
      split; [by apply list_elem_of_In|done].
  - split; [done|]. left. by apply Hf.
Qed.

(** A stream that ends well: every line of a good response to the one request was
    passed on, and among them a final event. *)
Lemma ChatStream_ok n r sent :
  ChatStream n (Some r) = (sent, None) →
  ∃ resp l, http_Do (S (S n)) None (chat_request "text/event-stream" (S n) r) = inl resp ∧
    http_ok (re_StatusCode resp) = true ∧ re_Err resp = None ∧ body_lines resp = (sent, false) ∧
    l ∈ sent ∧ terminal_line l = true.
Proof.
  unfold ChatStream. destruct (complete_request r); [|done]. cbn [negb]. destruct (ctx_Err n); [done|].
  pose proof (Stream_spec (S n) r) as Hs. cbv zeta. destruct (Stream (S n) r) as [sent' [f|]]; [done|].
  cbn [sm_sent sm_error]. intros [= <-]. unfold stream_spec in Hs. destruct (url_Parse _); [|done].
  destruct (http_Do _ _ _) as [resp|f]; [|done]. destruct (http_ok _) eqn:Hok; [|done].
  destruct (body_lines resp) as [lines long] eqn:Hb. destruct Hs as (_ & Hl & -> & He & l & Hin & Ht).
  cbn [sm_sent] in Hl. subst lines. exists resp, l. done.
Qed.
End chat.

(** * The RPCs *)

(** The texts of the chat calls. *)
Definition chat_texts : list string :=
  ("data, secret and auth header are required" :: "upstream stream failed" :: "invalid upstream request" ::
   "upstream request failed" :: "upstream response failed" :: "invalid upstream JSON response" :: ctx_texts)%string.

Lemma chatStreamErrorCode_OK f : chatStreamErrorCode f ≠ OK.
Proof. unfold chatStreamErrorCode. repeat case_step; done. Qed.

(** The status of a stream that failed: that of the context if it has ended by
    then, else that of the cause. *)
Inductive stream_status (ended : option ctx_end) (f : failure) : gerror → Prop :=
  | status_ctx c : ended = Some c → stream_status ended f (ctx_status c)
  | status_own e : ended = None → own_status f = Some e → stream_status ended f e
  | status_class : ended = None → own_status f = None →
      stream_status ended f (StatusError (chatStreamErrorCode f) "upstream stream failed").

Section rpcs.
Context `{Outside} `{UrlParser}.

Lemma ChatStream_status n r :
  complete_request r = true → ctx_Err n = None →
  ∃ result, stream_spec (S n) r result ∧ (ChatStream n (Some r)).1 = sm_sent result ∧
    match sm_error result, (ChatStream n (Some r)).2 with
    | None, None => True
    | Some f, Some e => stream_status (ctx_Err (n + 4 + length (sm_sent result))) f e
    | _, _ => False
    end.
Proof.
  intros Hc He. exists (Stream (S n) r). split; [apply Stream_spec|]. unfold ChatStream. rewrite Hc, He. cbn [negb].
  cbv zeta. destruct (Stream (S n) r) as [sent [f|]]; cbn [fst snd sm_sent sm_error]; [|done].
  split; [done|]. destruct (ctx_Err (n + 4 + length sent)%nat); [by constructor|].
  destruct (own_status f) eqn:Ho; cbn [default from_option id].
  - by apply status_own.
  - by apply status_class.
Qed.

Lemma ChatNonStream_outcome n r :
  complete_request r = true →
  match ChatNonStream n (Some r) with
  | inl body => ∃ resp, http_Do (S n) None (chat_request "application/json" n r) = inl resp ∧
      http_ok (re_StatusCode resp) = true ∧ re_Err resp = None ∧ body = re_Body resp ∧ json_object body = true
  | inr e => fixed_error chat_texts e ∧
      match url_Parse (cr_Endpoint r) with
      | None => e = StatusError InvalidArgument "invalid upstream request"
      | Some _ =>
          match http_Do (S n) None (chat_request "application/json" n r) with
          | inr f => status_Code e = chatStreamErrorCode f
          | inl resp =>
              if http_ok (re_StatusCode resp) then
                match re_Err resp with
                | Some f => status_Code e = chatStreamErrorCode f
                | None => json_object (re_Body resp) = false ∧ status_Code e = Internal
                end
              else status_Code e = chatStreamErrorCode (HTTPError (re_StatusCode resp))
          end
      end
  end.
Proof.
  intros Hc. unfold ChatNonStream. rewrite Hc. cbn [negb]. destruct (url_Parse _); [|split; [by apply fixed_intro|done]].
  cbv zeta. fold (chat_request "application/json" n r).
  destruct (http_Do _ _ _) as [resp|f]; [|split; [by apply fixed_code; [apply chatStreamErrorCode_OK|]|done]].
  destruct (http_ok _) eqn:Hok; cbn [negb]; [|split; [by apply fixed_code; [apply chatStreamErrorCode_OK|]|done]].
  destruct (re_Err resp) as [f|] eqn:He; [split; [by apply fixed_code; [apply chatStreamErrorCode_OK|]|done]|].
  destruct (json_object (re_Body resp)) eqn:Hj; [by exists resp|]. split; [by apply fixed_intro|done].
Qed.

(** C25: a stream of the upstream passes the lines of one good response on, in
    order and from the first, and ends well only when it passed all of them on
    and one carried a final event; every other end is an error, with the status of
    the context when that had ended, and else of the class its cause has. *)
Theorem upstream_stream_correct n r :
  complete_request r = true → ctx_Err n = None →
  ∃ result, stream_spec (S n) r result ∧ (ChatStream n (Some r)).1 = sm_sent result ∧
    match sm_error result, (ChatStream n (Some r)).2 with
    | None, None => True
    | Some f, Some e => stream_status (ctx_Err (n + 4 + length (sm_sent result))) f e
    | _, _ => False
    end.
Proof. apply ChatStream_status. Qed.

(** An answer of the upstream is the object the provider sent in a good
    response, and every failure is a status with a text of the program and the
    code of its cause. *)
Theorem upstream_answer_correct n r :
  complete_request r = true →
  match ChatNonStream n (Some r) with
  | inl body => ∃ resp, http_Do (S n) None (chat_request "application/json" n r) = inl resp ∧
      http_ok (re_StatusCode resp) = true ∧ re_Err resp = None ∧ body = re_Body resp ∧ json_object body = true
  | inr e => fixed_error chat_texts e ∧
      match url_Parse (cr_Endpoint r) with
      | None => e = StatusError InvalidArgument "invalid upstream request"
      | Some _ =>
          match http_Do (S n) None (chat_request "application/json" n r) with
          | inr f => status_Code e = chatStreamErrorCode f
          | inl resp =>
              if http_ok (re_StatusCode resp) then
                match re_Err resp with
                | Some f => status_Code e = chatStreamErrorCode f
                | None => json_object (re_Body resp) = false ∧ status_Code e = Internal
                end
              else status_Code e = chatStreamErrorCode (HTTPError (re_StatusCode resp))
          end
      end
  end.
Proof. apply ChatNonStream_outcome. Qed.
End rpcs.

Section headers.
Context `{OutsideLaws} `{UrlParser}.

(** C7: in whatever order the headers of the route are met, the request to the
    provider carries the credential under the header chosen for it, which no
    header of the route can replace, and under no other name; every other header
    is one of the route or one of the two fixed ones. *)
Theorem credential_placed accept n r : carries accept r (chat_request accept n r).
Proof. apply carries_request, range_perm. Qed.
End headers.

(** * Requests at work *)

From S2P Require Import UpstreamSim.

Lemma upstream_stream_correct_witness :
  ∃ result, stream_spec 1 (sim_request "https://chat.example.com") result ∧ sm_error result = None ∧
    length (sm_sent result) = 4%nat.
Proof.
  destruct (upstream_stream_correct 0 (sim_request "https://chat.example.com") ltac:(vm_compute; reflexivity)
    ltac:(reflexivity)) as (result & Hs & Hsent & Hst).
  exists result. split; [exact Hs|]. split.
  - destruct (sm_error result); [exfalso; vm_compute in Hst; exact Hst|reflexivity].
  - rewrite <- Hsent. vm_compute. reflexivity.
Defined.

Lemma upstream_answer_correct_witness :
  ∃ e, ChatNonStream 0 (Some (sim_request "https://busy.example.com")) = inr e ∧ fixed_error chat_texts e ∧
    status_Code e = ResourceExhausted.
Proof.
  pose proof (upstream_answer_correct 0 (sim_request "https://busy.example.com") ltac:(vm_compute; reflexivity)) as Ho.
  destruct (ChatNonStream 0 (Some (sim_request "https://busy.example.com"))) as [body|e] eqn:He;
    [vm_compute in He; discriminate He|].
  destruct Ho as [Hf _]. exists e. split; [reflexivity|]. split; [exact Hf|]. vm_compute in He. injection He as <-. reflexivity.
Defined.

Lemma credential_placed_witness :
  rq_Header (chat_request "text/event-stream" 0 (sim_request "https://chat.example.com")) !! "Authorization"%string =
    Some "Bearer token"%string.
Proof.
  destruct (credential_placed "text/event-stream" 0 (sim_request "https://chat.example.com")) as (_ & _ & Hc & _).
  exact Hc.
Defined.
