(* ===== verification/Chat.v ===== *)
(** modules/chat/service.go: a chat request is routed, translated to the
    protocol of the upstream, sent there, and the answer translated back; as a
    stream, or as one document that may have to be put together from a stream. *)

From S2P Require Import Prelude.
From S2P Require Import GoStrings.
From S2P Require Import World.
From S2P Require Import Json.
From S2P Require Import Directory.
From S2P Require Import Route.
From S2P Require Import Translator.

Local Open Scope list_scope.
Local Open Scope Z_scope.

Record Credential := { cd_Mode : string; cd_Secret : string }.

(** * Putting a stream together *)

(** The event of a data line, as [consume] decodes it. *)
Record stream_event := {
  ev_Type : string; ev_Response : option raw_map; ev_OutputIndex : Z; ev_Item : raw_message
}.

Definition no_event : stream_event := Build_stream_event "" None 0 "".

Definition event_field (key : string) (raw : raw_message) (v : json) (e : stream_event) : option stream_event :=
  if for_field "type" key then
    t ← decode_string v (ev_Type e);
    Some (Build_stream_event t (ev_Response e) (ev_OutputIndex e) (ev_Item e))
  else if for_field "response" key then
    m ← decode_map v (ev_Response e);
    Some (Build_stream_event (ev_Type e) m (ev_OutputIndex e) (ev_Item e))
  else if for_field "output_index" key then
    i ← decode_int v (ev_OutputIndex e);
    Some (Build_stream_event (ev_Type e) (ev_Response e) i (ev_Item e))
  else if for_field "item" key then
    Some (Build_stream_event (ev_Type e) (ev_Response e) (ev_OutputIndex e) raw)
  else Some e.

Definition status_error (c : code) (msg : string) : gerror := StatusError c msg.

(** The items with the indices from [i] on, as many as [n]. *)
Fixpoint take_items (items : gmap Z raw_message) (i : Z) (n : nat) : option (list raw_message) :=
  match n with
  | O => Some []
  | S n => item ← items !! i; rest ← take_items items (i + 1) n; Some (item :: rest)
  end.

(** The answer of a final event: its response, with the items collected so far
    when it brings none. *)
Definition final_response (type : string) (response : raw_map) (items : gmap Z raw_message) : res string :=
  let answer (response : raw_map) : res string :=
    match marshal_raw_map response with
    | Some t => Ok (in_braces (js "'type':" +:+ marshal_string type +:+ js ",'response':" +:+ t))
    | None => Err (Opaque "json: error calling MarshalJSON for type json.RawMessage")
    end in
  match response !! "output"%string with
  | Some output =>
      match unmarshal_list output with
      | None => Err (status_error Internal "invalid final output")
      | Some finalItems =>
          if String.eqb output "null" then Err (status_error Internal "invalid final output")
          else if bool_decide (finalItems = []) && (0 <? size items)%nat then
            match take_items items 0 (size items) with
            | None => Err (status_error Internal "incomplete output items")
            | Some l => answer (<["output"%string := default ""%string (marshal_raw_list l)]> response)
            end
          else answer response
      end
  | None =>
      match take_items items 0 (size items) with
      | None => Err (status_error Internal "incomplete output items")
      | Some [] => Err (status_error Internal "missing final output")
      | Some l => answer (<["output"%string := default ""%string (marshal_raw_list l)]> response)
      end
  end.

(** The pending data lines and the items by index. *)
Record collector := { co_data : list string; co_items : gmap Z raw_message }.

Definition nl : string := String (chr 10) "".

(** One event: an answer, or nothing yet. *)
Definition handle_event (raw : string) (items : gmap Z raw_message) :
  res (option string * gmap Z raw_message) :=
  match unmarshal_struct event_field raw no_event with
  | None => Err (status_error Internal "invalid upstream stream event")
  | Some event =>
      if bool_decide (ev_Type event ∈ ["response.failed"; "error"]%string)
      then Err (status_error Internal "upstream generation failed")
      else if String.eqb (ev_Type event) "response.output_item.done" then
        if (ev_OutputIndex event <? 0) || negb (Valid (ev_Item event))
        then Err (status_error Internal "invalid output item")
        else Ok (None, <[ev_OutputIndex event := ev_Item event]> items)
      else if bool_decide (ev_Type event ∈ ["response.completed"; "response.incomplete"]%string) then
        match ev_Response event with
        | None => Err (status_error Internal "missing final response")
        | Some response =>
            match final_response (ev_Type event) response items with
            | Ok t => Ok (Some t, items)
            | Err e => Err e
            | Panic => Panic
            end
        end
      else Ok (None, items)
  end.

Definition consume (c : collector) : res (option string * collector) :=
  match co_data c with
  | [] => Ok (None, c)
  | data =>
      r ← handle_event (join nl data) (co_items c);
      Ok (r.1, Build_collector [] r.2)
  end.

(** The loop over [Recv]. *)
Fixpoint collect (c : collector) (contents : list string) (st_end : option gerror) : res string :=
  match contents with
  | [] =>
      match st_end with
      | Some e => Err e
      | None =>
          r ← consume c;
          match r.1 with
          | Some answer => Ok answer
          | None => Err (status_error Unavailable "upstream stream ended before final response")
          end
      end
  | content :: contents =>
      if String.eqb content "" then
        r ← consume c;
        match r.1 with
        | Some answer => Ok answer
        | None => collect r.2 contents st_end
        end
      else if HasPrefix content "data:" then
        let line := TrimPrefix (TrimPrefix content "data:") " " in
        collect (Build_collector (co_data c ++ [line]) (co_items c)) contents st_end
      else collect c contents st_end
  end.

Definition streamtoNonStream (stream : rpc_stream) : res string :=
  collect (Build_collector [] ∅) (st_contents stream) (st_end stream).

(** * The service *)

(** The body with [stream] set to what is sent; [None] when it is no object. *)
Definition set_stream (body : string) (stream : bool) : option string :=
  match unmarshal_map body with
  | Some (Some fields) => marshal_raw_map (<["stream"%string := marshal_bool stream]> fields)
  | _ => None
  end.

(** The member [response] of an event, nil without one. *)
Definition response_field (key : string) (raw : raw_message) (_ : json) (r : raw_message) : option raw_message :=
  Some (if for_field "response" key then raw else r).

Definition event_response (raw : string) : raw_message :=
  default ""%string (unmarshal_struct response_field raw ""%string).

Definition is_object (raw : string) : bool := Valid raw && HasPrefix (TrimSpace raw) "{".

(** What is sent on the response channel, in order, and what is put into the
    error channel at the end. *)
Record produced := { pd_events : list string; pd_error : option gerror }.

Section service.
Context `{ChatClient} `{Sdk}.
Implicit Types defaultRegistry : Registry.

Definition chatStream (body : string) (credential : Credential) (route : Route) : M rpc_stream :=
  ChatStream body (cd_Secret credential) (cd_Mode credential) (rt_Endpoint route)
    (rt_AuthHeader route) (rt_AuthPrefix route) (rt_Headers route).

(** The answer of the upstream in its own protocol. *)
Definition ask_upstream (reqbody : string) (credential : Credential) (route : Route) : M string :=
  if rt_ForceStream route then
    stream ← chatStream reqbody credential route;
    result ← lift (streamtoNonStream stream);
    mret (if bool_decide (rt_UpstreamFormat route = FormatOpenAIResponse)
          then event_response result else result)
  else
    Directory.ChatNonStream reqbody (cd_Secret credential) (cd_Mode credential) (rt_Endpoint route)
      (rt_AuthHeader route) (rt_AuthPrefix route) (rt_Headers route).

Definition ChatNonStream defaultRegistry (body : string) (credential : Credential) (clientFormat : Format) (model : string) :
  M string :=
  route ← lift (GetRoute defaultRegistry model (cd_Mode credential) clientFormat);
  _ ← reject_if (rt_ForceStream route && negb (bool_decide (rt_UpstreamFormat route = FormatCodex)) &&
        negb (bool_decide (rt_UpstreamFormat route = FormatOpenAIResponse)))
        (status_error InvalidArgument "stream aggregation is unsupported for this upstream format");
  let translated := TranslateRequest clientFormat (rt_UpstreamFormat route) model body (rt_ForceStream route) in
  match set_stream translated (rt_ForceStream route) with
  | None => throw (status_error InvalidArgument "invalid request JSON")
  | Some reqbody =>
      raw ← ask_upstream reqbody credential route;
      let raw := if bool_decide (clientFormat = rt_UpstreamFormat route) then raw
                 else TranslateNonStream (rt_UpstreamFormat route) clientFormat model body reqbody raw in
      if is_object raw then mret raw else throw (status_error Internal "invalid translated response")
  end.

(** The framing of a translated event for the client. *)
Definition frame_event (clientFormat : Format) (event : string) : string :=
  if String.eqb event "" then event
  else if bool_decide (clientFormat = FormatOpenAI) then "data: " +:+ event +:+ nl +:+ nl
  else if HasPrefix (str_rev event) (nl +:+ nl) then event
  else TrimRight event (String (chr 13) nl) +:+ nl +:+ nl.

(** The events one message of the upstream becomes. *)
Definition chunk_events (clientFormat upstreamFormat : Format) (model body reqbody content : string)
    (state : sdk_state) : list string * sdk_state :=
  if bool_decide (clientFormat = upstreamFormat) then ([content +:+ nl], state)
  else if String.eqb content "" then ([], state)
  else let (events, state) := TranslateStream upstreamFormat clientFormat model body reqbody content state in
       (frame_event clientFormat <$> events, state).

Fixpoint stream_events (clientFormat upstreamFormat : Format) (model body reqbody : string)
    (contents : list string) (state : sdk_state) : list string :=
  match contents with
  | [] => []
  | content :: contents =>
      let (events, state) := chunk_events clientFormat upstreamFormat model body reqbody content state in
      select (λ event, negb (String.eqb event "")) events ++
      stream_events clientFormat upstreamFormat model body reqbody contents state
  end.

Definition done_event (clientFormat upstreamFormat : Format) : list string :=
  if bool_decide (clientFormat = FormatOpenAI) && bool_decide (upstreamFormat = FormatCodex)
  then ["data: [DONE]" +:+ nl +:+ nl] else [].

(** The goroutine's sends when nobody cancels. *)
Definition ChatStream_service defaultRegistry (body : string) (credential : Credential) (clientFormat : Format) (model : string) :
  M produced :=
  match GetRoute defaultRegistry model (cd_Mode credential) clientFormat with
  | Err e => mret (Build_produced [] (Some e))
  | Panic => lift Panic
  | Ok route =>
      let upstreamFormat := rt_UpstreamFormat route in
      let reqbody := TranslateRequest clientFormat upstreamFormat model body true in
      r ← attempt (chatStream reqbody credential route);
      match r with
      | inr e => mret (Build_produced [] (Some e))
      | inl stream =>
          let events := stream_events clientFormat upstreamFormat model body reqbody (st_contents stream) sdk_nil in
          mret match st_end stream with
               | None => Build_produced (events ++ done_event clientFormat upstreamFormat) None
               | Some e => Build_produced events (Some e)
               end
      end
  end.
End service.
