(* ===== verification/ChatSpec.v ===== *)
(** The contract of modules/chat/service.go: how a stream is put together, what
    is sent upstream and what comes back. *)

From S2P Require Import Prelude.
From S2P Require Import GoStrings.
From S2P Require Import World.
From S2P Require Import Json.
From S2P Require Import JsonFacts.
From S2P Require Import JsonRaw.
From S2P Require Import Directory.
From S2P Require Import Route.
From S2P Require Import Translator.
From S2P Require Import Chat.

Local Open Scope list_scope.
Local Open Scope Z_scope.

(** * The collector on the inputs of the tests *)

Definition run_lines (lines : list string) : res string :=
  streamtoNonStream (Build_rpc_stream (js <$> lines) None).

Example early_EOF : run_lines ["data: {'type':'response.created'}"; ""]%string =
  Err (StatusError Unavailable "upstream stream ended before final response").
Proof. reflexivity. Qed.

Example failed_event :
  run_lines ["data: {'type':'response.failed','response':{'error':{'message':'secret'}}}"; ""]%string =
  Err (StatusError Internal "upstream generation failed").
Proof. reflexivity. Qed.

Example malformed_event : run_lines ["data: {"; ""]%string =
  Err (StatusError Internal "invalid upstream stream event").
Proof. reflexivity. Qed.

Example missing_output : run_lines ["data: {'type':'response.completed','response':{}}"; ""]%string =
  Err (StatusError Internal "missing final output").
Proof. reflexivity. Qed.

Example empty_output : run_lines ["data: {'type':'response.completed','response':{'output':[]}}"; ""]%string =
  Ok (js "{'type':'response.completed','response':{'output':[]}}").
Proof. reflexivity. Qed.

Example output_fallback :
  run_lines ["data: {'type':'response.output_item.done','output_index':0,'item':{'type': 'message'}}"; "";
             "data: {'type':'response.completed','response':{'usage':{'output_tokens':1}}}"]%string =
  Ok (js "{'type':'response.completed','response':{'output':[{'type':'message'}],'usage':{'output_tokens':1}}}").
Proof. reflexivity. Qed.

(** * Server-sent events *)

(** The data of the events a stream closes with a blank line, and the lines
    still pending at its end. *)
Fixpoint sse_events (pending : list string) (contents : list string) : list string * list string :=
  match contents with
  | [] => ([], pending)
  | content :: contents =>
      if String.eqb content "" then
        let (evs, p) := sse_events [] contents in
        (match pending with [] => evs | _ => join nl pending :: evs end, p)
      else if HasPrefix content "data:"
      then sse_events (pending ++ [TrimPrefix (TrimPrefix content "data:") " "]) contents
      else sse_events pending contents
  end.

(** The events handled when nothing stops before: an end of file closes the last
    one, an error drops it. *)
Definition stream_data (s : rpc_stream) : list string :=
  let (evs, pending) := sse_events [] (st_contents s) in
  match st_end s, pending with
  | None, _ :: _ => evs ++ [join nl pending]
  | _, _ => evs
  end.

(** Handling them in order until one answers or fails. *)
Fixpoint run_events (items : gmap Z raw_message) (evs : list string) : res (option string) :=
  match evs with
  | [] => Ok None
  | ev :: evs =>
      r ← handle_event ev items;
      match r.1 with
      | Some t => Ok (Some t)
      | None => run_events r.2 evs
      end
  end.

Definition aggregate (s : rpc_stream) : res string :=
  r ← run_events ∅ (stream_data s);
  match r, st_end s with
  | Some t, _ => Ok t
  | None, Some e => Err e
  | None, None => Err (StatusError Unavailable "upstream stream ended before final response")
  end.

Definition with_pending (end_ : option gerror) (p : list string * list string) : list string :=
  match end_, p.2 with None, _ :: _ => p.1 ++ [join nl p.2] | _, _ => p.1 end.

Lemma collect_events data items contents end_ :
  collect (Build_collector data items) contents end_ =
  (r ← run_events items (with_pending end_ (sse_events data contents));
   match r, end_ with
   | Some t, _ => Ok t
   | None, Some e => Err e
   | None, None => Err (StatusError Unavailable "upstream stream ended before final response")
   end).
Proof.
  revert data items. induction contents as [|content contents IH]; intros data items.
  - cbn [collect sse_events]. unfold with_pending. cbn [fst snd]. destruct end_ as [e|]; [done|].
    unfold consume. cbn [co_data co_items]. destruct data as [|l data]; [done|]. cbn [app run_events mbind res_bind].
    by destruct (handle_event _ items) as [[[t|] items']|e|].
  - cbn [collect sse_events]. destruct (String.eqb content "").
    + unfold consume. cbn [co_data co_items]. destruct data as [|l data].
      * cbn [mbind res_bind fst snd]. rewrite IH. by destruct (sse_events [] contents).
      * destruct (sse_events [] contents) as [evs p] eqn:Hs.
        assert (Hp : with_pending end_ (join nl (l :: data) :: evs, p) = join nl (l :: data) :: with_pending end_ (evs, p)).
        { unfold with_pending. cbn [fst snd]. by destruct end_, p. }
        rewrite Hp. cbn [run_events mbind res_bind].
        destruct (handle_event _ items) as [[[t|] items']|e|]; cbn [mbind res_bind fst snd]; [done| |done..].
        by rewrite IH, Hs.
    + destruct (HasPrefix content "data:"); apply IH.
Qed.

Lemma streamtoNonStream_aggregate s : streamtoNonStream s = aggregate s.
Proof.
  unfold streamtoNonStream, aggregate, stream_data. rewrite collect_events. unfold with_pending.
  by destruct (sse_events [] (st_contents s)) as [evs [|l p]], (st_end s).
Qed.

(** Putting a stream together is the same as splitting it into its
    server-sent events first and handling those in order. *)
Theorem streamtoNonStream_events s : streamtoNonStream s = aggregate s.
Proof. apply streamtoNonStream_aggregate. Qed.

(** * What the events mean *)

Inductive effect :=
  | Ignored
  | Item (index : Z) (item : raw_message)
  | Final (type : string) (response : raw_map)
  | Refused.

Definition effect_of (raw : string) : effect :=
  match unmarshal_struct event_field raw no_event with
  | None => Refused
  | Some ev =>
      if bool_decide (ev_Type ev ∈ ["response.failed"; "error"]%string) then Refused
      else if String.eqb (ev_Type ev) "response.output_item.done" then
        if (0 <=? ev_OutputIndex ev) && Valid (ev_Item ev) then Item (ev_OutputIndex ev) (ev_Item ev) else Refused
      else if bool_decide (ev_Type ev ∈ ["response.completed"; "response.incomplete"]%string) then
        match ev_Response ev with Some r => Final (ev_Type ev) r | None => Refused end
      else Ignored
  end.

(** The items of events that neither answer nor fail; a later one replaces an
    earlier one of the same index. *)
Fixpoint gather (items : gmap Z raw_message) (evs : list string) : option (gmap Z raw_message) :=
  match evs with
  | [] => Some items
  | ev :: evs =>
      match effect_of ev with
      | Ignored => gather items evs
      | Item i item => gather (<[i := item]> items) evs
      | Final _ _ | Refused => None
      end
  end.

(** A final event is reached, with these items before it. *)
Definition reaches (s : rpc_stream) (items : gmap Z raw_message) (type : string) (response : raw_map) : Prop :=
  ∃ before raw after, stream_data s = before ++ raw :: after ∧ gather ∅ before = Some items ∧
    effect_of raw = Final type response.

(** The items as a list without a gap. *)
Definition in_order (items : gmap Z raw_message) (l : list raw_message) : Prop :=
  size items = length l ∧ ∀ i, (i < length l)%nat → items !! Z.of_nat i = l !! i.

Definition with_output (l : list raw_message) (response : raw_map) : raw_map :=
  <["output"%string := array_text (compacted <$> l)]> response.

(** The response of the answer: its own output, unless that is empty or missing
    while there are items. *)
Definition completed (items : gmap Z raw_message) (response response' : raw_map) : Prop :=
  match response !! "output"%string with
  | Some output =>
      output ≠ "null"%string ∧ ∃ own, unmarshal_list output = Some own ∧
        (response' = response ∧ (own ≠ [] ∨ items = ∅) ∨
         own = [] ∧ items ≠ ∅ ∧ ∃ l, in_order items l ∧ response' = with_output l response)
  | None => ∃ l, in_order items l ∧ l ≠ [] ∧ response' = with_output l response
  end.

(** The text is the answer of this type and response. *)
Definition is_answer (type : string) (response : raw_map) (t : string) : Prop :=
  ∃ rt, unmarshal_map t = Some (Some (<["type"%string := marshal_string type]> {["response"%string := rt]})) ∧
        unmarshal_map rt = Some (Some (compacted <$> response)) ∧ Valid t = true ∧ HasPrefix t "{" = true.

(** No event nests deeper than the decoder's limit less the two levels the answer
    may add around an item. *)
Definition shallow (s : rpc_stream) : Prop :=
  ∀ raw v, raw ∈ stream_data s → parse raw = Some v → (nesting v.2 + 2 <= max_depth)%N.

Lemma shallow_wf s raw v : shallow s → raw ∈ stream_data s → parse raw = Some v → wf 2 v.2.
Proof.
  intros Hs Hin Hp. specialize (Hs raw v Hin Hp). destruct v as [t v]. by eapply wf_nesting; [eapply parse_wf|].
Qed.

(** * Lemmas *)

Lemma take_items_spec items i n l :
  take_items items i n = Some l ↔ length l = n ∧ ∀ j, (j < n)%nat → items !! (i + Z.of_nat j) = l !! j.
Proof.
  revert i l. induction n as [|n IH]; intros i l; cbn [take_items].
  - split; [intros [= <-]; split; [done|lia]|]. intros [Hl _]. by destruct l.
  - split.
    + destruct (items !! i) as [item|] eqn:Hi; [|done]. cbn [mbind option_bind].
      destruct (take_items items (i + 1) n) as [rest|] eqn:Hr; [|done]. intros [= <-].
      apply IH in Hr as [<- Hr]. split; [done|]. intros [|j] Hj; [by rewrite Z.add_0_r|].
      change ((item :: rest) !! S j) with (rest !! j). cbn [length] in Hj. rewrite <- (Hr j) by lia. f_equal. lia.
    + intros [Hl Hj]. destruct l as [|item l]; [done|]. injection Hl as Hl.
      pose proof (Hj 0%nat ltac:(lia)) as H0. rewrite Z.add_0_r in H0. cbn in H0. rewrite H0. cbn [mbind option_bind].
      rewrite (proj2 (IH (i + 1) l)); [done|]. split; [done|]. intros j Hlt.
      change (l !! j) with ((item :: l) !! S j). rewrite <- (Hj (S j)) by lia. f_equal. lia.
Qed.

Lemma take_items_in_order items l : take_items items 0 (size items) = Some l ↔ in_order items l.
Proof.
  rewrite take_items_spec. unfold in_order. split; intros [Hl Hj]; (split; [done|]); intros i Hi;
    [|rewrite Z.add_0_l]; apply Hj; lia.
Qed.

(** What decoding an event keeps. *)
Definition event_good (ev : stream_event) : Prop :=
  (∀ r, ev_Response ev = Some r → good_map 1 r) ∧ (ev_Item ev = ""%string ∨ raw_ok 3 (ev_Item ev)).

Lemma decode_event_good raw t v ev :
  parse raw = Some (t, v) → wf 2 v → unmarshal_struct event_field raw no_event = Some ev → event_good ev.
Proof.
  intros Hp Hwf. unfold unmarshal_struct. rewrite Hp. cbn [mbind option_bind].
  apply (decode_struct_ind event_good _ 2 t); [by eapply parse_raw|done| |split; [done|by left]].
  intros k r x b b' Hm [Hr Hi]. unfold event_field.
  destruct (for_field "type" k); [destruct (decode_string _ _); [|done]; by intros [= <-]|].
  destruct (for_field "response" k).
  { destruct (decode_map x (ev_Response b)) as [m|] eqn:Hd; [|done]. intros [= <-]. split; [|done].
    cbn [ev_Response]. intros m' ->. destruct Hm as (_ & Hpx & Hwx). cbn [fst snd] in *.
    eapply decode_map_good; [exact Hpx|eapply wf_weaken; [done|lia]|exact Hr|exact Hd]. }
  destruct (for_field "output_index" k); [destruct (decode_int _ _); [|done]; by intros [= <-]|].
  destruct (for_field "item" k); [|by intros [= <-]]. intros [= <-]. split; [done|]. right.
  by apply member_raw_ok in Hm.
Qed.

Definition items_good (items : gmap Z raw_message) : Prop := map_Forall (λ _ raw, raw_ok 3 raw) items.

Definition answer_of (type : string) (response : raw_map) : res string :=
  match marshal_raw_map response with
  | Some t => Ok (in_braces (js "'type':" +:+ marshal_string type +:+ js ",'response':" +:+ t))
  | None => Err (Opaque "json: error calling MarshalJSON for type json.RawMessage")
  end.

(** A name without special characters is its own lexeme. *)
Lemma lex_name k : lexeme (k +:+ String quote "") = Some (k, ""%string) → lex k.
Proof. intros Hk. by apply lexeme_lex in Hk as [Hk _]. Qed.

Lemma answer_of_ok type response :
  good_map 1 response → ∃ t, answer_of type response = Ok t ∧ is_answer type response t.
Proof.
  intros Hg. destruct (marshal_raw_map_ok 1 response ltac:(done) Hg) as (rt & Hm & (v & Hv) & Hu & _).
  unfold answer_of. rewrite Hm. eexists. split; [done|].
  set (ms := [("type", (marshal_string type, JString (quoted type))); ("response", (rt, v))]%string).
  assert (Htext : in_braces (js "'type':" +:+ marshal_string type +:+ js ",'response':" +:+ rt) =
                  in_braces (join "," (member_text <$> ms))).
  { unfold ms. cbn [fmap list_fmap join str_concat]. unfold member_text. cbn [fst snd]. rewrite str_app_nil_r.
    f_equal. }
  assert (Hr : reads 0 (in_braces (join "," (member_text <$> ms))) (JObject ms)).
  { apply reads_object; [done|]. apply Forall_cons_2; [|apply Forall_cons_2; [|constructor]]; cbn [fst snd].
    - split; [by apply lex_name|]. apply reads_string, lex_quoted.
    - split; [by apply lex_name|]. apply Hv. lia. }
  apply reads_parse in Hr. exists rt. rewrite Htext. split; [|split; [done|split]].
  - unfold unmarshal_map. rewrite Hr. cbn [mbind option_bind decode_map]. do 2 f_equal.
  - unfold Valid. by rewrite Hr.
  - apply (prefix_app "{").
Qed.

(** The response of the answer, when there is one. *)
Definition next_response (items : gmap Z raw_message) (response : raw_map) : option raw_map :=
  match response !! "output"%string with
  | Some output =>
      own ← unmarshal_list output;
      if String.eqb output "null" then None
      else if bool_decide (own = []) && (0 <? size items)%nat
           then (λ l, with_output l response) <$> take_items items 0 (size items)
           else Some response
  | None =>
      l ← take_items items 0 (size items);
      if bool_decide (l = []) then None else Some (with_output l response)
  end.

Lemma next_completed items response response' :
  next_response items response = Some response' ↔ completed items response response'.
Proof.
  unfold next_response, completed. destruct (response !! "output"%string) as [output|].
  - destruct (unmarshal_list output) as [own|]; cbn [mbind option_bind]; [|split; [done|by intros (_ & ? & ? & _)]].
    destruct (String.eqb_spec output "null") as [->|Hn]; [split; [done|by intros [? _]]|].
    destruct (bool_decide (own = []) && (0 <? size items)%nat) eqn:Hc.
    + apply andb_true_iff in Hc as [->%bool_decide_eq_true Hs%Nat.ltb_lt].
      assert (Hne : items ≠ ∅) by (intros ->; rewrite map_size_empty in Hs; lia).
      split.
      * destruct (take_items _ _ _) as [l|] eqn:Ht; [|done]. intros [= <-]. split; [done|]. exists []. split; [done|].
        right. do 2 (split; [done|]). exists l. split; [by apply take_items_in_order|done].
      * intros (_ & own & [= <-] & [[_ [Hx|Hx]]|(_ & _ & l & Hl & ->)]); [done..|].
        apply take_items_in_order in Hl. by rewrite Hl.
    + assert (Hx : own ≠ [] ∨ items = ∅).
      { apply andb_false_iff in Hc as [?%bool_decide_eq_false|Hs%Nat.ltb_ge]; [by left|right].
        apply map_size_empty_iff. lia. }
      split.
      * intros [= <-]. split; [done|]. exists own. split; [done|]. by left.
      * intros (_ & own' & [= <-] & [[-> _]|(-> & Hne & _)]); [done|]. by destruct Hx.
  - split.
    + destruct (take_items _ _ _) as [l|] eqn:Ht; [|done]. cbn [mbind option_bind]. case_bool_decide; [done|].
      intros [= <-]. exists l. split; [by apply take_items_in_order|done].
    + intros (l & Hl & Hne & ->). apply take_items_in_order in Hl. rewrite Hl. cbn [mbind option_bind].
      by rewrite bool_decide_eq_false_2.
Qed.

Lemma items_output_good items l response :
  items_good items → in_order items l → good_map 1 response →
  marshal_raw_list l = Some (array_text (compacted <$> l)) ∧ good_map 1 (with_output l response).
Proof.
  intros Hi [_ Hl] Hg.
  assert (Hall : Forall (raw_ok 3) l).
  { apply Forall_lookup. intros i raw Hraw. apply (Hi (Z.of_nat i)). rewrite Hl; [done|]. by eapply lookup_lt_Some. }
  destruct (marshal_raw_list_ok 2 l ltac:(done) Hall) as (Hm & _ & Hok). split; [done|].
  apply good_map_insert; [|done|done]. exists (N_of_ascii <$> list_ascii_of_string "output"). split; [by repeat constructor|done].
Qed.

Lemma final_response_next type response items :
  items_good items → good_map 1 response →
  match next_response items response with
  | Some response' => final_response type response items = answer_of type response' ∧ good_map 1 response'
  | None => ∃ m, final_response type response items = Err (StatusError Internal m)
  end.
Proof.
  intros Hi Hg.
  assert (Hout : ∀ l, take_items items 0 (size items) = Some l →
    default ""%string (marshal_raw_list l) = array_text (compacted <$> l) ∧ good_map 1 (with_output l response)).
  { intros l Hl%take_items_in_order. destruct (items_output_good items l response Hi Hl Hg) as [-> ?]. done. }
  unfold next_response, final_response. destruct (response !! "output"%string) as [output|].
  - destruct (unmarshal_list output) as [own|]; cbn [mbind option_bind]; [|by eexists].
    destruct (String.eqb output "null"); [by eexists|].
    destruct (bool_decide (own = []) && (0 <? size items)%nat); [|done].
    destruct (take_items items 0 (size items)) as [l|]; [|by eexists]. cbn [fmap option_map option_fmap].
    destruct (Hout l eq_refl) as [-> Hgl]. done.
  - destruct (take_items items 0 (size items)) as [l|]; [|by eexists]. cbn [mbind option_bind].
    case_bool_decide as Hl; [subst; by eexists|]. destruct (Hout l eq_refl) as [Hml Hgl].
    destruct l as [|raw l]; [done|]. rewrite Hml. done.
Qed.

(** One event does what its effect says. *)
Lemma handle_event_effect raw items :
  match effect_of raw with
  | Ignored => handle_event raw items = Ok (None, items)
  | Item i item => handle_event raw items = Ok (None, <[i := item]> items)
  | Final type response =>
      handle_event raw items =
        match final_response type response items with Ok t => Ok (Some t, items) | Err e => Err e | Panic => Panic end
  | Refused => ∃ m, handle_event raw items = Err (StatusError Internal m)
  end.
Proof.
  unfold effect_of, handle_event. destruct (unmarshal_struct event_field raw no_event) as [ev|]; [|by eexists].
  case_bool_decide; [by eexists|]. destruct (String.eqb (ev_Type ev) _).
  - rewrite Z.ltb_antisym, <- negb_andb.
    destruct ((0 <=? ev_OutputIndex ev) && Valid (ev_Item ev)); cbn [negb]; [done|by eexists].
  - case_bool_decide; [|done]. destruct (ev_Response ev); [done|by eexists].
Qed.

Lemma effect_good raw :
  (∀ v, parse raw = Some v → wf 2 v.2) →
  match effect_of raw with
  | Item _ item => raw_ok 3 item
  | Final _ response => good_map 1 response
  | _ => True
  end.
Proof.
  intros Hs. unfold effect_of.
  destruct (unmarshal_struct event_field raw no_event) as [ev|] eqn:Hev; [|done].
  assert (Hg : event_good ev).
  { pose proof Hev as Hp. unfold unmarshal_struct in Hp. destruct (parse raw) as [[t v]|] eqn:Hpr; [|done].
    by apply (decode_event_good raw t v); [|apply (Hs (t, v))|]. }
  destruct Hg as [Hr Hi]. case_bool_decide; [done|]. destruct (String.eqb (ev_Type ev) _).
  - destruct (0 <=? ev_OutputIndex ev); [|done]. destruct (Valid (ev_Item ev)) eqn:Hv; [|done]. cbn [andb].
    destruct Hi as [Hi|Hi]; [by rewrite Hi in Hv|done].
  - case_bool_decide; [|done]. destruct (ev_Response ev) as [r|] eqn:Her; [|done]. by apply Hr.
Qed.

(** Running through events that neither answer nor fail. *)
Lemma run_gather before items items' evs :
  gather items before = Some items' → run_events items (before ++ evs) = run_events items' evs.
Proof.
  revert items. induction before as [|ev before IH]; intros items; cbn [gather app]; [by intros [= ->]|].
  pose proof (handle_event_effect ev items) as He. cbn [run_events].
  destruct (effect_of ev) as [|i item| |]; [| |done..]; rewrite He; cbn [mbind res_bind fst snd]; apply IH.
Qed.

Lemma gather_good items items' evs :
  (∀ raw v, raw ∈ evs → parse raw = Some v → wf 2 v.2) → items_good items →
  gather items evs = Some items' → items_good items'.
Proof.
  revert items. induction evs as [|ev evs IH]; intros items Hs Hi; cbn [gather]; [by intros [= <-]|].
  pose proof (effect_good ev (λ v, Hs ev v ltac:(set_solver))) as He.
  destruct (effect_of ev) as [|i item| |]; [..|done|done]; apply IH; try done; try set_solver.
  by apply map_Forall_insert_2.
Qed.

(** A run stops at its first event that answers or fails, or runs to the end. *)
Lemma run_events_stop items evs :
  (∃ items', gather items evs = Some items' ∧ run_events items evs = Ok None) ∨
  ∃ before raw after items', evs = before ++ raw :: after ∧ gather items before = Some items' ∧
    match effect_of raw with
    | Final type response => run_events items evs =
        match final_response type response items' with Ok t => Ok (Some t) | Err e => Err e | Panic => Panic end
    | Refused => ∃ m, run_events items evs = Err (StatusError Internal m)
    | _ => False
    end.
Proof.
  revert items. induction evs as [|ev evs IH]; intros items; [left; by exists items|].
  pose proof (handle_event_effect ev items) as He.
  destruct (effect_of ev) as [|i item|type response|] eqn:Hev.
  - destruct (IH items) as [(items' & Hg & Hr)|(before & raw & after & items' & -> & Hg & Hr)].
    + left. exists items'. cbn [gather run_events]. rewrite Hev, He. done.
    + right. exists (ev :: before), raw, after, items'. cbn [gather run_events app]. rewrite Hev, He. done.
  - destruct (IH (<[i := item]> items)) as [(items' & Hg & Hr)|(before & raw & after & items' & -> & Hg & Hr)].
    + left. exists items'. cbn [gather run_events]. rewrite Hev, He. done.
    + right. exists (ev :: before), raw, after, items'. cbn [gather run_events app]. rewrite Hev, He. done.
  - right. exists [], ev, evs, items. rewrite Hev. cbn [run_events]. rewrite He.
    do 2 (split; [done|]). by destruct (final_response type response items).
  - right. exists [], ev, evs, items. rewrite Hev. do 2 (split; [done|]). destruct He as [m He]. exists m.
    cbn [run_events]. by rewrite He.
Qed.

(** C21: an answer is only given for the first event that ends the generation,
    with no failure before it; its response is the one of that event, completed
    with the items that came before, in the order of their indices and without a
    gap; and it is an object a decoder reads.  The events are nested two levels
    less than the decoder reads, since the answer wraps them. *)
Theorem streamtoNonStream_sound s t :
  shallow s → streamtoNonStream s = Ok t →
  ∃ items type response response', reaches s items type response ∧
    completed items response response' ∧ is_answer type response' t.
Proof.
  intros Hs. rewrite streamtoNonStream_aggregate. unfold aggregate.
  destruct (run_events_stop ∅ (stream_data s))
    as [(items & _ & ->)|(before & raw & after & items & Hev & Hg & Hr)]; [by destruct (st_end s)|].
  destruct (effect_of raw) as [| |type response|] eqn:Hef; [done..| |by destruct Hr as [m ->]].
  assert (Hraw : raw ∈ stream_data s) by (rewrite Hev; set_solver).
  pose proof (effect_good raw (λ v, shallow_wf s raw v Hs Hraw)) as Hgood. rewrite Hef in Hgood.
  assert (Hi : items_good items).
  { eapply (gather_good ∅ items before); [|apply map_Forall_empty|done].
    intros x v Hx. apply (shallow_wf s); [done|]. rewrite Hev. set_solver. }
  pose proof (final_response_next type response items Hi Hgood) as Hn.
  destruct (next_response items response) as [response'|] eqn:Hnext.
  - destruct Hn as [Hfr Hg']. destruct (answer_of_ok type response' Hg') as (t' & Ha & Hans).
    rewrite Hfr, Ha in Hr. rewrite Hr. cbn [mbind res_bind]. intros [= <-].
    exists items, type, response, response'. split; [by exists before, raw, after|].
    split; [by apply next_completed|done].
  - destruct Hn as [m Hn]. rewrite Hn in Hr. by rewrite Hr.
Qed.

(** C22: whenever the stream reaches an event that ends the generation and its
    response can be completed from the items before it, the answer is given,
    whatever follows in the stream and however it ends, as long as the events are
    nested two levels less than the decoder reads. *)
Theorem streamtoNonStream_complete s items type response response' :
  shallow s → reaches s items type response → completed items response response' →
  ∃ t, streamtoNonStream s = Ok t ∧ is_answer type response' t.
Proof.
  intros Hs (before & raw & after & Hev & Hg & Hef) Hc. rewrite streamtoNonStream_aggregate. unfold aggregate.
  assert (Hraw : raw ∈ stream_data s) by (rewrite Hev; set_solver).
  pose proof (effect_good raw (λ v, shallow_wf s raw v Hs Hraw)) as Hgood. rewrite Hef in Hgood.
  assert (Hi : items_good items).
  { eapply (gather_good ∅ items before); [|apply map_Forall_empty|done].
    intros x v Hx. apply (shallow_wf s); [done|]. rewrite Hev. set_solver. }
  pose proof (final_response_next type response items Hi Hgood) as Hn.
  apply next_completed in Hc. rewrite Hc in Hn. destruct Hn as [Hfr Hg'].
  destruct (answer_of_ok type response' Hg') as (t & Ha & Hans). exists t. split; [|done].
  rewrite Hev, (run_gather _ _ _ _ Hg). cbn [run_events].
  pose proof (handle_event_effect raw items) as Hh. rewrite Hef, Hfr, Ha in Hh. by rewrite Hh.
Qed.

(** * One document *)

(** Setting [stream] keeps every other member. *)
Lemma set_stream_ok body b :
  match unmarshal_map body with
  | Some (Some fields) => ∃ t, set_stream body b = Some t ∧ HasPrefix t "{" = true ∧
      unmarshal_map t = Some (Some (<["stream"%string := marshal_bool b]> (compacted <$> fields)))
  | _ => set_stream body b = None
  end.
Proof.
  unfold set_stream. destruct (unmarshal_map body) as [[fields|]|] eqn:Hb; [|done..].
  apply unmarshal_map_good in Hb. destruct (marshal_bool_ok 1 b) as [Hok Hc].
  assert (Hg : good_map 0 (<["stream"%string := marshal_bool b]> fields)).
  { apply good_map_insert; [|done|done]. exists (N_of_ascii <$> list_ascii_of_string "stream").
    split; [by repeat constructor|done]. }
  destruct (marshal_raw_map_ok 0 _ ltac:(done) Hg) as (t & Hm & _ & Hu & Hb'). exists t. split; [done|]. split; [done|].
  by rewrite Hu, fmap_insert, Hc.
Qed.

(** The request carries the credential to the endpoint of the route, and the
    translated body with [stream] set to what the route asks for. *)
Definition request_for (route : Route) (credential : Credential) (translated : string) (req : ChatRequest) : Prop :=
  cr_Endpoint req = rt_Endpoint route ∧ cr_Secret req = cd_Secret credential ∧
  cr_Authmode req = cd_Mode credential ∧ cr_AuthHeader req = rt_AuthHeader route ∧
  cr_AuthPrefix req = rt_AuthPrefix route ∧ cr_Headers req = rt_Headers route ∧
  HasPrefix (cr_Data req) "{" = true ∧
  ∃ fields, unmarshal_map translated = Some (Some fields) ∧
    unmarshal_map (cr_Data req) =
      Some (Some (<["stream"%string := marshal_bool (rt_ForceStream route)]> (compacted <$> fields))).

(** The routes whose streams can be put together. *)
Definition aggregable (route : Route) : Prop :=
  rt_ForceStream route = true → rt_UpstreamFormat route ∈ [FormatCodex; FormatOpenAIResponse].

Section service.
Context `{ChatClient} `{Sdk}.

(** What the upstream answers to a request at a step, in its own protocol. *)
Definition upstream_answer (route : Route) (req : ChatRequest) (n : nat) : res string :=
  if rt_ForceStream route then
    match rpc_ChatStream n req with
    | inl stream =>
        t ← streamtoNonStream stream;
        Ok (if bool_decide (rt_UpstreamFormat route = FormatOpenAIResponse) then event_response t else t)
    | inr e => Err e
    end
  else match rpc_ChatNonStream n req with
       | inl (Some raw) => Ok raw
       | inl None => Err (StatusError Internal "empty upstream response")
       | inr e => Err e
       end.

(** The answer in the protocol of the client. *)
Definition for_client (route : Route) (clientFormat : Format) (model body reqbody raw : string) : string :=
  if bool_decide (clientFormat = rt_UpstreamFormat route) then raw
  else TranslateNonStream (rt_UpstreamFormat route) clientFormat model body reqbody raw.

Lemma final_response_no_panic type response items : final_response type response items ≠ Panic.
Proof.
  unfold final_response.
  repeat match goal with |- context [match ?x with _ => _ end] =>
    lazymatch x with context [match _ with _ => _ end] => fail | _ => destruct x end end; done.
Qed.

Lemma streamtoNonStream_no_panic s : streamtoNonStream s ≠ Panic.
Proof.
  rewrite streamtoNonStream_aggregate. unfold aggregate.
  destruct (run_events_stop ∅ (stream_data s)) as [(items & _ & ->)|(b & raw & a & items & _ & _ & Hr)];
    [by destruct (st_end s)|].
  destruct (effect_of raw) as [| |type response|]; [done..| |by destruct Hr as [m ->]].
  pose proof (final_response_no_panic type response items). by destruct (final_response _ _ _); rewrite Hr.
Qed.

Lemma ask_upstream_run reqbody credential route w :
  ask_upstream reqbody credential route w =
    (upstream_answer route (Build_ChatRequest reqbody (cd_Secret credential) (rt_Endpoint route) (cd_Mode credential)
      (rt_AuthHeader route) (rt_AuthPrefix route) (rt_Headers route)) (w_step w), tick w).
Proof.
  unfold ask_upstream, upstream_answer. destruct (rt_ForceStream route).
  - unfold chatStream, ChatStream, lift, mbind, M_bind, res_bind, mret, M_ret.
    destruct (rpc_ChatStream _ _) as [stream|e]; [|done]. by destruct (streamtoNonStream stream).
  - unfold Directory.ChatNonStream, rpc. by destruct (rpc_ChatNonStream _ _) as [[raw|]|e].
Qed.

Lemma upstream_answer_no_panic route req n : upstream_answer route req n ≠ Panic.
Proof.
  unfold upstream_answer. destruct (rt_ForceStream route).
  - destruct (rpc_ChatStream n req) as [stream|]; [|done]. pose proof (streamtoNonStream_no_panic stream).
    by destruct (streamtoNonStream stream).
  - by destruct (rpc_ChatNonStream n req) as [[raw|]|].
Qed.

(** What becomes of a request for one document. *)
Definition nonstream_outcome reg body credential clientFormat model (w : world) (r : res string) (w' : world) : Prop :=
  match GetRoute reg model (cd_Mode credential) clientFormat with
  | Ok route =>
      let translated := TranslateRequest clientFormat (rt_UpstreamFormat route) model body (rt_ForceStream route) in
      (∃ req, aggregable route ∧ request_for route credential translated req ∧ w' = tick w ∧
         match upstream_answer route req (w_step w) with
         | Ok raw =>
             let answer := for_client route clientFormat model body (cr_Data req) raw in
             r = (if is_object answer then Ok answer else Err (StatusError Internal "invalid translated response"))
         | Err e => r = Err e
         | Panic => False
         end) ∨
      w' = w ∧ (∃ m, r = Err (StatusError InvalidArgument m)) ∧
        (¬ aggregable route ∨ ∀ fields, unmarshal_map translated ≠ Some (Some fields))
  | _ => r = Err ErrUnsupported ∧ w' = w
  end.

Lemma wp_ChatNonStream reg body credential clientFormat model w :
  wp (ChatNonStream reg body credential clientFormat model)
    (nonstream_outcome reg body credential clientFormat model w) w.
Proof.
  unfold ChatNonStream, nonstream_outcome. wp_step.
  assert (Hroute : (∃ route, GetRoute reg model (cd_Mode credential) clientFormat = Ok route) ∨
                   GetRoute reg model (cd_Mode credential) clientFormat = Err ErrUnsupported).
  { unfold GetRoute, getRoute. case_match; eauto. }
  destruct Hroute as [[route Hroute]|Hroute]; rewrite Hroute; unfold lift, wp at 1; cbn [fst snd]; [|done].
  wp_step. wp_step.
  { right. split; [done|]. split; [by eexists|]. left. unfold aggregable. prop_guards.
    intros Ha. specialize (Ha ltac:(done)). rewrite !elem_of_cons, elem_of_nil in Ha. naive_solver. }
  assert (Hagg : aggregable route).
  { intros Hf. rename select (_ && _ = false) into Hc. rewrite Hf in Hc. cbn [andb] in Hc.
    rewrite !andb_false_iff, !negb_false_iff, !bool_decide_eq_true in Hc. set_solver. }
  cbv zeta. set (translated := TranslateRequest _ _ _ _ _).
  pose proof (set_stream_ok translated (rt_ForceStream route)) as Hset.
  assert (Hno : (∀ fields, unmarshal_map translated ≠ Some (Some fields)) → set_stream translated (rt_ForceStream route) = None).
  { intros Hn. destruct (unmarshal_map translated) as [[fields|]|]; [by destruct (Hn fields)|done..]. }
  destruct (set_stream translated (rt_ForceStream route)) as [reqbody|] eqn:Hreq.
  - destruct (unmarshal_map translated) as [[fields|]|] eqn:Hu; [|done..]. destruct Hset as (t & [= <-] & Hbrace & Hdata).
    set (req := Build_ChatRequest reqbody (cd_Secret credential) (rt_Endpoint route) (cd_Mode credential)
      (rt_AuthHeader route) (rt_AuthPrefix route) (rt_Headers route)).
    assert (Hfor : request_for route credential translated req) by (repeat (split; [done|]); by exists fields).
    pose proof (upstream_answer_no_panic route req (w_step w)) as Hnp.
    unfold wp, mbind, M_bind. rewrite ask_upstream_run. fold req.
    left. exists req. split; [done|]. split; [done|].
    destruct (upstream_answer route req (w_step w)) as [raw|e|] eqn:Ha; [|done..].
    fold (for_client route clientFormat model body reqbody raw). change reqbody with (cr_Data req).
    by destruct (is_object _).
  - destruct (unmarshal_map translated) as [[fields|]|] eqn:Hu; [by destruct Hset as (? & ? & _)|..].
    all: wp_step; right; split; [done|]; split; [by eexists|]; right; intros fields; congruence.
Qed.
(** A request is only sent to the endpoint that the registry names for the
    model, the kind of credential and the protocol of the client, with [stream]
    as the route wants it and every other member of the translated body kept; the
    answer is what the upstream answered, translated for the client, and always
    an object.  Without a route, with a body that is no object or a stream that
    could not be put together nothing is sent. *)
Theorem ChatNonStream_correct reg body credential clientFormat model w :
  wp (ChatNonStream reg body credential clientFormat model)
    (nonstream_outcome reg body credential clientFormat model w) w.
Proof. apply wp_ChatNonStream. Qed.

(** * A stream *)

(** An event as a client of this protocol expects it: never empty, for OpenAI one
    data line, otherwise closed by a blank line. *)
Definition framed (clientFormat : Format) (event : string) : Prop :=
  event ≠ ""%string ∧
  if bool_decide (clientFormat = FormatOpenAI) then ∃ data, event = "data: " +:+ data +:+ nl +:+ nl
  else ∃ text, event = text +:+ nl +:+ nl.

Lemma frame_event_framed clientFormat event :
  event ≠ ""%string → framed clientFormat (frame_event clientFormat event).
Proof.
  intros Hne. unfold framed, frame_event. rewrite (proj2 (String.eqb_neq event "")) by done.
  case_bool_decide; [split; [done|]; by eexists|].
  destruct (HasPrefix (str_rev event) (nl +:+ nl)) eqn:Hp.
  - split; [done|]. apply HasPrefix_split in Hp. eexists.
    rewrite <- (str_rev_involutive event), Hp at 1. rewrite str_rev_app_distr. done.
  - split; [|by eexists]. intros Heq.
    assert (Hl : String.length (TrimRight event (String (chr 13) nl) +:+ nl +:+ nl) = 0%nat) by by rewrite Heq.
    rewrite !length_str_app in Hl. cbn in Hl. lia.
Qed.

Lemma stream_events_framed clientFormat upstreamFormat model body reqbody contents state event :
  clientFormat ≠ upstreamFormat →
  event ∈ stream_events clientFormat upstreamFormat model body reqbody contents state → framed clientFormat event.
Proof.
  intros Hne. revert state. induction contents as [|content contents IH]; intros state; cbn [stream_events];
    [by intros ?%not_elem_of_nil|].
  unfold chunk_events. rewrite bool_decide_eq_false_2 by done.
  destruct (String.eqb content "").
  - cbn [app]. change (select _ []) with (@nil string). cbn [app]. apply IH.
  - destruct (TranslateStream _ _ _ _ _ _ _) as [evs state'].
    rewrite elem_of_app, elem_of_select, list_elem_of_fmap.
    intros [[Hx (ev & -> & _)]|Hin]; [|by eapply IH]. apply frame_event_framed. intros ->.
    cbn in Hx. by unfold frame_event in Hx.
Qed.

(** The lines of an upstream that speaks the client's protocol. *)
Lemma stream_events_same format model body reqbody contents state :
  stream_events format format model body reqbody contents state = (λ content, content +:+ nl) <$> contents.
Proof.
  revert state. induction contents as [|content contents IH]; intros state; [done|].
  cbn [stream_events]. unfold chunk_events. rewrite bool_decide_eq_true_2 by done.
  rewrite IH. cbn [fmap list_fmap]. unfold select, filter, list_filter.
  assert (Hne : String.eqb (content +:+ nl) "" = false).
  { apply String.eqb_neq. intros Heq. assert (Hl : String.length (content +:+ nl) = 0%nat) by by rewrite Heq.
    rewrite length_str_app in Hl. cbn in Hl. lia. }
  unfold select. rewrite Hne. done.
Qed.

(** The state the converter is in after some messages. *)
Fixpoint state_after (clientFormat upstreamFormat : Format) (model body reqbody : string)
    (contents : list string) (state : sdk_state) : sdk_state :=
  match contents with
  | [] => state
  | content :: contents =>
      state_after clientFormat upstreamFormat model body reqbody contents
        (chunk_events clientFormat upstreamFormat model body reqbody content state).2
  end.

Lemma stream_events_app clientFormat upstreamFormat model body reqbody l1 l2 state :
  stream_events clientFormat upstreamFormat model body reqbody (l1 ++ l2) state =
  stream_events clientFormat upstreamFormat model body reqbody l1 state ++
  stream_events clientFormat upstreamFormat model body reqbody l2
    (state_after clientFormat upstreamFormat model body reqbody l1 state).
Proof.
  revert state. induction l1 as [|c l1 IH]; intros state; [done|]. cbn [app stream_events state_after].
  destruct (chunk_events _ _ _ _ _ _ _) as [evs state'] eqn:Hc. cbn [snd]. by rewrite IH, app_assoc.
Qed.

Lemma stream_events_prefix clientFormat upstreamFormat model body reqbody l1 l2 state :
  stream_events clientFormat upstreamFormat model body reqbody l1 state `prefix_of`
  stream_events clientFormat upstreamFormat model body reqbody (l1 ++ l2) state.
Proof. rewrite stream_events_app. by eexists. Qed.

(** What becomes of a request for a stream. *)
Definition stream_outcome reg body credential clientFormat model (w : world) (r : res produced) (w' : world) : Prop :=
  ∃ p, r = Ok p ∧
    match GetRoute reg model (cd_Mode credential) clientFormat with
    | Ok route =>
        let upstreamFormat := rt_UpstreamFormat route in
        let reqbody := TranslateRequest clientFormat upstreamFormat model body true in
        let sent contents := stream_events clientFormat upstreamFormat model body reqbody contents sdk_nil in
        w' = tick w ∧
        match rpc_ChatStream (w_step w) (Build_ChatRequest reqbody (cd_Secret credential) (rt_Endpoint route)
                (cd_Mode credential) (rt_AuthHeader route) (rt_AuthPrefix route) (rt_Headers route)) with
        | inr e => p = Build_produced [] (Some e)
        | inl stream =>
            pd_error p = st_end stream ∧
            pd_events p = sent (st_contents stream) ++
              (match st_end stream with None => done_event clientFormat upstreamFormat | Some _ => [] end) ∧
            (∀ l1 l2, st_contents stream = l1 ++ l2 → sent l1 `prefix_of` pd_events p) ∧
            (if bool_decide (clientFormat = upstreamFormat)
             then reqbody = body ∧ sent (st_contents stream) = (λ content, content +:+ nl) <$> st_contents stream
             else ∀ event, event ∈ sent (st_contents stream) → framed clientFormat event)
        end
    | _ => w' = w ∧ p = Build_produced [] (Some ErrUnsupported)
    end.

Lemma wp_ChatStream reg body credential clientFormat model w :
  wp (ChatStream_service reg body credential clientFormat model)
    (stream_outcome reg body credential clientFormat model w) w.
Proof.
  unfold ChatStream_service, stream_outcome.
  assert (Hroute : (∃ route, GetRoute reg model (cd_Mode credential) clientFormat = Ok route) ∨
                   GetRoute reg model (cd_Mode credential) clientFormat = Err ErrUnsupported).
  { unfold GetRoute, getRoute. case_match; eauto. }
  destruct Hroute as [[route Hroute]|Hroute]; rewrite Hroute; [|wp_step; by eexists].
  cbv zeta. set (reqbody := TranslateRequest _ _ _ _ _). wp_step. wp_step.
  unfold wp at 1. unfold chatStream, ChatStream.
  destruct (rpc_ChatStream _ _) as [stream|e]; cbn [fst snd]; wp_step; eexists; (split; [done|]); (split; [done|]); [|done].
  split; [by destruct (st_end stream)|].
  assert (Hev : pd_events match st_end stream with
    | Some e => Build_produced (stream_events clientFormat (rt_UpstreamFormat route) model body reqbody (st_contents stream) sdk_nil) (Some e)
    | None => Build_produced (stream_events clientFormat (rt_UpstreamFormat route) model body reqbody (st_contents stream) sdk_nil ++
                done_event clientFormat (rt_UpstreamFormat route)) None
    end = stream_events clientFormat (rt_UpstreamFormat route) model body reqbody (st_contents stream) sdk_nil ++
      match st_end stream with None => done_event clientFormat (rt_UpstreamFormat route) | Some _ => [] end)
    by (destruct (st_end stream); [by rewrite app_nil_r|done]).
  split; [exact Hev|]. split.
  - intros l1 l2 Hl. rewrite Hev, Hl. apply prefix_app_r, stream_events_prefix.
  - case_bool_decide as Heq.
    + split; [unfold reqbody, TranslateRequest; by rewrite bool_decide_eq_true_2|]. rewrite <- Heq. apply stream_events_same.
    + intros event. by apply stream_events_framed.
Qed.

(** The events of a stream are the upstream's messages, translated for the
    client and framed as its protocol wants them, or its lines unchanged when it
    speaks the client's protocol; those of the first messages never depend on
    later ones.  An error of the upstream comes after them, and the end mark of
    the OpenAI protocol only after a stream that ended well. *)
Theorem ChatStream_correct reg body credential clientFormat model w :
  wp (ChatStream_service reg body credential clientFormat model)
    (stream_outcome reg body credential clientFormat model w) w.
Proof. apply wp_ChatStream. Qed.

End service.

(** * The contract at work: two items out of order, then the end *)

Definition sample_lines : list string :=
  ["event: response.output_item.done"; "data: {'type':'response.output_item.done','output_index':1,'item':{'n': 2}}"; "";
   "data: {'type':'response.output_item.done','output_index':0,'item':{'n': 1}}"; "";
   "data: {'type':'response.completed',"; "data: 'response':{'id':'r','output':[]}}"; ""]%string.

Definition sample_stream : rpc_stream := Build_rpc_stream (js <$> sample_lines) None.

Lemma sample_shallow : shallow sample_stream.
Proof.
  assert (Hall : forallb (λ raw, match parse raw with Some v => (nesting v.2 + 2 <=? max_depth)%N | None => true end)
    (stream_data sample_stream) = true) by (vm_compute; reflexivity).
  intros raw v Hin%list_elem_of_In Hp. rewrite forallb_forall in Hall. specialize (Hall raw Hin).
  rewrite Hp in Hall. by apply N.leb_le.
Qed.

Lemma streamtoNonStream_sound_witness :
  streamtoNonStream sample_stream =
    Ok (js "{'type':'response.completed','response':{'id':'r','output':[{'n':1},{'n':2}]}}") ∧
  ∃ items type response response', reaches sample_stream items type response ∧
    completed items response response'.
Proof.
  assert (Ha : streamtoNonStream sample_stream =
    Ok (js "{'type':'response.completed','response':{'id':'r','output':[{'n':1},{'n':2}]}}")) by (vm_compute; reflexivity).
  split; [exact Ha|].
  destruct (streamtoNonStream_sound sample_stream _ sample_shallow Ha) as (items & ty & r & r' & H1 & H2 & _).
  exists items, ty, r, r'. split; [exact H1|exact H2].
Defined.

Definition sample_items : gmap Z raw_message := <[0 := js "{'n': 1}"]> (<[1 := js "{'n': 2}"]> ∅).
Definition sample_response : raw_map := <["id" := js "'r'"]> (<["output" := "[]"]> ∅)%string.

Lemma sample_reaches : reaches sample_stream sample_items "response.completed" sample_response.
Proof.
  exists (take 2 (stream_data sample_stream)), (default ""%string (stream_data sample_stream !! 2%nat)), [].
  split; [vm_compute; reflexivity|]. split; vm_compute; reflexivity.
Qed.

Lemma streamtoNonStream_complete_witness :
  ∃ t, streamtoNonStream sample_stream = Ok t ∧
    is_answer "response.completed" (with_output [js "{'n': 1}"; js "{'n': 2}"] sample_response) t.
Proof.
  apply (streamtoNonStream_complete sample_stream sample_items _ sample_response); [exact sample_shallow|exact sample_reaches|].
  split; [discriminate|]. exists []. split; [reflexivity|]. right. split; [reflexivity|]. split; [by_decide|].
  exists [js "{'n': 1}"; js "{'n': 2}"]. split; [|reflexivity]. split; [reflexivity|].
  intros i Hi. destruct i as [|[|i]]; [reflexivity|reflexivity|]. cbn in Hi. lia.
Defined.
