(* ===== verification/Oauth.v ===== *)
(** modules/oauth: the accounts a user authorises at a provider.  The browser
    login keeps its state in Redis until the callback, the device login until
    its completion; both end by exchanging a code, verifying the ID token and
    storing the encrypted credentials.  Also the refresh of stored credentials,
    the list and the deletion.  Follows oauth_service.go, oauth_repository.go,
    oauth_handler.go and middleware/redis/oauth_state.go. *)

From S2P Require Import Prelude.
From S2P Require Import GoStrings.
From S2P Require Import Codec.
From S2P Require Import Schema.
From S2P Require Import Integrity.
From S2P Require Import Stores.
From S2P Require Import World.
From S2P Require Import Security.
From S2P Require Import Http.
From S2P Require Import Directory.
From S2P Require Import Oidc.

Local Open Scope list_scope.
Local Open Scope N_scope.

(** * Errors and data *)

Definition ErrOAuthNotFound : gerror := Sentinel "oauth.ErrOAuthNotFound" "oauth credential not found".
Definition ErrInvalidOAuthState : gerror := Sentinel "oauth.ErrInvalidOAuthState" "invalid oauth state".

Record LoginFlow := {
  lf_Provider : string; lf_UserID : N; lf_Nonce : string; lf_Verifier : string; lf_ExpiresAt : time
}.

Record deviceLoginFlow := {
  dl_Provider : string; dl_UserID : N; dl_DeviceAuthID : string; dl_UserCode : string;
  dl_Interval : N; dl_ExpiresAt : time
}.

Record IDTokenClaims := { cl_Email : string; cl_AccountID : string }.

Record OAuthListItem := {
  ol_ID : N; ol_AccountID : string; ol_Email : string; ol_Type : string; ol_Disabled : bool;
  ol_Expired : option time; ol_LastRefresh : option time; ol_CreatedAt : time; ol_UpdatedAt : time
}.

(** The service: which of its pointers are set, the providers (a nil entry is
    [None]) and the encryption key. *)
Record OauthService := {
  os_redisClient : bool; os_oidcAuth : gmap string (option OIDCAuth);
  os_directory : bool; os_repository : bool; os_encryptionKey : string
}.

(** JSON of the stored flows.  Values that JSON can carry, with valid UTF-8 and a
    year of four digits, are encoded and decoded back. *)
Class Json (A : Type) := {
  json_Marshal : A → string + gerror;
  json_Unmarshal : string → option A;
  json_carries : A → Prop
}.

Class JsonLaws (A : Type) `{Json A} : Prop := {
  json_roundtrip (a : A) : json_carries a → ∃ s, json_Marshal a = inl s ∧ json_Unmarshal s = Some a
}.

(** golang.org/x/oauth2: the URL of an authorization request. *)
Inductive AuthCodeOption :=
  | S256ChallengeOption (verifier : string)
  | SetAuthURLParam (key value : string)
  | NonceOption (nonce : string).

Class OAuth2 := oauth2_AuthCodeURL : OAuthConfig → string → list AuthCodeOption → string.

(** The payloads of the handlers. *)
Inductive oauth_payload :=
  | PURL (url : string)
  | PDevice (device_auth_id user_code : string) (interval : N) (verification_url : string)
  | PMessage (message : string)
  | POauthList (items : list OAuthListItem).

Abbreviation answer := (reply oauth_payload).

Section with_env.
Context `{Env} `{Aead} `{UpstreamClient} `{OAuth2} `{Json LoginFlow} `{Json deviceLoginFlow}.
Context (claims_json : string → option IDTokenClaims).

(** A method call on a pointer that must not be nil. *)
Definition deref {A} (set : bool) (m : M A) : M A := if set then m else lift Panic.

Definition of_sum {A} (r : A + gerror) : M A :=
  match r with inl a => mret a | inr e => throw e end.

(** * middleware/redis/oauth_state.go *)

Definition oidcStateKey (state : string) : string := "oidc:flow:" +:+ state.

Definition SetState (state data : string) (ttl : time) : M unit :=
  rds (SET (oidcStateKey state) data ttl).

Definition DeleteState (state : string) : M string :=
  r ← rds (GETDEL (oidcStateKey state));
  match r with Some data => mret data | None => throw redis_Nil end.

(** * oauth_repository.go *)

Definition owned (ownerID id : N) (o : OAuthInfo) : bool := (oi_ID o =? id) && (oi_UserID o =? ownerID).

Definition repo_SaveToken (model : OAuthInfo) : M unit :=
  _ ← Create oauth_infos model; mret tt.

Definition GetOwnedTokenForUpdate (ownerID id : N) : M OAuthInfo :=
  r ← attempt (First oauth_infos (owned ownerID id));
  match r with
  | inl model => mret model
  | inr e => throw (if errors_Is e ErrRecordNotFound then ErrOAuthNotFound else e)
  end.

Definition UpdateToken (ownerID id : N) (model : OAuthInfo) : M unit :=
  affected ← sql (Update oauth_infos (owned ownerID id)
    (set_tokens (oi_AccessToken model) (oi_RefreshToken model) (oi_IDToken model)
       (oi_Expired model) (oi_LastRefresh model)));
  reject_if (negb (affected =? 1)) ErrOAuthNotFound.

Definition oauth_desc (o o' : OAuthInfo) : bool := oi_ID o' <=? oi_ID o.

Definition oauth_item (o : OAuthInfo) : OAuthListItem :=
  Build_OAuthListItem (oi_ID o) (oi_AccountID o) (oi_Email o) (oi_Type o) (oi_Disabled o)
    (oi_Expired o) (oi_LastRefresh o) (oi_CreatedAt o) (oi_UpdatedAt o).

Definition repo_getUserOauth (userid : N) : M (list OAuthListItem) :=
  rows ← sql (Select oauth_infos (λ o, oi_UserID o =? userid) oauth_desc);
  mret (oauth_item <$> rows).

Definition repo_deleteUserOauth (id ownerID : N) : M unit :=
  affected ← sql (Delete oauth_infos (owned ownerID id));
  reject_if (affected =? 0) ErrOAuthNotFound.

(** * oauth_service.go *)

Definition StoreFlow (o : OauthService) (state : string) (flow : LoginFlow) : M unit :=
  data ← of_sum (json_Marshal flow);
  deref (os_redisClient o) (SetState state data (5 * minute)%Z).

Definition PopFlow (o : OauthService) (state : string) : M LoginFlow :=
  r ← attempt (deref (os_redisClient o) (DeleteState state));
  match r with
  | inr e => throw (if errors_Is e redis_Nil then ErrInvalidOAuthState
                    else Wrapped "delete OAuth state" e)
  | inl data => match json_Unmarshal data with
                | Some flow => mret flow
                | None => throw (Wrapped "decode OAuth state" (Opaque "invalid JSON"))
                end
  end.

Definition authFor (o : OauthService) (provider : string) : res (OIDCAuth * OAuthConfig) :=
  match os_oidcAuth o !! provider with
  | None => Err ErrProviderUnavailable
  | Some None => Err ErrUpstreamUnavailable
  | Some (Some auth) => match oa_OauthConfig auth with
                        | None => Err ErrUpstreamUnavailable
                        | Some config => Ok (auth, config)
                        end
  end.

Definition AuthCodeURL (o : OauthService) (provider state verifier nonce : string) : res string :=
  auth ← authFor o provider;
  let options := S256ChallengeOption verifier ::
        ((λ '(k, v), SetAuthURLParam k v) <$> oa_AuthURLParams auth.1) ++ [NonceOption nonce] in
  Ok (oauth2_AuthCodeURL auth.2 state options).

Definition svc_Exchange (o : OauthService) (code verifier provider flowType : string) : M Token :=
  _ ← lift (authFor o provider);
  if os_directory o then Exchange code verifier provider flowType else throw ErrUpstreamUnavailable.

Definition verifyIDToken (o : OauthService) (raw provider : string) : M VerifyResponse :=
  if os_directory o then Verifier raw provider else throw ErrUpstreamUnavailable.

(** [!token.Expiry.IsZero() && !token.Expiry.After(time.Now())] *)
Definition token_expired (token : Token) : M bool :=
  if IsZero (tok_Expiry token) then mret false
  else now ← Now; mret (negb (now <? tok_Expiry token)%Z).

(** The columns [refreshTokenCredentials] writes into the loaded row. *)
Definition with_tokens (m : OAuthInfo) (access refresh idt : string) (expired last : option time) : OAuthInfo :=
  Build_OAuthInfo (oi_ID m) (oi_UserID m) access (oi_AccountID m) (oi_Disabled m) (oi_Email m)
    expired idt last refresh (oi_Type m) (oi_CreatedAt m) (oi_UpdatedAt m).

Definition expiry_of (t : time) : option time := if IsZero t then None else Some t.

Definition refreshTokenCredentials (o : OauthService) (model : OAuthInfo) : M OAuthInfo :=
  provider ← (if String.eqb (oi_Type model) "codex" then mret "oai"%string else throw ErrProviderUnavailable);
  _ ← lift (authFor o provider);
  plain ← lift (Decrypt (os_encryptionKey o) (oi_RefreshToken model));
  _ ← reject_if (blank plain) ErrRefreshRejected;
  token ← deref (os_directory o) (RefreshToken plain provider);
  _ ← reject_if (blank (tok_AccessToken token)) ErrRefreshFailed;
  expired ← token_expired token;
  _ ← reject_if expired ErrRefreshFailed;
  idt ← (match tok_IDToken token with
         | ExtraNil | ExtraString "" => mret (oi_IDToken model)
         | ExtraOther => throw ErrInvalidIDToken
         | ExtraString raw =>
             verified ← attempt (verifyIDToken o raw provider);
             match verified with
             | inr _ => throw ErrInvalidIDToken
             | inl verified =>
                 match claims_json (vr_ClaimsJson verified) with
                 | None => throw ErrInvalidIDToken
                 | Some claims =>
                     if String.eqb (cl_AccountID claims) (oi_AccountID model)
                     then Encrypt (os_encryptionKey o) raw
                     else throw ErrInvalidIDToken
                 end
             end
         end);
  access ← Encrypt (os_encryptionKey o) (tok_AccessToken token);
  refresh ← (if String.eqb (tok_RefreshToken token) "" then mret (oi_RefreshToken model)
             else Encrypt (os_encryptionKey o) (tok_RefreshToken token));
  now ← Now;
  mret (with_tokens model access refresh idt (expiry_of (tok_Expiry token)) (Some now)).

Definition svc_RefreshToken (o : OauthService) (ownerID id : N) : M unit :=
  _ ← reject_if ((ownerID =? 0) || (id =? 0)) ErrInvalidRefresh;
  _ ← reject_if (negb (os_repository o) || negb (os_directory o)) ErrUpstreamUnavailable;
  transaction (
    model ← GetOwnedTokenForUpdate ownerID id;
    model ← refreshTokenCredentials o model;
    UpdateToken ownerID id model).

Definition toOauthInfo (o : OauthService) (id userid : N)
    (accountid email accesstoken refreshtoken idtoken : string) (expired : time) : M OAuthInfo :=
  accessToken ← Encrypt (os_encryptionKey o) accesstoken;
  refreshToken ← Encrypt (os_encryptionKey o) refreshtoken;
  idTokenEncrypted ← Encrypt (os_encryptionKey o) idtoken;
  now ← Now;
  mret (Build_OAuthInfo id userid accessToken accountid false email (expiry_of expired)
          idTokenEncrypted (Some now) refreshToken "codex" 0 0).

Definition svc_SaveToken (o : OauthService) (token : Token) (flow : LoginFlow) (isbrowser : bool) : M unit :=
  _ ← reject_if ((lf_UserID flow =? 0) || (String.eqb (lf_Nonce flow) "" && isbrowser) ||
                 String.eqb (lf_Provider flow) "") ErrInvalidOAuthState;
  _ ← reject_if (blank (tok_AccessToken token)) ErrInvalidIDToken;
  expired ← token_expired token;
  _ ← reject_if expired ErrInvalidIDToken;
  rawIDToken ← (match tok_IDToken token with
                | ExtraString "" => throw ErrInvalidIDToken
                | ExtraString raw => mret raw
                | _ => throw ErrInvalidIDToken
                end);
  r ← attempt (verifyIDToken o rawIDToken (lf_Provider flow));
  idToken ← (match r with
             | inl v => mret v
             | inr e => throw (if errors_Is e ErrUpstreamUnavailable || errors_Is e ErrProviderUnavailable
                               then e else ErrInvalidIDToken)
             end);
  _ ← reject_if (negb (String.eqb (vr_Nonce idToken) (lf_Nonce flow)) && isbrowser) ErrInvalidIDToken;
  claims ← (match claims_json (vr_ClaimsJson idToken) with
            | Some claims => if blank (cl_AccountID claims) then throw ErrInvalidIDToken else mret claims
            | None => throw ErrInvalidIDToken
            end);
  _ ← reject_if (negb (os_repository o) || negb (String.eqb (lf_Provider flow) "oai")) ErrProviderUnavailable;
  model ← toOauthInfo o 0 (lf_UserID flow) (cl_AccountID claims) (cl_Email claims)
            (tok_AccessToken token) (tok_RefreshToken token) rawIDToken (tok_Expiry token);
  repo_SaveToken model.

Definition svc_getUserOauth (o : OauthService) (userid : N) : M (list OAuthListItem) :=
  _ ← reject_if (negb (os_repository o)) ErrUpstreamUnavailable;
  repo_getUserOauth userid.

Definition svc_deleteUserOauth (o : OauthService) (id userid : N) : M unit :=
  deref (os_repository o) (repo_deleteUserOauth id userid).

Definition svc_GetDeviceFlowCode (o : OauthService) (provider : string) : M DeviceFlowResponse :=
  _ ← lift (authFor o provider);
  if os_directory o then GetDeviceFlowCode provider else throw ErrUpstreamUnavailable.

Definition Poll (o : OauthService) (authID userCode : string) (intervalSeconds : N) (provider : string) :
  M DeviceAuthorizationResponse :=
  _ ← lift (authFor o provider);
  if os_directory o then PollDeviceFlow provider authID userCode intervalSeconds
  else throw ErrUpstreamUnavailable.

Definition deviceKey (authID : string) : string := "oidc:device:" +:+ authID.

(** [time.Until] reads the clock. *)
Definition storeDeviceFlow (o : OauthService) (flow : deviceLoginFlow) : M unit :=
  _ ← reject_if (negb (os_redisClient o)) ErrUpstreamUnavailable;
  data ← of_sum (json_Marshal flow);
  now ← Now;
  rds (SET (deviceKey (dl_DeviceAuthID flow)) data (dl_ExpiresAt flow - now)%Z).

(** The two halves of [popDeviceFlow]: reading and checking the flow, and the
    compare-and-delete that consumes it. *)
Definition readDeviceFlow (authID provider : string) (ownerID : N) : M (string * deviceLoginFlow) :=
  raw ← rds (GET (deviceKey authID));
  match raw with
  | None => throw ErrInvalidOAuthState
  | Some raw =>
      match json_Unmarshal raw with
      | None => throw ErrInvalidOAuthState
      | Some flow =>
          if negb (dl_UserID flow =? ownerID) || negb (String.eqb (dl_Provider flow) provider) ||
             negb (String.eqb (dl_DeviceAuthID flow) authID)
          then throw ErrInvalidOAuthState
          else now ← Now;
               if (now <? dl_ExpiresAt flow)%Z then mret (raw, flow) else throw ErrInvalidOAuthState
      end
  end.

Definition consumeDeviceFlow (authID raw : string) : M unit :=
  consumed ← rds (EVAL_compare_delete (deviceKey authID) raw);
  reject_if (negb (consumed =? 1)%Z) ErrInvalidOAuthState.

Definition popDeviceFlow (o : OauthService) (authID provider : string) (ownerID : N) : M deviceLoginFlow :=
  _ ← reject_if (negb (os_redisClient o)) ErrUpstreamUnavailable;
  read ← readDeviceFlow authID provider ownerID;
  _ ← consumeDeviceFlow authID read.1;
  mret read.2.

(** * oauth_handler.go *)

Definition getUserid (user : option ctx_value) : option N :=
  match user with
  | Some (CtxUint64 ownerID) => if ownerID =? 0 then None else Some ownerID
  | _ => None
  end.

Definition authentication_required : answer := Error 401 40100 "authentication required".

Definition randomValue : M string :=
  data ← rand_bytes 32;
  mret (Base64.RawURLEncode data).

(** [oauth2.GenerateVerifier] panics when the random source fails. *)
Definition GenerateVerifier : M string :=
  r ← attempt (rand_bytes 32);
  match r with inl data => mret (Base64.RawURLEncode data) | inr _ => lift Panic end.

(** [if err := m(); err != nil { response.Error(...); return }] *)
Definition or_reply {A} (m : M A) (on_error : gerror → answer) (k : A → M answer) : M answer :=
  r ← attempt m;
  match r with inl a => k a | inr e => mret (on_error e) end.

Definition Login (o : OauthService) (user : option ctx_value) (provider accept : string) : M answer :=
  match getUserid user with
  | None => mret authentication_required
  | Some ownerID =>
      or_reply (lift (authFor o provider)) (λ e,
        if errors_Is e ErrProviderUnavailable then Error 400 400 "invalid_provider"
        else Error 503 503 "oauth service unavailable") (λ _,
      or_reply randomValue (λ _, Error 500 500 "生成 state 失败") (λ state,
      verifier ← GenerateVerifier;
      or_reply randomValue (λ _, Error 500 500 "generate nonce failed") (λ nonce,
      or_reply (lift (AuthCodeURL o provider state verifier nonce))
        (λ _, Error 503 503 "oauth service unavailable") (λ authURL,
      now ← Now;
      or_reply (StoreFlow o state (Build_LoginFlow provider ownerID nonce verifier (now + 5 * minute)%Z))
        (λ _, Error 500 500 "保存登录状态失败") (λ _,
      if Contains accept "application/json"
      then mret (no_store (Success (Some (PURL authURL))))
      else mret (Build_reply [] [] (Redirect 302 authURL)))))))
  end.

Definition exchange_error_reply (e : gerror) : answer :=
  if errors_Is e ErrInvalidExchange || errors_Is e ErrExchangeRejected
  then Error 400 400 "token exchange rejected"
  else if errors_Is e ErrProviderUnavailable || errors_Is e ErrUpstreamUnavailable
  then Error 503 503 "oauth service unavailable"
  else if errors_Is e ErrExchangeTimeout then Error 504 504 "token exchange timed out"
  else Error 502 502 "token exchange failed".

Definition save_error_reply (e : gerror) : answer :=
  if errors_Is e ErrInvalidIDToken then Error 502 502 "invalid provider identity"
  else if errors_Is e ErrInvalidOAuthState then Error 400 400 "invalid_state"
  else if errors_Is e ErrUpstreamUnavailable || errors_Is e ErrProviderUnavailable
  then Error 503 503 "oauth service unavailable"
  else Error 500 500 "save token failed".

Definition saved_reply (accept : string) : answer :=
  if Contains accept "text/html" && negb (Contains accept "application/json")
  then Build_reply [] [] (Redirect 303 "/authorized-accounts")
  else SuccessWithStatus 200 None "oauth credentials saved".

(** [errors.Is(err, ErrInvalidOAuthState) || (err == nil && ...)]: an expired
    flow reads the clock only when it was loaded. *)
Definition flow_unusable (flow : LoginFlow) : M bool :=
  now ← Now;
  mret ((lf_ExpiresAt flow <? now)%Z || (lf_UserID flow =? 0) || String.eqb (lf_Nonce flow) "" ||
        String.eqb (lf_Provider flow) "").

Definition callback_steps (o : OauthService) (state error code accept : string) : M answer :=
  if String.eqb state "" then mret (Error 400 400 "invalid_state")
  else
    or_reply (PopFlow o state) (λ e,
      if errors_Is e ErrInvalidOAuthState then Error 400 400 "invalid_state"
      else Error 500 500 "load login state failed") (λ flow,
    flow_unusable flow ≫= λ unusable : bool,
    if unusable then mret (Error 400 400 "invalid_state")
    else if negb (String.eqb error "") then mret (Error 400 400 "provider denied")
    else if String.eqb code "" then mret (Error 400 400 "missing code")
    else
      or_reply (svc_Exchange o code (lf_Verifier flow) (lf_Provider flow) "browser")
        exchange_error_reply (λ token,
      or_reply (svc_SaveToken o token flow true) save_error_reply (λ _,
      mret (saved_reply accept)))).

Definition Callback (o : OauthService) (state error code accept : string) : M answer :=
  r ← callback_steps o state error code accept;
  mret (no_store (with_header "Referrer-Policy" "no-referrer" r)).

Definition deviceFlowErrorResponse (e : gerror) : answer :=
  if errors_Is e ErrInvalidDeviceFlow || errors_Is e ErrDeviceFlowRejected
  then Error 400 400 "device authorization rejected"
  else if errors_Is e ErrDeviceFlowTimeout || errors_Is e context_DeadlineExceeded
  then Error 504 504 "device authorization timed out"
  else if errors_Is e context_Canceled then Error 408 408 "device authorization canceled"
  else if errors_Is e ErrProviderUnavailable || errors_Is e ErrUpstreamUnavailable
  then Error 503 503 "oauth service unavailable"
  else Error 502 502 "device authorization failed".

Definition login_device_steps (o : OauthService) (user : option ctx_value) (provider : string) : M answer :=
  match getUserid user with
  | None => mret authentication_required
  | Some ownerID =>
      startedAt ← Now;
      or_reply (svc_GetDeviceFlowCode o provider) deviceFlowErrorResponse (λ info,
      or_reply (storeDeviceFlow o (Build_deviceLoginFlow provider ownerID (df_DeviceAuthId info)
                  (df_UserCode info) (df_IntervalSeconds info) (startedAt + 15 * minute)%Z))
        (λ _, Error 500 500 "save device login state failed") (λ _,
      mret (Success (Some (PDevice (df_DeviceAuthId info) (df_UserCode info)
                             (df_IntervalSeconds info) (df_VerificationUrl info))))))
  end.

Definition LoginDeviceFlow (o : OauthService) (user : option ctx_value) (provider : string) : M answer :=
  r ← login_device_steps o user provider; mret (no_store r).

(** [body] is the [device_auth_id] of the request, [None] when binding fails. *)
Definition callback_device_steps (o : OauthService) (user : option ctx_value) (provider accept : string)
    (body : option string) : M answer :=
  match getUserid user with
  | None => mret authentication_required
  | Some ownerID =>
      match body with
      | None => mret (Error 400 400 "invalid poll request")
      | Some deviceAuthID =>
          or_reply (popDeviceFlow o deviceAuthID provider ownerID) (λ e,
            if errors_Is e ErrInvalidOAuthState then Error 400 400 "invalid_state"
            else Error 500 500 "load device login state failed") (λ flow,
          or_reply (Poll o (dl_DeviceAuthID flow) (dl_UserCode flow) (dl_Interval flow) (dl_Provider flow))
            deviceFlowErrorResponse (λ verifyinfo,
          or_reply (svc_Exchange o (da_AuthorizationCode verifyinfo) (da_CodeVerifier verifyinfo)
                      provider "device") exchange_error_reply (λ token,
          or_reply (svc_SaveToken o token (Build_LoginFlow provider ownerID "" "" zero_time) false)
            save_error_reply (λ _, mret (saved_reply accept)))))
      end
  end.

Definition CallbackDeviceFlow (o : OauthService) (user : option ctx_value) (provider accept : string)
    (body : option string) : M answer :=
  r ← callback_device_steps o user provider accept body; mret (no_store r).

Definition refresh_error_reply (e : gerror) : answer :=
  if errors_Is e ErrOAuthNotFound then Error 404 404 "oauth credential not found"
  else if errors_Is e ErrInvalidRefresh then Error 400 400 "invalid refresh request"
  else if errors_Is e ErrRefreshRejected then Error 400 400 "refresh token rejected; reauthorize account"
  else if errors_Is e ErrProviderUnavailable || errors_Is e ErrUpstreamUnavailable
  then Error 503 503 "oauth service unavailable"
  else if errors_Is e ErrRefreshTimeout || errors_Is e context_DeadlineExceeded
  then Error 504 504 "token refresh timed out"
  else if errors_Is e context_Canceled then Error 408 408 "token refresh canceled"
  else if errors_Is e ErrRefreshFailed || errors_Is e ErrInvalidIDToken
  then Error 502 502 "invalid provider refresh response"
  else Error 500 500 "save refreshed credentials failed".

(** [body] is the [id] of the request. *)
Definition RefreshToken_handler (o : OauthService) (user : option ctx_value) (body : option N) : M answer :=
  match getUserid user with
  | None => mret authentication_required
  | Some ownerID =>
      match body with
      | None => mret (Error 400 400 "invalid refresh request")
      | Some id => or_reply (svc_RefreshToken o ownerID id) refresh_error_reply
                     (λ _, mret (no_store (Success (Some (PMessage "refresh success")))))
      end
  end.

Definition OauthList_handler (o : OauthService) (user : option ctx_value) : M answer :=
  match getUserid user with
  | None => mret authentication_required
  | Some ownerID => or_reply (svc_getUserOauth o ownerID) (λ _, Error 500 500 "load oauth list failed")
                      (λ items, mret (no_store (Success (Some (POauthList items)))))
  end.

Definition delete_error_reply (e : gerror) : answer :=
  if errors_Is e ErrOAuthNotFound then Error 404 404 "oauth credential not found"
  else Error 500 500 "delete oauth failed".

Definition Delete_handler (o : OauthService) (user : option ctx_value) (body : option N) : M answer :=
  match getUserid user with
  | None => mret authentication_required
  | Some ownerID =>
      match body with
      | None => mret (Error 400 400 "invalid delete request")
      | Some id => or_reply (svc_deleteUserOauth o id ownerID) delete_error_reply
                     (λ _, mret (Success None))
      end
  end.

End with_env.
