(* ===== verification/OauthFacts.v ===== *)
(** Lemmas on modules/oauth: the rows the service writes, what each of its
    operations fails with, and the state it keeps in Redis. *)

From S2P Require Import Prelude.
From S2P Require Import GoStrings.
From S2P Require Import Codec.
From S2P Require Import Schema.
From S2P Require Import Integrity.
From S2P Require Import Stores.
From S2P Require Import World.
From S2P Require Import Tenants.
From S2P Require Import Security.
From S2P Require Import Http.
From S2P Require Import Directory.
From S2P Require Import Oidc.
From S2P Require Import Oauth.

Local Open Scope list_scope.
Local Open Scope N_scope.

Section facts.
Context `{EnvLaws} `{AeadLaws} `{UpstreamClient}.

Lemma wp_or_reply {A} (m : M A) on_error k (Q : res (reply oauth_payload) → world → Prop) w :
  wp m (λ r w', match r with
                | Ok a => wp (k a) Q w'
                | Err e => Q (Ok (on_error e)) w'
                | Panic => Q Panic w'
                end) w →
  wp (or_reply m on_error k) Q w.
Proof.
  intros Hm. unfold or_reply. do 2 wp_step. revert Hm. apply wp_mono. by intros [a|e|] w'.
Qed.

(** * Calls that do not touch the tables *)

Lemma authFor_spec o provider :
  match authFor o provider with
  | Ok (a, c) => os_oidcAuth o !! provider = Some (Some a) ∧ oa_OauthConfig a = Some c
  | Err e => e = ErrProviderUnavailable ∧ os_oidcAuth o !! provider = None ∨
             e = ErrUpstreamUnavailable ∧ os_oidcAuth o !! provider ≠ None
  | Panic => False
  end.
Proof. unfold authFor. repeat case_match; simplify_eq; auto. Qed.

Lemma wp_authFor o provider (Q : res (OIDCAuth * OAuthConfig) → world → Prop) w :
  (∀ e, e = ErrProviderUnavailable ∨ e = ErrUpstreamUnavailable → Q (Err e) w) →
  (∀ a, Q (Ok a) w) → wp (lift (authFor o provider)) Q w.
Proof.
  intros He Hok. wp_step. pose proof (authFor_spec o provider) as Hs.
  destruct (authFor o provider) as [a|e|]; [done| |done]. apply He. naive_solver.
Qed.

Lemma wp_token_expired token (Q : res bool → world → Prop) w :
  (∀ b w', w_db w' = w_db w →
     (b = false → IsZero (tok_Expiry token) = true ∨ ∃ n, (now_at n < tok_Expiry token)%Z) →
     Q (Ok b) w') →
  wp (token_expired token) Q w.
Proof.
  intros Hok. unfold token_expired. destruct (IsZero _); [wp_step; apply Hok; auto|].
  do 3 wp_step. apply Hok; [done|]. intros Hb. prop_guards. eauto.
Qed.

Lemma wp_verifyIDToken o raw provider (Q : res VerifyResponse → world → Prop) w :
  (∀ e w', w_db w' = w_db w → e ∈ provider_errors → Q (Err e) w') →
  (∀ v n w', w_db w' = w_db w → rpc_Verifier n raw provider = inl (Some v) → Q (Ok v) w') →
  wp (verifyIDToken o raw provider) Q w.
Proof.
  intros He Hok. unfold verifyIDToken. destruct (os_directory o).
  - apply wp_Verifier; [by auto|]. intros v Hv. by eapply Hok.
  - wp_step. apply He; [done|by_decide].
Qed.

(** * Storing the credentials of an account *)

(** The row of an account: it belongs to the user, its tokens are encrypted and
    decrypt to those the provider issued. *)
Definition credentials_row (key : string) (userid : N) (claims : IDTokenClaims) (token : Token)
    (raw : string) (o : OAuthInfo) : Prop :=
  oi_UserID o = userid ∧ oi_AccountID o = cl_AccountID claims ∧ oi_Email o = cl_Email claims ∧
  oi_Type o = "codex"%string ∧ oi_Disabled o = false ∧
  Decrypt key (oi_AccessToken o) = Ok (tok_AccessToken token) ∧
  Decrypt key (oi_RefreshToken o) = Ok (tok_RefreshToken token) ∧
  Decrypt key (oi_IDToken o) = Ok raw ∧ oi_Expired o = expiry_of (tok_Expiry token).

Lemma wp_toOauthInfo o userid claims token raw (Q : res OAuthInfo → world → Prop) w :
  (∀ e w', w_db w' = w_db w → encrypt_error (os_encryptionKey o) e → Q (Err e) w') →
  (∀ m w', w_db w' = w_db w → credentials_row (os_encryptionKey o) userid claims token raw m →
           Q (Ok m) w') →
  wp (toOauthInfo o 0 userid (cl_AccountID claims) (cl_Email claims) (tok_AccessToken token)
        (tok_RefreshToken token) raw (tok_Expiry token)) Q w.
Proof.
  intros He Hok. unfold toOauthInfo.
  wp_step. apply wp_Encrypt_db; [by auto|]. intros c1 w1 Hc1 Hw1.
  wp_step. apply wp_Encrypt_db; [intros; apply He; [congruence|done]|]. intros c2 w2 Hc2 Hw2.
  wp_step. apply wp_Encrypt_db; [intros; apply He; [congruence|done]|]. intros c3 w3 Hc3 Hw3.
  do 3 wp_step. apply Hok; [cbn; congruence|]. done.
Qed.

(** [d'] is [d] with a new account row. *)
Definition oauth_added (o : OAuthInfo) (d d' : db) : Prop :=
  d' = bump oauth_infos (set_rows oauth_infos (t_oauth d ++ [o]) d) ∧ oi_ID o = seq_oauth d.

Lemma wp_repo_SaveToken m (Q : res unit → world → Prop) w :
  db_wf (w_db w) →
  (∀ e w', fault e → w_db w' = w_db w → Q (Err e) w') →
  (∀ o w', o ∈ t_oauth (w_db w) → oi_UserID o = oi_UserID m → oi_Type o = oi_Type m →
           oi_AccountID o = oi_AccountID m → w_db w' = w_db w → Q (Err ErrDuplicatedKey) w') →
  (∀ w', has_user (w_db w) (oi_UserID m) = false → w_db w' = w_db w →
         Q (Err ErrForeignKeyViolated) w') →
  (∀ now w', oauth_added (stamp oauth_infos now (seq_oauth (w_db w)) m) (w_db w) (w_db w') →
             Q (Ok tt) w') →
  wp (repo_SaveToken m) Q w.
Proof.
  intros Hwf He Hdup Hfk Hok. unfold repo_SaveToken. wp_step. wp_step; [by intros; apply He|].
  destruct (insert_one _ _ _ _) as [[m' d']|e|] eqn:Hi; [| |done].
  - apply insert_one_rows in Hi as (-> & -> & _). wp_step. by eapply Hok.
  - apply insert_one_err in Hi as [[_ Hc]|[[-> Hu]|[-> Hf]]]; [done| |by apply Hfk|done|done].
    apply list_elem_of_fmap in Hu as (x & Hx & Hin). cbn in Hx. injection Hx as E1 E2 E3.
    by apply (Hdup x).
Qed.

(** The account of a flow is already stored. *)
Definition account_stored (userid : N) (d : db) : Prop :=
  ∃ o, o ∈ t_oauth d ∧ oi_UserID o = userid ∧ oi_Type o = "codex"%string.

Definition save_error (key : string) (userid : N) (d : db) (e : gerror) : Prop :=
  e ∈ [ErrInvalidOAuthState; ErrInvalidIDToken; ErrUpstreamUnavailable; ErrProviderUnavailable] ∨
  fault e ∨ encrypt_error key e ∨ e = ErrDuplicatedKey ∧ account_stored userid d ∨
  e = ErrForeignKeyViolated ∧ has_user d userid = false.

End facts.

Section credentials.
Context `{EnvLaws} `{AeadLaws} `{UpstreamClient}.
Context (claims_json : string → option IDTokenClaims).

(** What a successful [SaveToken] has established and written. *)
Definition token_saved (o : OauthService) (token : Token) (flow : LoginFlow) (isbrowser : bool)
    (d d' : db) : Prop :=
  ∃ raw v n claims row,
    tok_IDToken token = ExtraString raw ∧ rpc_Verifier n raw (lf_Provider flow) = inl (Some v) ∧
    claims_json (vr_ClaimsJson v) = Some claims ∧ blank (cl_AccountID claims) = false ∧
    lf_Provider flow = "oai"%string ∧ lf_UserID flow ≠ 0 ∧
    (isbrowser = true → lf_Nonce flow ≠ ""%string ∧ vr_Nonce v = lf_Nonce flow) ∧
    blank (tok_AccessToken token) = false ∧
    (IsZero (tok_Expiry token) = true ∨ ∃ n, (now_at n < tok_Expiry token)%Z) ∧
    credentials_row (os_encryptionKey o) (lf_UserID flow) claims token raw row ∧
    oauth_added row d d'.

Lemma wp_SaveToken o token flow isbrowser (Q : res unit → world → Prop) w :
  db_wf (w_db w) →
  (∀ e w', w_db w' = w_db w → save_error (os_encryptionKey o) (lf_UserID flow) (w_db w) e → Q (Err e) w') →
  (∀ w', token_saved o token flow isbrowser (w_db w) (w_db w') → Q (Ok tt) w') →
  wp (svc_SaveToken claims_json o token flow isbrowser) Q w.
Proof.
  intros Hwf He Hok. unfold svc_SaveToken.
  assert (Hs : ∀ e w', e ∈ [ErrInvalidOAuthState; ErrInvalidIDToken; ErrUpstreamUnavailable;
             ErrProviderUnavailable] → w_db w' = w_db w → Q (Err e) w')
    by (intros; apply He; [done|by left]).
  assert (Hid : ∀ w', w_db w' = w_db w → Q (Err ErrInvalidIDToken) w') by (intros; apply Hs; [by_decide|done]).
  wp_step. wp_step; [apply Hs; [by_decide|done]|].
  wp_step. wp_step; [by apply Hid|].
  wp_step. apply wp_token_expired. intros b w1 Hw1 Hexp.
  wp_step. wp_step; [by apply Hid|]. subst b. specialize (Hexp eq_refl).
  wp_step. destruct (tok_IDToken token) as [|raw|] eqn:Hraw; [by wp_step; apply Hid| |by wp_step; apply Hid].
  destruct raw as [|a raw]; [by wp_step; apply Hid|]. set (r := String a raw) in *. wp_step.
  do 2 wp_step. apply wp_verifyIDToken.
  { intros e w2 Hw2 Hin. wp_step. wp_step.
    destruct (errors_Is e ErrUpstreamUnavailable || errors_Is e ErrProviderUnavailable) eqn:Hx;
      [|apply Hid; congruence].
    apply Hs; [|congruence]. unfold provider_errors in Hin. rewrite !elem_of_cons in Hin.
    destruct Hin as [->|[->|[->|[->|Hin]]]]; [by_decide|by_decide|done|by_decide|].
    by apply not_elem_of_nil in Hin. }
  intros v n w2 Hw2 Hv. wp_step. wp_step. wp_step. wp_step; [apply Hid; congruence|].
  wp_step. destruct (claims_json (vr_ClaimsJson v)) as [claims|] eqn:Hcl; [|wp_step; apply Hid; congruence].
  destruct (blank (cl_AccountID claims)) eqn:Hacc; wp_step; [apply Hid; congruence|].
  wp_step. wp_step; [apply Hs; [by_decide|congruence]|].
  wp_step. apply wp_toOauthInfo.
  { intros e w3 Hw3 Hee. apply He; [congruence|by right; right; left]. }
  intros m w3 Hw3 Hm. assert (Hdb : w_db w3 = w_db w) by congruence.
  assert (Hm' := Hm). destruct Hm' as (Hu & _ & _ & Ht & _).
  apply wp_repo_SaveToken; [by rewrite Hdb|..].
  - intros e w4 Hf Hw4. apply He; [congruence|by right; left].
  - intros x w4 Hx Hxu Hxt _ Hw4. apply He; [congruence|]. right; right; right; left. split; [done|].
    rewrite Hdb in Hx. exists x. split_and!; [done|congruence|congruence].
  - intros w4 Hno Hw4. apply He; [congruence|]. right; right; right; right. split; [done|].
    rewrite Hdb, Hu in Hno. done.
  - intros now w4 Hadd. rewrite Hdb in Hadd. apply Hok. prop_guards.
    exists r, v, n, claims, (stamp oauth_infos now (seq_oauth (w_db w)) m). split_and!; try done.
    + by apply String.eqb_eq.
    + intros ->. rewrite andb_true_r in *. prop_guards. split; [by apply String.eqb_neq|].
      by apply String.eqb_eq.
Qed.

(** * Refreshing the credentials of an account *)

(** The identity of a refreshed row: kept when the answer has no ID token, else
    the new one, verified to be of the same account. *)
Definition refreshed_identity (key : string) (raw : string) (model m : OAuthInfo) : Prop :=
  if String.eqb raw "" then oi_IDToken m = oi_IDToken model
  else Decrypt key (oi_IDToken m) = Ok raw ∧
       ∃ v n claims, rpc_Verifier n raw "oai" = inl (Some v) ∧
         claims_json (vr_ClaimsJson v) = Some claims ∧ cl_AccountID claims = oi_AccountID model.

Definition refreshed (o : OauthService) (model m : OAuthInfo) : Prop :=
  let key := os_encryptionKey o in
  oi_Type model = "codex"%string ∧
  ∃ plain n r token raw,
    Decrypt key (oi_RefreshToken model) = Ok plain ∧ blank plain = false ∧
    rpc_RefreshToken n plain "oai" = inl (Some r) ∧ answers_token r token ∧
    tok_IDToken token = ExtraString raw ∧ blank (tok_AccessToken token) = false ∧
    (IsZero (tok_Expiry token) = true ∨ ∃ n, (now_at n < tok_Expiry token)%Z) ∧
    Decrypt key (oi_AccessToken m) = Ok (tok_AccessToken token) ∧
    (if String.eqb (tok_RefreshToken token) "" then oi_RefreshToken m = oi_RefreshToken model
     else Decrypt key (oi_RefreshToken m) = Ok (tok_RefreshToken token)) ∧
    refreshed_identity key raw model m ∧ oi_Expired m = expiry_of (tok_Expiry token).

Definition refresh_refused (o : OauthService) (model : OAuthInfo) (e : gerror) : Prop :=
  e ∈ ErrUpstreamUnavailable :: ErrInvalidIDToken :: refresh_errors ∨
  Decrypt (os_encryptionKey o) (oi_RefreshToken model) = Err e ∨
  encrypt_error (os_encryptionKey o) e.

Lemma Decrypt_no_panic key c : Decrypt key c ≠ Panic.
Proof. unfold Decrypt, aes_NewCipher, guard_err. repeat case_match; done. Qed.

(** The ID token of the answer: kept out, or verified and encrypted. *)
Lemma wp_new_identity o raw model w :
  wp (match ExtraString raw with
      | ExtraNil | ExtraString "" => mret (oi_IDToken model)
      | ExtraOther => throw ErrInvalidIDToken
      | ExtraString raw =>
          verified ← attempt (verifyIDToken o raw "oai");
          match verified with
          | inr _ => throw ErrInvalidIDToken
          | inl verified =>
              match claims_json (vr_ClaimsJson verified) with
              | None => throw ErrInvalidIDToken
              | Some claims =>
                  if String.eqb (cl_AccountID claims) (oi_AccountID model)
                  then Encrypt (os_encryptionKey o) raw
                  else throw ErrInvalidIDToken
              end
          end
      end)
    (λ x w', w_db w' = w_db w ∧
       match x with
       | Ok idt => ∀ m, oi_IDToken m = idt → refreshed_identity (os_encryptionKey o) raw model m
       | Err e => e = ErrInvalidIDToken ∨ encrypt_error (os_encryptionKey o) e
       | Panic => False end) w.
Proof.
  unfold refreshed_identity. destruct raw as [|c raw]; [by wp_step|].
  set (raw' := String c raw). do 2 wp_step. apply wp_verifyIDToken; [intros; wp_step; split; [congruence|by left]|].
  intros v n w2 Hw2 Hv. destruct (claims_json _) as [claims|] eqn:Hcl; [|wp_step; split; [congruence|by left]].
  destruct (String.eqb (cl_AccountID claims) (oi_AccountID model)) eqn:Hacc;
    [|wp_step; split; [congruence|by left]].
  apply wp_Encrypt_db; [intros; split; [congruence|by right]|]. intros ct w3 Hc Hw3.
  split; [congruence|]. intros m Hm. rewrite Hm. split; [done|]. exists v, n, claims.
  apply String.eqb_eq in Hacc. done.
Qed.

Lemma wp_refreshTokenCredentials o model (Q : res OAuthInfo → world → Prop) w :
  os_directory o = true →
  (∀ e w', w_db w' = w_db w → refresh_refused o model e → Q (Err e) w') →
  (∀ m w', w_db w' = w_db w → refreshed o model m → Q (Ok m) w') →
  wp (refreshTokenCredentials claims_json o model) Q w.
Proof.
  intros Hdir He Hok. unfold refreshTokenCredentials.
  assert (Hs : ∀ e w', w_db w' = w_db w → e ∈ ErrUpstreamUnavailable :: ErrInvalidIDToken :: refresh_errors →
             Q (Err e) w') by (intros; apply He; [done|by left]).
  assert (Henc : ∀ e w', w_db w' = w_db w → encrypt_error (os_encryptionKey o) e → Q (Err e) w')
    by (intros; apply He; [done|by right; right]).
  wp_step. destruct (String.eqb (oi_Type model) "codex") eqn:Ht; [|wp_step; apply Hs; [done|by_decide]].
  apply String.eqb_eq in Ht. wp_step.
  wp_step. apply wp_authFor; [intros e [->| ->]; (apply Hs; [done|by_decide])|]. intros a.
  wp_step. wp_step. destruct (Decrypt _ _) as [plain|e|] eqn:Hd; [|by apply He; [|right; left]|by apply Decrypt_no_panic in Hd].
  wp_step. wp_step; [apply Hs; [done|by_decide]|].
  wp_step. rewrite Hdir. cbn [deref]. apply wp_RefreshToken.
  { intros e Hin. apply Hs; [done|]. set_solver. }
  intros r token Hr Hans Hblank. wp_step. wp_step; [apply Hs; [done|by_decide]|].
  wp_step. apply wp_token_expired. intros b w1 Hw1 Hexp. cbn [w_db tick] in Hw1.
  wp_step. wp_step; [apply Hs; [done|by_decide]|]. subst b. specialize (Hexp eq_refl).
  assert (Hraw : tok_IDToken token = ExtraString (tr_IdToken r)) by apply Hans.
  wp_step. rewrite Hraw. eapply wp_mono; [|apply wp_new_identity].
  intros [idt|e|] w2 [Hw2 Hx]; rewrite Hw1 in Hw2;
    [|destruct Hx as [->|Hx]; [apply Hs; [done|by_decide]|by apply Henc]|done].
  wp_step. apply wp_Encrypt_db; [intros; apply Henc; [congruence|done]|]. intros ca w3 Hca Hw3.
  wp_step. apply (wp_mono _ (λ x w', w_db w' = w_db w ∧
    match x with
    | Ok rt => if String.eqb (tok_RefreshToken token) "" then rt = oi_RefreshToken model
               else Decrypt (os_encryptionKey o) rt = Ok (tok_RefreshToken token)
    | Err e => encrypt_error (os_encryptionKey o) e
    | Panic => False end)); cycle 1.
  { destruct (String.eqb (tok_RefreshToken token) ""); [wp_step; split; [congruence|done]|].
    apply wp_Encrypt_db; intros; (split; [congruence|done]). }
  intros [rt|e|] w4 [Hw4 Hrt]; [|by apply Henc|done].
  do 3 wp_step. apply Hok; [done|]. split; [done|].
  exists plain, (w_step w), r, token, (tr_IdToken r). split_and!; try done. by apply Hx.
Qed.

(** The row of the account after its refresh; nothing else changes. *)
Definition tokens_updated (ownerID id : N) (m : OAuthInfo) (now : time) (d : db) : db :=
  set_rows oauth_infos (map (λ x, if owned ownerID id x then
    Build_OAuthInfo (oi_ID x) (oi_UserID x) (oi_AccessToken m) (oi_AccountID x) (oi_Disabled x)
      (oi_Email x) (oi_Expired m) (oi_IDToken m) (oi_LastRefresh m) (oi_RefreshToken m) (oi_Type x)
      (oi_CreatedAt x) now else x) (t_oauth d)) d.

Definition refresh_error (o : OauthService) (ownerID id : N) (d : db) (e : gerror) : Prop :=
  fault e ∨ e = ErrInvalidRefresh ∧ (ownerID = 0 ∨ id = 0) ∨ e = ErrUpstreamUnavailable ∨
  e = ErrOAuthNotFound ∧ has_oauth d ownerID id = false ∨
  ∃ model, model ∈ t_oauth d ∧ owned ownerID id model = true ∧ refresh_refused o model e.

Lemma has_oauth_owned d ownerID id :
  has_oauth d ownerID id = false ↔ ∀ k, k ∈ t_oauth d → owned ownerID id k = false.
Proof.
  rewrite <- not_true_iff_false, has_oauth_spec. unfold owned. split.
  - intros Hn k Hk. apply not_true_iff_false. intros ?. prop_guards. apply Hn. eauto.
  - intros Hn (k & Hk & <- & <-). specialize (Hn k Hk). by rewrite !N.eqb_refl in Hn.
Qed.

Lemma wp_svc_RefreshToken o ownerID id (Q : res unit → world → Prop) w :
  db_wf (w_db w) →
  (∀ e w', w_db w' = w_db w → refresh_error o ownerID id (w_db w) e → Q (Err e) w') →
  (∀ model m now w', model ∈ t_oauth (w_db w) → owned ownerID id model = true → refreshed o model m →
     w_db w' = tokens_updated ownerID id m now (w_db w) → Q (Ok tt) w') →
  wp (svc_RefreshToken claims_json o ownerID id) Q w.
Proof.
  intros Hwf He Hok. unfold svc_RefreshToken.
  wp_step. wp_step.
  { apply He; [done|]. right; left. split; [done|]. rename select (_ || _ = true) into Hz.
    apply orb_true_iff in Hz. by rewrite !N.eqb_eq in Hz. }
  wp_step. wp_step; [by apply He; [|right; right; left]|]. prop_guards.
  assert (Hf : ∀ e w', fault e → Q (Err e) (set_db (w_db w) w')) by (intros; apply He; [done|by left]).
  apply wp_transaction. wp_step. unfold GetOwnedTokenForUpdate. do 2 wp_step. wp_step.
  - wp_step. is_red. by apply Hf.
  - wp_step. wp_step. apply wp_refreshTokenCredentials; [done|..].
    { intros e w1 _ Hr. apply He; [done|]. right; right; right; right. eauto. }
    intros m w1 Hw1 Hm. cbn [w_db tick] in Hw1. unfold UpdateToken. wp_step. wp_step; [by intros; apply Hf|].
    rewrite Hw1. assert (Hone : select (owned ownerID id) (t_oauth (w_db w)) = [r]).
    { apply (select_unique oi_ID _ id); [by apply (NoDup_ids oauth_infos)| |done|done].
      unfold owned. intros y Hy. by prop_guards. }
    match goal with |- context [length ?l] => replace (length l) with 1%nat by (symmetry; exact (f_equal length Hone)) end.
    wp_step; [done|]. split; [|by intros e He'; apply (Hf e (tick (tick w1)))].
    by eapply (Hok r m).
  - wp_step. is_red. apply He; [done|]. right; right; right; left. split; [done|]. by apply has_oauth_owned.
Qed.

End credentials.

Section states.
Context `{EnvLaws} `{UpstreamClient}.
Context `{!Json LoginFlow} `{!Json deviceLoginFlow}.

(** * The state of the browser login *)

Lemma oidcStateKey_inj s t : oidcStateKey s = oidcStateKey t → s = t.
Proof. apply str_app_inv_head. Qed.

Lemma expiry_minutes now : expiry now (5 * minute) = Some (now + 5 * minute)%Z.
Proof.
  unfold expiry. replace (0 <? 5 * minute)%Z with true by reflexivity.
  replace (5 * minute / millisecond)%Z with 300000%Z by (vm_compute; reflexivity). reflexivity.
Qed.

Lemma wp_PopFlow o state (Q : res LoginFlow → world → Prop) w :
  os_redisClient o = true →
  (∀ e w', w_db w' = w_db w →
     (e = ErrInvalidOAuthState ∧ rget (now_at (w_step w)) (oidcStateKey state) (w_redis w) = None ∨
      (∃ e', fault e' ∧ e = Wrapped "delete OAuth state" e') ∨
      ∃ data, rget (now_at (w_step w)) (oidcStateKey state) (w_redis w) = Some data ∧
              json_Unmarshal (A := LoginFlow) data = None ∧ e = Wrapped "decode OAuth state" (Opaque "invalid JSON")) →
     (w_redis w' = w_redis w ∨ w_redis w' = delete (oidcStateKey state) (w_redis w)) → Q (Err e) w') →
  (∀ flow data w', w_db w' = w_db w →
     rget (now_at (w_step w)) (oidcStateKey state) (w_redis w) = Some data →
     json_Unmarshal data = Some flow → w_redis w' = delete (oidcStateKey state) (w_redis w) → Q (Ok flow) w') →
  wp (PopFlow o state) Q w.
Proof.
  intros Hr He Hok. unfold PopFlow. rewrite Hr. cbn [deref]. do 2 wp_step. unfold DeleteState.
  wp_step. wp_step.
  - intros e r' Hf Hr'. wp_step. is_red. apply He; [done|right; left; eauto|done].
  - destruct (rget _ _ _) as [data|] eqn:Hg; wp_step.
    + destruct (json_Unmarshal data) as [flow|] eqn:Hj; wp_step; [by eapply Hok|].
      apply He; [done|right; right; eauto|by right].
    + wp_step. is_red. apply He; [done|by left|by right].
Qed.

Lemma wp_StoreFlow o state flow (Q : res unit → world → Prop) w :
  os_redisClient o = true →
  (∀ e w', w_db w' = w_db w → (fault e ∨ json_Marshal flow = inr e) →
     (w_redis w' = w_redis w ∨ ∃ data t, json_Marshal flow = inl data ∧
        w_redis w' = <[oidcStateKey state := (data, t)]> (w_redis w)) → Q (Err e) w') →
  (∀ data w', json_Marshal flow = inl data → w_db w' = w_db w → w_step w' = S (w_step w) →
     w_redis w' = <[oidcStateKey state := (data, Some (now_at (w_step w) + 5 * minute)%Z)]> (w_redis w) →
     Q (Ok tt) w') →
  wp (StoreFlow o state flow) Q w.
Proof.
  intros Hr He Hok. unfold StoreFlow. rewrite Hr. cbn [deref]. wp_step.
  destruct (json_Marshal flow) as [data|e] eqn:Hj; cbn [of_sum]; wp_step; [|by apply He; auto].
  unfold SetState. wp_step.
  - intros e r' Hf [->| ->]; (apply He; [done|by left|]); eauto.
  - apply (Hok data); [done..|]. cbn. by rewrite expiry_minutes.
Qed.

(** * The state of the device login *)

Lemma wp_readDeviceFlow authID provider ownerID (Q : res (string * deviceLoginFlow) → world → Prop) w :
  (∀ e w', w_db w' = w_db w → w_redis w' = w_redis w → fault e ∨ e = ErrInvalidOAuthState → Q (Err e) w') →
  (∀ raw flow n w', w_db w' = w_db w → w_redis w' = w_redis w →
     rget (now_at (w_step w)) (deviceKey authID) (w_redis w) = Some raw →
     json_Unmarshal raw = Some flow → dl_UserID flow = ownerID → dl_Provider flow = provider →
     dl_DeviceAuthID flow = authID → (now_at n < dl_ExpiresAt flow)%Z → Q (Ok (raw, flow)) w') →
  wp (readDeviceFlow authID provider ownerID) Q w.
Proof.
  intros He Hok. unfold readDeviceFlow. wp_step. wp_step.
  { intros e r' Hf [->| ->]; apply He; auto. }
  destruct (rget _ _ _) as [raw|] eqn:Hg; [|wp_step; apply He; auto].
  destruct (json_Unmarshal raw) as [flow|] eqn:Hj; [|wp_step; apply He; auto].
  destruct (_ || _ || _) eqn:Hc; [wp_step; apply He; auto|]. prop_guards.
  do 2 wp_step. destruct (_ <? _)%Z eqn:Hn; wp_step; [|apply He; auto]. prop_guards.
  eapply Hok; try done; by apply String.eqb_eq.
Qed.

(** Consuming needs the flow that was read to be there still, and removes it. *)
Lemma wp_consumeDeviceFlow authID raw (Q : res unit → world → Prop) w :
  (∀ e w', w_db w' = w_db w → fault e ∨ e = ErrInvalidOAuthState →
           (w_redis w' = w_redis w ∨ w_redis w' = delete (deviceKey authID) (w_redis w)) → Q (Err e) w') →
  (∀ w', w_db w' = w_db w → rget (now_at (w_step w)) (deviceKey authID) (w_redis w) = Some raw →
         w_redis w' = delete (deviceKey authID) (w_redis w) → Q (Ok tt) w') →
  wp (consumeDeviceFlow authID raw) Q w.
Proof.
  intros He Hok. unfold consumeDeviceFlow. wp_step. wp_step.
  - intros e r' Hf Hr'. apply He; [done|by left|]. cbn. revert Hr'. unfold compareAndDeleteScript.
    repeat case_match; cbn; tauto.
  - unfold compareAndDeleteScript. destruct (rget _ _ _) as [v|] eqn:Hg.
    + destruct (String.eqb v raw) eqn:Hv; wp_step; prop_guards; try done.
      * apply Hok; [done| |done]. apply String.eqb_eq in Hv. congruence.
      * apply He; auto.
    + wp_step; [|done]. apply He; auto.
Qed.

Lemma wp_storeDeviceFlow o flow (Q : res unit → world → Prop) w :
  (∀ e w', w_db w' = w_db w → (e = ErrUpstreamUnavailable ∨ fault e ∨ json_Marshal flow = inr e) →
     (w_redis w' = w_redis w ∨ ∃ data t, json_Marshal flow = inl data ∧
        w_redis w' = <[deviceKey (dl_DeviceAuthID flow) := (data, t)]> (w_redis w)) → Q (Err e) w') →
  (∀ data n w', json_Marshal flow = inl data → w_db w' = w_db w →
     w_redis w' = <[deviceKey (dl_DeviceAuthID flow) :=
       (data, expiry (now_at (S n)) (dl_ExpiresAt flow - now_at n)%Z)]> (w_redis w) → Q (Ok tt) w') →
  wp (storeDeviceFlow o flow) Q w.
Proof.
  intros He Hok. unfold storeDeviceFlow. wp_step. wp_step; [by apply He; auto|]. wp_step.
  destruct (json_Marshal flow) as [data|e] eqn:Hj; cbn [of_sum]; wp_step; [|by apply He; auto].
  do 2 wp_step. wp_step; [intros e r' Hf [->| ->]; (apply He; [done|by auto|]); eauto|].
  by eapply (Hok data (w_step w)).
Qed.

Lemma wp_popDeviceFlow o authID provider ownerID (Q : res deviceLoginFlow → world → Prop) w :
  (∀ e w', w_db w' = w_db w → fault e ∨ e = ErrInvalidOAuthState ∨ e = ErrUpstreamUnavailable → Q (Err e) w') →
  (∀ raw flow n w', w_db w' = w_db w →
     rget (now_at (w_step w)) (deviceKey authID) (w_redis w) = Some raw →
     json_Unmarshal raw = Some flow → dl_UserID flow = ownerID → dl_Provider flow = provider →
     dl_DeviceAuthID flow = authID → (now_at n < dl_ExpiresAt flow)%Z →
     w_redis w' = delete (deviceKey authID) (w_redis w) → Q (Ok flow) w') →
  wp (popDeviceFlow o authID provider ownerID) Q w.
Proof.
  intros He Hok. unfold popDeviceFlow. wp_step. wp_step; [by apply He; auto|].
  wp_step. apply wp_readDeviceFlow; [intros e w1 Hw1 _ [?|?]; apply He; auto|].
  intros raw flow n w1 Hw1 Hr1 Hg Hj Hu Hp Ha Hn.
  wp_step. apply wp_consumeDeviceFlow; [intros e w2 Hw2 [?|?] _; apply He; auto; congruence|].
  intros w2 Hw2 _ Hr2. wp_step. eapply Hok; try done; congruence.
Qed.

(** * Exchanging a code *)

Lemma wp_svc_Exchange o c verifier provider flowType (Q : res Token → world → Prop) w :
  (∀ e w', w_db w' = w_db w → w_redis w' = w_redis w → e ∈ exchange_errors → Q (Err e) w') →
  (∀ token r n w', w_db w' = w_db w → w_redis w' = w_redis w →
     rpc_ExchangeCode n c verifier provider flowType = inl (Some r) → answers_token r token → Q (Ok token) w') →
  wp (svc_Exchange o c verifier provider flowType) Q w.
Proof.
  intros He Hok. unfold svc_Exchange. wp_step.
  apply wp_authFor; [intros e [->| ->]; (apply He; [done|done|by_decide])|]. intros _.
  destruct (os_directory o); [|wp_step; apply He; [done|done|by_decide]].
  apply wp_Exchange; [by auto|]. intros r t Hr Ht _. by eapply Hok.
Qed.

Lemma exchange_error_reply_status e :
  reply_status (exchange_error_reply e) ∈ [400; 502; 503; 504]%Z ∧ reply_data (exchange_error_reply e) = None.
Proof. unfold exchange_error_reply. repeat case_match; (split; [by_decide|done]). Qed.

Lemma save_error_reply_status e :
  reply_status (save_error_reply e) ∈ [400; 500; 502; 503]%Z ∧ reply_data (save_error_reply e) = None.
Proof. unfold save_error_reply. repeat case_match; (split; [by_decide|done]). Qed.

Lemma deviceFlowErrorResponse_status e :
  reply_status (deviceFlowErrorResponse e) ∈ [400; 408; 502; 503; 504]%Z ∧
  reply_data (deviceFlowErrorResponse e) = None.
Proof. unfold deviceFlowErrorResponse. repeat case_match; (split; [by_decide|done]). Qed.

Lemma saved_reply_status accept : reply_status (saved_reply accept) ∈ [200; 303]%Z.
Proof. unfold saved_reply. case_match; by_decide. Qed.
End states.
