(* ===== verification/OauthSim.v ===== *)
(** Concrete instances for modules/oauth: an encoding of the stored flows, an
    authorization server and a sample service.  They show that the laws assumed
    in the contract hold together, and the witnesses run the handlers on them. *)

From S2P Require Import Prelude.
From S2P Require Import GoStrings.
From S2P Require Import Codec.
From S2P Require Import Schema.
From S2P Require Import Integrity.
From S2P Require Import Stores.
From S2P Require Import World.
From S2P Require Import Security.
From S2P Require Import Directory.
From S2P Require Import Oidc.
From S2P Require Import Oauth.
From S2P Require Import Sim.

Local Open Scope list_scope.
Local Open Scope N_scope.

Definition flow_tuple (f : LoginFlow) : string * N * string * string * Z :=
  (lf_Provider f, lf_UserID f, lf_Nonce f, lf_Verifier f, lf_ExpiresAt f).
Definition tuple_flow (t : string * N * string * string * Z) : LoginFlow :=
  let '(p, u, n, v, e) := t in Build_LoginFlow p u n v e.

Definition dflow_tuple (f : deviceLoginFlow) : string * N * string * string * N * Z :=
  (dl_Provider f, dl_UserID f, dl_DeviceAuthID f, dl_UserCode f, dl_Interval f, dl_ExpiresAt f).
Definition tuple_dflow (t : string * N * string * string * N * Z) : deviceLoginFlow :=
  let '(p, u, i, c, n, e) := t in Build_deviceLoginFlow p u i c n e.

#[export] Instance sim_json : Json LoginFlow := {|
  json_Marshal := λ f, inl (bits_of (encode (flow_tuple f)));
  json_Unmarshal := λ s, tuple_flow <$> decode (of_bits s);
  json_carries := λ _, True
|}.

#[export] Instance sim_djson : Json deviceLoginFlow := {|
  json_Marshal := λ f, inl (bits_of (encode (dflow_tuple f)));
  json_Unmarshal := λ s, tuple_dflow <$> decode (of_bits s);
  json_carries := λ _, True
|}.

#[export] Instance sim_json_laws : JsonLaws LoginFlow.
Proof.
  split. intros f _. eexists. split; [reflexivity|]. cbn. rewrite of_bits_of, decode_encode. by destruct f.
Qed.

#[export] Instance sim_djson_laws : JsonLaws deviceLoginFlow.
Proof.
  split. intros f _. eexists. split; [reflexivity|]. cbn. rewrite of_bits_of, decode_encode. by destruct f.
Qed.

(** The server answers every call; the identity of its tokens is a new account. *)
Definition sim_token : TokenResponse :=
  Build_TokenResponse "access" "refreshed" "Bearer" None "id-token".

#[export] Instance sim_upstream : UpstreamClient := {|
  rpc_GetDeviceFlowCode := λ _ _, inl (Some (Build_DeviceFlowResponse "dev" "code" 5 "https://auth.example.com/device"));
  rpc_PollDeviceFlow := λ _ _ _ _ _, inl (Some (Build_DeviceAuthorizationResponse "auth-code" "verifier"));
  rpc_GetProvider := λ _ _, inl None;
  rpc_Verifier := λ _ _ _, inl (Some (Build_VerifyResponse "issuer" "subject" [] "nonce" "acc-1" None None));
  rpc_ExchangeCode := λ _ _ _ _ _, inl (Some sim_token);
  rpc_RefreshToken := λ _ _ _, inl (Some sim_token)
|}.

#[export] Instance sim_oauth2 : OAuth2 := λ config state _, oc_AuthURL config +:+ "?state=" +:+ state.

Definition sim_claims (s : string) : option IDTokenClaims := Some (Build_IDTokenClaims "a@example.com" s).

Definition sample_config : OAuthConfig :=
  Build_OAuthConfig "client" "" "https://gw.example.com/callback" "https://auth.example.com/authorize"
    "https://auth.example.com/token" "" AuthStyleInParams ["openid"]%string.

Definition sample_service : OauthService :=
  Build_OauthService true {["oai"%string := Some (Build_OIDCAuth None (Some sample_config) [] None)]} true true sample_key.

(** Pending logins of the second user, who has not the account of the server. *)
Definition sample_flow : LoginFlow := Build_LoginFlow "oai" 2 "nonce" "verifier" (5 * minute)%Z.
Definition sample_dflow : deviceLoginFlow := Build_deviceLoginFlow "oai" 2 "dev" "code" 5 (15 * minute)%Z.

Definition login_redis : redis :=
  <[oidcStateKey "state" := (bits_of (encode (flow_tuple sample_flow)), Some (5 * minute)%Z)]>
  (<[deviceKey "dev" := (bits_of (encode (dflow_tuple sample_dflow)), Some (15 * minute)%Z)]> ∅).

Definition login_world : world := Build_world sample_db login_redis (Build_casbin [] []) 0.

Lemma login_world_wf : db_wf (w_db login_world).
Proof. exact sample_db_wf. Qed.

Definition sample_token : Token := Build_Token "access" "refreshed" "Bearer" zero_time (ExtraString "id-token").
