(* ===== verification/OauthSessions.v ===== *)
(** The pending logins of modules/oauth as a transition system.  Any number of
    requests store, pop, read and complete flows in Redis, interleaved at the
    commands they issue, next to a world that does anything else; a command may
    fail, and one that fails may have been executed. *)

From S2P Require Import Prelude.
From S2P Require Import GoStrings.
From S2P Require Import Codec.
From S2P Require Import Schema.
From S2P Require Import Integrity.
From S2P Require Import Stores.
From S2P Require Import World.
From S2P Require Import SingleUse.
From S2P Require Import Security.
From S2P Require Import Directory.
From S2P Require Import Oidc.
From S2P Require Import Oauth.
From S2P Require Import OauthFacts.
From S2P Require Import Sim.
From S2P Require Import OauthSim.

Local Open Scope list_scope.
Local Open Scope N_scope.

(** A request between the read and the compare-and-delete of a device flow. *)
Record pending := { pe_AuthID : string; pe_Owner : N; pe_Raw : string; pe_Flow : deviceLoginFlow }.

(** The flows that were sent to Redis, those that came out of it, and the
    requests under way. *)
Record sessions := {
  ss_world : world;
  ss_stored : list (string * LoginFlow);
  ss_popped : list (string * LoginFlow);
  ss_dstored : list (string * deviceLoginFlow);
  ss_pending : list pending;
  ss_done : list (string * (N * deviceLoginFlow))
}.

Definition login_key (k : string) : Prop :=
  (∃ state, k = oidcStateKey state) ∨ ∃ id, k = deviceKey id.

Lemma login_key_browser state : login_key (oidcStateKey state).
Proof. left. by exists state. Qed.
Lemma login_key_device id : login_key (deviceKey id).
Proof. right. by exists id. Qed.

Section sessions.
Context `{EnvLaws} `{!Json LoginFlow} `{!Json deviceLoginFlow} `{!JsonLaws LoginFlow} `{!JsonLaws deviceLoginFlow}.
Context (o : OauthService).

(** One step: a handler's call to the flow store, with its result, or a step of
    anything else that leaves the flows alone. *)
Inductive session_step : sessions → sessions → Prop :=
  | step_store state flow r w' s : json_carries flow →
      StoreFlow o state flow (ss_world s) = (r, w') →
      session_step s (Build_sessions w' ((state, flow) :: ss_stored s) (ss_popped s)
                        (ss_dstored s) (ss_pending s) (ss_done s))
  | step_pop state flow w' s :
      PopFlow o state (ss_world s) = (Ok flow, w') →
      session_step s (Build_sessions w' (ss_stored s) ((state, flow) :: ss_popped s)
                        (ss_dstored s) (ss_pending s) (ss_done s))
  | step_pop_failed state e w' s :
      PopFlow o state (ss_world s) = (Err e, w') →
      session_step s (Build_sessions w' (ss_stored s) (ss_popped s)
                        (ss_dstored s) (ss_pending s) (ss_done s))
  | step_dstore flow r w' s : json_carries flow →
      storeDeviceFlow o flow (ss_world s) = (r, w') →
      session_step s (Build_sessions w' (ss_stored s) (ss_popped s)
                        ((dl_DeviceAuthID flow, flow) :: ss_dstored s) (ss_pending s) (ss_done s))
  | step_read authID provider owner raw flow w' s :
      readDeviceFlow authID provider owner (ss_world s) = (Ok (raw, flow), w') →
      session_step s (Build_sessions w' (ss_stored s) (ss_popped s) (ss_dstored s)
                        (Build_pending authID owner raw flow :: ss_pending s) (ss_done s))
  | step_read_failed authID provider owner e w' s :
      readDeviceFlow authID provider owner (ss_world s) = (Err e, w') →
      session_step s (Build_sessions w' (ss_stored s) (ss_popped s)
                        (ss_dstored s) (ss_pending s) (ss_done s))
  | step_consume p l1 l2 w' s : ss_pending s = l1 ++ p :: l2 →
      consumeDeviceFlow (pe_AuthID p) (pe_Raw p) (ss_world s) = (Ok tt, w') →
      session_step s (Build_sessions w' (ss_stored s) (ss_popped s) (ss_dstored s) (l1 ++ l2)
                        ((pe_AuthID p, (pe_Owner p, pe_Flow p)) :: ss_done s))
  | step_consume_failed p l1 l2 e w' s : ss_pending s = l1 ++ p :: l2 →
      consumeDeviceFlow (pe_AuthID p) (pe_Raw p) (ss_world s) = (Err e, w') →
      session_step s (Build_sessions w' (ss_stored s) (ss_popped s)
                        (ss_dstored s) (l1 ++ l2) (ss_done s))
  | step_other w' s :
      (∀ k, login_key k → w_redis w' !! k = w_redis (ss_world s) !! k) →
      session_step s (Build_sessions w' (ss_stored s) (ss_popped s)
                        (ss_dstored s) (ss_pending s) (ss_done s)).

(** Before any login. *)
Definition no_sessions (s : sessions) : Prop :=
  (∀ k, login_key k → w_redis (ss_world s) !! k = None) ∧
  ss_stored s = [] ∧ ss_popped s = [] ∧ ss_dstored s = [] ∧ ss_pending s = [] ∧ ss_done s = [].

(** * The invariant *)

Record sessions_inv (s : sessions) : Prop := {
  inv_browser : family json_Unmarshal oidcStateKey (ss_stored s) (ss_popped s) (w_redis (ss_world s));
  inv_device : family json_Unmarshal deviceKey (ss_dstored s) (ss_done s) (w_redis (ss_world s));
  inv_popped x : x ∈ ss_popped s → x ∈ ss_stored s;
  inv_pending p : p ∈ ss_pending s →
    (pe_AuthID p, pe_Flow p) ∈ ss_dstored s ∧ dl_UserID (pe_Flow p) = pe_Owner p;
  inv_done authID owner flow : (authID, (owner, flow)) ∈ ss_done s →
    (authID, flow) ∈ ss_dstored s ∧ dl_UserID flow = owner
}.

Lemma carried_decodes {A} `{!Json A, !JsonLaws A} (a : A) data :
  json_carries a → json_Marshal a = inl data → json_Unmarshal data = Some a.
Proof. intros Hj Hm. destruct (json_roundtrip a Hj) as (d & Hd & Hu). congruence. Qed.

Lemma deviceKey_inj i j : deviceKey i = deviceKey j → i = j.
Proof. apply str_app_inv_head. Qed.

Lemma keys_disjoint state id : oidcStateKey state ≠ deviceKey id.
Proof. done. Qed.

Lemma browser_frame {B} (stored : list (string * LoginFlow)) (out : list (string * B)) r r' id :
  family json_Unmarshal oidcStateKey stored out r →
  (r' = r ∨ r' = delete (deviceKey id) r ∨ ∃ e, r' = <[deviceKey id := e]> r) →
  family json_Unmarshal oidcStateKey stored out r'.
Proof.
  intros Hf Hr. apply (family_same _ _ _ _ _ _ Hf). intros k.
  destruct Hr as [->|[->|[e ->]]]; [done|by rewrite lookup_delete_ne|by rewrite lookup_insert_ne].
Qed.

Lemma device_frame {B} (stored : list (string * deviceLoginFlow)) (out : list (string * B)) r r' st :
  family json_Unmarshal deviceKey stored out r →
  (r' = r ∨ r' = delete (oidcStateKey st) r ∨ ∃ e, r' = <[oidcStateKey st := e]> r) →
  family json_Unmarshal deviceKey stored out r'.
Proof.
  intros Hf Hr. apply (family_same _ _ _ _ _ _ Hf). intros k.
  destruct Hr as [->|[->|[e ->]]]; [done|by rewrite lookup_delete_ne|by rewrite lookup_insert_ne].
Qed.

(** What each call does to the redis, whatever it answers. *)
Lemma StoreFlow_redis state flow w r w' :
  os_redisClient o = true → StoreFlow o state flow w = (r, w') →
  w_redis w' = w_redis w ∨ ∃ data t, json_Marshal flow = inl data ∧
    w_redis w' = <[oidcStateKey state := (data, t)]> (w_redis w).
Proof.
  intros Hr Hs.
  pose proof (wp_StoreFlow o state flow (λ _ w', w_redis w' = w_redis w ∨ ∃ data t,
    json_Marshal flow = inl data ∧ w_redis w' = <[oidcStateKey state := (data, t)]> (w_redis w)) w Hr) as Hwp.
  unfold wp in Hwp. rewrite Hs in Hwp. apply Hwp; eauto 6.
Qed.

Lemma PopFlow_redis state w r w' :
  os_redisClient o = true → PopFlow o state w = (r, w') →
  match r with
  | Ok flow => ∃ data t, w_redis w !! oidcStateKey state = Some (data, t) ∧
      json_Unmarshal data = Some flow ∧ w_redis w' = delete (oidcStateKey state) (w_redis w)
  | Err _ => w_redis w' = w_redis w ∨ w_redis w' = delete (oidcStateKey state) (w_redis w)
  | Panic => False
  end.
Proof.
  intros Hr Hs.
  assert (Hwp : wp (PopFlow o state) (λ r w', match r with
    | Ok flow => ∃ data t, w_redis w !! oidcStateKey state = Some (data, t) ∧
      json_Unmarshal data = Some flow ∧ w_redis w' = delete (oidcStateKey state) (w_redis w)
    | Err _ => w_redis w' = w_redis w ∨ w_redis w' = delete (oidcStateKey state) (w_redis w)
    | Panic => False end) w).
  { apply wp_PopFlow; [done|auto|]. intros flow data w1 _ Hg Hj Hd.
    apply rget_lookup in Hg as [t Ht]. eauto 6. }
  unfold wp in Hwp. by rewrite Hs in Hwp.
Qed.

Lemma storeDeviceFlow_redis flow w r w' :
  storeDeviceFlow o flow w = (r, w') →
  w_redis w' = w_redis w ∨ ∃ data t, json_Marshal flow = inl data ∧
    w_redis w' = <[deviceKey (dl_DeviceAuthID flow) := (data, t)]> (w_redis w).
Proof.
  intros Hs.
  pose proof (wp_storeDeviceFlow o flow (λ _ w', w_redis w' = w_redis w ∨ ∃ data t,
    json_Marshal flow = inl data ∧
    w_redis w' = <[deviceKey (dl_DeviceAuthID flow) := (data, t)]> (w_redis w)) w) as Hwp.
  unfold wp in Hwp. rewrite Hs in Hwp. apply Hwp; eauto 6.
Qed.

Lemma readDeviceFlow_redis authID provider owner w r w' :
  readDeviceFlow authID provider owner w = (r, w') → w_redis w' = w_redis w ∧
  match r with
  | Ok (raw, flow) => ∃ t, w_redis w !! deviceKey authID = Some (raw, t) ∧
      json_Unmarshal raw = Some flow ∧ dl_UserID flow = owner
  | _ => True
  end.
Proof.
  intros Hs. assert (Hwp : wp (readDeviceFlow authID provider owner) (λ r w', w_redis w' = w_redis w ∧
    match r with
    | Ok (raw, flow) => ∃ t, w_redis w !! deviceKey authID = Some (raw, t) ∧
      json_Unmarshal raw = Some flow ∧ dl_UserID flow = owner
    | _ => True end) w).
  { apply wp_readDeviceFlow; [auto|]. intros raw flow n w1 _ Hw1 Hg Hj Hu _ _ _.
    apply rget_lookup in Hg as [t Ht]. eauto. }
  unfold wp in Hwp. by rewrite Hs in Hwp.
Qed.

Lemma consumeDeviceFlow_redis authID raw w r w' :
  consumeDeviceFlow authID raw w = (r, w') →
  match r with
  | Ok _ => is_Some (w_redis w !! deviceKey authID) ∧ w_redis w' = delete (deviceKey authID) (w_redis w)
  | _ => w_redis w' = w_redis w ∨ w_redis w' = delete (deviceKey authID) (w_redis w)
  end.
Proof.
  intros Hs. assert (Hwp : wp (consumeDeviceFlow authID raw) (λ r w', match r with
    | Ok _ => is_Some (w_redis w !! deviceKey authID) ∧ w_redis w' = delete (deviceKey authID) (w_redis w)
    | _ => w_redis w' = w_redis w ∨ w_redis w' = delete (deviceKey authID) (w_redis w) end) w).
  { apply wp_consumeDeviceFlow; [auto|]. intros w1 _ Hg Hd. apply rget_lookup in Hg as [t Ht]. eauto. }
  unfold wp in Hwp. by rewrite Hs in Hwp.
Qed.

Lemma sessions_inv_init s : no_sessions s → sessions_inv s.
Proof.
  intros (Hr & Hs & Hp & Hd & He & Hn). split; rewrite ?Hs, ?Hp, ?Hd, ?He, ?Hn.
  1,2: split; [intros k data t; rewrite Hr by auto using login_key_browser, login_key_device; done|];
       intros k; unfold present; rewrite Hr by auto using login_key_browser, login_key_device; cbn; lia.
  - done.
  - intros p Hin. by apply not_elem_of_nil in Hin.
  - intros ? ? ? Hin. by apply not_elem_of_nil in Hin.
Qed.

Lemma sessions_inv_step s s' :
  os_redisClient o = true → session_step s s' → sessions_inv s → sessions_inv s'.
Proof.
  intros Hrc Hstep [Hb Hd Hpop Hpen Hdone]. destruct Hstep.
  - rename select (StoreFlow _ _ _ _ = _) into Hcall. pose proof (StoreFlow_redis _ _ _ _ _ Hrc Hcall) as Hr. split; cbn; [| |set_solver|done|done].
    + destruct Hr as [->|(data & t & Hm & ->)]; [by apply family_attempt|].
      apply family_insert; eauto using oidcStateKey_inj, carried_decodes.
    + eapply (device_frame _ _ _ _ state); [done|]. naive_solver.
  - rename select (PopFlow _ _ _ = _) into Hcall.
    destruct (PopFlow_redis _ _ _ _ Hrc Hcall) as (data & t & Hg & Hj & Hr). split; cbn; rewrite ?Hr; [| | |done|done].
    + apply family_take; eauto using oidcStateKey_inj.
    + by eapply (device_frame _ _ _ _ state); [|auto].
    + intros x [->|Hx]%elem_of_cons; [|auto].
      destruct (fm_stored _ _ _ _ _ Hb _ _ _ Hg) as (a & Ha & Hu). congruence.
  - rename select (PopFlow _ _ _ = _) into Hcall. pose proof (PopFlow_redis _ _ _ _ Hrc Hcall) as Hr. split; cbn; [| |done..].
    + destruct Hr as [->| ->]; [done|]. by apply family_delete.
    + eapply (device_frame _ _ _ _ state); [done|]. naive_solver.
  - rename select (storeDeviceFlow _ _ _ = _) into Hcall. pose proof (storeDeviceFlow_redis _ _ _ _ Hcall) as Hr. split; cbn; [| |done| |].
    + eapply (browser_frame _ _ _ _ (dl_DeviceAuthID flow)); [done|]. naive_solver.
    + destruct Hr as [->|(data & t & Hm & ->)]; [by apply family_attempt|].
      apply family_insert; eauto using deviceKey_inj, carried_decodes.
    + intros p Hp. destruct (Hpen p Hp). split; [by right|done].
    + intros a u f Hf. destruct (Hdone a u f Hf). split; [by right|done].
  - rename select (readDeviceFlow _ _ _ _ = _) into Hcall.
    destruct (readDeviceFlow_redis _ _ _ _ _ _ Hcall) as (Hr & t & Hg & Hj & Hu). split; cbn; rewrite ?Hr; [done..| |done].
    intros p [->|Hp]%elem_of_cons; [|auto]. cbn. split; [|done].
    destruct (fm_stored _ _ _ _ _ Hd _ _ _ Hg) as (a & Ha & Hj'). congruence.
  - rename select (readDeviceFlow _ _ _ _ = _) into Hcall. destruct (readDeviceFlow_redis _ _ _ _ _ _ Hcall) as [Hr _]. split; cbn; rewrite ?Hr; done.
  - rename select (consumeDeviceFlow _ _ _ = _) into Hcall. rename select (ss_pending s = _) into Hl.
    pose proof (consumeDeviceFlow_redis _ _ _ _ _ Hcall) as [Hg Hr]. rewrite Hl in Hpen.
    split; cbn; rewrite ?Hr; [| |done| |].
    + by eapply (browser_frame _ _ _ _ (pe_AuthID p)); [|auto].
    + apply family_take; auto using deviceKey_inj.
    + intros q Hq. apply Hpen. set_solver.
    + intros a u f [[= -> -> ->]|Hf]%elem_of_cons; [|auto]. apply Hpen. set_solver.
  - rename select (consumeDeviceFlow _ _ _ = _) into Hcall. rename select (ss_pending s = _) into Hl.
    pose proof (consumeDeviceFlow_redis _ _ _ _ _ Hcall) as Hr. rewrite Hl in Hpen. split; cbn; [| |done| |done].
    + eapply (browser_frame _ _ _ _ (pe_AuthID p)); [done|]. naive_solver.
    + destruct Hr as [->| ->]; [done|]. by apply family_delete.
    + intros q Hq. apply Hpen. set_solver.
  - split; cbn; [| |done..]; eapply family_same; try done; intros k; rename select (∀ k, login_key k → _) into Hk; apply Hk; auto using login_key_browser, login_key_device.
Qed.

Lemma sessions_inv_reachable s s' :
  os_redisClient o = true → no_sessions s → rtc session_step s s' → sessions_inv s'.
Proof.
  intros Hrc Hi Hs. apply sessions_inv_init in Hi.
  induction Hs as [|s1 s2 s3 Hstep _ IH]; [done|]. by apply IH, (sessions_inv_step s1).
Qed.

(** * The contract *)

(** C9: however the requests interleave and whichever commands fail, a browser
    login comes out of Redis only if it was stored under that state, and never
    more often than it was stored: the state of a callback cannot be replayed. *)
Theorem browser_state_once s s' :
  os_redisClient o = true → no_sessions s → rtc session_step s s' →
  (∀ state flow, (state, flow) ∈ ss_popped s' → (state, flow) ∈ ss_stored s') ∧
  ∀ state, (times state (ss_popped s') <= times state (ss_stored s'))%nat.
Proof.
  intros Hrc Hi Hs. destruct (sessions_inv_reachable s s' Hrc Hi Hs) as [[_ Hc] _ Hp _ _].
  split; [by auto|]. intros state. specialize (Hc state). lia.
Qed.

(** C10: however the requests interleave between the read and the delete, a device
    login is completed only by the user who started it and only with the flow
    that was stored, and never more often than it was stored. *)
Theorem device_flow_once s s' :
  os_redisClient o = true → no_sessions s → rtc session_step s s' →
  (∀ authID owner flow, (authID, (owner, flow)) ∈ ss_done s' →
     (authID, flow) ∈ ss_dstored s' ∧ dl_UserID flow = owner) ∧
  ∀ authID, (times authID (ss_done s') <= times authID (ss_dstored s'))%nat.
Proof.
  intros Hrc Hi Hs. destruct (sessions_inv_reachable s s' Hrc Hi Hs) as [_ [_ Hc] _ _ Hd].
  split; [by auto|]. intros authID. specialize (Hc authID). lia.
Qed.

End sessions.

(** * Witnesses *)

(** A login stored and popped, and a device login stored, read and completed. *)
Definition no_login : sessions := Build_sessions sample_world [] [] [] [] [].

Lemma no_login_none : no_sessions no_login.
Proof. split_and!; [intros k _; apply lookup_empty|reflexivity..]. Qed.

Lemma browser_state_once_witness :
  ∃ s', rtc (session_step sample_service) no_login s' ∧
    times "state" (ss_popped s') = 1%nat ∧
    ((∀ state flow, (state, flow) ∈ ss_popped s' → (state, flow) ∈ ss_stored s') ∧
     ∀ state, (times state (ss_popped s') <= times state (ss_stored s'))%nat).
Proof.
  assert (Hrun : ∃ s', rtc (session_step sample_service) no_login s' ∧
    times "state" (ss_popped s') = 1%nat).
  { eexists. split.
    - eapply rtc_l; [eapply (step_store sample_service "state" sample_flow); [exact I|reflexivity]|].
      eapply rtc_l; [eapply (step_pop sample_service "state" sample_flow); vm_compute; reflexivity|].
      eapply rtc_refl.
    - reflexivity. }
  destruct Hrun as (s' & Hs & Ht). exists s'. split; [exact Hs|]. split; [exact Ht|].
  exact (browser_state_once sample_service no_login s' eq_refl no_login_none Hs).
Defined.

Lemma device_flow_once_witness :
  ∃ s', rtc (session_step sample_service) no_login s' ∧
    times "dev" (ss_done s') = 1%nat ∧
    ((∀ authID owner flow, (authID, (owner, flow)) ∈ ss_done s' →
       (authID, flow) ∈ ss_dstored s' ∧ dl_UserID flow = owner) ∧
     ∀ authID, (times authID (ss_done s') <= times authID (ss_dstored s'))%nat).
Proof.
  assert (Hrun : ∃ s', rtc (session_step sample_service) no_login s' ∧
    times "dev" (ss_done s') = 1%nat).
  { eexists. split.
    - eapply rtc_l; [eapply (step_dstore sample_service sample_dflow); [exact I|reflexivity]|].
      eapply rtc_l; [eapply (step_read sample_service "dev" "oai" 2 _ sample_dflow); vm_compute; reflexivity|].
      eapply rtc_l; [eapply (step_consume sample_service _ [] []); [reflexivity|vm_compute; reflexivity]|].
      eapply rtc_refl.
    - reflexivity. }
  destruct Hrun as (s' & Hs & Ht). exists s'. split; [exact Hs|]. split; [exact Ht|].
  exact (device_flow_once sample_service no_login s' eq_refl no_login_none Hs).
Defined.
