(* ===== verification/OauthSpec.v ===== *)
(** The contract of modules/oauth: a login is bound to the user who started it
    and ends with the verified identity and encrypted credentials of that user
    in the tables, or with the tables as they were. *)

From S2P Require Import Prelude.
From S2P Require Import GoStrings.
From S2P Require Import Codec.
From S2P Require Import Schema.
From S2P Require Import Integrity.
From S2P Require Import Stores.
From S2P Require Import World.
From S2P Require Import Tenants.
From S2P Require Import Security.
From S2P Require Import Http.
From S2P Require Import Directory.
From S2P Require Import Oidc.
From S2P Require Import Oauth.
From S2P Require Import OauthFacts.
From S2P Require Import Sim.
From S2P Require Import OauthSim.

Local Open Scope list_scope.
Local Open Scope N_scope.

(** * The account rows *)

Definition user_accounts (userid : N) (d : db) : list OAuthInfo :=
  sort_by oauth_desc (select (λ o, oi_UserID o =? userid) (t_oauth d)).

Definition account_removed (ownerID id : N) (d : db) : db :=
  set_rows api_key_accounts
    (select (λ b, negb ((ba_OAuthInfoID b =? id) && (ba_UserID b =? ownerID))) (t_bind d))
    (set_rows oauth_infos (select (λ k, negb (owned ownerID id k)) (t_oauth d)) d).

Section rows.
Context `{EnvLaws}.

Lemma wp_repo_getUserOauth userid (Q : res (list OAuthListItem) → world → Prop) w :
  (∀ e w', w_db w' = w_db w → fault e → Q (Err e) w') →
  (∀ w', w_db w' = w_db w → Q (Ok (oauth_item <$> user_accounts userid (w_db w))) w') →
  wp (repo_getUserOauth userid) Q w.
Proof.
  intros He Hok. unfold repo_getUserOauth. wp_step. wp_step; [by intros; apply He|].
  wp_step. by apply Hok.
Qed.

Lemma wp_repo_deleteUserOauth id ownerID (Q : res unit → world → Prop) w :
  db_wf (w_db w) →
  (∀ e w', w_db w' = w_db w → fault e → Q (Err e) w') →
  (∀ w', has_oauth (w_db w) ownerID id = false → w_db w' = w_db w → Q (Err ErrOAuthNotFound) w') →
  (∀ w', has_oauth (w_db w) ownerID id = true →
         w_db w' = account_removed ownerID id (w_db w) → Q (Ok tt) w') →
  wp (repo_deleteUserOauth id ownerID) Q w.
Proof.
  intros Hwf He Hno Hok. unfold repo_deleteUserOauth. wp_step. wp_step; [by intros; apply He|].
  change (owned ownerID id) with (owned_oauth ownerID id). rewrite delete_oauth by done.
  wp_step; prop_guards.
  - assert (Hnone : ∀ k, k ∈ t_oauth (w_db w) → owned ownerID id k = false) by by apply select_length_0.
    apply Hno; [by apply has_oauth_owned|]. cbn [w_db tick set_db].
    rewrite !select_all; [by destruct (w_db w)|..].
    + intros k Hk. by apply negb_true_iff, Hnone.
    + intros b Hb. apply negb_true_iff, not_true_iff_false. intros ?. prop_guards. subst.
      destruct (binding_owner (w_db w) b Hwf Hb) as (k & x & _ & Hx & _ & Hid & _ & Hu).
      specialize (Hnone x Hx). unfold owned in Hnone. by rewrite Hid, Hu, !N.eqb_refl in Hnone.
  - apply Hok; [|done]. rename select (_ ≠ 0) into Hn. apply select_length_pos in Hn as (k & Hk & Ho).
    apply not_false_iff_true. intros Hf. rewrite has_oauth_owned in Hf. by rewrite Hf in Ho.
Qed.
End rows.

Section spec.
Context `{EnvLaws} `{AeadLaws} `{UpstreamClient} `{OAuth2}.
Context `{!Json LoginFlow} `{!Json deviceLoginFlow} `{!JsonLaws LoginFlow} `{!JsonLaws deviceLoginFlow}.

(** * Pending logins *)

(** A stored browser login comes back exactly as it was stored, once, unless
    its five minutes have passed or Redis fails; after that the state is
    unknown. *)
Theorem login_flow_roundtrip o state flow w :
  os_redisClient o = true → json_carries flow →
  wp (_ ← StoreFlow o state flow;
      first ← attempt (PopFlow o state); second ← attempt (PopFlow o state);
      mret (first, second)) (λ r w', w_db w' = w_db w ∧
    match r with
    | Ok (inl flow', second) => flow' = flow ∧ ∃ e, second = inr e ∧
        (e = ErrInvalidOAuthState ∨ ∃ e', fault e' ∧ e = Wrapped "delete OAuth state" e')
    | Ok (inr e, _) =>
        (∃ e', fault e' ∧ e = Wrapped "delete OAuth state" e') ∨
        e = ErrInvalidOAuthState ∧ (now_at (w_step w) + 5 * minute <= now_at (S (w_step w)))%Z
    | Err e => fault e
    | Panic => False
    end) w.
Proof.
  intros Hr Hj. destruct (json_roundtrip flow Hj) as (data & Hm & Hu).
  wp_step. apply wp_StoreFlow; [done|intros e w1 Hw1 [Hf|He] _; [done|congruence]|].
  intros data' w1 Hm' Hw1 Hs1 Hr1. rewrite Hm in Hm'. injection Hm' as <-.
  assert (Hget : rget (now_at (w_step w1)) (oidcStateKey state) (w_redis w1) =
    if (now_at (S (w_step w)) <? now_at (w_step w) + 5 * minute)%Z then Some data else None).
  { by rewrite Hr1, Hs1, rget_insert_eq. }
  do 2 wp_step. apply wp_PopFlow; [done|..].
  - intros e w2 Hw2 He _. do 2 wp_step.
    assert (Hgoal : (∃ e', fault e' ∧ e = Wrapped "delete OAuth state" e') ∨
        e = ErrInvalidOAuthState ∧ (now_at (w_step w) + 5 * minute <= now_at (S (w_step w)))%Z).
    { rewrite Hget in He. destruct (_ <? _)%Z eqn:Ht; prop_guards; naive_solver. }
    apply wp_PopFlow; [done|intros ? w3 Hw3 _ _|intros ? ? w3 Hw3 _ _ _]; wp_step;
      (split; [congruence|done]).
  - intros flow' data' w2 Hw2 Hg Hu' Hr2. do 2 wp_step.
    assert (flow' = flow) as ->.
    { rewrite Hget in Hg. destruct (_ <? _)%Z; [|done]. congruence. }
    apply wp_PopFlow; [done|..]; rewrite Hr2.
    + intros e w3 Hw3 He _. wp_step. split; [congruence|]. split; [done|]. exists e. split; [done|].
      rewrite rget_delete_eq in He. naive_solver.
    + intros f d w3 Hw3 Hd. by rewrite rget_delete_eq in Hd.
Qed.

(** Only the user who started a device login takes it, for that provider and
    before it expires, and then it is gone; anyone else is refused and the login
    stays where it is. *)
Theorem popDeviceFlow_correct o authID provider ownerID w :
  os_redisClient o = true →
  wp (popDeviceFlow o authID provider ownerID) (λ r w', w_db w' = w_db w ∧
    match r with
    | Ok flow => ∃ raw n, rget (now_at (w_step w)) (deviceKey authID) (w_redis w) = Some raw ∧
        json_Unmarshal raw = Some flow ∧ dl_UserID flow = ownerID ∧ dl_Provider flow = provider ∧
        dl_DeviceAuthID flow = authID ∧ (now_at n < dl_ExpiresAt flow)%Z ∧
        w_redis w' = delete (deviceKey authID) (w_redis w)
    | Err e => (fault e ∨ e = ErrInvalidOAuthState) ∧
        ∀ raw flow, rget (now_at (w_step w)) (deviceKey authID) (w_redis w) = Some raw →
          json_Unmarshal raw = Some flow → dl_UserID flow ≠ ownerID → w_redis w' = w_redis w
    | Panic => False
    end) w.
Proof.
  intros Hr. unfold popDeviceFlow. rewrite Hr. wp_step. wp_step; [done|].
  wp_step. apply wp_readDeviceFlow.
  { intros e w1 Hw1 Hr1 He. auto. }
  intros raw flow n w1 Hw1 Hr1 Hg Hj Hu Hp Ha Hn.
  wp_step. apply wp_consumeDeviceFlow.
  - intros e w2 Hw2 He _. split; [congruence|]. split; [done|].
    intros raw' flow' Hg' Hj' Hne. congruence.
  - intros w2 Hw2 _ Hr2. wp_step. split; [congruence|]. exists raw, n. by rewrite Hr2, Hr1.
Qed.

Context (claims_json : string → option IDTokenClaims).

(** * Credentials *)

(** Saving a token adds one account row, and only after the ID token was
    verified for the provider of the flow, carries the nonce of a browser login
    and names an account; the row is the flow's user's and its three tokens are
    encrypted and open to those of the provider.  Otherwise nothing changes. *)
Theorem SaveToken_correct o token flow isbrowser w :
  db_wf (w_db w) →
  wp (svc_SaveToken claims_json o token flow isbrowser) (λ r w',
    match r with
    | Ok _ => token_saved claims_json o token flow isbrowser (w_db w) (w_db w')
    | Err e => save_error (os_encryptionKey o) (lf_UserID flow) (w_db w) e ∧ w_db w' = w_db w
    | Panic => False
    end) w.
Proof. intros Hwf. apply wp_SaveToken; auto. Qed.

(** C30: refreshing an account rewrites the token columns of that one row, with
    credentials the provider gave for its own refresh token and, when there is a
    new identity, for the same account; any error leaves every table as it was. *)
Theorem RefreshToken_correct o ownerID id w :
  db_wf (w_db w) →
  wp (svc_RefreshToken claims_json o ownerID id) (λ r w',
    match r with
    | Ok _ => ∃ model m now, model ∈ t_oauth (w_db w) ∧ owned ownerID id model = true ∧
        refreshed claims_json o model m ∧ w_db w' = tokens_updated ownerID id m now (w_db w)
    | Err e => refresh_error o ownerID id (w_db w) e ∧ w_db w' = w_db w
    | Panic => False
    end) w.
Proof. intros Hwf. apply wp_svc_RefreshToken; eauto 10. Qed.

(** * The handlers *)

(** A code exchanged at the provider of the flow, and its token saved. *)
Definition code_saved (o : OauthService) (code verifier flowType : string) (flow : LoginFlow)
    (isbrowser : bool) (d d' : db) : Prop :=
  ∃ n r token, rpc_ExchangeCode n code verifier (lf_Provider flow) flowType = inl (Some r) ∧
    answers_token r token ∧ token_saved claims_json o token flow isbrowser d d'.

(** The common end of both callbacks. *)
Lemma wp_exchange_and_save o code verifier flowType flow isbrowser accept
    (Q : res answer → world → Prop) w :
  db_wf (w_db w) →
  (∀ a w', w_db w' = w_db w → reply_status a ∈ [400; 500; 502; 503; 504]%Z → Q (Ok a) w') →
  (∀ w', code_saved o code verifier flowType flow isbrowser (w_db w) (w_db w') →
     Q (Ok (saved_reply accept)) w') →
  wp (or_reply (svc_Exchange o code verifier (lf_Provider flow) flowType) exchange_error_reply (λ token,
      or_reply (svc_SaveToken claims_json o token flow isbrowser) save_error_reply (λ _,
      mret (saved_reply accept)))) Q w.
Proof.
  intros Hwf He Hok. apply wp_or_reply, wp_svc_Exchange.
  - intros e w1 Hw1 _ _. apply He; [done|].
    destruct (exchange_error_reply_status e) as [Hs _]. set_solver.
  - intros token r n w1 Hw1 _ Hx Ha. apply wp_or_reply, wp_SaveToken; [by rewrite Hw1|..].
    + intros e w2 Hw2 _. apply He; [congruence|].
      destruct (save_error_reply_status e) as [Hs _]. set_solver.
    + intros w2 Hs. wp_step. apply Hok. rewrite Hw1 in Hs. exists n, r, token. done.
Qed.

(** What a callback may do: refuse and leave the tables, or store the credentials
    of the flow its state names. *)
Definition callback_outcome (o : OauthService) (state error code : string) (w : world) (r : res answer) (w' : world) : Prop :=
    ∃ a, r = Ok a ∧
    ((reply_status a ∈ [400; 500; 502; 503; 504]%Z ∧ w_db w' = w_db w) ∨
     (reply_status a ∈ [200; 303]%Z ∧ state ≠ ""%string ∧ error = ""%string ∧ code ≠ ""%string ∧
      ∃ data flow n, rget (now_at (w_step w)) (oidcStateKey state) (w_redis w) = Some data ∧
        json_Unmarshal data = Some flow ∧ (now_at n <= lf_ExpiresAt flow)%Z ∧
        code_saved o code (lf_Verifier flow) "browser" flow true (w_db w) (w_db w'))).

Lemma wp_Callback o state error code accept w :
  db_wf (w_db w) → os_redisClient o = true →
  wp (Callback claims_json o state error code accept) (callback_outcome o state error code w) w.
Proof.
  intros Hwf Hr. unfold Callback, callback_steps. wp_step.
  destruct (String.eqb state "") eqn:Hs; [do 2 wp_step; eexists; split; [done|]; left; split; [by_decide|done]|].
  apply wp_or_reply, wp_PopFlow; [done|..].
  - intros e w1 Hw1 _ _. wp_step. eexists. split; [done|]. left. split; [|done].
    destruct (errors_Is _ _); by_decide.
  - intros flow data w1 Hw1 Hg Hj _. unfold flow_unusable. do 4 wp_step.
    destruct (_ || _ || _ || _) eqn:Hu;
      [do 2 wp_step; eexists; split; [done|]; left; split; [by_decide|done]|].
    destruct (String.eqb error "") eqn:Herr; cbn [negb];
      [|do 2 wp_step; eexists; split; [done|]; left; split; [by_decide|done]].
    destruct (String.eqb code "") eqn:Hc;
      [do 2 wp_step; eexists; split; [done|]; left; split; [by_decide|done]|].
    apply wp_exchange_and_save; [cbn; by rewrite Hw1|..].
    + intros a w2 Hw2 Ha. wp_step. eexists. split; [done|]. left. split; [done|]. cbn in Hw2. congruence.
    + intros w2 Hsv. cbn [w_db tick] in Hsv. rewrite Hw1 in Hsv. wp_step. eexists. split; [done|]. right. prop_guards.
      split_and!; [apply saved_reply_status|by apply String.eqb_neq|by apply String.eqb_eq|by apply String.eqb_neq|].
      by exists data, flow, (w_step w1).
Qed.

(** C13: the callback of a browser login stores credentials only for the flow that
    its state names, of the user who started it and not expired, with the code
    and the verifier of that flow and the nonce in the verified ID token.  Every
    other callback is refused with the tables unchanged. *)
Theorem Callback_correct o state error code accept w :
  db_wf (w_db w) → os_redisClient o = true →
  wp (Callback claims_json o state error code accept) (callback_outcome o state error code w) w.
Proof. apply wp_Callback. Qed.

Lemma preserves_SaveToken o token flow isbrowser : preserves_wf (svc_SaveToken claims_json o token flow isbrowser).
Proof.
  unfold svc_SaveToken, token_expired, verifyIDToken, Verifier, toOauthInfo, repo_SaveToken, Encrypt, wrap_err.
  preserve.
Qed.

Lemma preserves_Callback o state error code accept : preserves_wf (Callback claims_json o state error code accept).
Proof.
  unfold Callback, callback_steps, or_reply, PopFlow, DeleteState, flow_unusable, svc_Exchange, authFor, Exchange,
    wrap_err, deref.
  generalize preserves_SaveToken. generalize (svc_SaveToken claims_json). intros save Hsave. preserve.
Qed.

(** A row that was added under the unique index was not there before. *)
Lemma oauth_added_fresh row x d d' :
  oauth_added row d d' → db_wf d' → x ∈ t_oauth d → uk oauth_infos x ≠ uk oauth_infos row.
Proof.
  intros [-> _] Hwf Hx. pose proof (tk_uk _ _ (Hwf oauth_infos)) as Hn. cbn in Hn.
  rewrite fmap_app, NoDup_app in Hn. destruct Hn as (_ & Hn & _). intros Heq.
  apply (Hn (uk oauth_infos x)); [by apply list_elem_of_fmap_2|]. rewrite Heq. by left.
Qed.

(** C14: an account that is stored cannot be authorised again: while its row is there,
    the callback of a login of the same user whose verified ID token names it is
    refused and changes no row. *)
Theorem reauthorization_refused o state error code accept x w :
  db_wf (w_db w) → os_redisClient o = true → x ∈ t_oauth (w_db w) → oi_Type x = "codex"%string →
  (∀ data flow, rget (now_at (w_step w)) (oidcStateKey state) (w_redis w) = Some data →
     json_Unmarshal data = Some flow → lf_UserID flow = oi_UserID x) →
  (∀ n raw v claims, rpc_Verifier n raw "oai" = inl (Some v) → claims_json (vr_ClaimsJson v) = Some claims →
     cl_AccountID claims = oi_AccountID x) →
  wp (Callback claims_json o state error code accept) (λ r w',
    w_db w' = w_db w ∧ ∃ a, r = Ok a ∧ reply_status a ∈ [400; 500; 502; 503; 504]%Z) w.
Proof.
  intros Hwf Ho Hx Ht Hflow Hacc. pose proof (preserves_Callback o state error code accept w Hwf) as Hwf'.
  generalize (wp_Callback o state error code accept w Hwf Ho). unfold wp.
  intros (a & Ha & [[Hs Hd]|(_ & _ & _ & _ & data & flow & n & Hg & Hj & _ & Hsaved)]); [split; [done|by exists a]|].
  destruct Hsaved as (m & r & token & _ & _ & raw & v & k & claims & row & _ & Hv & Hc & _ & Hp & _ & _ & _ & _ & Hrow & Hadd).
  exfalso. apply (oauth_added_fresh _ x _ _ Hadd Hwf' Hx). destruct Hrow as (Hu & Hac & _ & Hty & _). cbn.
  rewrite Hp in Hv. rewrite Hu, Hac, Hty, Ht, (Hacc _ _ _ _ Hv Hc), (Hflow _ _ Hg Hj). done.
Qed.

(** C31: completing a device login needs an authenticated user who started it; the
    credentials that are then stored are of that user, and every refusal leaves
    the tables unchanged. *)
Theorem CallbackDeviceFlow_correct o user provider accept body w :
  db_wf (w_db w) → os_redisClient o = true →
  wp (CallbackDeviceFlow claims_json o user provider accept body) (λ r w',
    ∃ a, r = Ok a ∧
    ((reply_status a ∈ [400; 401; 408; 500; 502; 503; 504]%Z ∧ w_db w' = w_db w) ∨
     (reply_status a ∈ [200; 303]%Z ∧
      ∃ ownerID authID raw flow info n, getUserid user = Some ownerID ∧ body = Some authID ∧
        rget (now_at (w_step w)) (deviceKey authID) (w_redis w) = Some raw ∧
        json_Unmarshal raw = Some flow ∧ dl_UserID flow = ownerID ∧ dl_Provider flow = provider ∧
        rpc_PollDeviceFlow n provider authID (dl_UserCode flow) (dl_Interval flow) = inl (Some info) ∧
        code_saved o (da_AuthorizationCode info) (da_CodeVerifier info) "device"
          (Build_LoginFlow provider ownerID "" "" zero_time) false (w_db w) (w_db w')))) w.
Proof.
  intros Hwf Hr. unfold CallbackDeviceFlow, callback_device_steps. wp_step.
  destruct (getUserid user) as [ownerID|] eqn:Hu;
    [|do 2 wp_step; eexists; split; [done|]; left; split; [by_decide|done]].
  destruct body as [authID|]; [|do 2 wp_step; eexists; split; [done|]; left; split; [by_decide|done]].
  apply wp_or_reply, wp_popDeviceFlow.
  - intros e w1 Hw1 _. wp_step. eexists. split; [done|]. left. split; [|done].
    destruct (errors_Is _ _); by_decide.
  - intros raw flow n w1 Hw1 Hg Hj Ho Hp Ha _ _.
    apply wp_or_reply. unfold Poll. wp_step. apply wp_authFor.
    { intros e _. wp_step. eexists. split; [done|]. left. split; [|done].
      destruct (deviceFlowErrorResponse_status e) as [Hs _]. cbn. set_solver. }
    intros _. destruct (os_directory o).
    2:{ do 2 wp_step. eexists. split; [done|]. left. split; [by_decide|done]. }
    apply wp_PollDeviceFlow.
    { intros e _. wp_step. eexists. split; [done|]. left. split; [|done].
      destruct (deviceFlowErrorResponse_status e) as [Hs _]. cbn. set_solver. }
    intros info Hinfo _ _.
    apply (wp_exchange_and_save o _ _ "device" (Build_LoginFlow provider ownerID "" "" zero_time));
      [cbn; by rewrite Hw1|..].
    + intros a w2 Hw2 Hst. wp_step. eexists. split; [done|]. left. split; [cbn; set_solver|].
      cbn in Hw2. congruence.
    + intros w2 Hsv. cbn [w_db tick] in Hsv. rewrite Hw1 in Hsv. wp_step. eexists. split; [done|]. right.
      split; [apply saved_reply_status|].
      exists ownerID, authID, raw, flow, info, (w_step w1). split_and!; try done. congruence.
Qed.

(** [state], [nonce] and [verifier] of a login are three different readings of
    the random source. *)
Definition login_started (o : OauthService) (ownerID : N) (provider url : string) (r r' : redis) : Prop :=
  ∃ state nonce verifier data expires now n s1 s2 s3,
    AuthCodeURL o provider state verifier nonce = Ok url ∧
    rand_read n 32 = Ok s1 ∧ state = Base64.RawURLEncode s1 ∧
    rand_read (S n) 32 = Ok s2 ∧ verifier = Base64.RawURLEncode s2 ∧
    rand_read (S (S n)) 32 = Ok s3 ∧ nonce = Base64.RawURLEncode s3 ∧
    json_Marshal (Build_LoginFlow provider ownerID nonce verifier expires) = inl data ∧
    r' = <[oidcStateKey state := (data, Some (now + 5 * minute)%Z)]> r.

(** The URL an answer sends the browser to. *)
Definition login_url (a : answer) : option string :=
  match rp_body a with
  | Redirect _ url => Some url
  | JSON _ _ (Some (PURL url)) _ => Some url
  | _ => None
  end.

Lemma GenerateVerifier_wp (Q : res string → world → Prop) w :
  (∀ e, fault e → Q Panic (tick w)) →
  (∀ s, rand_read (w_step w) 32 = Ok s → Q (Ok (Base64.RawURLEncode s)) (tick w)) →
  wp GenerateVerifier Q w.
Proof.
  intros He Hok. unfold GenerateVerifier. do 3 wp_step; wp_step; [by eapply He|by apply Hok].
Qed.

(** A browser login is answered with a URL exactly when a flow of that user
    and provider was stored under the state of the URL; nothing else is written,
    and the handler fails otherwise only for want of a user, of a provider, of
    Redis or of random bytes. *)
Theorem Login_correct o user provider accept w :
  os_redisClient o = true →
  wp (Login o user provider accept) (λ r w', w_db w' = w_db w ∧
    match r with
    | Ok a => match login_url a with
              | Some url => reply_status a ∈ [200; 302]%Z ∧ ∃ ownerID, getUserid user = Some ownerID ∧
                  login_started o ownerID provider url (w_redis w) (w_redis w')
              | None => reply_status a ∈ [400; 401; 500; 503]%Z
              end
    | Err _ => False
    | Panic => ∃ e, fault e
    end) w.
Proof.
  intros Hr. unfold Login. destruct (getUserid user) as [ownerID|] eqn:Hu; [|wp_step; split; [done|by_decide]].
  apply wp_or_reply, wp_authFor.
  { intros e [->| ->]; cbn; (split; [done|by_decide]). }
  intros _. apply wp_or_reply. unfold randomValue. do 2 wp_step; [cbn; split; [done|by_decide]|].
  rename select (rand_read _ _ = _) into Hs1. wp_step. wp_step.
  apply GenerateVerifier_wp; [by intros e He; split; [|eauto]|]. intros s2 Hs2.
  apply wp_or_reply. do 2 wp_step; [cbn; split; [done|by_decide]|].
  rename select (rand_read (w_step (tick _)) _ = _) into Hs3. wp_step.
  apply wp_or_reply. wp_step. destruct (AuthCodeURL _ _ _ _ _) as [url|e|] eqn:Hurl.
  - do 2 wp_step. apply wp_or_reply, wp_StoreFlow; [done|..].
    + intros e w1 Hw1 _ _. cbn. split; [done|by_decide].
    + intros data w1 Hm Hw1 _ Hr1. destruct (Contains accept "application/json"); wp_step; cbn [rp_body no_store login_url with_header Success];
        (split; [done|]); (split; [by_decide|]); exists ownerID; (split; [done|]).
      all: do 6 eexists; exists (w_step w); do 3 eexists.
      all: split_and!; try eassumption; reflexivity.
  - cbn. split; [done|by_decide].
  - exfalso. revert Hurl. unfold AuthCodeURL. pose proof (authFor_spec o provider) as Hs.
    destruct (authFor o provider); done.
Qed.

(** A device login is answered with the code of the provider exactly when its
    flow was stored for the user under that device id. *)
Theorem LoginDeviceFlow_correct o user provider w :
  wp (LoginDeviceFlow o user provider) (λ r w', w_db w' = w_db w ∧ ∃ a, r = Ok a ∧
    match reply_data a with
    | Some (PDevice id code interval url) => reply_status a = 200%Z ∧
        ∃ ownerID info n data t, getUserid user = Some ownerID ∧
          rpc_GetDeviceFlowCode n provider = inl (Some info) ∧
          info = Build_DeviceFlowResponse id code interval url ∧ 1 <= interval <= 900 ∧
          json_Marshal (Build_deviceLoginFlow provider ownerID id code interval
                          (now_at (w_step w) + 15 * minute)%Z) = inl data ∧
          w_redis w' = <[deviceKey id := (data, t)]> (w_redis w)
    | _ => reply_status a ∈ [400; 401; 408; 500; 502; 503; 504]%Z
    end) w.
Proof.
  unfold LoginDeviceFlow, login_device_steps. wp_step.
  destruct (getUserid user) as [ownerID|] eqn:Hu;
    [|do 2 wp_step; split; [done|]; eexists; split; [done|by_decide]].
  do 2 wp_step. apply wp_or_reply. unfold svc_GetDeviceFlowCode. wp_step. apply wp_authFor.
  { intros e _. wp_step. split; [done|]. eexists; split; [done|]. cbn.
    destruct (deviceFlowErrorResponse_status e) as [Hs Hd]. unfold reply_data, reply_status in *. cbn.
    rewrite Hd. set_solver. }
  intros _. destruct (os_directory o).
  2:{ do 2 wp_step. split; [done|]. eexists; split; [done|by_decide]. }
  apply wp_GetDeviceFlowCode.
  { intros e _. wp_step. split; [done|]. eexists; split; [done|]. cbn.
    destruct (deviceFlowErrorResponse_status e) as [Hs Hd]. unfold reply_data, reply_status in *. cbn.
    rewrite Hd. set_solver. }
  intros info Hinfo _ _ Hint _. apply wp_or_reply, wp_storeDeviceFlow.
  - intros e w1 Hw1 _ _. wp_step. split; [done|]. eexists; split; [done|by_decide].
  - intros data n w1 Hm Hw1 Hr1. do 2 wp_step. split; [done|]. eexists; split; [done|].
    cbn [reply_data rp_body no_store with_header Success]. split; [by_decide|].
    exists ownerID, info, (S (w_step w)), data. eexists. split_and!; try done; [by destruct info|apply Hint..].
Qed.

(** Every account request needs an authenticated user and works on the accounts
    of that user only: the list shows all of them, newest first and without
    credentials, and a deletion removes the one named with its bindings. *)
Theorem account_handlers_correct o user body w :
  db_wf (w_db w) → os_repository o = true →
  wp (OauthList_handler o user) (λ r w', w_db w' = w_db w ∧ ∃ a, r = Ok a ∧
    match reply_data a with
    | Some p => ∃ userid, getUserid user = Some userid ∧ reply_status a = 200%Z ∧
                  p = POauthList (oauth_item <$> user_accounts userid (w_db w))
    | None => reply_status a ∈ [401; 500]%Z
    end) w ∧
  wp (Delete_handler o user body) (λ r w', ∃ a, r = Ok a ∧
    (reply_status a ∈ [400; 401; 404; 500]%Z ∧ w_db w' = w_db w ∨
     reply_status a = 200%Z ∧ ∃ userid id, getUserid user = Some userid ∧ body = Some id ∧
       has_oauth (w_db w) userid id = true ∧ w_db w' = account_removed userid id (w_db w))) w.
Proof.
  intros Hwf Hrep. split.
  - unfold OauthList_handler. destruct (getUserid user) as [userid|] eqn:Hu;
      [|wp_step; split; [done|]; eexists; split; [done|by_decide]].
    apply wp_or_reply. unfold svc_getUserOauth. rewrite Hrep. wp_step. wp_step; [done|].
    apply wp_repo_getUserOauth.
    + intros e w1 Hw1 _. split; [done|]. eexists; split; [done|by_decide].
    + intros w1 Hw1. wp_step. split; [done|]. eexists; split; [done|].
      cbn [reply_data rp_body no_store with_header Success]. by exists userid.
  - unfold Delete_handler. destruct (getUserid user) as [userid|] eqn:Hu;
      [|wp_step; eexists; split; [done|]; left; split; [by_decide|done]].
    destruct body as [id|]; [|wp_step; eexists; split; [done|]; left; split; [by_decide|done]].
    apply wp_or_reply. unfold svc_deleteUserOauth. rewrite Hrep. cbn [deref].
    apply wp_repo_deleteUserOauth; [done|..].
    + intros e w1 Hw1 _. eexists; split; [done|]. left. split; [|done].
      unfold delete_error_reply. destruct (errors_Is _ _); by_decide.
    + intros w1 _ Hw1. eexists; split; [done|]. left. split; [|done]. by_decide.
    + intros w1 Hh Hw1. wp_step. eexists; split; [done|]. right. split; [done|]. by exists userid, id.
Qed.

(** * Other users *)

Lemma rows_of_oauth_added u key userid claims token raw o d d' :
  u ≠ userid → credentials_row key userid claims token raw o → oauth_added o d d' →
  rows_of u d' = rows_of u d.
Proof.
  intros Hne (Hu & _) [-> _]. unfold rows_of. cbn. rewrite select_app.
  rewrite (select_other oi_UserID u userid [o]); [by rewrite app_nil_r|done|].
  by intros x ->%list_elem_of_singleton.
Qed.

Lemma rows_of_tokens_updated u userid id m now d :
  u ≠ userid → rows_of u (tokens_updated userid id m now d) = rows_of u d.
Proof.
  intros Hne. unfold rows_of, tokens_updated. cbn.
  rewrite (select_mapped oi_UserID _ _ u userid); [done..| |done].
  intros x Hx. unfold owned in Hx. by prop_guards.
Qed.

Lemma rows_of_account_removed u userid id d :
  u ≠ userid → rows_of u (account_removed userid id d) = rows_of u d.
Proof.
  intros Hne. unfold rows_of, account_removed. cbn.
  rewrite !select_kept; [done|..]; intros x Hx; unfold owned;
    rewrite Hx, (proj2 (N.eqb_neq u userid)) by done; apply andb_false_r.
Qed.

(** What a request does to the accounts. *)
Inductive account_request :=
  | AccSave (token : Token) (flow : LoginFlow) (isbrowser : bool)
  | AccRefresh (id : N)
  | AccDelete (id : N)
  | AccList.

Definition account_perform (o : OauthService) (userid : N) (r : account_request) : M unit :=
  match r with
  | AccSave token flow isbrowser => svc_SaveToken claims_json o token
      (Build_LoginFlow (lf_Provider flow) userid (lf_Nonce flow) (lf_Verifier flow) (lf_ExpiresAt flow)) isbrowser
  | AccRefresh id => svc_RefreshToken claims_json o userid id
  | AccDelete id => svc_deleteUserOauth o id userid
  | AccList => _ ← svc_getUserOauth o userid; mret tt
  end.

(** Whatever a user's request to save, refresh, list or delete accounts does
    and however it ends, the rows of every other user stay as they are. *)
Theorem account_requests_isolated o userid r u w :
  db_wf (w_db w) → os_repository o = true → u ≠ userid →
  wp (account_perform o userid r) (λ x w',
    x ≠ Panic ∧ rows_of u (w_db w') = rows_of u (w_db w)) w.
Proof.
  intros Hwf Hrep Hne.
  destruct r as [token flow isb|id|id|]; cbn [account_perform].
  - apply wp_SaveToken; [done|by intros e w' -> _|].
    intros w' (raw & v & n & claims & row & _ & _ & _ & _ & _ & _ & _ & _ & _ & Hrow & Hadd).
    split; [done|]. by eapply rows_of_oauth_added.
  - apply wp_svc_RefreshToken; [done|by intros e w' -> _|]. intros model m now w' _ _ _ ->.
    split; [done|]. by apply rows_of_tokens_updated.
  - unfold svc_deleteUserOauth. rewrite Hrep. cbn [deref].
    apply wp_repo_deleteUserOauth; [done|by intros e w' -> _|by intros w' _ ->|].
    intros w' _ ->. split; [done|]. by apply rows_of_account_removed.
  - unfold svc_getUserOauth. rewrite Hrep. wp_step. wp_step. wp_step; [done|].
    apply wp_repo_getUserOauth; [by intros e w' -> _|]. intros w' Hw'. wp_step. by rewrite Hw'.
Qed.
End spec.

(** * Witnesses *)

Lemma login_flow_roundtrip_witness :
  ∃ e, (( _ ← StoreFlow sample_service "st" sample_flow;
          first ← attempt (PopFlow sample_service "st"); second ← attempt (PopFlow sample_service "st");
          mret (first, second)) sample_world).1 = Ok (inl sample_flow, inr e) ∧ e = ErrInvalidOAuthState.
Proof.
  pose proof (login_flow_roundtrip sample_service "st" sample_flow sample_world eq_refl I) as Hwp.
  destruct (wp_Ok _ _ _ Hwp ltac:(vm_compute; reflexivity)) as ([[flow|e] second] & Heq & _ & Hr).
  - destruct Hr as (-> & e & -> & [->|(e' & Hf & _)]); [|destruct Hf]. by exists ErrInvalidOAuthState.
  - destruct Hr as [(e' & Hf & _)|(_ & Ht)]; [destruct Hf|]. by vm_compute in Ht.
Defined.

Lemma popDeviceFlow_correct_witness :
  ∃ flow, (popDeviceFlow sample_service "dev" "oai" 2 login_world).1 = Ok flow ∧
    dl_UserID flow = 2 ∧ dl_Provider flow = "oai"%string.
Proof.
  pose proof (popDeviceFlow_correct sample_service "dev" "oai" 2 login_world eq_refl) as Hwp.
  destruct (wp_Ok _ _ _ Hwp ltac:(vm_compute; reflexivity)) as (flow & Heq & _ & Hr).
  destruct Hr as (raw & n & _ & _ & Hu & Hp & _). by exists flow.
Defined.

Lemma SaveToken_correct_witness :
  token_saved sim_claims sample_service sample_token sample_flow true (w_db sample_world)
    (w_db (svc_SaveToken sim_claims sample_service sample_token sample_flow true sample_world).2).
Proof.
  pose proof (SaveToken_correct sim_claims sample_service sample_token sample_flow true
                sample_world sample_world_wf) as Hwp.
  destruct (wp_Ok _ _ _ Hwp ltac:(vm_compute; reflexivity)) as ([] & _ & Hr). exact Hr.
Defined.

Lemma RefreshToken_correct_witness :
  ∃ model m now, model ∈ t_oauth (w_db sample_world) ∧ owned 1 1 model = true ∧
    refreshed sim_claims sample_service model m ∧
    w_db (svc_RefreshToken sim_claims sample_service 1 1 sample_world).2 =
      tokens_updated 1 1 m now (w_db sample_world).
Proof.
  pose proof (RefreshToken_correct sim_claims sample_service 1 1 sample_world sample_world_wf) as Hwp.
  destruct (wp_Ok _ _ _ Hwp ltac:(vm_compute; reflexivity)) as ([] & _ & Hr). exact Hr.
Defined.

Lemma Callback_correct_witness :
  ∃ data flow n,
    rget (now_at 0) (oidcStateKey "state") (w_redis login_world) = Some data ∧
    json_Unmarshal data = Some flow ∧ (now_at n <= lf_ExpiresAt flow)%Z ∧
    code_saved sim_claims sample_service "code" (lf_Verifier flow) "browser" flow true (w_db login_world)
      (w_db (Callback sim_claims sample_service "state" "" "code" "text/html" login_world).2).
Proof.
  pose proof (Callback_correct sim_claims sample_service "state" "" "code" "text/html"
                login_world login_world_wf eq_refl) as (a & Ha & Hr).
  assert (Hst : match (Callback sim_claims sample_service "state" "" "code" "text/html" login_world).1 with
                | Ok a => reply_status a = 303%Z | _ => True end) by (vm_compute; reflexivity).
  rewrite Ha in Hst. destruct Hr as [[Hbad _]|(_ & _ & _ & _ & Hr)]; [|exact Hr].
  rewrite Hst in Hbad. exfalso. revert Hbad. apply (bool_decide_unpack _). vm_compute. exact I.
Defined.

(** Once the second user has stored the account, another login for it is answered
    500, although its credentials verify. *)
Definition stored_db : db :=
  w_db (Callback sim_claims sample_service "state" "" "code" "text/html" login_world).2.

Definition login_again (d : db) : world := Build_world d login_redis (Build_casbin [] []) 0.

Definition stored_world : world := login_again stored_db.

Lemma login_again_wf d : db_wf d → db_wf (w_db (login_again d)).
Proof. done. Qed.

Lemma stored_db_wf : db_wf stored_db.
Proof.
  exact (preserves_Callback sim_claims sample_service "state" "" "code" "text/html" login_world login_world_wf).
Qed.

Lemma stored_account :
  ∃ r, r ∈ t_oauth (w_db stored_world) ∧ oi_Type r = "codex"%string ∧ oi_AccountID r = "acc-1"%string ∧ oi_UserID r = 2.
Proof.
  assert (Hl : match last (t_oauth (w_db stored_world)) with
               | Some r => String.eqb (oi_Type r) "codex" && String.eqb (oi_AccountID r) "acc-1" && (oi_UserID r =? 2)
               | None => false
               end = true) by (vm_compute; reflexivity).
  destruct (last (t_oauth (w_db stored_world))) as [r|] eqn:Hr; [|done]. prop_guards. exists r.
  split_and!; [by apply last_Some_elem_of|by apply String.eqb_eq..|done].
Qed.

Lemma stored_flow data flow :
  rget (now_at 0) (oidcStateKey "state") login_redis = Some data → json_Unmarshal data = Some flow →
  flow = sample_flow.
Proof.
  assert (Hs : match rget (now_at 0) (oidcStateKey "state") login_redis with
               | Some d => json_Unmarshal d = Some sample_flow | None => True end) by (vm_compute; reflexivity).
  intros Hg Hj. rewrite Hg, Hj in Hs. by injection Hs.
Qed.

Lemma reauthorization_refused_witness :
  let x := Callback sim_claims sample_service "state" "" "code" "text/html" stored_world in
  w_db x.2 = w_db stored_world ∧ (∃ a, x.1 = Ok a ∧ reply_status a = 500%Z).
Proof.
  intros x. destruct stored_account as (r & Hr & Ht & Ha & Hu).
  split; [|eexists; split; vm_compute; reflexivity].
  apply (reauthorization_refused sim_claims sample_service "state" "" "code" "text/html" r stored_world
    (login_again_wf _ stored_db_wf) eq_refl Hr Ht).
  - intros data flow Hg Hj. rewrite Hu. by rewrite (stored_flow data flow Hg Hj).
  - intros n raw v claims Hv Hc. rewrite Ha. injection Hv as <-. by injection Hc as <-.
Defined.

Lemma CallbackDeviceFlow_correct_witness :
  ∃ ownerID authID raw flow info n, getUserid (Some (CtxUint64 2)) = Some ownerID ∧ Some "dev"%string = Some authID ∧
    rget (now_at 0) (deviceKey authID) (w_redis login_world) = Some raw ∧
    json_Unmarshal raw = Some flow ∧ dl_UserID flow = ownerID ∧ dl_Provider flow = "oai"%string ∧
    rpc_PollDeviceFlow n "oai" authID (dl_UserCode flow) (dl_Interval flow) = inl (Some info) ∧
    code_saved sim_claims sample_service (da_AuthorizationCode info) (da_CodeVerifier info) "device"
      (Build_LoginFlow "oai" ownerID "" "" zero_time) false (w_db login_world)
      (w_db (CallbackDeviceFlow sim_claims sample_service (Some (CtxUint64 2)) "oai" "text/html"
               (Some "dev"%string) login_world).2).
Proof.
  pose proof (CallbackDeviceFlow_correct sim_claims sample_service (Some (CtxUint64 2)) "oai" "text/html"
                (Some "dev"%string) login_world login_world_wf eq_refl) as (a & Ha & Hr).
  assert (Hst : match (CallbackDeviceFlow sim_claims sample_service (Some (CtxUint64 2)) "oai" "text/html"
               (Some "dev"%string) login_world).1 with
                | Ok a => reply_status a = 303%Z | _ => True end) by (vm_compute; reflexivity).
  rewrite Ha in Hst. destruct Hr as [[Hbad _]|(_ & Hr)]; [|exact Hr].
  rewrite Hst in Hbad. exfalso. revert Hbad. apply (bool_decide_unpack _). vm_compute. exact I.
Defined.

Lemma Login_correct_witness :
  ∃ url, login_started sample_service 1 "oai" url (w_redis sample_world)
    (w_redis (Login sample_service (Some (CtxUint64 1)) "oai" "text/html" sample_world).2).
Proof.
  pose proof (Login_correct sample_service (Some (CtxUint64 1)) "oai" "text/html" sample_world eq_refl) as Hwp.
  destruct (wp_Ok _ _ _ Hwp ltac:(vm_compute; reflexivity)) as (a & Ha & _ & Hr).
  assert (Hst : match (Login sample_service (Some (CtxUint64 1)) "oai" "text/html" sample_world).1 with
                | Ok a => is_Some (login_url a) | _ => True end) by (vm_compute; eexists; reflexivity).
  rewrite Ha in Hst. destruct Hst as [url Hurl]. rewrite Hurl in Hr.
  destruct Hr as (_ & ownerID & [= <-] & Hr). exists url. exact Hr.
Defined.

Lemma account_requests_isolated_witness :
  rows_of 1 (w_db (account_perform sim_claims sample_service 2 (AccDelete 3) sample_world).2)
  = rows_of 1 (w_db sample_world).
Proof.
  destruct (account_requests_isolated sim_claims sample_service 2 (AccDelete 3) 1 sample_world
    sample_world_wf eq_refl ltac:(discriminate)) as [_ Hr]. exact Hr.
Defined.
