(* ===== verification/Apikey.v ===== *)
(** modules/apikey: the API keys of a user, their bindings to OAuth accounts and
    external keys, the authentication of a chat request by its key, and the
    choice of the upstream credential.  Repository, service, handlers and
    middleware follow the Go files of the same names. *)

From S2P Require Import Prelude.
From S2P Require Import GoStrings.
From S2P Require Import Codec.
From S2P Require Import Schema.
From S2P Require Import Integrity.
From S2P Require Import Stores.
From S2P Require Import World.
From S2P Require Import Security.
From S2P Require Import Http.

Local Open Scope list_scope.
Local Open Scope N_scope.

(** * Errors and data *)

Definition ErrInvalidAccounts : gerror :=
  Sentinel "apikey.ErrInvalidAccounts" "select valid accounts owned by the current user".
Definition ErrApikeyNotFound : gerror := Sentinel "apikey.ErrApikeyNotFound" "api key not found".
Definition ErrInvalidApikey : gerror := Sentinel "apikey.ErrInvalidApikey" "invalid api key".
Definition ErrUnsupportedModel : gerror := Sentinel "apikey.ErrUnsupportedModel" "unsupported model".
Definition ErrOauthForbidden : gerror :=
  Sentinel "apikey.ErrOauthForbidden" "no authorized OAuth account for model".
Definition ErrCheckUnavailable : gerror :=
  Sentinel "apikey.ErrCheckUnavailable" "api key checker is not initialized".
Definition ErrCredentialUnavailable : gerror :=
  Sentinel "apikey.ErrCredentialUnavailable" "OAuth credential unavailable".

Record ApikeyAccountItem := {
  acc_AccessToken : string; acc_Expired : option time; acc_ID : N;
  acc_Email : string; acc_Type : string; acc_Disabled : bool
}.

Record ApikeyListItem := {
  li_ExternalApiKeyIDs : list N; li_ID : N; li_KeyPrefix : string; li_Disabled : bool;
  li_ExpiresAt : option time; li_Accounts : list ApikeyAccountItem
}.

Record Credential := { cred_Mode : string; cred_Secret : string }.

Record CreatApikeyRequest := { creq_OAuthInfo : list N; creq_ExternalApiKeyIDs : list N }.
(** [ExpiresAt] is the raw JSON text, empty when the field is absent. *)
Record UpdateApikeyRequest := { ureq_Disabled : option bool; ureq_ExpiresAt : string }.
(** Pointers to slices: [None] is a nil pointer. *)
Record ReplaceApikeyAccountsRequest := {
  rreq_OAuthInfo : option (list N); rreq_ExternalApiKeyIDs : option (list N)
}.

(** * WHERE clauses and orders *)

Definition key_owned (userid id : N) (k : ApikeyInfo) : bool :=
  (ak_ID k =? id) && (ak_UserID k =? userid).
Definition oauth_owned_in (userid : N) (ids : list N) (o : OAuthInfo) : bool :=
  (oi_UserID o =? userid) && bool_decide (oi_ID o ∈ ids).
Definition ext_owned_in (userid : N) (ids : list N) (o : ExternalApikey) : bool :=
  (ek_UserID o =? userid) && bool_decide (ek_ID o ∈ ids).
Definition bind_of_key (userid id : N) (b : Apikeyaccounts) : bool :=
  (ba_ApiKeyID b =? id) && (ba_UserID b =? userid).
Definition extbind_of_key (userid id : N) (b : ApikeyExternalKey) : bool :=
  (be_ApiKeyID b =? id) && (be_UserID b =? userid).
(** The condition of [JOIN oauth_infos AS accounts]. *)
Definition joins (b : Apikeyaccounts) (o : OAuthInfo) : bool :=
  (oi_ID o =? ba_OAuthInfoID b) && (oi_UserID o =? ba_UserID b).

Definition by_id_desc (k k' : ApikeyInfo) : bool := ak_ID k' <=? ak_ID k.
Definition by_account_asc (x y : Apikeyaccounts * OAuthInfo) : bool := oi_ID x.2 <=? oi_ID y.2.
Definition by_key_desc_account_asc (x y : Apikeyaccounts * OAuthInfo) : bool :=
  (ba_ApiKeyID y.1 <? ba_ApiKeyID x.1) ||
  ((ba_ApiKeyID x.1 =? ba_ApiKeyID y.1) && (oi_ID x.2 <=? oi_ID y.2)).
Definition by_key_desc_external_asc (x y : ApikeyExternalKey) : bool :=
  (be_ApiKeyID y <? be_ApiKeyID x) ||
  ((be_ApiKeyID x =? be_ApiKeyID y) && (be_ExternalApiKeyID x <=? be_ExternalApiKeyID y)).

(** * Rows to write *)

Definition toApikeyinfo (keyhash : string) (userid : N) : ApikeyInfo :=
  Build_ApikeyInfo 0 userid keyhash "" false None 0 0.

Definition with_prefix (prefix : string) (k : ApikeyInfo) : ApikeyInfo :=
  Build_ApikeyInfo (ak_ID k) (ak_UserID k) (ak_KeyHash k) prefix (ak_Disabled k)
    (ak_ExpiresAt k) (ak_CreatedAt k) (ak_UpdatedAt k).

Definition toApikeyaccounts (userid : N) (oauthinfos : list N) : list Apikeyaccounts :=
  (λ id, Build_Apikeyaccounts userid 0 id 0) <$> oauthinfos.

Definition external_rows (userid : N) (externalIDs : list N) : list ApikeyExternalKey :=
  (λ id, Build_ApikeyExternalKey userid 0 id 0) <$> externalIDs.

Definition bind_to_key (k : ApikeyInfo) (b : Apikeyaccounts) : Apikeyaccounts :=
  Build_Apikeyaccounts (ak_UserID k) (ak_ID k) (ba_OAuthInfoID b) (ba_CreatedAt b).
Definition extbind_to_key (k : ApikeyInfo) (b : ApikeyExternalKey) : ApikeyExternalKey :=
  Build_ApikeyExternalKey (ak_UserID k) (ak_ID k) (be_ExternalApiKeyID b) (be_CreatedAt b).

(** [tx.Create] of a slice, skipped when it is empty. *)
Definition len {A} (l : list A) : N := N.of_nat (length l).

Section with_env.
Context `{Env}.

Definition create_rows (t : table) (rs : list (row t)) : M unit :=
  match rs with
  | [] => mret tt
  | _ => _ ← sql (Insert t rs); mret tt
  end.

(** * apikey_repository.go *)

Definition repo_UpdateApikey (userid id : N) (disabled : option bool)
    (expiresAt : option time) (updateExpiry : bool) : M unit :=
  now ← Now;
  affected ← sql (Update api_keys (key_owned userid id)
    (set_apikey disabled (if updateExpiry then Some expiresAt else None) now));
  reject_if (affected =? 0) ErrApikeyNotFound.

(** A missing row inside the transaction. *)
Definition locked_key (userid id : N) : M ApikeyInfo :=
  r ← attempt (First api_keys (key_owned userid id));
  match r with
  | inl key => mret key
  | inr e => throw (if errors_Is e ErrRecordNotFound then ErrApikeyNotFound else e)
  end.

Definition foreign_key_error (e : gerror) : gerror :=
  if errors_Is e ErrForeignKeyViolated then ErrInvalidAccounts else e.

Definition map_foreign_key (m : M unit) : M unit :=
  r ← attempt m;
  match r with inl _ => mret tt | inr e => throw (foreign_key_error e) end.

Definition repo_ReplaceApikeyAccounts (userid id : N) (ids externalIDs : list N) : M unit :=
  _ ← reject_if (bool_decide (ids = []) && bool_decide (externalIDs = [])) ErrInvalidAccounts;
  map_foreign_key (transaction (
    _ ← locked_key userid id;
    count ← sql (Count oauth_infos (oauth_owned_in userid ids));
    _ ← reject_if (negb (count =? len ids)) ErrInvalidAccounts;
    _ ← sql (Delete api_key_accounts (bind_of_key userid id));
    _ ← create_rows api_key_accounts
          ((λ b, Build_Apikeyaccounts (ba_UserID b) id (ba_OAuthInfoID b) (ba_CreatedAt b))
             <$> toApikeyaccounts userid ids);
    _ ← (if bool_decide (externalIDs = []) then mret tt
         else count ← sql (Count external_api_keys (ext_owned_in userid externalIDs));
              reject_if (negb (count =? len externalIDs)) ErrInvalidAccounts);
    _ ← sql (Delete api_key_external_keys (extbind_of_key userid id));
    _ ← create_rows api_key_external_keys
          ((λ x, Build_ApikeyExternalKey userid id x 0) <$> externalIDs);
    now ← Now;
    _ ← sql (Update api_keys (key_owned userid id) (set_apikey None None now));
    mret tt)).

Definition repo_DeleteApikey (userid id : N) : M unit :=
  affected ← sql (Delete api_keys (key_owned userid id));
  reject_if (affected =? 0) ErrApikeyNotFound.

Definition CountOwnedAccounts (userid : N) (ids : list N) : M N :=
  sql (Count oauth_infos (oauth_owned_in userid ids)).

Definition CountOwnedExternalKeys (userid : N) (ids : list N) : M N :=
  sql (Count external_api_keys (ext_owned_in userid ids)).

Definition SaveApikey (model : ApikeyInfo) (relatemodel : list Apikeyaccounts)
    (externalKeys : list ApikeyExternalKey) : M unit :=
  _ ← reject_if (bool_decide (relatemodel = []) && bool_decide (externalKeys = [])) ErrInvalidAccounts;
  map_foreign_key (transaction (
    model ← Create api_keys model;
    _ ← create_rows api_key_accounts (bind_to_key model <$> relatemodel);
    create_rows api_key_external_keys (extbind_to_key model <$> externalKeys))).

Definition list_item (k : ApikeyInfo) : ApikeyListItem :=
  Build_ApikeyListItem [] (ak_ID k) (ak_KeyPrefix k) (ak_Disabled k) (ak_ExpiresAt k) [].

Definition add_account (a : ApikeyAccountItem) (i : ApikeyListItem) : ApikeyListItem :=
  Build_ApikeyListItem (li_ExternalApiKeyIDs i) (li_ID i) (li_KeyPrefix i) (li_Disabled i)
    (li_ExpiresAt i) (li_Accounts i ++ [a]).
Definition add_external (x : N) (i : ApikeyListItem) : ApikeyListItem :=
  Build_ApikeyListItem (li_ExternalApiKeyIDs i ++ [x]) (li_ID i) (li_KeyPrefix i) (li_Disabled i)
    (li_ExpiresAt i) (li_Accounts i).

(** The [indexes] map of identifiers to positions; a missing key reads as 0. *)
Fixpoint index_map (i : nat) (ids : list N) : gmap N nat :=
  match ids with
  | [] => ∅
  | id :: ids => let m := index_map (S i) ids in
                 match m !! id with Some _ => m | None => <[id := i]> m end
  end.
Definition index_of (ids : list N) (id : N) : nat := default O (index_map O ids !! id).

(** The columns the list selects: neither token nor expiry. *)
Definition account_metadata (o : OAuthInfo) : ApikeyAccountItem :=
  Build_ApikeyAccountItem "" None (oi_ID o) (oi_Email o) (oi_Type o) (oi_Disabled o).
Definition account_credential (o : OAuthInfo) : ApikeyAccountItem :=
  Build_ApikeyAccountItem (oi_AccessToken o) (oi_Expired o) (oi_ID o) (oi_Email o)
    (oi_Type o) (oi_Disabled o).

Definition GetApikeyByUserId (userid : N) : M (list ApikeyListItem) :=
  keys ← sql (Select api_keys (λ k, ak_UserID k =? userid) by_id_desc);
  let items := list_item <$> keys in
  match items with
  | [] => mret []
  | _ =>
      let ids := li_ID <$> items in
      accounts ← sql (Join api_key_accounts oauth_infos
        (λ b o, joins b o && (ba_UserID b =? userid) && bool_decide (ba_ApiKeyID b ∈ ids))
        by_key_desc_account_asc);
      let items := fold_left (λ items x,
        alter (add_account (account_metadata x.2)) (index_of ids (ba_ApiKeyID x.1)) items)
        accounts items in
      externalKeys ← sql (Select api_key_external_keys
        (λ b, (be_UserID b =? userid) && bool_decide (be_ApiKeyID b ∈ ids))
        by_key_desc_external_asc);
      mret (fold_left (λ items b,
        alter (add_external (be_ExternalApiKeyID b)) (index_of ids (be_ApiKeyID b)) items)
        externalKeys items)
  end.

(** [key.Disabled || (key.ExpiresAt != nil && !key.ExpiresAt.After(time.Now()))] *)
Definition key_unusable (key : ApikeyInfo) : M bool :=
  if ak_Disabled key then mret true
  else match ak_ExpiresAt key with
       | None => mret false
       | Some expires => now ← Now; mret (negb (now <? expires)%Z)
       end.

Definition GetOauthByApikey (raw : string) : M (list ApikeyAccountItem) :=
  let hash := hex_sha256 raw in
  r ← attempt (First api_keys (λ k, String.eqb (ak_KeyHash k) hash));
  match r with
  | inr e => throw (if errors_Is e ErrRecordNotFound then ErrInvalidApikey else e)
  | inl key =>
      unusable ← key_unusable key;
      _ ← reject_if unusable ErrInvalidApikey;
      accounts ← sql (Join api_key_accounts oauth_infos
        (λ b o, joins b o && (ba_ApiKeyID b =? ak_ID key) && (ba_UserID b =? ak_UserID key))
        by_account_asc);
      mret ((λ x, account_credential x.2) <$> accounts)
  end.

(** * apikey_service.go *)

(** The loop that validates and deduplicates identifiers; it stops at the
    first invalid one. *)
Definition valid_id (id : N) : bool := negb ((id =? 0) || (max_int63 <? id)).

Fixpoint collect_ids (seen l : list N) : res (list N) :=
  match l with
  | [] => Ok []
  | id :: l =>
      if negb (valid_id id) then Err ErrInvalidAccounts
      else if bool_decide (id ∈ seen) then collect_ids seen l
      else ids ← collect_ids (id :: seen) l; Ok (id :: ids)
  end.

Definition checkOauth_ids (userid : N) (oauthinfos : list N) : M unit :=
  _ ← reject_if (negb (valid_id userid) || bool_decide (oauthinfos = [])) ErrInvalidAccounts;
  count ← CountOwnedAccounts userid oauthinfos;
  reject_if (negb (count =? len oauthinfos)) ErrInvalidAccounts.

Definition generateApikey : M (string * string) :=
  secret ← rand_bytes 32;
  let raw := "sk-" +:+ Base64.RawURLEncode secret in
  mret (raw, hex_sha256 raw).

Definition CreatApikey (userid : N) (oauthinfos externalKeyIDs : list N) : M string :=
  _ ← reject_if (negb (valid_id userid) ||
        (bool_decide (oauthinfos = []) && bool_decide (externalKeyIDs = []))) ErrInvalidAccounts;
  ids ← lift (collect_ids [] oauthinfos);
  _ ← (if bool_decide (ids = []) then mret tt else checkOauth_ids userid ids);
  externalIDs ← lift (collect_ids [] externalKeyIDs);
  _ ← (if bool_decide (externalIDs = []) then mret tt
       else count ← CountOwnedExternalKeys userid externalIDs;
            reject_if (negb (count =? len externalIDs)) ErrInvalidAccounts);
  generated ← generateApikey;
  let '(apikeyraw, apikeyhash) := generated in
  prefix ← lift (go_slice 12 apikeyraw);
  let info := with_prefix prefix (toApikeyinfo apikeyhash userid) in
  _ ← SaveApikey info (toApikeyaccounts userid ids) (external_rows userid externalIDs);
  mret apikeyraw.

Definition UserApikeyList (userid : N) : M (list ApikeyListItem) := GetApikeyByUserId userid.

Definition UpdateApikey (userid id : N) (disabled : option bool) (expiresAt : option time)
    (updateExpiry : bool) : M unit :=
  repo_UpdateApikey userid id disabled expiresAt updateExpiry.

Definition ReplaceApikeyAccounts (userid id : N) (oauthinfos externalKeyIDs : list N) : M unit :=
  ids ← lift (collect_ids [] oauthinfos);
  _ ← reject_if (bool_decide (ids = []) && bool_decide (externalKeyIDs = [])) ErrInvalidAccounts;
  externalIDs ← lift (collect_ids [] externalKeyIDs);
  repo_ReplaceApikeyAccounts userid id ids externalIDs.

Definition DeleteApikey (userid id : N) : M unit := repo_DeleteApikey userid id.

(** * check.go and init.go: the models and the account type each needs *)

Abbreviation Checklist := (gmap string string).
Definition register (c : Checklist) (model needOauth : string) : Checklist :=
  <[model := needOauth]> c.
Definition getNeedOauth (c : Checklist) (model : string) : string := default ""%string (c !! model).

Definition supported_models : list string :=
  ["gpt-6-astra"; "gpt-5.6-sol"; "gpt-5.6-terra"; "gpt-5.6-luna"; "gpt-5.5";
   "gpt-5.3-codex-spark"]%string.

Definition defaultchecklist : Checklist :=
  fold_left (λ c model, register c model "codex") supported_models ∅.

(** * checkOauth.go *)

(** [repository] is nil until [ApikeycheckInject] has run. *)
Definition account_allowed (needOauth : string) (a : ApikeyAccountItem) : bool :=
  negb (acc_Disabled a) && String.eqb (acc_Type a) needOauth.

Definition checkOauth (injected : bool) (apikey model : string) : M (list ApikeyAccountItem) :=
  _ ← reject_if (negb injected) ErrCheckUnavailable;
  accounts ← GetOauthByApikey apikey;
  let needOauth := getNeedOauth defaultchecklist model in
  _ ← reject_if (String.eqb needOauth "") ErrUnsupportedModel;
  let allowed := select (account_allowed needOauth) accounts in
  _ ← reject_if (bool_decide (allowed = [])) ErrOauthForbidden;
  mret allowed.

(** * getCrendital.go *)

Definition getCredential `{Aead} (encryptionKey : string) (ctx_err : option gerror)
    (accounts : list ApikeyAccountItem) : M Credential :=
  _ ← (match ctx_err with Some e => throw e | None => mret tt end);
  match accounts with
  | [] => throw ErrOauthForbidden
  | account :: _ =>
      _ ← reject_if (acc_Disabled account || negb (String.eqb (acc_Type account) "codex"))
            ErrOauthForbidden;
      _ ← (match acc_Expired account with
           | None => mret tt
           | Some t => now ← Now; reject_if (negb (now <? t)%Z) ErrCredentialUnavailable
           end);
      match Decrypt encryptionKey (acc_AccessToken account) with
      | Ok plain =>
          if blank plain then throw ErrCredentialUnavailable
          else mret (Build_Credential "access_token" plain)
      | Err _ => throw ErrCredentialUnavailable
      | Panic => lift Panic
      end
  end.

(** * apikeyfilter.go *)

(** What the middleware leaves to the next handler: the key and the accounts it
    put in the context. *)
Record filtered := { flt_apikey : string; flt_accounts : list ApikeyAccountItem }.

Definition apikeyfilter_error (e : gerror) : Z * string :=
  if errors_Is e ErrInvalidApikey then (401%Z, "invalid api key")
  else if errors_Is e ErrUnsupportedModel then (400%Z, "unsupported model")
  else if errors_Is e ErrOauthForbidden then (403%Z, "no authorized OAuth account for model")
  else (500%Z, "api key authentication failed")%string.

(** [body] is what [io.ReadAll] gives; [json_model] decodes the [model] field of
    the request, [None] on a decoding error. *)
Definition ApikeyFilter {D} (json_model : string → option string) (injected : bool)
    (authorization : string) (body : res string) : M (filtered + reply D) :=
  match Fields authorization with
  | [scheme; apikey] =>
      if EqualFold scheme "Bearer" then
        match body with
        | Ok body =>
            match json_model body with
            | Some model =>
                if blank model then mret (inr (Error 400 40000 "invalid chat request"))
                else
                  r ← attempt (checkOauth injected apikey model);
                  match r with
                  | inl accounts => mret (inl (Build_filtered apikey accounts))
                  | inr e => let '(code, message) := apikeyfilter_error e in
                             mret (inr (Error code (code * 100) message))
                  end
            | None => mret (inr (Error 400 40000 "invalid chat request"))
            end
        | _ => mret (inr (Error 400 40000 "invalid request body"))
        end
      else mret (inr (Error 401 40100 "missing or invalid authorization header"))
  | _ => mret (inr (Error 401 40100 "missing or invalid authorization header"))
  end%string.

(** * apikey_handler.go *)

Inductive payload := PCreated (api_key : string) | PList (items : list ApikeyListItem).

(** The user and key identifiers of a request, or the reply that refuses it. *)
Definition apikeyRequestIDs (user : option ctx_value) (param : string) : (N * N) + reply payload :=
  match user with
  | Some (CtxUint64 userid) =>
      if ((userid =? 0) || (max_int63 <? userid))%N
      then inr (Error 401 40100 "invalid user identity")
      else match ParseUint param 63 with
           | Some id => if (id =? 0)%N then inr (Error 400 40000 "invalid api key id")
                        else inl (userid, id)
           | None => inr (Error 400 40000 "invalid api key id")
           end
  | _ => inr (Error 401 40100 "invalid user identity")
  end%string.

Definition apikeyMutationResponse (r : unit + gerror) : reply payload :=
  match r with
  | inr e =>
      if errors_Is e ErrApikeyNotFound then Error 404 40400 (error_text ErrApikeyNotFound)
      else if errors_Is e ErrInvalidAccounts then Error 400 40000 (error_text ErrInvalidAccounts)
      else Error 500 50000 "internal server error"
  | inl _ => Success None
  end.

(** [json_time] decodes a JSON value into a [*time.Time]. *)
Definition UpdateApikey_handler (json_time : string → option (option time))
    (user : option ctx_value) (param : string) (body : option UpdateApikeyRequest) : M (reply payload) :=
  match apikeyRequestIDs user param with
  | inr r => mret r
  | inl (userid, id) =>
      match body with
      | None => mret (Error 400 40000 "invalid api key request")
      | Some req =>
          let absent := String.eqb (ureq_ExpiresAt req) "" in
          if bool_decide (ureq_Disabled req = None) && absent
          then mret (Error 400 40000 "invalid api key request")
          else match (if absent then Some None else json_time (ureq_ExpiresAt req)) with
               | None => mret (Error 400 40000 "invalid expires_at")
               | Some expiresAt =>
                   handle (UpdateApikey userid id (ureq_Disabled req) expiresAt (negb absent))
                     apikeyMutationResponse
               end
      end
  end%string.

Definition ReplaceApikeyAccounts_handler (user : option ctx_value) (param : string)
    (body : option ReplaceApikeyAccountsRequest) : M (reply payload) :=
  match apikeyRequestIDs user param with
  | inr r => mret r
  | inl (userid, id) =>
      match body with
      | None => mret (Error 400 40000 "invalid api key request")
      | Some (Build_ReplaceApikeyAccountsRequest (Some oauthinfos) (Some externalIDs)) =>
          handle (ReplaceApikeyAccounts userid id oauthinfos externalIDs) apikeyMutationResponse
      | Some _ => lift Panic
      end
  end%string.

Definition DeleteApikey_handler (user : option ctx_value) (param : string) : M (reply payload) :=
  match apikeyRequestIDs user param with
  | inr r => mret r
  | inl (userid, id) => handle (DeleteApikey userid id) apikeyMutationResponse
  end.

Definition user_identity (user : option ctx_value) : option N :=
  match user with
  | Some (CtxUint64 userid) => if userid =? 0 then None else Some userid
  | _ => None
  end.

Definition CreatApikey_reply (r : string + gerror) : reply payload :=
  match r with
  | inr e => if errors_Is e ErrInvalidAccounts
             then Error 400 40000 (error_text ErrInvalidAccounts)
             else Error 500 50000 "internal server error"
  | inl raw => no_store (SuccessWithStatus 201 (Some (PCreated raw)) "success")
  end.

Definition CreatApikey_handler (user : option ctx_value) (body : option CreatApikeyRequest) :
  M (reply payload) :=
  match user_identity user with
  | None => mret (Error 401 40100 "invalid user identity")
  | Some userid =>
      match body with
      | None => mret (Error 400 40000 "invalid api key request")
      | Some req => handle (CreatApikey userid (creq_OAuthInfo req) (creq_ExternalApiKeyIDs req))
                      CreatApikey_reply
      end
  end.

Definition ApikeyList_reply (r : list ApikeyListItem + gerror) : reply payload :=
  match r with
  | inr _ => Error 500 50000 "internal server error"
  | inl items => no_store (Success (Some (PList items)))
  end.

Definition ApikeyList_handler (user : option ctx_value) : M (reply payload) :=
  match user_identity user with
  | None => mret (Error 401 40100 "invalid user identity")
  | Some userid => handle (UserApikeyList userid) ApikeyList_reply
  end.

End with_env.
