(* ===== verification/ApikeyFacts.v ===== *)
(** Theorems about modules/apikey: what each operation writes, that a failed
    one writes nothing, that a user's requests never touch another user's rows,
    and which accounts a key gives access to. *)

From S2P Require Import Prelude.
From S2P Require Import GoStrings.
From S2P Require Import Codec.
From S2P Require Import Schema.
From S2P Require Import Integrity.
From S2P Require Import Stores.
From S2P Require Import World.
From S2P Require Import Tenants.
From S2P Require Import Security.
From S2P Require Import Http.
From S2P Require Import Apikey.

Local Open Scope list_scope.
Local Open Scope N_scope.

(** * Identifiers of a request *)

Lemma collect_ids_spec seen l :
  collect_ids seen l =
  if forallb valid_id l then Ok (dedup_from seen l) else Err ErrInvalidAccounts.
Proof.
  revert seen. induction l as [|x l IH]; intros seen; [done|]. cbn [collect_ids forallb dedup_from].
  destruct (valid_id x); cbn [negb andb]; [|done].
  case_bool_decide; [apply IH|]. rewrite IH. by destruct (forallb valid_id l).
Qed.

Lemma collect_ids_nil_Ok l ids :
  collect_ids [] l = Ok ids → ids = dedup_from [] l ∧ ∀ x, x ∈ l → valid_id x = true.
Proof.
  rewrite collect_ids_spec. destruct (forallb valid_id l) eqn:Hf; [|done]. intros [= <-].
  split; [done|]. intros x Hx. rewrite List.forallb_forall in Hf. apply Hf. by apply list_elem_of_In.
Qed.

(** Counting the owned rows among distinct identifiers finds them all exactly
    when each of them is owned. *)
Lemma count_owned_iff {R} (f : R → N) (p : R → bool) (ids : list N) (l : list R) :
  NoDup (f <$> l) → NoDup ids →
  N.of_nat (length (select (λ r, p r && bool_decide (f r ∈ ids)) l)) = len ids ↔
  ∀ x, x ∈ ids → ∃ r, r ∈ l ∧ p r = true ∧ f r = x.
Proof.
  intros Hl Hids. set (s := select _ l).
  assert (Hs : NoDup (f <$> s)) by by apply NoDup_fmap_select.
  assert (Hel : ∀ x, x ∈ f <$> s ↔ x ∈ ids ∧ ∃ r, r ∈ l ∧ p r = true ∧ f r = x).
  { intros x. rewrite list_elem_of_fmap. unfold s. setoid_rewrite elem_of_select.
    setoid_rewrite andb_true_iff. setoid_rewrite bool_decide_eq_true. naive_solver. }
  assert (Hsub : f <$> s ⊆+ ids) by (apply NoDup_submseteq; [done|]; intros y; rewrite Hel; naive_solver).
  unfold len. split.
  - intros Hlen x Hx. assert (Hperm : f <$> s ≡ₚ ids).
    { apply submseteq_length_Permutation; [done|]. rewrite length_fmap. lia. }
    rewrite <- Hperm in Hx. by apply Hel in Hx as [_ ?].
  - intros Hall. assert (Hperm : f <$> s ≡ₚ ids).
    { apply NoDup_Permutation; [done..|]. intros x. rewrite Hel. naive_solver. }
    rewrite <- (length_fmap f), Hperm. done.
Qed.

Lemma count_oauth_iff d userid ids :
  db_wf d → NoDup ids →
  N.of_nat (length (select (oauth_owned_in userid ids) (t_oauth d))) = len ids ↔
  ∀ x, x ∈ ids → has_oauth d userid x = true.
Proof.
  intros Hwf Hids. setoid_rewrite has_oauth_spec. setoid_rewrite <- N.eqb_eq at 2.
  apply (count_owned_iff oi_ID (λ o, oi_UserID o =? userid)); [|done].
  by apply (NoDup_ids oauth_infos).
Qed.

Lemma count_ext_iff d userid ids :
  db_wf d → NoDup ids →
  N.of_nat (length (select (ext_owned_in userid ids) (t_ext d))) = len ids ↔
  ∀ x, x ∈ ids → has_ext d userid x = true.
Proof.
  intros Hwf Hids. setoid_rewrite has_ext_spec. setoid_rewrite <- N.eqb_eq at 2.
  apply (count_owned_iff ek_ID (λ o, ek_UserID o =? userid)); [|done].
  by apply (NoDup_ids external_api_keys).
Qed.

(** * Writing a key and its bindings *)

(** The rows an association INSERT resolves: every foreign key of the new rows
    holds in the database it was run on. *)
Lemma insert_all_fk t now rs d rs' d' :
  identity_table t = false → insert_all t now rs d = Ok (rs', d') →
  ∀ r, r ∈ rs' → fk_ok t d r = true.
Proof.
  intros Ht. revert d rs' d'. induction rs as [|r rs IH]; intros d rs' d'; simpl.
  - intros [= <- <-]. set_solver.
  - destruct (insert_one t now r d) as [[r1 d1]| |] eqn:H1; [|done..].
    apply insert_one_rows in H1 as (-> & -> & _ & Hfk & _).
    destruct (insert_all t now rs _) as [[rs2 d2]| |] eqn:H2; [|done..].
    intros [= <- <-] x. rewrite elem_of_cons. intros [->|Hx]; [done|].
    specialize (IH _ _ _ H2 x Hx). rewrite fk_ok_bump in IH. by destruct t.
Qed.

(** [d'] is [d] with a new key row [k] and its bindings to [ids] and [exts]. *)
Definition key_added (userid : N) (ids exts : list N) (k : ApikeyInfo) (d d' : db) : Prop :=
  t_keys d' = t_keys d ++ [k] ∧ ak_UserID k = userid ∧
  (∀ k', k' ∈ t_keys d → ak_ID k' ≠ ak_ID k ∧ ak_KeyHash k' ≠ ak_KeyHash k) ∧
  (∃ now, t_bind d' = t_bind d ++ ((λ x, Build_Apikeyaccounts userid (ak_ID k) x now) <$> ids)) ∧
  (∃ now, t_extbind d' = t_extbind d ++
            ((λ x, Build_ApikeyExternalKey userid (ak_ID k) x now) <$> exts)) ∧
  (∀ x, x ∈ ids → has_oauth d userid x = true) ∧
  (∀ x, x ∈ exts → has_ext d userid x = true) ∧
  t_users d' = t_users d ∧ t_oauth d' = t_oauth d ∧ t_ext d' = t_ext d.

(** The accounts and external keys a request may bind: they are the user's. *)
Definition refs_ok (userid : N) (ids exts : list N) (d : db) : Prop :=
  (∀ x, x ∈ ids → has_oauth d userid x = true) ∧ (∀ x, x ∈ exts → has_ext d userid x = true).

Lemma refs_user userid ids exts d :
  db_wf d → ids ++ exts ≠ [] → refs_ok userid ids exts d → has_user d userid = true.
Proof.
  intros Hwf Hne [Ho He]. destruct ids as [|x ids].
  - destruct exts as [|x exts]; [done|].
    destruct (proj1 (has_ext_spec d userid x) (He x ltac:(set_solver))) as (r & Hr & <- & _).
    by apply (tk_fk _ _ (Hwf external_api_keys)).
  - destruct (proj1 (has_oauth_spec d userid x) (Ho x ltac:(set_solver))) as (r & Hr & <- & _).
    by apply (tk_fk _ _ (Hwf oauth_infos)).
Qed.

Lemma has_key_app u i k d :
  has_key (set_rows api_keys (t_keys d ++ [k]) d) u i =
  has_key d u i || ((ak_UserID k =? u) && (ak_ID k =? i)).
Proof. unfold has_key. cbn. rewrite existsb_app. cbn. by rewrite orb_false_r. Qed.

(** The rows a new key's bindings are made of, and which references they need. *)
Definition bind_rows (userid id : N) (ids : list N) : list Apikeyaccounts :=
  (λ x, Build_Apikeyaccounts userid id x 0) <$> ids.
Definition extbind_rows (userid id : N) (exts : list N) : list ApikeyExternalKey :=
  (λ x, Build_ApikeyExternalKey userid id x 0) <$> exts.

Section operations.
Context `{EnvLaws}.

Lemma wp_create_rows t rs (Q : res unit → world → Prop) w :
  (∀ e, fault e → Q (Err e) (tick w)) →
  (rs = [] → Q (Ok tt) w) →
  match insert_all t (now_at (w_step w)) rs (w_db w) with
  | Ok (_, d') => Q (Ok tt) (tick (set_db d' w))
  | Err e => Q (Err e) (tick w)
  | Panic => True
  end →
  wp (create_rows t rs) Q w.
Proof.
  intros He Hn Hi. destruct rs as [|r rs]; [by apply wp_ret, Hn|].
  unfold create_rows. wp_step. wp_step; [done|].
  destruct (insert_all _ _ _ _) as [[rs' d']|e|] eqn:Hins; [by wp_step|done|].
  by apply insert_all_no_panic in Hins.
Qed.

(** Inserting new bindings, the slice being empty or not. *)
Lemma wp_create_assoc t rs (Q : res unit → world → Prop) w :
  identity_table t = false → NoDup (pk t <$> rs) →
  (∀ r, r ∈ rs → pk t r ∉ pk t <$> rows t (w_db w)) →
  (∀ e w', fault e → Q (Err e) w') →
  (∀ r w', r ∈ rs → fk_ok t (w_db w) r = false → Q (Err ErrForeignKeyViolated) w') →
  (∀ now w', w_db w' = set_rows t (rows t (w_db w) ++ (stamp t now 0 <$> rs)) (w_db w) →
             (∀ r, r ∈ rs → fk_ok t (w_db w) r = true) →
             (db_wf (w_db w) → db_wf (w_db w')) → Q (Ok tt) w') →
  wp (create_rows t rs) Q w.
Proof.
  intros Ht Hnd Hfresh He Hfk Hok. apply wp_create_rows; [by intros; apply He|..].
  - intros ->. apply (Hok 0%Z); [|set_solver|done]. cbn [fmap list_fmap]. rewrite app_nil_r.
    by destruct t, (w_db w).
  - destruct (insert_all _ _ _ _) as [[rs' d']|e|] eqn:Hins; [| |done].
    + pose proof (insert_all_fk _ _ _ _ _ _ Ht Hins) as Hfk'.
      assert (Hwf : db_wf (w_db w) → db_wf d') by (intros; by eapply insert_all_wf).
      apply insert_all_assoc in Hins as [-> ->]; [|done].
      eapply Hok; [done| |exact Hwf]. intros r Hr.
      rewrite <- (fk_ok_stamp _ (now_at (w_step w))) by done. apply Hfk'. by apply list_elem_of_fmap_2.
    + apply insert_all_assoc_err in Hins as (-> & r & Hr & Hf); [by eapply Hfk|done..].
Qed.

Lemma wp_create_bindings userid id ids (Q : res unit → world → Prop) w :
  NoDup ids → has_key (w_db w) userid id = true →
  (∀ b, b ∈ t_bind (w_db w) → ba_ApiKeyID b ≠ id) →
  (∀ e w', fault e → Q (Err e) w') →
  (∀ x w', x ∈ ids → has_oauth (w_db w) userid x = false → Q (Err ErrForeignKeyViolated) w') →
  (∀ now w', w_db w' = set_rows api_key_accounts (t_bind (w_db w) ++
                ((λ x, Build_Apikeyaccounts userid id x now) <$> ids)) (w_db w) →
             (∀ x, x ∈ ids → has_oauth (w_db w) userid x = true) →
             (db_wf (w_db w) → db_wf (w_db w')) → Q (Ok tt) w') →
  wp (create_rows api_key_accounts (bind_rows userid id ids)) Q w.
Proof.
  intros Hnd Hkey Hfresh He Hfk Hok. apply wp_create_assoc; [done|..|done| |].
  - unfold bind_rows. rewrite <- list_fmap_compose. apply NoDup_fmap_2; [|done]. by intros x y [= ->].
  - intros r (x & -> & Hx)%list_elem_of_fmap. cbn. intros (b & [= Hid _] & Hb)%list_elem_of_fmap.
    by eapply Hfresh.
  - intros r w' (x & -> & Hx)%list_elem_of_fmap. cbn. rewrite Hkey. by apply Hfk.
  - intros now w' Hw' Hr Hwf. eapply (Hok now); [|..|done].
    + rewrite Hw'. unfold bind_rows. by rewrite <- list_fmap_compose.
    + intros x Hx. specialize (Hr _ (list_elem_of_fmap_2 _ _ x Hx)). cbn in Hr. by rewrite Hkey in Hr.
Qed.

Lemma wp_create_extbindings userid id exts (Q : res unit → world → Prop) w :
  NoDup exts → has_key (w_db w) userid id = true →
  (∀ b, b ∈ t_extbind (w_db w) → be_ApiKeyID b ≠ id) →
  (∀ e w', fault e → Q (Err e) w') →
  (∀ x w', x ∈ exts → has_ext (w_db w) userid x = false → Q (Err ErrForeignKeyViolated) w') →
  (∀ now w', w_db w' = set_rows api_key_external_keys (t_extbind (w_db w) ++
                ((λ x, Build_ApikeyExternalKey userid id x now) <$> exts)) (w_db w) →
             (∀ x, x ∈ exts → has_ext (w_db w) userid x = true) → Q (Ok tt) w') →
  wp (create_rows api_key_external_keys (extbind_rows userid id exts)) Q w.
Proof.
  intros Hnd Hkey Hfresh He Hfk Hok. apply wp_create_assoc; [done|..|done| |].
  - unfold extbind_rows. rewrite <- list_fmap_compose. apply NoDup_fmap_2; [|done]. by intros x y [= ->].
  - intros r (x & -> & Hx)%list_elem_of_fmap. cbn. intros (b & [= Hid _] & Hb)%list_elem_of_fmap.
    by eapply Hfresh.
  - intros r w' (x & -> & Hx)%list_elem_of_fmap. cbn. rewrite Hkey. by apply Hfk.
  - intros now w' Hw' Hr _. eapply (Hok now).
    + rewrite Hw'. unfold extbind_rows. by rewrite <- list_fmap_compose.
    + intros x Hx. specialize (Hr _ (list_elem_of_fmap_2 _ _ x Hx)). cbn in Hr. by rewrite Hkey in Hr.
Qed.


Lemma wp_map_foreign_key m (Q : res unit → world → Prop) w :
  wp m (λ r w', match r with
                | Ok _ => Q (Ok tt) w'
                | Err e => Q (Err (foreign_key_error e)) w'
                | Panic => Q Panic w'
                end) w →
  wp (map_foreign_key m) Q w.
Proof.
  intros Hm. unfold map_foreign_key. do 2 wp_step. revert Hm. apply wp_mono.
  by intros [[]|e|] w'.
Qed.

Lemma foreign_key_error_fault e : fault e → foreign_key_error e = e.
Proof. intros. unfold foreign_key_error. by is_red. Qed.

(** The identity of the next key is bound nowhere. *)
Lemma next_key_unbound d :
  db_wf d → (∀ b, b ∈ t_bind d → ba_ApiKeyID b ≠ seq_keys d) ∧
            (∀ b, b ∈ t_extbind d → be_ApiKeyID b ≠ seq_keys d).
Proof.
  intros Hwf.
  assert (Hk : ∀ u i, has_key d u i = true → i ≠ seq_keys d).
  { intros u i (k & Hk & _ & <-)%has_key_spec ?.
    destruct (tk_id _ _ (Hwf api_keys) eq_refl) as [_ Hlt]. specialize (Hlt k Hk). cbn in Hlt. lia. }
  split; intros b Hb.
  - pose proof (tk_fk _ _ (Hwf api_key_accounts) b Hb) as Hfk. cbn in Hfk. prop_guards. eauto.
  - pose proof (tk_fk _ _ (Hwf api_key_external_keys) b Hb) as Hfk. cbn in Hfk. prop_guards. eauto.
Qed.

Lemma bind_rows_of_key k ids exts :
  bind_to_key k <$> toApikeyaccounts (ak_UserID k) ids = bind_rows (ak_UserID k) (ak_ID k) ids ∧
  extbind_to_key k <$> external_rows (ak_UserID k) exts = extbind_rows (ak_UserID k) (ak_ID k) exts.
Proof. split; unfold toApikeyaccounts, external_rows; by rewrite <- list_fmap_compose. Qed.

(** What an unsuccessful creation means. *)
Definition save_refused (userid : N) (ids exts : list N) (hash : string) (d : db) (e : gerror) : Prop :=
  fault e ∨
  e = ErrInvalidAccounts ∧ ¬ (ids ++ exts ≠ [] ∧ refs_ok userid ids exts d) ∨
  e = ErrDuplicatedKey ∧ ∃ k, k ∈ t_keys d ∧ ak_KeyHash k = hash.

Lemma wp_SaveApikey ids exts info (Q : res unit → world → Prop) w :
  db_wf (w_db w) → NoDup ids → NoDup exts → check_ok api_keys info = true →
  (∀ e w', save_refused (ak_UserID info) ids exts (ak_KeyHash info) (w_db w) e →
           w_db w' = w_db w → Q (Err e) w') →
  (∀ k i now w', k = stamp api_keys now i info → ids ++ exts ≠ [] →
                 key_added (ak_UserID info) ids exts k (w_db w) (w_db w') → Q (Ok tt) w') →
  wp (SaveApikey info (toApikeyaccounts (ak_UserID info) ids)
        (external_rows (ak_UserID info) exts)) Q w.
Proof.
  intros Hwf Hni Hne Hc He Hok. unfold SaveApikey. set (userid := ak_UserID info) in *.
  wp_step. wp_step.
  { apply He; [|done]. right; left. split; [done|]. prop_guards. intros [Hnn _].
    by apply fmap_nil_inv in H1, H2; subst. }
  assert (Hnn : ids ++ exts ≠ []) by (intros [-> ->]%app_nil; done).
  apply wp_map_foreign_key, wp_transaction.
  assert (Hfault : ∀ e w', fault e → Q (Err (foreign_key_error e)) (set_db (w_db w) w')).
  { intros e w' Hf. rewrite foreign_key_error_fault by done. apply He; [by left|done]. }
  assert (Hbad : ∀ w', ¬ refs_ok userid ids exts (w_db w) →
             Q (Err (foreign_key_error ErrForeignKeyViolated)) (set_db (w_db w) w')).
  { intros w' Hr. apply He; [|done]. right; left. split; [done|]. tauto. }
  wp_step. wp_step; [by intros; apply Hfault|].
  destruct (insert_one _ _ _ _) as [[k d1]|e|] eqn:Hi; [| |done].
  2:{ apply insert_one_err in Hi as [[_ Hx]|[[-> Hx]|[-> Hx]]]; [..|done|done].
      - cbn in Hx, Hc. by rewrite Hc in Hx.
      - apply He; [|done]. right; right. split; [done|].
        apply list_elem_of_fmap in Hx as (k & [= Hh] & Hk). eauto.
      - apply Hbad. intros Hr. cbn in Hx. by rewrite (refs_user userid ids exts) in Hx. }
  apply insert_one_rows in Hi as (Hk & -> & _ & _ & Hpk & Huk).
  destruct (next_key_unbound (w_db w) Hwf) as [Hb1 Hb2].
  assert (HkU : userid = ak_UserID k) by by rewrite Hk.
  assert (HkI : seq_keys (w_db w) = ak_ID k) by by rewrite Hk.
  wp_red. rewrite HkU, (proj1 (bind_rows_of_key k ids exts)), (proj2 (bind_rows_of_key k ids exts)), <- HkU.
  assert (Hkey : ∀ d, t_keys d = t_keys (w_db w) ++ [k] → has_key d userid (ak_ID k) = true).
  { intros d Hd. apply has_key_spec. exists k. rewrite Hd. set_solver. }
  wp_step. apply wp_create_bindings; [done|by apply Hkey|by rewrite <- HkI|by intros; apply Hfault|..].
  { intros x w' Hx Hf. apply Hbad. intros [Hr _]. specialize (Hr x Hx).
    change (has_oauth (w_db w) userid x = false) in Hf. congruence. }
  intros now1 w1 Hw1 Ho1 _. cbn in Hw1, Ho1.
  apply wp_create_extbindings; [done|by apply Hkey; rewrite Hw1|by rewrite Hw1, <- HkI
    |by intros; apply Hfault|..].
  { intros x w' Hx Hf. apply Hbad. intros [_ Hr]. specialize (Hr x Hx). rewrite Hw1 in Hf.
    change (has_ext (w_db w) userid x = false) in Hf. congruence. }
  intros now2 w2 Hw2 Ho2. rewrite Hw1 in Hw2, Ho2. cbn in Hw2, Ho2.
  split; [|intros e Hf; by apply (Hfault e (tick w2))].
  eapply Hok; [exact Hk|done|]. unfold key_added. wp_red. rewrite Hw2. cbn.
  split_and!; [done|done| |by exists now1|by exists now2|exact Ho1|exact Ho2|done..].
  intros k' Hk'. split.
  - intros Heq. apply Hpk. cbn. apply list_elem_of_fmap. exists k'. by rewrite Heq.
  - intros Heq. apply Huk. cbn. apply list_elem_of_fmap. exists k'. by rewrite Heq.
Qed.

(** * Creating a key *)

Definition raw_key (secret : string) : string := "sk-" +:+ Base64.RawURLEncode secret.

(** The key row of a creation: it stores the hash and the first characters of
    the raw key, never the key, and starts enabled and without expiry. *)
Definition created_key (userid : N) (oauthinfos externalKeyIDs : list N) (raw : string)
    (k : ApikeyInfo) (d d' : db) : Prop :=
  String.length raw = 46%nat ∧ HasPrefix raw "sk-" = true ∧
  ak_KeyHash k = hex_sha256 raw ∧ ak_KeyPrefix k = substring 0 12 raw ∧
  ak_Disabled k = false ∧ ak_ExpiresAt k = None ∧
  key_added userid (dedup_from [] oauthinfos) (dedup_from [] externalKeyIDs) k d d'.

(** The requests that create a key. *)
Definition create_ok (userid : N) (oauthinfos externalKeyIDs : list N) (d : db) : Prop :=
  valid_id userid = true ∧ oauthinfos ++ externalKeyIDs ≠ [] ∧
  forallb valid_id (oauthinfos ++ externalKeyIDs) = true ∧
  refs_ok userid oauthinfos externalKeyIDs d.

Definition create_refused (userid : N) (oauthinfos externalKeyIDs : list N) (d : db)
    (e : gerror) : Prop :=
  fault e ∨
  e = ErrInvalidAccounts ∧ ¬ create_ok userid oauthinfos externalKeyIDs d ∨
  e = ErrDuplicatedKey ∧ ∃ n secret k, rand_read n 32 = Ok secret ∧ k ∈ t_keys d ∧
    ak_KeyHash k = hex_sha256 (raw_key secret).

(** The ownership checks only read; [owned] is what the count decides. *)
Lemma wp_count_check t p n (owned : Prop) (Q : res unit → world → Prop) w :
  (N.of_nat (length (select p (rows t (w_db w)))) = n ↔ owned) →
  (∀ e w', fault e → w_db w' = w_db w → Q (Err e) w') →
  (∀ w', w_db w' = w_db w → ¬ owned → Q (Err ErrInvalidAccounts) w') →
  (∀ w', w_db w' = w_db w → owned → Q (Ok tt) w') →
  wp (count ← sql (Count t p); reject_if (negb (count =? n)) ErrInvalidAccounts) Q w.
Proof.
  intros Howned He Hn Hok. wp_step. wp_step; [by auto|]. wp_step; prop_guards.
  - apply Hn; [done|]. by rewrite <- Howned.
  - apply Hok; [done|]. by apply Howned.
Qed.

Lemma wp_owned_accounts userid ids (Q : res unit → world → Prop) w :
  db_wf (w_db w) → NoDup ids → valid_id userid = true →
  (∀ e w', fault e → w_db w' = w_db w → Q (Err e) w') →
  (∀ w', w_db w' = w_db w → ¬ (∀ x, x ∈ ids → has_oauth (w_db w) userid x = true) →
         Q (Err ErrInvalidAccounts) w') →
  (∀ w', w_db w' = w_db w → (∀ x, x ∈ ids → has_oauth (w_db w) userid x = true) → Q (Ok tt) w') →
  wp (if bool_decide (ids = []) then mret tt else checkOauth_ids userid ids) Q w.
Proof.
  intros Hwf Hnd Hu He Hn Hok. wp_if; prop_guards.
  { apply wp_ret, Hok; [done|]. subst. set_solver. }
  unfold checkOauth_ids, CountOwnedAccounts. rewrite Hu, bool_decide_eq_false_2 by done.
  wp_step. wp_step; [done|]. by eapply wp_count_check; [apply count_oauth_iff|..].
Qed.

Lemma wp_owned_externals userid exts (Q : res unit → world → Prop) w :
  db_wf (w_db w) → NoDup exts →
  (∀ e w', fault e → w_db w' = w_db w → Q (Err e) w') →
  (∀ w', w_db w' = w_db w → ¬ (∀ x, x ∈ exts → has_ext (w_db w) userid x = true) →
         Q (Err ErrInvalidAccounts) w') →
  (∀ w', w_db w' = w_db w → (∀ x, x ∈ exts → has_ext (w_db w) userid x = true) → Q (Ok tt) w') →
  wp (if bool_decide (exts = []) then mret tt
      else count ← sql (Count external_api_keys (ext_owned_in userid exts));
           reject_if (negb (count =? len exts)) ErrInvalidAccounts) Q w.
Proof.
  intros Hwf Hnd He Hn Hok. wp_if; prop_guards.
  { apply wp_ret, Hok; [done|]. subst. set_solver. }
  by eapply wp_count_check; [apply count_ext_iff|..].
Qed.

Lemma refs_ok_dedup userid l exts d :
  refs_ok userid (dedup_from [] l) (dedup_from [] exts) d ↔ refs_ok userid l exts d.
Proof. unfold refs_ok. setoid_rewrite elem_of_dedup_from. set_solver. Qed.

Lemma dedup_app_nil (l m : list N) : dedup_from [] l ++ dedup_from [] m = [] ↔ l ++ m = [].
Proof.
  split.
  - intros [Hl Hm]%app_nil. apply (proj1 (dedup_from_nil_iff _)) in Hl, Hm. by subst.
  - intros [-> ->]%app_nil. done.
Qed.

Lemma wp_generateApikey (Q : res (string * string) → world → Prop) w :
  (∀ e, fault e → Q (Err e) (tick w)) →
  (∀ n secret, rand_read n 32 = Ok secret → String.length (raw_key secret) = 46%nat →
          HasPrefix (raw_key secret) "sk-" = true →
          Q (Ok (raw_key secret, hex_sha256 (raw_key secret))) (tick w)) →
  wp generateApikey Q w.
Proof.
  intros He Hok. unfold generateApikey. wp_step. wp_step; [by apply He|]. wp_step.
  eapply Hok; [done| |apply prefix_app].
  unfold raw_key. rewrite length_str_app, Base64.length_RawURLEncode_32; done.
Qed.

Lemma create_ok_dedup userid l exts d :
  create_ok userid l exts d ↔
  valid_id userid = true ∧ l ++ exts ≠ [] ∧
  (forallb valid_id l = true ∧ forallb valid_id exts = true) ∧
  refs_ok userid (dedup_from [] l) (dedup_from [] exts) d.
Proof. unfold create_ok. by rewrite forallb_app, andb_true_iff, refs_ok_dedup. Qed.

Lemma wp_CreatApikey userid oauthinfos externalKeyIDs (Q : res string → world → Prop) w :
  db_wf (w_db w) →
  (∀ e w', create_refused userid oauthinfos externalKeyIDs (w_db w) e →
           w_db w' = w_db w → Q (Err e) w') →
  (∀ raw k w', create_ok userid oauthinfos externalKeyIDs (w_db w) →
               created_key userid oauthinfos externalKeyIDs raw k (w_db w) (w_db w') →
               Q (Ok raw) w') →
  wp (CreatApikey userid oauthinfos externalKeyIDs) Q w.
Proof.
  intros Hwf He Hok. unfold CreatApikey, CountOwnedExternalKeys.
  assert (Hinv : ∀ w', w_db w' = w_db w → ¬ create_ok userid oauthinfos externalKeyIDs (w_db w) →
            Q (Err ErrInvalidAccounts) w') by (intros; apply He; [right; by left|done]).
  assert (Hfault : ∀ e w', w_db w' = w_db w → fault e → Q (Err e) w')
    by (intros; apply He; [by left|done]).
  setoid_rewrite create_ok_dedup in Hinv. setoid_rewrite create_ok_dedup in Hok.
  wp_step. wp_step.
  { apply Hinv; [done|]. intros (Hu & Hne & _). rewrite Hu in H1. cbn in H1. prop_guards. by subst. }
  prop_guards.
  assert (Hne : oauthinfos ++ externalKeyIDs ≠ []) by (intros [-> ->]%app_nil; done).
  wp_step. wp_step. rewrite collect_ids_spec.
  destruct (forallb valid_id oauthinfos); [|apply Hinv; [done|naive_solver]].
  wp_step. apply wp_owned_accounts; [done|auto with erent|done|by intros; apply Hfault
    |intros w1 Hw1 Hno; apply Hinv; [done|unfold refs_ok; tauto]|].
  intros w1 Hw1 Hids. wp_step. wp_step. rewrite collect_ids_spec.
  destruct (forallb valid_id externalKeyIDs); [|apply Hinv; [done|naive_solver]].
  wp_step. apply wp_owned_externals; [by rewrite Hw1|auto with erent
    |intros; apply Hfault; [congruence|done]
    |rewrite Hw1; intros w2 Hw2 Hno; apply Hinv; [congruence|unfold refs_ok; tauto]|].
  rewrite Hw1. intros w2 Hw2 Hexts.
  wp_step. apply wp_generateApikey; [by intros; apply Hfault|].
  intros n secret Hrand Hlen Hpre. wp_step. wp_step. rewrite go_slice_Ok by lia.
  set (info := with_prefix _ _). wp_step. rewrite <- Hw2 in Hwf.
  apply (wp_SaveApikey (dedup_from [] oauthinfos) (dedup_from [] externalKeyIDs) info);
    [done|auto with erent|auto with erent|..].
  - assert (Hc1 := RuneCount_le (hex_sha256 (raw_key secret))).
    assert (Hc2 := RuneCount_le (substring 0 12 (raw_key secret))).
    rewrite length_hex_sha256 in Hc1. rewrite length_substring in Hc2 by lia.
    unfold check_ok. apply andb_true_iff. split; apply bool_decide_eq_true; [done|].
    etrans; [exact Hc2|]. lia.
  - intros e w' Hr Hdb. apply He; [|by rewrite Hdb]. cbn [w_db tick] in Hr. rewrite Hw2 in Hr.
    destruct Hr as [?|[[_ Hr]|[-> (k & Hk & Hh)]]]; [by left| |right; right; eauto 8].
    exfalso. apply Hr. split; [by rewrite dedup_app_nil|]. done.
  - intros k i now w' -> Hnn Hadd. wp_step. cbn [w_db tick] in Hadd. rewrite Hw2 in Hadd.
    eapply Hok; [done|]. unfold created_key. split_and!; [done|done|..|exact Hadd]; done.
Qed.

(** * Changing and deleting a key *)

(** The owner's row as [UpdateApikey] leaves it. *)
Definition updated_key (disabled : option bool) (expiry : option (option time)) (now : time)
    (k : ApikeyInfo) : ApikeyInfo :=
  @assign api_keys now (set_apikey disabled expiry now) k.

Definition update_owned (userid id : N) (f : ApikeyInfo → ApikeyInfo) (d : db) : db :=
  set_rows api_keys (map (λ k, if key_owned userid id k then f k else k) (t_keys d)) d.

Lemma wp_repo_UpdateApikey userid id disabled expiresAt (upd : bool) (Q : res unit → world → Prop) w :
  (∀ e w', fault e → w_db w' = w_db w → Q (Err e) w') →
  (∀ w', (∀ k, k ∈ t_keys (w_db w) → key_owned userid id k = false) → w_db w' = w_db w →
         Q (Err ErrApikeyNotFound) w') →
  (∀ k now w', k ∈ t_keys (w_db w) → key_owned userid id k = true →
     w_db w' = update_owned userid id
                 (updated_key disabled (if upd then Some expiresAt else None) now) (w_db w) →
     Q (Ok tt) w') →
  wp (repo_UpdateApikey userid id disabled expiresAt upd) Q w.
Proof.
  intros He Hn Hok. unfold repo_UpdateApikey. do 2 wp_step. wp_step.
  wp_step; [by intros; apply He|]. wp_step; prop_guards.
  - apply Hn.
    + by apply select_length_0.
    + cbn. rewrite map_none by by apply select_length_0. by destruct (w_db w).
  - destruct (select_length_pos (key_owned userid id) (t_keys (w_db w))) as (k & ? & ?); [done|].
    by eapply Hok.
Qed.

(** A deletion with its cascade, under the integrity of the tables. *)
Definition key_removed (userid id : N) (d : db) : db :=
  set_rows api_key_external_keys (select (λ b, negb (extbind_of_key userid id b)) (t_extbind d))
  (set_rows api_key_accounts (select (λ b, negb (bind_of_key userid id b)) (t_bind d))
  (set_rows api_keys (select (λ k, negb (key_owned userid id k)) (t_keys d)) d)).

Lemma wp_repo_DeleteApikey userid id (Q : res unit → world → Prop) w :
  db_wf (w_db w) →
  (∀ e w', fault e → w_db w' = w_db w → Q (Err e) w') →
  (∀ w', (∀ k, k ∈ t_keys (w_db w) → key_owned userid id k = false) →
         w_db w' = key_removed userid id (w_db w) → Q (Err ErrApikeyNotFound) w') →
  (∀ k w', k ∈ t_keys (w_db w) → key_owned userid id k = true →
           w_db w' = key_removed userid id (w_db w) → Q (Ok tt) w') →
  wp (repo_DeleteApikey userid id) Q w.
Proof.
  intros Hwf He Hn Hok. unfold repo_DeleteApikey. wp_step.
  wp_step; [by intros; apply He|].
  pose proof (delete_key userid id (w_db w) Hwf) as Hd. change (owned_key userid id) with (key_owned userid id) in Hd.
  rewrite Hd. wp_step; prop_guards.
  - apply Hn; [by apply select_length_0|done].
  - destruct (select_length_pos (key_owned userid id) (t_keys (w_db w))) as (k & ? & ?); [done|].
    by eapply Hok.
Qed.

(** Without the key there is no binding of it either: nothing is removed. *)
Lemma key_removed_absent userid id d :
  db_wf d → (∀ k, k ∈ t_keys d → key_owned userid id k = false) → key_removed userid id d = d.
Proof.
  intros Hwf Hk. unfold key_removed.
  assert (Hno : has_key d userid id = false).
  { apply not_true_iff_false. rewrite has_key_spec. intros (k & Hin & <- & <-).
    specialize (Hk k Hin). unfold key_owned in Hk. by rewrite !N.eqb_refl in Hk. }
  rewrite !select_all; [by destruct d|..]; intros b Hb; apply negb_true_iff, not_true_iff_false.
  - apply not_true_iff_false. by rewrite Hk.
  - unfold bind_of_key. intros ?. prop_guards. subst.
    pose proof (tk_fk _ _ (Hwf api_key_accounts) b Hb) as Hfk. simpl in Hfk. prop_guards. congruence.
  - unfold extbind_of_key. intros ?. prop_guards. subst.
    pose proof (tk_fk _ _ (Hwf api_key_external_keys) b Hb) as Hfk. simpl in Hfk. prop_guards. congruence.
Qed.

(** * Replacing the bindings of a key *)

(** [d'] is [d] with the bindings of the key replaced, nothing else but the
    modification time of the key. *)
Definition bindings_replaced (userid id : N) (ids exts : list N) (d d' : db) : Prop :=
  (∃ now, t_bind d' = select (λ b, negb (bind_of_key userid id b)) (t_bind d) ++
            ((λ x, Build_Apikeyaccounts userid id x now) <$> ids)) ∧
  (∃ now, t_extbind d' = select (λ b, negb (extbind_of_key userid id b)) (t_extbind d) ++
            ((λ x, Build_ApikeyExternalKey userid id x now) <$> exts)) ∧
  (∃ now, t_keys d' = t_keys (update_owned userid id (updated_key None None now) d)) ∧
  (∀ x, x ∈ ids → has_oauth d userid x = true) ∧
  (∀ x, x ∈ exts → has_ext d userid x = true) ∧
  t_users d' = t_users d ∧ t_oauth d' = t_oauth d ∧ t_ext d' = t_ext d.

Lemma delete_bindings userid id d :
  db_wf d →
  delete_rows api_key_accounts (bind_of_key userid id) d =
  set_rows api_key_accounts (select (λ b, negb (bind_of_key userid id b)) (t_bind d)) d.
Proof. intros. by rewrite delete_assoc. Qed.

Lemma delete_extbindings userid id d :
  db_wf d →
  delete_rows api_key_external_keys (extbind_of_key userid id) d =
  set_rows api_key_external_keys (select (λ b, negb (extbind_of_key userid id b)) (t_extbind d)) d.
Proof. intros. by rewrite delete_assoc. Qed.

Lemma wp_locked_key userid id (Q : res ApikeyInfo → world → Prop) w :
  (∀ e w', fault e → w_db w' = w_db w → Q (Err e) w') →
  (∀ k w', k ∈ t_keys (w_db w) → key_owned userid id k = true → w_db w' = w_db w → Q (Ok k) w') →
  ((∀ k, k ∈ t_keys (w_db w) → key_owned userid id k = false) →
     ∀ w', w_db w' = w_db w → Q (Err ErrApikeyNotFound) w') →
  wp (locked_key userid id) Q w.
Proof.
  intros He Hok Hn. unfold locked_key. do 2 wp_step. wp_step.
  - wp_step. is_red. by apply He.
  - wp_step. by apply (Hok r).
  - wp_step. is_red. by apply Hn.
Qed.

(** What an unsuccessful replacement means. *)
Definition replace_refused (userid id : N) (ids exts : list N) (d : db) (e : gerror) : Prop :=
  fault e ∨
  e = ErrInvalidAccounts ∧ ¬ (ids ++ exts ≠ [] ∧ refs_ok userid ids exts d) ∨
  e = ErrApikeyNotFound ∧ ∀ k, k ∈ t_keys d → key_owned userid id k = false.

Lemma elem_of_kept_bind userid id b d :
  db_wf d → has_key d userid id = true →
  b ∈ select (λ b, negb (bind_of_key userid id b)) (t_bind d) → ba_ApiKeyID b ≠ id.
Proof.
  intros Hwf (k & Hk & Hu & Hi)%has_key_spec [Hn Hb]%elem_of_kept Heq.
  destruct (binding_owner d b Hwf Hb) as (k' & o & Hk' & _ & Hi' & _ & Hu' & _).
  assert (k' = k) as -> by (apply (pk_inj api_keys d); [done..|]; cbn; congruence).
  revert Hn. unfold bind_of_key. rewrite <- Hu', Hu, Heq, !N.eqb_refl. done.
Qed.

Lemma elem_of_kept_extbind userid id b d :
  db_wf d → has_key d userid id = true →
  b ∈ select (λ b, negb (extbind_of_key userid id b)) (t_extbind d) → be_ApiKeyID b ≠ id.
Proof.
  intros Hwf (k & Hk & Hu & Hi)%has_key_spec [Hn Hb]%elem_of_kept Heq.
  pose proof (tk_fk _ _ (Hwf api_key_external_keys) b Hb) as Hfk. cbn in Hfk.
  apply andb_true_iff in Hfk as [(k' & Hk' & Hu' & Hi')%has_key_spec _].
  assert (k' = k) as -> by (apply (pk_inj api_keys d); [done..|]; cbn; congruence).
  revert Hn. unfold extbind_of_key. rewrite <- Hu', Hu, Heq, !N.eqb_refl. done.
Qed.

Lemma wp_repo_Replace userid id ids exts (Q : res unit → world → Prop) w :
  db_wf (w_db w) → NoDup ids → NoDup exts →
  (∀ e w', replace_refused userid id ids exts (w_db w) e → w_db w' = w_db w → Q (Err e) w') →
  (∀ k w', k ∈ t_keys (w_db w) → key_owned userid id k = true → ids ++ exts ≠ [] →
           bindings_replaced userid id ids exts (w_db w) (w_db w') → Q (Ok tt) w') →
  wp (repo_ReplaceApikeyAccounts userid id ids exts) Q w.
Proof.
  intros Hwf Hni Hne He Hok. unfold repo_ReplaceApikeyAccounts.
  wp_step. wp_step.
  { apply He; [|done]. right; left. split; [done|]. prop_guards. subst. by intros [? _]. }
  assert (Hnn : ids ++ exts ≠ []) by (intros [-> ->]%app_nil; done).
  apply wp_map_foreign_key, wp_transaction.
  assert (Hfault : ∀ e w', fault e → Q (Err (foreign_key_error e)) (set_db (w_db w) w')).
  { intros e w' Hf. rewrite foreign_key_error_fault by done. apply He; [by left|done]. }
  assert (Hinv : ∀ e w', e = ErrInvalidAccounts ∨ e = ErrForeignKeyViolated →
             ¬ refs_ok userid ids exts (w_db w) →
             Q (Err (foreign_key_error e)) (set_db (w_db w) w')).
  { intros e w' Hee Hr. apply He; [|done]. right; left. split; [by destruct Hee; subst|]. tauto. }
  wp_step. apply wp_locked_key; [by intros; apply Hfault| |].
  2:{ intros Hk w1 Hw1. apply He; [right; by right|done]. }
  intros k w1 Hk Howned Hw1.
  assert (Hkey : has_key (w_db w) userid id = true).
  { apply has_key_spec. exists k. unfold key_owned in Howned. by prop_guards. }
  wp_step. wp_step; [by intros; apply Hfault|]. rewrite Hw1.
  wp_step. wp_step.
  { apply Hinv; [by left|]. intros [Hr _]. prop_guards. apply (count_oauth_iff (w_db w)) in Hr; [|done..]. done. }
  prop_guards. 
  assert (Hwf1 := delete_wf api_key_accounts (bind_of_key userid id) _ Hwf).
  wp_step. wp_step; [by intros; apply Hfault|]. rewrite delete_bindings in * by done. wp_red.
  wp_step.
  match goal with |- wp (create_rows _ ?rs) _ _ =>
    replace rs with (bind_rows userid id ids) by (symmetry; unfold bind_rows, toApikeyaccounts; by rewrite <- list_fmap_compose) end.
  apply wp_create_bindings; [done|exact Hkey| |by intros; apply Hfault|..].
  { intros b Hb. exact (elem_of_kept_bind userid id b (w_db w) Hwf Hkey Hb). }
  { intros x w2 Hx Hf. apply Hinv; [by right|]. intros [Hr _]. specialize (Hr x Hx).
    change (has_oauth (w_db w) userid x = false) in Hf. congruence. }
  intros now2 w2 Hw2 Ho2 Hwf2. specialize (Hwf2 Hwf1). cbn in Hw2, Ho2.
  assert (Hx2 : ∀ x, has_ext (w_db w2) userid x = has_ext (w_db w) userid x) by by rewrite Hw2.
  wp_step. apply wp_owned_externals; [done|done|by intros; apply Hfault|..].
  { intros w3 _ Hr. apply Hinv; [by left|]. setoid_rewrite Hx2 in Hr. by intros [_ Hr']. }
  setoid_rewrite Hx2. intros w3 Hw3 Ho3.
  wp_step. wp_step; [by intros; apply Hfault|].
  rewrite <- Hw3 in Hwf2. rewrite delete_extbindings by done. wp_red.
  wp_step. apply wp_create_extbindings; [done|by wp_red; rewrite Hw3, Hw2| |by intros; apply Hfault|..].
  { wp_red. intros b Hb. cbn [t_extbind set_rows] in Hb. rewrite Hw3, Hw2 in Hb.
    exact (elem_of_kept_extbind userid id b (w_db w) Hwf Hkey Hb). }
  { intros x w4 Hx Hf. apply Hinv; [by right|]. intros [_ Hr]. specialize (Hr x Hx).
    wp_red. cbn [w_db set_db tick] in Hf. rewrite Hw3, Hw2 in Hf.
    change (has_ext (w_db w) userid x = false) in Hf. congruence. }
  intros now4 w4 Hw4 _. cbn [w_db tick set_db] in Hw4. rewrite Hw3, Hw2 in Hw4.
  do 4 wp_step; [by intros; apply Hfault|].
  wp_step. split; [|by intros e Hf; apply (Hfault e (tick (tick (tick w4))))].
  eapply Hok; [exact Hk|done|done|]. unfold bindings_replaced. wp_red. rewrite Hw4. cbn.
  split_and!; [by exists now2|by exists now4|by eexists|done..].
Qed.

Definition replace_ok (userid id : N) (l exts : list N) (d : db) : Prop :=
  l ++ exts ≠ [] ∧ forallb valid_id (l ++ exts) = true ∧ refs_ok userid l exts d.

Definition replace_error (userid id : N) (l exts : list N) (d : db) (e : gerror) : Prop :=
  fault e ∨
  e = ErrInvalidAccounts ∧ ¬ replace_ok userid id l exts d ∨
  e = ErrApikeyNotFound ∧ ∀ k, k ∈ t_keys d → key_owned userid id k = false.

Lemma wp_ReplaceApikeyAccounts userid id l exts (Q : res unit → world → Prop) w :
  db_wf (w_db w) →
  (∀ e w', replace_error userid id l exts (w_db w) e → w_db w' = w_db w → Q (Err e) w') →
  (∀ k w', k ∈ t_keys (w_db w) → key_owned userid id k = true →
           replace_ok userid id l exts (w_db w) →
           bindings_replaced userid id (dedup_from [] l) (dedup_from [] exts)
             (w_db w) (w_db w') → Q (Ok tt) w') →
  wp (ReplaceApikeyAccounts userid id l exts) Q w.
Proof.
  intros Hwf He Hok. unfold ReplaceApikeyAccounts.
  assert (Hinv : ¬ replace_ok userid id l exts (w_db w) → Q (Err ErrInvalidAccounts) w)
    by (intros; apply He; [right; by left|done]).
  assert (Hdd : replace_ok userid id l exts (w_db w) ↔ l ++ exts ≠ [] ∧
            (forallb valid_id l = true ∧ forallb valid_id exts = true) ∧
            refs_ok userid (dedup_from [] l) (dedup_from [] exts) (w_db w))
    by (unfold replace_ok; by rewrite forallb_app, andb_true_iff, refs_ok_dedup).
  wp_step. wp_step. rewrite collect_ids_spec.
  destruct (forallb valid_id l); [|apply Hinv; rewrite Hdd; naive_solver].
  wp_step. wp_step.
  { apply Hinv. rewrite Hdd. intros [Hne _]. prop_guards. subst.
    apply (proj1 (dedup_from_nil_iff _)) in H1. by subst. }
  assert (Hne : l ++ exts ≠ []) by (intros [-> ->]%app_nil; done).
  wp_step. wp_step. rewrite collect_ids_spec.
  destruct (forallb valid_id exts); [|apply Hinv; rewrite Hdd; naive_solver].
  apply wp_repo_Replace; [done|auto with erent..| |].
  - intros e w' Hr Hw'. apply He; [|done]. destruct Hr as [?|[[-> Hr]|?]]; [by left| |by right; right].
    right; left. split; [done|]. rewrite Hdd. rewrite dedup_app_nil in Hr. tauto.
  - intros k w' Hk Ho Hnn Hr. eapply Hok; [done..| |done]. apply Hdd. split_and!; [done..|].
    split; by destruct Hr as (_ & _ & _ & ? & ? & _).
Qed.

(** * Authentication by a key *)

(** A key that may be used at an instant. *)
Definition key_alive (now : time) (k : ApikeyInfo) : bool :=
  negb (ak_Disabled k) && match ak_ExpiresAt k with None => true | Some t => (now <? t)%Z end.

(** The accounts bound to a key, with their credentials. *)
Definition bound (d : db) (k : ApikeyInfo) (a : ApikeyAccountItem) : Prop :=
  ∃ b o, b ∈ t_bind d ∧ o ∈ t_oauth d ∧ ba_ApiKeyID b = ak_ID k ∧ ba_UserID b = ak_UserID k ∧
         oi_ID o = ba_OAuthInfoID b ∧ oi_UserID o = ak_UserID k ∧ a = account_credential o.

Definition account_le (x y : ApikeyAccountItem) : Prop := acc_ID x ≤ acc_ID y.

Lemma wp_key_unusable k (Q : res bool → world → Prop) w :
  (∀ w', w_db w' = w_db w → Q (Ok (negb (key_alive (now_at (w_step w)) k))) w') →
  wp (key_unusable k) Q w.
Proof.
  intros Hok. unfold key_unusable, key_alive in *.
  destruct (ak_Disabled k); [by apply wp_ret, Hok|].
  destruct (ak_ExpiresAt k); [|by apply wp_ret, Hok].
  do 3 wp_step. by apply Hok.
Qed.

Lemma wp_GetOauthByApikey raw (Q : res (list ApikeyAccountItem) → world → Prop) w :
  db_wf (w_db w) →
  (∀ e w', fault e → w_db w' = w_db w → Q (Err e) w') →
  (∀ w', w_db w' = w_db w →
         (∀ k, k ∈ t_keys (w_db w) → ak_KeyHash k = hex_sha256 raw →
               key_alive (now_at (S (w_step w))) k = false) →
         Q (Err ErrInvalidApikey) w') →
  (∀ k accounts w', w_db w' = w_db w →
         k ∈ t_keys (w_db w) → ak_KeyHash k = hex_sha256 raw →
         key_alive (now_at (S (w_step w))) k = true →
         (∀ a, a ∈ accounts ↔ bound (w_db w) k a) → Sorted account_le accounts →
         Q (Ok accounts) w') →
  wp (GetOauthByApikey raw) Q w.
Proof.
  intros Hwf He Hn Hok. unfold GetOauthByApikey. do 2 wp_step. wp_step.
  - wp_step. destruct (errors_Is e ErrRecordNotFound) eqn:Hi; [|by apply He].
    revert Hi. by is_red.
  - apply String.eqb_eq in H2. wp_step. apply wp_key_unusable. intros w1 Hw1. cbn [w_step tick w_db] in *.
    wp_step. wp_step.
    { apply Hn; [done|]. intros k Hk Hh. prop_guards.
      assert (k = r) as ->; [|done].
      apply (uk_inj api_keys _ k r Hwf Hk H1). cbn. by rewrite Hh, H2. }
    wp_step. wp_step; [by intros; apply He|]. wp_step. rewrite Hw1.
    prop_guards. eapply (Hok r); [done|done|done|done|..].
    + intros a. rewrite list_elem_of_fmap. setoid_rewrite elem_of_sort_by. setoid_rewrite elem_of_join.
      unfold bound, joins. split.
      * intros ([b o] & -> & Hp & ? & ?). cbn in *. prop_guards. exists b, o. split_and!; congruence.
      * intros (b & o & Hb & Ho & E1 & E2 & E3 & E4 & ->). exists (b, o). cbn.
        split_and!; [done| |done|done]. by rewrite E1, E2, E3, E4, !N.eqb_refl.
    + eapply Sorted_fmap; [|apply sort_by_sorted].
      * intros [b o] [b' o'] _ _. unfold by_account_asc, account_le. cbn. by intros ?%N.leb_le.
      * intros [b o] [b' o']. unfold by_account_asc. cbn.
        intros ?%N.leb_gt. apply N.leb_le. lia.
  - wp_step. rewrite errors_Is_refl. apply Hn; [done|]. intros k Hk Hh.
    specialize (H1 k Hk). cbn in H1. by rewrite Hh, String.eqb_refl in H1.
Qed.

(** * The models and the accounts they need *)

Lemma defaultchecklist_lookup model :
  getNeedOauth defaultchecklist model =
  if bool_decide (model ∈ supported_models) then "codex"%string else ""%string.
Proof.
  assert (Hf : ∀ l (c : gmap string string), fold_left (λ c model, register c model "codex") l c !! model =
            if bool_decide (model ∈ l) then Some "codex"%string else c !! model).
  { induction l as [|m l IH]; intros c; [done|]. cbn [fold_left]. rewrite IH. unfold register.
    destruct (decide (model ∈ l)); [by rewrite !bool_decide_eq_true_2 by set_solver|].
    destruct (decide (model = m)) as [->|].
    - by rewrite bool_decide_eq_false_2, bool_decide_eq_true_2, lookup_insert_eq by set_solver.
    - by rewrite !bool_decide_eq_false_2, lookup_insert_ne by set_solver. }
  unfold getNeedOauth, defaultchecklist. rewrite Hf. by destruct (bool_decide _).
Qed.

(** The accounts a request may use: enabled Codex accounts bound to its key. *)
Definition authorized (d : db) (k : ApikeyInfo) (a : ApikeyAccountItem) : Prop :=
  bound d k a ∧ acc_Disabled a = false ∧ acc_Type a = "codex"%string.

Lemma wp_checkOauth raw model (Q : res (list ApikeyAccountItem) → world → Prop) w :
  db_wf (w_db w) →
  (∀ e w', fault e → w_db w' = w_db w → Q (Err e) w') →
  (∀ w', w_db w' = w_db w →
         (∀ k, k ∈ t_keys (w_db w) → ak_KeyHash k = hex_sha256 raw →
               key_alive (now_at (S (w_step w))) k = false) →
         Q (Err ErrInvalidApikey) w') →
  (∀ k accounts w', w_db w' = w_db w →
         k ∈ t_keys (w_db w) → ak_KeyHash k = hex_sha256 raw →
         key_alive (now_at (S (w_step w))) k = true →
         (∀ a, a ∈ accounts ↔ authorized (w_db w) k a) → Sorted account_le accounts →
         Q (if bool_decide (model ∈ supported_models)
            then if bool_decide (accounts = []) then Err ErrOauthForbidden else Ok accounts
            else Err ErrUnsupportedModel) w') →
  wp (checkOauth true raw model) Q w.
Proof.
  intros Hwf He Hn Hok. unfold checkOauth. wp_step. wp_step; [done|].
  wp_step. apply wp_GetOauthByApikey; [done..|].
  intros k l w1 Hw1 Hk Hh Ha Hb Hs. rewrite defaultchecklist_lookup.
  assert (Hmem : ∀ a, a ∈ select (account_allowed "codex") l ↔ authorized (w_db w) k a).
  { intros a. rewrite elem_of_select, Hb. unfold authorized, account_allowed.
    rewrite andb_true_iff, negb_true_iff, String.eqb_eq. naive_solver. }
  assert (Hsort : Sorted account_le (select (account_allowed "codex") l)).
  { apply Sorted_select; [|done]. intros x y z. unfold account_le. lia. }
  specialize (Hok k _ w1 Hw1 Hk Hh Ha Hmem Hsort).
  destruct (bool_decide (model ∈ supported_models)); cbn [String.eqb Ascii.eqb Bool.eqb].
  - wp_step. wp_step; [done|]. wp_step. wp_step; prop_guards.
    + rewrite bool_decide_eq_true_2 in Hok; done.
    + wp_step. rewrite bool_decide_eq_false_2 in Hok; done.
  - by wp_step.
Qed.

End operations.

(** * The list of keys *)

Lemma index_map_None i ids id : id ∉ ids → index_map i ids !! id = None.
Proof.
  revert i. induction ids as [|x ids IH]; intros i Hn; cbn [index_map]; [done|].
  apply not_elem_of_cons in Hn as [Hx Hn]. specialize (IH (S i) Hn).
  case_match; [done|]. by rewrite lookup_insert_ne.
Qed.

Lemma index_map_Some i ids j id :
  NoDup ids → ids !! j = Some id → index_map i ids !! id = Some (i + j)%nat.
Proof.
  intros Hnd. revert i j. induction Hnd as [|x ids Hx Hnd IH]; intros i j Hj; [done|].
  cbn [index_map]. destruct j as [|j]; cbn in Hj.
  - injection Hj as ->. rewrite index_map_None by done. rewrite lookup_insert_eq. f_equal. lia.
  - rewrite index_map_None by done.
    rewrite lookup_insert_ne by (intros ->; apply Hx; by eapply list_elem_of_lookup_2).
    rewrite (IH _ j) by done. f_equal. lia.
Qed.

Lemma index_of_eq ids i id j id' :
  NoDup ids → ids !! i = Some id → ids !! j = Some id' → index_of ids id' = i ↔ id' = id.
Proof.
  intros Hnd Hi Hj. unfold index_of. rewrite (index_map_Some _ _ j) by done. cbn.
  split; [by intros ->; congruence|]. intros ->. by eapply NoDup_lookup.
Qed.

Section group.
Context {X : Type} (f : X → N) (add : X → ApikeyListItem → ApikeyListItem).
Hypothesis add_ID : ∀ x i, li_ID (add x i) = li_ID i.

Definition group_step (ids : list N) (items : list ApikeyListItem) (x : X) :=
  alter (add x) (index_of ids (f x)) items.

Lemma li_ID_alter x (i : nat) (items : list ApikeyListItem) : li_ID <$> alter (add x) i items = li_ID <$> items.
Proof. revert i. induction items as [|y items IH]; intros [|i]; cbn; f_equal; auto. Qed.

(** Adding each row to the item its identifier indexes groups the rows. *)
Lemma fold_group l items i it :
  NoDup (li_ID <$> items) → (∀ x, x ∈ l → f x ∈ li_ID <$> items) → items !! i = Some it →
  fold_left (group_step (li_ID <$> items)) l items !! i =
    Some (fold_left (λ it x, add x it) (select (λ x, f x =? li_ID it) l) it).
Proof.
  intros Hnd. revert items it Hnd. induction l as [|x l IH]; intros items it Hnd Hin Hi; [done|].
  cbn [fold_left]. unfold group_step at 2.
  rewrite <- (li_ID_alter x (index_of (li_ID <$> items) (f x)) items) at 1.
  assert (Hids : (li_ID <$> items) !! i = Some (li_ID it)) by by rewrite list_lookup_fmap, Hi.
  destruct (list_elem_of_lookup_1 _ _ (Hin x ltac:(set_solver))) as [j Hj].
  pose proof (index_of_eq _ i _ j _ Hnd Hids Hj) as Heq.
  destruct (decide (f x = li_ID it)) as [E|E].
  - erewrite IH with (it := add x it); rewrite ?li_ID_alter; [|done|set_solver|].
    + rewrite add_ID. unfold select. cbn [List.filter]. rewrite E, N.eqb_refl. done.
    + rewrite (proj2 Heq E). by rewrite list_lookup_alter_eq, Hi.
  - erewrite IH with (it := it); rewrite ?li_ID_alter; [|done|set_solver|].
    + unfold select. cbn [List.filter]. by rewrite (proj2 (N.eqb_neq _ _) E).
    + rewrite list_lookup_alter_ne; [done|]. intros ?. by apply E, Heq.
Qed.

Lemma li_ID_fold l ids items : li_ID <$> fold_left (group_step ids) l items = li_ID <$> items.
Proof.
  revert items. induction l as [|x l IH]; intros items; [done|]. cbn [fold_left].
  rewrite IH. apply li_ID_alter.
Qed.
End group.

Lemma fold_add_account l it :
  fold_left (λ it (x : Apikeyaccounts * OAuthInfo), add_account (account_metadata x.2) it) l it =
  Build_ApikeyListItem (li_ExternalApiKeyIDs it) (li_ID it) (li_KeyPrefix it) (li_Disabled it)
    (li_ExpiresAt it) (li_Accounts it ++ ((λ x, account_metadata x.2) <$> l)).
Proof.
  revert it. induction l as [|x l IH]; intros it; cbn [fold_left].
  - cbn. rewrite app_nil_r. by destruct it.
  - rewrite IH. cbn. by rewrite <- app_assoc.
Qed.

Lemma fold_add_external l it :
  fold_left (λ it b, add_external (be_ExternalApiKeyID b) it) l it =
  Build_ApikeyListItem (li_ExternalApiKeyIDs it ++ (be_ExternalApiKeyID <$> l)) (li_ID it)
    (li_KeyPrefix it) (li_Disabled it) (li_ExpiresAt it) (li_Accounts it).
Proof.
  revert it. induction l as [|x l IH]; intros it; cbn [fold_left].
  - cbn. rewrite app_nil_r. by destruct it.
  - rewrite IH. cbn. by rewrite <- app_assoc.
Qed.

(** What the list shows of a key: its state, the metadata of the accounts bound
    to it and the identifiers of its external keys, each in order, and no
    credential. *)
Definition item_of (d : db) (k : ApikeyInfo) (i : ApikeyListItem) : Prop :=
  li_ID i = ak_ID k ∧ li_KeyPrefix i = ak_KeyPrefix k ∧ li_Disabled i = ak_Disabled k ∧
  li_ExpiresAt i = ak_ExpiresAt k ∧
  (∀ a, a ∈ li_Accounts i ↔
        ∃ b o, b ∈ t_bind d ∧ o ∈ t_oauth d ∧ ba_ApiKeyID b = ak_ID k ∧
               ba_UserID b = ak_UserID k ∧ oi_ID o = ba_OAuthInfoID b ∧
               oi_UserID o = ak_UserID k ∧ a = account_metadata o) ∧
  Sorted account_le (li_Accounts i) ∧
  (∀ x, x ∈ li_ExternalApiKeyIDs i ↔
        ∃ b, b ∈ t_extbind d ∧ be_ApiKeyID b = ak_ID k ∧ be_UserID b = ak_UserID k ∧
             be_ExternalApiKeyID b = x) ∧
  Sorted N.le (li_ExternalApiKeyIDs i).

Definition grouped_item (accounts : list (Apikeyaccounts * OAuthInfo))
    (exts : list ApikeyExternalKey) (k : ApikeyInfo) : ApikeyListItem :=
  Build_ApikeyListItem
    (be_ExternalApiKeyID <$> select (λ b, be_ApiKeyID b =? ak_ID k) exts)
    (ak_ID k) (ak_KeyPrefix k) (ak_Disabled k) (ak_ExpiresAt k)
    ((λ x, account_metadata x.2) <$> select (λ x, ba_ApiKeyID x.1 =? ak_ID k) accounts).

Lemma fold_items keys accounts exts :
  NoDup (ak_ID <$> keys) →
  (∀ x, x ∈ accounts → ba_ApiKeyID x.1 ∈ ak_ID <$> keys) →
  (∀ b, b ∈ exts → be_ApiKeyID b ∈ ak_ID <$> keys) →
  let ids := li_ID <$> (list_item <$> keys) in
  fold_left (λ items b, alter (add_external (be_ExternalApiKeyID b)) (index_of ids (be_ApiKeyID b)) items)
    exts
    (fold_left (λ items x, alter (add_account (account_metadata x.2)) (index_of ids (ba_ApiKeyID x.1)) items)
       accounts (list_item <$> keys))
  = grouped_item accounts exts <$> keys.
Proof.
  intros Hnd Ha He ids.
  assert (Hids : ids = ak_ID <$> keys) by (unfold ids; by rewrite <- list_fmap_compose).
  set (fa := λ x : Apikeyaccounts * OAuthInfo, ba_ApiKeyID x.1).
  set (ga := λ x : Apikeyaccounts * OAuthInfo, add_account (account_metadata x.2)).
  set (ge := λ b : ApikeyExternalKey, add_external (be_ExternalApiKeyID b)).
  change (fold_left (group_step be_ApiKeyID ge ids) exts
            (fold_left (group_step fa ga ids) accounts (list_item <$> keys))
          = grouped_item accounts exts <$> keys).
  assert (H1 : li_ID <$> fold_left (group_step fa ga ids) accounts (list_item <$> keys) = ids)
    by by apply li_ID_fold.
  apply list_eq. intros i. rewrite list_lookup_fmap.
  destruct (keys !! i) as [k|] eqn:Hk; cbn [fmap option_fmap option_map].
  - assert (Hi : (list_item <$> keys) !! i = Some (list_item k)) by by rewrite list_lookup_fmap, Hk.
    rewrite <- H1 at 1.
    erewrite (fold_group be_ApiKeyID ge (λ _ _, eq_refl)); [| by rewrite H1, Hids | rewrite H1, Hids; done |].
    2:{ apply (fold_group fa ga (λ _ _, eq_refl)); [| |exact Hi]; [by rewrite <- Hids in Hnd|].
        intros x Hx. fold ids. rewrite Hids. by apply Ha. }
    rewrite fold_add_external. unfold ga. rewrite fold_add_account. done.
  - apply lookup_ge_None_2. apply lookup_ge_None_1 in Hk.
    rewrite <- (length_fmap li_ID), (li_ID_fold be_ApiKeyID ge (λ _ _, eq_refl)), H1, Hids, length_fmap. done.
Qed.

Section listing.
Context `{EnvLaws}.

Lemma grouped_item_of d userid (keys : list ApikeyInfo) k :
  k ∈ keys → ak_UserID k = userid →
  let ids := ak_ID <$> keys in
  item_of d k (grouped_item
    (sort_by by_key_desc_account_asc (select (λ '(b, o),
        joins b o && (ba_UserID b =? userid) && bool_decide (ba_ApiKeyID b ∈ ids))
        (list_prod (t_bind d) (t_oauth d))))
    (sort_by by_key_desc_external_asc (select (λ b,
        (be_UserID b =? userid) && bool_decide (be_ApiKeyID b ∈ ids)) (t_extbind d))) k).
Proof.
  intros Hk Hu ids. assert (Hid : ak_ID k ∈ ids) by by apply list_elem_of_fmap_2.
  unfold item_of, grouped_item, joins. cbn. split_and!; [done..| | | |].
  - intros a. rewrite list_elem_of_fmap. setoid_rewrite elem_of_select.
    setoid_rewrite elem_of_sort_by. setoid_rewrite elem_of_join. split.
    + intros ([b o] & -> & Hp & Hq & ? & ?). cbn in *. prop_guards. exists b, o.
      split_and!; congruence.
    + intros (b & o & Hb & Ho & E1 & E2 & E3 & E4 & ->). exists (b, o). cbn.
      rewrite E1, E2, E3, E4, Hu, !N.eqb_refl. cbn. by rewrite bool_decide_eq_true_2.
  - by apply (Sorted_group (λ x : Apikeyaccounts * OAuthInfo, ba_ApiKeyID x.1) (λ x, oi_ID x.2)
      by_key_desc_account_asc).
  - intros x. rewrite list_elem_of_fmap. setoid_rewrite elem_of_select.
    setoid_rewrite elem_of_sort_by. setoid_rewrite elem_of_select. split.
    + intros (b & -> & Hp & Hq & ?). prop_guards. exists b. split_and!; congruence.
    + intros (b & Hb & E1 & E2 & <-). exists b. cbn.
      rewrite E1, E2, Hu, !N.eqb_refl. cbn. by rewrite bool_decide_eq_true_2.
  - by apply (Sorted_group be_ApiKeyID be_ExternalApiKeyID by_key_desc_external_asc).
Qed.

(** The keys of a user, newest first. *)
Definition user_keys (userid : N) (d : db) : list ApikeyInfo :=
  sort_by by_id_desc (select (λ k, ak_UserID k =? userid) (t_keys d)).

Lemma wp_GetApikeyByUserId userid (Q : res (list ApikeyListItem) → world → Prop) w :
  db_wf (w_db w) →
  (∀ e w', fault e → w_db w' = w_db w → Q (Err e) w') →
  (∀ items w', w_db w' = w_db w → Forall2 (item_of (w_db w)) (user_keys userid (w_db w)) items →
               Q (Ok items) w') →
  wp (GetApikeyByUserId userid) Q w.
Proof.
  intros Hwf He Hok. unfold GetApikeyByUserId.
  wp_step. wp_step; [by intros; apply He|].
  change (sort_by by_id_desc _) with (user_keys userid (w_db w)).
  destruct (list_item <$> user_keys userid (w_db w)) as [|it its] eqn:Hitems.
  { wp_step. apply Hok; [done|]. apply fmap_nil_inv in Hitems. rewrite Hitems. constructor. }
  rewrite <- Hitems. clear Hitems it its.
  wp_step. wp_step; [by intros; apply He|].
  wp_step. wp_step; [by intros; apply He|]. wp_step.
  rewrite fold_items.
  - apply Hok; [done|]. apply Forall2_fmap_r, Forall_Forall2_diag, Forall_forall. intros k Hk.
    rewrite <- !list_fmap_compose. apply (grouped_item_of _ userid); [done|].
    unfold user_keys in Hk. rewrite elem_of_sort_by in Hk.
    by apply elem_of_select in Hk as [?%N.eqb_eq _].
  - unfold user_keys. apply NoDup_fmap_sort_by, NoDup_fmap_select.
    by apply (NoDup_ids api_keys).
  - intros x [Hp _]%elem_of_sort_by%elem_of_join. rewrite <- list_fmap_compose in Hp. by prop_guards.
  - intros x [Hp _]%elem_of_sort_by%elem_of_select. rewrite <- list_fmap_compose in Hp. by prop_guards.
Qed.

(** * The upstream credential *)

Lemma wp_getCredential `{Aead} key ctx_err accounts (Q : res Credential → world → Prop) w :
  (∀ e w', w_db w' = w_db w →
     (ctx_err = Some e ∨
      ctx_err = None ∧ (e = ErrOauthForbidden ∧
         (∀ a l, accounts = a :: l → acc_Disabled a = true ∨ acc_Type a ≠ "codex"%string) ∨
       e = ErrCredentialUnavailable ∧ ∃ a l, accounts = a :: l ∧
         ((∃ t, acc_Expired a = Some t ∧ (t <= now_at (w_step w))%Z) ∨
          ∀ p, Decrypt key (acc_AccessToken a) = Ok p → blank p = true))) → Q (Err e) w') →
  (∀ a l p w', w_db w' = w_db w → ctx_err = None → accounts = a :: l → acc_Disabled a = false →
     acc_Type a = "codex"%string →
     (∀ t, acc_Expired a = Some t → (now_at (w_step w) < t)%Z) →
     Decrypt key (acc_AccessToken a) = Ok p → blank p = false →
     Q (Ok (Build_Credential "access_token" p)) w') →
  wp (getCredential key ctx_err accounts) Q w.
Proof.
  intros He Hok. unfold getCredential. wp_step.
  destruct ctx_err as [e|]; wp_step; [apply He; auto|].
  destruct accounts as [|a l]; [wp_step; apply He; [done|naive_solver]|].
  wp_step. wp_step.
  { apply He; [done|]. right. split; [done|]. left. split; [done|]. intros ?? [= <- <-].
    destruct (acc_Disabled a); [by left|]. right. cbn in *. by apply negb_true_iff, String.eqb_neq in H2. }
  prop_guards. apply String.eqb_eq in H3.
  wp_step. apply (wp_mono _ (λ r w', w_db w' = w_db w ∧ match r with
     | Ok _ => ∀ t, acc_Expired a = Some t → (now_at (w_step w) < t)%Z
     | Err e => e = ErrCredentialUnavailable ∧ ∃ t, acc_Expired a = Some t ∧ (t <= now_at (w_step w))%Z
     | Panic => False end)).
  2:{ destruct (acc_Expired a) as [t|]; [|by wp_step]. do 3 wp_step; prop_guards; split; eauto.
      by intros ? [= <-]. }
  intros [[]|e|] w1 [Hw1 Hr]; [|apply He; [done|]; destruct Hr as (-> & ?); naive_solver|done].
  destruct (Decrypt key (acc_AccessToken a)) as [p|e|] eqn:Hd.
  - destruct (blank p) eqn:Hb; wp_step; [|by eapply Hok].
    apply He; [done|]. right. split; [done|]. right. split; [done|]. do 2 eexists. split; [done|].
    right. congruence.
  - wp_step. apply He; [done|]. right. split; [done|]. right. split; [done|]. do 2 eexists.
    split; [done|]. right. congruence.
  - exfalso. revert Hd. unfold Decrypt, aes_NewCipher, guard_err. repeat case_match; done.
Qed.

End listing.
