(* ===== verification/ApikeySpec.v ===== *)
(** The contract of modules/apikey: what each request of a user does to the
    tables and when it is refused, that no sequence of requests touches the rows
    of another user, and which credentials an API key opens. *)

From S2P Require Import Prelude.
From S2P Require Import GoStrings.
From S2P Require Import Codec.
From S2P Require Import Schema.
From S2P Require Import Integrity.
From S2P Require Import Stores.
From S2P Require Import World.
From S2P Require Import Tenants.
From S2P Require Import Security.
From S2P Require Import Http.
From S2P Require Import Sim.
From S2P Require Import Apikey.
From S2P Require Import ApikeyFacts.

Local Open Scope list_scope.
Local Open Scope N_scope.

(** * Other users' rows *)

Lemma select_updated userid id g u l :
  u ≠ userid → (∀ k, ak_UserID (g k) = ak_UserID k) →
  select (λ k, ak_UserID k =? u) (map (λ k, if key_owned userid id k then g k else k) l)
  = select (λ k, ak_UserID k =? u) l.
Proof.
  intros Hne Hg. apply (select_mapped ak_UserID _ _ u userid); [done| |done].
  intros x Hx. unfold key_owned in Hx. by prop_guards.
Qed.

Lemma rows_of_key_added u userid ids exts k d d' :
  u ≠ userid → key_added userid ids exts k d d' → rows_of u d' = rows_of u d.
Proof.
  intros Hne (Hk & Hu & _ & (n1 & Hb) & (n2 & He) & _ & _ & Hus & Ho & Hx).
  unfold rows_of. rewrite Hk, Hb, He, Hus, Ho, Hx, !select_app.
  rewrite (select_other ak_UserID u userid [k]), (select_other ba_UserID u userid (_ <$> _)),
    (select_other be_UserID u userid (_ <$> _)); rewrite ?app_nil_r; try done.
  - by intros x (y & -> & _)%list_elem_of_fmap.
  - by intros x (y & -> & _)%list_elem_of_fmap.
  - by intros x ->%list_elem_of_singleton.
Qed.

Lemma rows_of_update u userid id disabled expiry now d :
  u ≠ userid → rows_of u (update_owned userid id (updated_key disabled expiry now) d) = rows_of u d.
Proof. intros Hne. unfold rows_of, update_owned. cbn. by rewrite select_updated. Qed.

Lemma rows_of_removed u userid id d :
  u ≠ userid → rows_of u (key_removed userid id d) = rows_of u d.
Proof.
  intros Hne. unfold rows_of, key_removed. cbn.
  rewrite !select_kept; [done|..]; intros x Hx; unfold extbind_of_key, bind_of_key, key_owned;
    rewrite Hx, (proj2 (N.eqb_neq u userid)) by done; apply andb_false_r.
Qed.

Lemma rows_of_replaced u userid id ids exts d d' :
  u ≠ userid → bindings_replaced userid id ids exts d d' → rows_of u d' = rows_of u d.
Proof.
  intros Hne ((n1 & Hb) & (n2 & He) & (n3 & Hk) & _ & _ & Hus & Ho & Hx).
  unfold rows_of. rewrite Hb, He, Hk, Hus, Ho, Hx, !select_app. cbn. rewrite select_updated by done.
  rewrite !select_kept, (select_other ba_UserID u userid (_ <$> _)),
    (select_other be_UserID u userid (_ <$> _)); rewrite ?app_nil_r; try done.
  - by intros x (y & -> & _)%list_elem_of_fmap.
  - by intros x (y & -> & _)%list_elem_of_fmap.
  - intros x Hxu. unfold extbind_of_key.
    rewrite Hxu, (proj2 (N.eqb_neq u userid)) by done. apply andb_false_r.
  - intros x Hxu. unfold bind_of_key.
    rewrite Hxu, (proj2 (N.eqb_neq u userid)) by done. apply andb_false_r.
Qed.

(** * Requests *)

Inductive request :=
  | ReqCreate (oauthinfos externalKeyIDs : list N)
  | ReqUpdate (id : N) (disabled : option bool) (expiresAt : option time) (updateExpiry : bool)
  | ReqReplace (id : N) (oauthinfos externalKeyIDs : list N)
  | ReqDelete (id : N)
  | ReqList
  | ReqAuthenticate (raw model : string).

Section spec.
Context `{EnvLaws}.

Definition perform (userid : N) (r : request) : M unit :=
  match r with
  | ReqCreate l exts => _ ← CreatApikey userid l exts; mret tt
  | ReqUpdate id disabled expiresAt upd => UpdateApikey userid id disabled expiresAt upd
  | ReqReplace id l exts => ReplaceApikeyAccounts userid id l exts
  | ReqDelete id => DeleteApikey userid id
  | ReqList => _ ← UserApikeyList userid; mret tt
  | ReqAuthenticate raw model => _ ← checkOauth true raw model; mret tt
  end.

(** Requests served one after the other, each by its user; an error of one does
    not stop the next. *)
Fixpoint serve (l : list (N * request)) : M unit :=
  match l with
  | [] => mret tt
  | (u, r) :: l => _ ← attempt (perform u r); serve l
  end.

(** A request leaves the tables well formed and other users' rows alone. *)
Lemma wp_perform u userid r w :
  db_wf (w_db w) → u ≠ userid →
  wp (perform userid r) (λ x w', x ≠ Panic ∧ rows_of u (w_db w') = rows_of u (w_db w)) w.
Proof.
  intros Hwf Hne.
  assert (Hsame : ∀ (x : res unit) w', x ≠ Panic → w_db w' = w_db w →
            x ≠ Panic ∧ rows_of u (w_db w') = rows_of u (w_db w)) by (by intros x w' ? ->).
  destruct r; cbn [perform].
  - wp_step. apply wp_CreatApikey; [done| |].
    + intros e w' _ Hw'. by apply Hsame.
    + intros raw k w' _ (_ & _ & _ & _ & _ & _ & Hadd). wp_step.
      split; [done|]. by eapply rows_of_key_added.
  - apply wp_repo_UpdateApikey.
    + intros e w' _ Hw'. by apply Hsame.
    + intros w' _ Hw'. by apply Hsame.
    + intros k now w' _ _ ->. split; [done|]. by apply rows_of_update.
  - apply wp_ReplaceApikeyAccounts; [done| |].
    + intros e w' _ Hw'. by apply Hsame.
    + intros k w' _ _ _ Hr. split; [done|]. by eapply rows_of_replaced.
  - apply wp_repo_DeleteApikey; [done|..].
    + intros e w' _ Hw'. by apply Hsame.
    + intros w' _ ->. split; [done|]. by apply rows_of_removed.
    + intros k w' _ _ ->. split; [done|]. by apply rows_of_removed.
  - wp_step. apply wp_GetApikeyByUserId; [done|..].
    + intros e w' _ Hw'. by apply Hsame.
    + intros items w' Hw' _. wp_step. by apply Hsame.
  - wp_step. apply wp_checkOauth; [done|..].
    + intros e w' _ Hw'. by apply Hsame.
    + intros w' Hw' _. by apply Hsame.
    + intros k accounts w' Hw' _ _ _ _ _. repeat case_match; try wp_step; by apply Hsame.
Qed.

Lemma preserves_create_rows t rs : preserves_wf (create_rows t rs).
Proof. destruct rs; unfold create_rows; preserve. Qed.

Hint Resolve preserves_create_rows : erent.

Lemma preserves_SaveApikey k b e : preserves_wf (SaveApikey k b e).
Proof. unfold SaveApikey. preserve. Qed.

Lemma preserves_Replace u id l e : preserves_wf (repo_ReplaceApikeyAccounts u id l e).
Proof. unfold repo_ReplaceApikeyAccounts, locked_key. preserve. Qed.

Lemma preserves_key_unusable k : preserves_wf (key_unusable k).
Proof. unfold key_unusable. preserve. Qed.

Hint Resolve preserves_SaveApikey preserves_Replace preserves_key_unusable : erent.

Lemma preserves_perform u r : preserves_wf (perform u r).
Proof.
  destruct r; cbn [perform]; unfold CreatApikey, UpdateApikey, repo_UpdateApikey,
    ReplaceApikeyAccounts, DeleteApikey, repo_DeleteApikey, UserApikeyList, GetApikeyByUserId,
    checkOauth, checkOauth_ids, CountOwnedAccounts, CountOwnedExternalKeys, generateApikey;
    preserve.
Qed.

(** * The contract *)

(** C3: creating a key either writes exactly one enabled key row with the hash
    of the returned secret, bound to the distinct identifiers of the request,
    all of them the user's, or leaves the tables as they were; it is refused
    only for a transport error, a request that is not acceptable, or a hash
    that exists. *)
Theorem CreatApikey_correct userid oauthinfos externalKeyIDs w :
  db_wf (w_db w) →
  wp (CreatApikey userid oauthinfos externalKeyIDs) (λ r w',
    match r with
    | Ok raw => create_ok userid oauthinfos externalKeyIDs (w_db w) ∧
                ∃ k, created_key userid oauthinfos externalKeyIDs raw k (w_db w) (w_db w')
    | Err e => create_refused userid oauthinfos externalKeyIDs (w_db w) e ∧ w_db w' = w_db w
    | Panic => False
    end) w.
Proof. intros Hwf. apply wp_CreatApikey; eauto. Qed.

(** With services that do not fail, an acceptable request for a key whose
    hash is not taken yet always creates it. *)
Theorem CreatApikey_succeeds userid oauthinfos externalKeyIDs w :
  db_wf (w_db w) → (∀ e, ¬ fault e) →
  create_ok userid oauthinfos externalKeyIDs (w_db w) →
  (∀ n secret k, rand_read n 32 = Ok secret → k ∈ t_keys (w_db w) →
                 ak_KeyHash k ≠ hex_sha256 (raw_key secret)) →
  is_Ok (CreatApikey userid oauthinfos externalKeyIDs w).1 = true.
Proof.
  intros Hwf Hrel Hok Hfresh.
  apply (wp_CreatApikey userid oauthinfos externalKeyIDs (λ r _, is_Ok r = true)); [done| |done].
  intros e w' [He|[[_ He]|[_ (n & s & k & Hr & Hk & Hh)]]] _; exfalso.
  - by eapply Hrel.
  - done.
  - by eapply Hfresh.
Qed.

(** C29: replacing the bindings of a key is atomic: either the key is the user's
    and its bindings become exactly the requested ones, or nothing changes and
    the error says why. *)
Theorem ReplaceApikeyAccounts_correct userid id oauthinfos externalKeyIDs w :
  db_wf (w_db w) →
  wp (ReplaceApikeyAccounts userid id oauthinfos externalKeyIDs) (λ r w',
    match r with
    | Ok _ => replace_ok userid id oauthinfos externalKeyIDs (w_db w) ∧
              has_key (w_db w) userid id = true ∧
              bindings_replaced userid id (dedup_from [] oauthinfos) (dedup_from [] externalKeyIDs)
                (w_db w) (w_db w')
    | Err e => replace_error userid id oauthinfos externalKeyIDs (w_db w) e ∧ w_db w' = w_db w
    | Panic => False
    end) w.
Proof.
  intros Hwf. apply wp_ReplaceApikeyAccounts; [done|auto|].
  intros k w' Hk Ho Hr Hb. split_and!; [done| |done].
  apply has_key_spec. exists k. unfold key_owned in Ho. by prop_guards.
Qed.

(** Deleting a key removes the user's key and its bindings and nothing
    else; without such a key it reports so and changes nothing. *)
Theorem DeleteApikey_correct userid id w :
  db_wf (w_db w) →
  wp (DeleteApikey userid id) (λ r w',
    match r with
    | Ok _ => has_key (w_db w) userid id = true ∧ w_db w' = key_removed userid id (w_db w)
    | Err e => w_db w' = w_db w ∧
               (fault e ∨ e = ErrApikeyNotFound ∧ has_key (w_db w) userid id = false)
    | Panic => False
    end) w.
Proof.
  intros Hwf. apply wp_repo_DeleteApikey; [done|auto|..].
  - intros w' Hk ->. split; [by apply key_removed_absent|]. right. split; [done|].
    apply not_true_iff_false. rewrite has_key_spec. intros (k & Hin & <- & <-).
    specialize (Hk k Hin). unfold key_owned in Hk. by rewrite !N.eqb_refl in Hk.
  - intros k w' Hk Ho ->. split; [|done].
    apply has_key_spec. exists k. unfold key_owned in Ho. by prop_guards.
Qed.

(** Updating a key changes the switch and the expiry it was given, on the
    user's key and no other row, or nothing when there is no such key. *)
Theorem UpdateApikey_correct userid id disabled expiresAt updateExpiry w :
  wp (UpdateApikey userid id disabled expiresAt updateExpiry) (λ r w',
    match r with
    | Ok _ => has_key (w_db w) userid id = true ∧ ∃ now,
        w_db w' = update_owned userid id (λ k,
          Build_ApikeyInfo (ak_ID k) (ak_UserID k) (ak_KeyHash k) (ak_KeyPrefix k)
            (default (ak_Disabled k) disabled)
            (if updateExpiry then expiresAt else ak_ExpiresAt k) (ak_CreatedAt k) now) (w_db w)
    | Err e => w_db w' = w_db w ∧
               (fault e ∨ e = ErrApikeyNotFound ∧ has_key (w_db w) userid id = false)
    | Panic => False
    end) w.
Proof.
  apply wp_repo_UpdateApikey; [auto|..].
  - intros w' Hk Hw'. split; [done|]. right. split; [done|].
    apply not_true_iff_false. rewrite has_key_spec. intros (k & Hin & <- & <-).
    specialize (Hk k Hin). unfold key_owned in Hk. by rewrite !N.eqb_refl in Hk.
  - intros k now w' Hk Ho ->. split.
    + apply has_key_spec. exists k. unfold key_owned in Ho. by prop_guards.
    + exists now. by destruct updateExpiry.
Qed.

(** Whatever the other users do, in any order and whether or not it
    succeeds, a user's rows stay as they are and the tables stay well formed;
    no request panics. *)
Theorem requests_isolated u l w :
  db_wf (w_db w) → (∀ v r, (v, r) ∈ l → v ≠ u) →
  wp (serve l) (λ x w', x = Ok tt ∧ db_wf (w_db w') ∧ rows_of u (w_db w') = rows_of u (w_db w)) w.
Proof.
  revert w. induction l as [|[v r] l IH]; intros w Hwf Hl; cbn [serve]; [by wp_step|].
  do 2 wp_step. pose proof (preserves_perform v r w Hwf) as Hwf'. revert Hwf'.
  pose proof (wp_perform u v r w Hwf ltac:(intros ->; by eapply Hl; [left|])) as Hp.
  unfold wp in Hp |- *. destruct (perform v r w) as [[[]|e|] w1]; cbn in Hp |- *; [| |naive_solver].
  all: intros Hwf'; destruct Hp as [_ <-]; apply IH; [done|]; intros v' r' Hin; eapply Hl; by right.
Qed.

(** Listing shows a user's keys, newest first, each with exactly its
    accounts and external keys in order, and never a credential. *)
Theorem UserApikeyList_correct userid w :
  db_wf (w_db w) →
  wp (UserApikeyList userid) (λ r w', w_db w' = w_db w ∧
    match r with
    | Ok items => Forall2 (item_of (w_db w)) (user_keys userid (w_db w)) items ∧
                  ∀ i a, i ∈ items → a ∈ li_Accounts i → acc_AccessToken a = ""%string
    | Err e => fault e
    | Panic => False
    end) w.
Proof.
  intros Hwf. apply wp_GetApikeyByUserId; [done|auto|]. intros items w' Hw' Hitems.
  split_and!; [done..|]. intros i a Hi Ha.
  apply list_elem_of_lookup_1 in Hi as [n Hn].
  destruct (Forall2_lookup_r _ _ _ _ _ Hitems Hn) as (k & _ & Hk).
  destruct Hk as (_ & _ & _ & _ & Hacc & _). apply Hacc in Ha.
  destruct Ha as (b & o & _ & _ & _ & _ & _ & _ & Ha). by rewrite Ha.
Qed.

(** C28: a chat key authenticates exactly when a key row has its hash and is
    enabled and unexpired at the reading of the clock, the model is a supported
    one and some enabled Codex account is bound to the key; the accounts it
    gives are all of those, by increasing identifier. *)
Theorem checkOauth_correct raw model w :
  db_wf (w_db w) →
  wp (checkOauth true raw model) (λ r w', w_db w' = w_db w ∧
    let usable k := k ∈ t_keys (w_db w) ∧ ak_KeyHash k = hex_sha256 raw ∧
                    key_alive (now_at (S (w_step w))) k = true in
    match r with
    | Ok accounts => accounts ≠ [] ∧ model ∈ supported_models ∧ Sorted account_le accounts ∧
        ∃ k, usable k ∧ ∀ a, a ∈ accounts ↔ authorized (w_db w) k a
    | Err e =>
        fault e ∨
        e = ErrInvalidApikey ∧ (∀ k, ¬ usable k) ∨
        e = ErrUnsupportedModel ∧ model ∉ supported_models ∨
        e = ErrOauthForbidden ∧ ∃ k, usable k ∧ ∀ a, ¬ authorized (w_db w) k a
    | Panic => False
    end) w.
Proof.
  intros Hwf. apply wp_checkOauth; [done|auto|..].
  - intros w' Hw' Hk. split; [done|]. right; left. split; [done|].
    intros k (Hin & Hh & Ha). by rewrite Hk in Ha.
  - intros k accounts w' Hw' Hin Hh Ha Hacc Hs. split; [done|].
    destruct (bool_decide (model ∈ supported_models)) eqn:Hm; prop_guards; [|auto].
    destruct (bool_decide (accounts = [])) eqn:Hnil; prop_guards.
    + right; right; right. split; [done|]. exists k. split; [done|]. intros a Haa.
      apply Hacc in Haa. subst. by apply not_elem_of_nil in Haa.
    + split_and!; [done..|]. by exists k.
Qed.

(** The requests that withdraw a key. *)
Definition revoke (userid id : N) (delete : bool) : M unit :=
  if delete then DeleteApikey userid id
  else UpdateApikey userid id (Some true) None false.

(** Once its owner has deleted or disabled a key, it authenticates no
    request any more. *)
Theorem revoked_key_rejected userid id delete raw model k w :
  db_wf (w_db w) → k ∈ t_keys (w_db w) → key_owned userid id k = true →
  ak_KeyHash k = hex_sha256 raw →
  wp (_ ← revoke userid id delete; checkOauth true raw model)
     (λ r _, is_Ok r = false) w.
Proof.
  intros Hwf Hk Ho Hh. wp_step.
  assert (Hreject : ∀ w', db_wf (w_db w') →
            (∀ k' now, k' ∈ t_keys (w_db w') → ak_KeyHash k' = hex_sha256 raw → key_alive now k' = false) →
            wp (checkOauth true raw model) (λ r _, is_Ok r = false) w').
  { intros w' Hwf' Hdead. apply wp_checkOauth; [done..|].
    intros k' accounts w1 _ Hin Hh' Ha. by rewrite Hdead in Ha. }
  assert (Hsame : ∀ k', k' ∈ t_keys (w_db w) → ak_KeyHash k' = hex_sha256 raw → k' = k).
  { intros k' Hk' Hh'. apply (uk_inj api_keys (w_db w)); [done..|]. cbn. congruence. }
  destruct delete; cbn [revoke].
  - apply wp_wf; [apply (preserves_perform userid (ReqDelete id))|done|].
    apply wp_repo_DeleteApikey; [done..|]. intros k1 w1 _ _ Hw1 Hwf1. apply Hreject; [done|].
    intros k' now Hk' Hh'. rewrite Hw1 in Hk'. cbn in Hk'.
    apply elem_of_kept in Hk' as [Hn Hk']. rewrite (Hsame k') in Hn by done. congruence.
  - apply wp_wf; [apply (preserves_perform userid (ReqUpdate id (Some true) None false))|done|].
    apply wp_repo_UpdateApikey; [done..|]. intros k1 now1 w1 _ _ Hw1 Hwf1. apply Hreject; [done|].
    intros k' now Hk' Hh'. rewrite Hw1 in Hk'. cbn in Hk'.
    apply list_elem_of_In, in_map_iff in Hk' as (k2 & <- & Hk2%list_elem_of_In).
    destruct (key_owned userid id k2) eqn:Ho2; [done|].
    rewrite (Hsame k2) in Ho2 by done. congruence.
Qed.

(** The accounts of a creation request that a chat request may use. *)
Definition usable_account (userid : N) (l : list N) (d : db) (a : ApikeyAccountItem) : Prop :=
  ∃ o, o ∈ t_oauth d ∧ oi_UserID o = userid ∧ oi_ID o ∈ l ∧ oi_Disabled o = false ∧
       oi_Type o = "codex"%string ∧ a = account_credential o.

Lemma authorized_created userid l exts raw k d d' a :
  db_wf d → created_key userid l exts raw k d d' →
  authorized d' k a ↔ usable_account userid l d a.
Proof.
  intros Hwf (_ & _ & _ & _ & _ & _ & (_ & Hu & Hfresh & (n & Hb) & _ & Hrefs & _ & _ & Ho & _)).
  unfold authorized, bound, usable_account. rewrite Hb, Ho. split.
  - intros ((b & o & Hin & Hoin & E1 & E2 & E3 & E4 & ->) & Hd & Ht). exists o.
    split_and!; [done|congruence| |done..].
    apply elem_of_app in Hin as [Hin|(x & -> & Hx)%list_elem_of_fmap].
    + destruct (binding_owner d b Hwf Hin) as (k' & _ & Hk' & _ & Hid & _).
      destruct (Hfresh k' Hk') as [Hne _]. congruence.
    + cbn in E3. rewrite E3. by apply elem_of_dedup_from in Hx as [? _].
  - intros (o & Hin & Huo & Hid & Hd & Ht & ->). split_and!; [|done..].
    exists (Build_Apikeyaccounts userid (ak_ID k) (oi_ID o) n), o. split_and!; try done; [|congruence].
    apply elem_of_app. right. apply list_elem_of_fmap. exists (oi_ID o).
    split; [done|]. apply elem_of_dedup_from. set_solver.
Qed.

(** C39: the secret a creation returns authenticates: with a supported model it
    gives exactly the enabled Codex accounts among those of the request. *)
Theorem created_key_authenticates userid l exts model w :
  db_wf (w_db w) → model ∈ supported_models →
  wp (raw ← CreatApikey userid l exts; checkOauth true raw model) (λ r _,
    match r with
    | Ok accounts => ∀ a, a ∈ accounts ↔ usable_account userid l (w_db w) a
    | Err e => create_refused userid l exts (w_db w) e ∨
               e = ErrOauthForbidden ∧ ∀ a, ¬ usable_account userid l (w_db w) a
    | Panic => False
    end) w.
Proof.
  intros Hwf Hm. wp_step.
  apply wp_wf; [unfold CreatApikey, checkOauth_ids, CountOwnedAccounts, CountOwnedExternalKeys,
    generateApikey; preserve|done|].
  apply wp_CreatApikey; [done|by auto|].
  intros raw k w1 _ Hk Hwf1. pose proof (λ a, authorized_created _ _ _ _ _ _ _ a Hwf Hk) as Ha.
  destruct Hk as (_ & _ & Hh & _ & Hdis & Hexp & (Hkeys & _)).
  assert (Hkin : k ∈ t_keys (w_db w1)) by (rewrite Hkeys; set_solver).
  assert (Hlive : ∀ now, key_alive now k = true) by (intros now; unfold key_alive; by rewrite Hdis, Hexp).
  apply wp_checkOauth; [done|..].
  - intros e w2 Hf _. left. by left.
  - intros w2 _ Hdead. specialize (Hdead k Hkin Hh). by rewrite Hlive in Hdead.
  - intros k' accounts w2 _ Hin' Hh' _ Hacc _.
    assert (k' = k) as -> by (apply (uk_inj api_keys (w_db w1)); [done..|]; cbn; congruence).
    rewrite bool_decide_eq_true_2 by done. setoid_rewrite Ha in Hacc.
    destruct (bool_decide (accounts = [])) eqn:Hnil; prop_guards; [|done].
    right. split; [done|]. intros a Ha'%Hacc. subst. by apply not_elem_of_nil in Ha'.
Qed.

(** C12: the upstream credential of a chat request is the decrypted access token
    of the first account the key's owner bound to the key, and only while that
    account is enabled and unexpired. *)
Theorem chat_credential_correct `{AeadLaws} key raw model w :
  db_wf (w_db w) →
  wp (accounts ← checkOauth true raw model; getCredential key None accounts) (λ r w',
    w_db w' = w_db w ∧
    match r with
    | Ok c => ∃ k b o, k ∈ t_keys (w_db w) ∧ ak_KeyHash k = hex_sha256 raw ∧ ak_Disabled k = false ∧
        b ∈ t_bind (w_db w) ∧ o ∈ t_oauth (w_db w) ∧
        ba_ApiKeyID b = ak_ID k ∧ ba_OAuthInfoID b = oi_ID o ∧ oi_UserID o = ak_UserID k ∧
        oi_Disabled o = false ∧ oi_Type o = "codex"%string ∧
        (∀ t, oi_Expired o = Some t → ∃ n, (now_at n < t)%Z) ∧
        (∀ a, authorized (w_db w) k a → oi_ID o <= acc_ID a) ∧
        Decrypt key (oi_AccessToken o) = Ok (cred_Secret c) ∧ blank (cred_Secret c) = false
    | Err e => fault e ∨
        e ∈ [ErrInvalidApikey; ErrUnsupportedModel; ErrOauthForbidden; ErrCredentialUnavailable]
    | Panic => False
    end) w.
Proof.
  intros Hwf. wp_step. apply wp_checkOauth; [done|auto|intros; split; [done|]; right; set_solver|].
  intros k accounts w1 Hw1 Hk Hh Hal Hacc Hs.
  destruct (bool_decide (model ∈ supported_models)); [|split; [done|]; right; set_solver].
  destruct (bool_decide (accounts = [])); [split; [done|]; right; set_solver|].
  apply wp_getCredential.
  - intros e w2 Hw2 Hr. split; [congruence|]. right.
    destruct Hr as [|[_ [[-> _]|[-> _]]]]; [done|set_solver|set_solver].
  - intros a l p w2 Hw2 _ -> Hd Ht Hexp Hdec Hb. split; [congruence|].
    assert (Ha : authorized (w_db w) k a) by (apply Hacc; set_solver).
    destruct Ha as ((b & o & Hbin & Hoin & E1 & E2 & E3 & E4 & ->) & _).
    exists k, b, o. cbn in *. split_and!; try done.
    + unfold key_alive in Hal. by apply andb_true_iff in Hal as [?%negb_true_iff _].
    + intros t Hto. exists (w_step w1). by apply Hexp.
    + intros a' Ha'%Hacc. apply Sorted_StronglySorted in Hs; [|intros x y z; unfold account_le; lia].
      inversion Hs as [|x y Hs' Hall]; subst. apply elem_of_cons in Ha' as [->|Ha']; [done|].
      rewrite List.Forall_forall in Hall. apply (Hall a'). by apply list_elem_of_In.
Qed.

Definition bearer (authorization : string) : option string :=
  match Fields authorization with
  | [scheme; apikey] => if EqualFold scheme "Bearer" then Some apikey else None
  | _ => None
  end.

(** The model a chat request names, when its body is read and decoded. *)
Definition chat_model (json_model : string → option string) (body : res string) : option string :=
  match body with
  | Ok b => match json_model b with
            | Some m => if blank m then None else Some m
            | None => None
            end
  | _ => None
  end.

Lemma apikeyfilter_error_table :
  apikeyfilter_error ErrInvalidApikey = (401%Z, "invalid api key"%string) ∧
  apikeyfilter_error ErrUnsupportedModel = (400%Z, "unsupported model"%string) ∧
  apikeyfilter_error ErrOauthForbidden = (403%Z, "no authorized OAuth account for model"%string) ∧
  ∀ e, fault e → apikeyfilter_error e = (500%Z, "api key authentication failed"%string).
Proof. split_and!; try done. intros e Hf. unfold apikeyfilter_error. by is_red. Qed.

(** The chat middleware lets a request through only with a bearer key that
    authenticates for the model of its body, and gives the handler that key and
    its accounts; every other request is answered with the status of its
    reason and no data. *)
Theorem ApikeyFilter_correct {D} json_model authorization body w :
  db_wf (w_db w) →
  wp (ApikeyFilter (D := D) json_model true authorization body) (λ r w', w_db w' = w_db w ∧
    let usable raw k := k ∈ t_keys (w_db w) ∧ ak_KeyHash k = hex_sha256 raw ∧
                        key_alive (now_at (S (w_step w))) k = true in
    match r with
    | Ok (inl f) => bearer authorization = Some (flt_apikey f) ∧ flt_accounts f ≠ [] ∧
        (∃ model, chat_model json_model body = Some model ∧ model ∈ supported_models) ∧
        ∃ k, usable (flt_apikey f) k ∧ ∀ a, a ∈ flt_accounts f ↔ authorized (w_db w) k a
    | Ok (inr rep) => reply_data rep = None ∧
        match reply_status rep with
        | 401%Z => ∀ raw, bearer authorization = Some raw → ∀ k, ¬ usable raw k
        | 400%Z => ∀ model, chat_model json_model body = Some model → model ∉ supported_models
        | 403%Z => ∃ raw k, bearer authorization = Some raw ∧ usable raw k ∧
                            ∀ a, ¬ authorized (w_db w) k a
        | 500%Z => ∃ e, fault e
        | _ => False
        end
    | _ => False
    end) w.
Proof.
  intros Hwf. unfold ApikeyFilter, bearer, chat_model.
  destruct apikeyfilter_error_table as (E401 & E400 & E403 & E500).
  destruct (Fields authorization) as [|scheme [|raw [|]]]; try by wp_step.
  destruct (EqualFold scheme "Bearer"); [|by wp_step].
  destruct body as [b|e|]; [|by wp_step..].
  destruct (json_model b) as [model|]; [|by wp_step].
  destruct (blank model); [by wp_step|].
  do 2 wp_step. apply wp_checkOauth; [done|..].
  - intros e w' Hf Hw'. rewrite E500 by done. wp_step. split_and!; [done|done|by exists e].
  - intros w' Hw' Hdead. rewrite E401. wp_step. split_and!; [done|done|].
    intros ? [= <-] k (Hin & Hh & Hal). by rewrite Hdead in Hal.
  - intros k accounts w' Hw' Hin Hh Hal Hacc _.
    destruct (bool_decide (model ∈ supported_models)) eqn:Hm; prop_guards.
    2:{ rewrite E400. wp_step. split_and!; [done|done|]. by intros ? [= <-]. }
    destruct (bool_decide (accounts = [])) eqn:Hnil; prop_guards.
    + rewrite E403. wp_step. split_and!; [done|done|]. exists raw, k. split_and!; [done..|].
      intros a Ha%Hacc. subst. by apply not_elem_of_nil in Ha.
    + wp_step. split_and!; [done|done|done|by exists model|by exists k].
Qed.

(** * The handlers *)

(** A handler that always answers: with success, or with an error status, no
    data, and the tables as they were. *)
Definition answers (h : M (reply payload)) (success : Z) (w : world) : Prop :=
  wp h (λ r w', ∃ rep, r = Ok rep ∧
    (reply_status rep = success ∨
     reply_status rep ∈ [400; 401; 404; 500]%Z ∧ reply_data rep = None ∧ w_db w' = w_db w)) w.

Lemma mutation_response_error e :
  reply_status (apikeyMutationResponse (inr e)) ∈ [400; 401; 404; 500]%Z ∧
  reply_data (apikeyMutationResponse (inr e)) = None.
Proof. unfold apikeyMutationResponse. repeat case_match; split; set_solver. Qed.

Lemma answers_reply rep success w :
  reply_status rep ∈ [400; 401; 404; 500]%Z → reply_data rep = None → answers (mret rep) success w.
Proof. intros Hs Hd. unfold answers. wp_step. eexists. split; [done|]. by right. Qed.

Ltac refuse := apply answers_reply; [cbn; set_solver|done].

Lemma answers_ids user param k w :
  (∀ u id, answers (k u id) 200 w) →
  answers (match apikeyRequestIDs user param with inr r => mret r | inl (u, id) => k u id end) 200 w.
Proof.
  intros Hk. unfold apikeyRequestIDs. repeat case_match; simplify_eq; try done; refuse.
Qed.

Lemma answers_handle m w :
  wp m (λ r w', r ≠ Panic ∧ (is_Ok r = false → w_db w' = w_db w)) w →
  answers (handle m apikeyMutationResponse) 200 w.
Proof.
  intros Hm. unfold answers. apply wp_handle. revert Hm. apply wp_mono.
  intros [x|e|] w' [Hp Hw']; [|eexists; split; [done|]; right|done].
  - eexists. split; [done|]. by left.
  - destruct (mutation_response_error e). by split_and!; [..|apply Hw'].
Qed.

(** No handler of the module panics, for any identity, parameter and body
    that the binding lets through; and an error answer means nothing changed. *)
Theorem apikey_handlers_answer json_time user param ubody rbody cbody w :
  db_wf (w_db w) →
  (∀ req, rbody = Some req → rreq_OAuthInfo req ≠ None ∧ rreq_ExternalApiKeyIDs req ≠ None) →
  answers (UpdateApikey_handler json_time user param ubody) 200 w ∧
  answers (ReplaceApikeyAccounts_handler user param rbody) 200 w ∧
  answers (DeleteApikey_handler user param) 200 w ∧
  answers (CreatApikey_handler user cbody) 201 w ∧
  answers (ApikeyList_handler user) 200 w.
Proof.
  intros Hwf Hreq. split_and!.
  - apply answers_ids. intros u id. destruct ubody as [req|]; [|refuse].
    cbv zeta. repeat case_match; try refuse; apply answers_handle, wp_repo_UpdateApikey; done.
  - apply answers_ids. intros u id. destruct rbody as [req|]; [|refuse].
    destruct (Hreq req eq_refl). destruct req as [[l|] [exts|]]; try done.
    apply answers_handle, wp_ReplaceApikeyAccounts; done.
  - apply answers_ids. intros u id. apply answers_handle, wp_repo_DeleteApikey; try done.
    intros w' Hk Hw'. split; [done|]. intros _. rewrite Hw'. by apply key_removed_absent.
  - unfold CreatApikey_handler. destruct (user_identity user) as [u|], cbody as [req|]; try refuse.
    apply wp_handle, wp_CreatApikey; [done|..].
    + intros e w' _ Hw'. eexists. split; [done|]. right. unfold CreatApikey_reply.
      case_match; split_and!; try done; cbn; set_solver.
    + intros raw k w' _ _. eexists. split; [done|]. by left.
  - unfold ApikeyList_handler. destruct (user_identity user) as [u|]; [|refuse].
    apply wp_handle, wp_GetApikeyByUserId; [done|..].
    + intros e w' _ Hw'. eexists. split; [done|]. right. split_and!; [cbn; set_solver|done..].
    + intros items w' _ _. eexists. split; [done|]. by left.
Qed.
End spec.

(** * The contract at work on the sample database *)

Lemma CreatApikey_correct_witness :
  ∃ raw k, (CreatApikey 1 [1; 1] [1] sample_world).1 = Ok raw ∧
    created_key 1 [1; 1] [1] raw k (w_db sample_world) (w_db (CreatApikey 1 [1; 1] [1] sample_world).2).
Proof.
  pose proof (CreatApikey_correct 1 [1; 1] [1] sample_world sample_world_wf) as Hwp.
  destruct (wp_Ok _ _ _ Hwp ltac:(vm_compute; reflexivity)) as (raw & Hraw & _ & k & Hk).
  exists raw, k. split; [exact Hraw|exact Hk].
Defined.

Lemma sample_create_ok : create_ok 1 [1] [1] (w_db sample_accounts_world).
Proof.
  split_and!; [reflexivity|discriminate|reflexivity|].
  split; intros x ->%list_elem_of_singleton; vm_compute; reflexivity.
Qed.

Lemma CreatApikey_succeeds_witness : is_Ok (CreatApikey 1 [1] [1] sample_accounts_world).1 = true.
Proof.
  apply (CreatApikey_succeeds 1 [1] [1]).
  - exact sample_accounts_db_wf.
  - intros e He. exact He.
  - exact sample_create_ok.
  - assert (Hnil : t_keys (w_db sample_accounts_world) = []) by (vm_compute; reflexivity).
    rewrite Hnil. intros n secret k _ Hk. destruct (not_elem_of_nil _ Hk).
Defined.

Lemma ReplaceApikeyAccounts_correct_witness :
  (ReplaceApikeyAccounts 1 1 [1] [] sample_world).1 = Ok tt ∧
  bindings_replaced 1 1 [1] [] (w_db sample_world) (w_db (ReplaceApikeyAccounts 1 1 [1] [] sample_world).2).
Proof.
  pose proof (ReplaceApikeyAccounts_correct 1 1 [1] [] sample_world sample_world_wf) as Hwp.
  destruct (wp_Ok _ _ _ Hwp ltac:(vm_compute; reflexivity)) as ([] & Hr & _ & _ & Hb).
  split; [exact Hr|exact Hb].
Defined.

Lemma DeleteApikey_correct_witness :
  (DeleteApikey 1 1 sample_world).1 = Ok tt ∧
  w_db (DeleteApikey 1 1 sample_world).2 = key_removed 1 1 (w_db sample_world).
Proof.
  pose proof (DeleteApikey_correct 1 1 sample_world sample_world_wf) as Hwp.
  destruct (wp_Ok _ _ _ Hwp ltac:(vm_compute; reflexivity)) as ([] & Hr & _ & Hd).
  split; [exact Hr|exact Hd].
Defined.

Lemma UpdateApikey_correct_witness :
  (UpdateApikey 1 1 (Some true) None false sample_world).1 = Ok tt ∧
  has_key (w_db sample_world) 1 1 = true.
Proof.
  pose proof (UpdateApikey_correct 1 1 (Some true) None false sample_world) as Hwp.
  destruct (wp_Ok _ _ _ Hwp ltac:(vm_compute; reflexivity)) as ([] & Hr & Hk & _).
  split; [exact Hr|exact Hk].
Defined.

Lemma requests_isolated_witness :
  rows_of 2 (w_db (serve [(1, ReqDelete 1); (1, ReqCreate [1] []); (3, ReqDelete 1)] sample_world).2)
  = rows_of 2 (w_db sample_world).
Proof.
  apply (requests_isolated 2 [(1, ReqDelete 1); (1, ReqCreate [1] []); (3, ReqDelete 1)] sample_world
           sample_world_wf).
  intros v r Hin. repeat (apply elem_of_cons in Hin as [[= -> ->]|Hin]; [discriminate|]).
  by apply not_elem_of_nil in Hin.
Defined.

Lemma UserApikeyList_correct_witness :
  ∃ items, (UserApikeyList 1 sample_world).1 = Ok items ∧
           Forall2 (item_of (w_db sample_world)) (user_keys 1 (w_db sample_world)) items.
Proof.
  pose proof (UserApikeyList_correct 1 sample_world sample_world_wf) as Hwp.
  destruct (wp_Ok _ _ _ Hwp ltac:(vm_compute; reflexivity)) as (items & Hr & _ & Hi & _).
  exists items. split; [exact Hr|exact Hi].
Defined.

Lemma checkOauth_correct_witness :
  ∃ accounts, (checkOauth true "sk-sample" "gpt-5.5" sample_world).1 = Ok accounts ∧ accounts ≠ [].
Proof.
  pose proof (checkOauth_correct "sk-sample" "gpt-5.5" sample_world sample_world_wf) as Hwp.
  destruct (wp_Ok _ _ _ Hwp ltac:(vm_compute; reflexivity)) as (l & Hr & _ & Hl & _).
  exists l. split; [exact Hr|exact Hl].
Defined.

Definition sample_key_row : ApikeyInfo :=
  Build_ApikeyInfo 1 1 (hex_sha256 "sk-sample") "sk-sample" false None 0 0.

Lemma revoked_key_rejected_witness :
  is_Ok ((_ ← revoke 1 1 true; checkOauth true "sk-sample" "gpt-5.5") sample_world).1 = false.
Proof.
  apply (revoked_key_rejected 1 1 true "sk-sample" "gpt-5.5" sample_key_row sample_world sample_world_wf);
    [|reflexivity..].
  cbn [w_db sample_world]. change (t_keys sample_db) with [sample_key_row]. left.
Defined.

Lemma created_key_authenticates_witness :
  ∃ accounts,
    ((raw ← CreatApikey 1 [1] []; checkOauth true raw "gpt-5.5") sample_world).1 = Ok accounts ∧
    ∀ a, a ∈ accounts ↔ usable_account 1 [1] (w_db sample_world) a.
Proof.
  assert (Hm : "gpt-5.5"%string ∈ supported_models) by (apply (bool_decide_unpack _); vm_compute; exact I).
  pose proof (created_key_authenticates 1 [1] [] "gpt-5.5" sample_world sample_world_wf Hm) as Hwp.
  destruct (wp_Ok _ _ _ Hwp ltac:(vm_compute; reflexivity)) as (l & Hr & Hl).
  exists l. split; [exact Hr|exact Hl].
Defined.

Lemma chat_credential_correct_witness :
  ((accounts ← checkOauth true "sk-sample" "gpt-5.5"; getCredential sample_key None accounts)
     sample_world).1 = Ok (Build_Credential "access_token" "token-1") ∧
  ∃ o, o ∈ t_oauth (w_db sample_world) ∧ Decrypt sample_key (oi_AccessToken o) = Ok "token-1"%string.
Proof.
  pose proof (chat_credential_correct sample_key "sk-sample" "gpt-5.5" sample_world sample_world_wf) as Hwp.
  destruct (wp_Ok _ _ _ Hwp ltac:(vm_compute; reflexivity)) as (c & Hr & _ & k & b & o & _ & _ & _ & _ & Ho & _ & _ & _ & _ & _ & _ & _ & Hd & _).
  assert (Hc : c = Build_Credential "access_token" "token-1").
  { vm_compute in Hr. injection Hr as <-. reflexivity. }
  subst c. split; [exact Hr|]. exists o. split; [exact Ho|exact Hd].
Defined.

Lemma ApikeyFilter_correct_witness :
  ∃ f, (ApikeyFilter (D := unit) (λ _, Some "gpt-5.5"%string) true "bearer sk-sample" (Ok "{}"%string)
          sample_world).1 = Ok (inl f) ∧ flt_accounts f ≠ [].
Proof.
  pose proof (ApikeyFilter_correct (D := unit) (λ _, Some "gpt-5.5"%string) "bearer sk-sample" (Ok "{}"%string)
       sample_world sample_world_wf) as Hwp.
  destruct (wp_Ok _ _ _ Hwp ltac:(vm_compute; reflexivity)) as ([f|rep] & Hr & _ & Hf).
  - exists f. destruct Hf as (_ & Hf & _). split; [exact Hr|exact Hf].
  - exfalso. vm_compute in Hr. discriminate Hr.
Defined.

Lemma apikey_handlers_answer_witness :
  answers (DeleteApikey_handler (Some (CtxUint64 1)) "1") 200 sample_world ∧
  (DeleteApikey_handler (Some (CtxUint64 1)) "1" sample_world).1 = Ok (Success None).
Proof.
  split; [|vm_compute; reflexivity].
  assert (Hreq : ∀ req, @None ReplaceApikeyAccountsRequest = Some req →
            rreq_OAuthInfo req ≠ None ∧ rreq_ExternalApiKeyIDs req ≠ None)
    by (intros req Hreq; discriminate Hreq).
  pose proof (apikey_handlers_answer (λ _, None) (Some (CtxUint64 1)) "1" None None None sample_world
    sample_world_wf Hreq) as Hall.
  destruct Hall as (_ & _ & Hd & _). exact Hd.
Defined.
