(* ===== verification/ExternalApikey.v ===== *)
(** modules/external_apikey: the upstream keys a user stores encrypted, with the
    endpoint they belong to and the path suffix of each protocol; validation of
    endpoint and suffixes, and the URL a request resolves to.  Repository,
    service and handlers follow the Go files of the same names. *)

From S2P Require Import Prelude.
From S2P Require Import GoStrings.
From S2P Require Import Codec.
From S2P Require Import Schema.
From S2P Require Import Integrity.
From S2P Require Import Stores.
From S2P Require Import World.
From S2P Require Import Security.
From S2P Require Import Http.
From S2P Require Import NetUrl.

Local Open Scope list_scope.
Local Open Scope N_scope.

Definition ErrInvalidRequest : gerror :=
  Sentinel "externalapikey.ErrInvalidRequest" "invalid external api key request".

Record ExternalApikeyRequest := {
  ereq_ExternalApikey : string; ereq_Endpoint : string; ereq_Suffix : ExternalApikeySuffix
}.

Record ListItem := {
  eli_ID : N; eli_Endpoint : string; eli_Suffix : ExternalApikeySuffix;
  eli_CreatedAt : time; eli_UpdatedAt : time
}.

Definition nonempty (s : string) : bool := negb (String.eqb s "").

(** Bytes that a path may not contain, "\\\r\n?#" in the source. *)
Definition path_forbidden : string :=
  String (ascii_of_nat 92) (String (ascii_of_nat 13) (String (ascii_of_nat 10) "?#")).
Definition endpoint_forbidden : string := String (ascii_of_nat 92) "?#".
Definition CRLF : string := String (ascii_of_nat 13) (String (ascii_of_nat 10) "").
Definition space_tab : string := String " " (String (ascii_of_nat 9) "").
Definition slash : ascii := "/".

(** * Validation *)

Section validation.
Context `{UrlParser}.

Definition dot_segment (segment : string) : bool :=
  String.eqb segment ".." || String.eqb segment ".".

Definition validPath (path : string) : bool :=
  match url_Parse path with
  | None => false
  | Some u =>
      if IsAbs u || nonempty (url_Host u) || nonempty (url_RawQuery u) || url_ForceQuery u ||
         nonempty (url_Fragment u) || ContainsAny path path_forbidden
      then false
      else negb (existsb dot_segment (Split (url_Path u) slash))
  end.

Definition valid_endpoint (endpoint : string) : bool :=
  match url_Parse endpoint with
  | None => false
  | Some u =>
      negb ((negb (String.eqb (url_Scheme u) "http") && negb (String.eqb (url_Scheme u) "https")) ||
            String.eqb (url_Hostname u) "" || bool_decide (url_User u ≠ None) ||
            nonempty (url_RawQuery u) || url_ForceQuery u || nonempty (url_Fragment u) ||
            ContainsAny endpoint endpoint_forbidden || negb (validPath (url_EscapedPath u)))
  end.

Definition valid_key (key : string) : bool := negb (blank key || ContainsAny key CRLF).

Definition valid_suffix (suffix : string) : bool :=
  negb (negb (validPath suffix) || (nonempty suffix && String.eqb (Trim suffix "/ ") "") ||
        ContainsAny suffix space_tab).

Definition suffixes (s : ExternalApikeySuffix) : list string :=
  [sfx_ChatCompletions s; sfx_Responses s; sfx_Messages s].

(** * service.go *)

(** [ResolveURL]: the configured suffix of the incoming protocol path, or that
    path, joined to the endpoint. *)
Definition ResolveURL (key : ExternalApikey) (currentPath : string) : res string :=
  suffix ← (if String.eqb currentPath "/v1/chat/completions" then Ok (sfx_ChatCompletions (ek_Suffix key))
            else if String.eqb currentPath "/v1/responses" then Ok (sfx_Responses (ek_Suffix key))
            else if String.eqb currentPath "/v1/messages" then Ok (sfx_Messages (ek_Suffix key))
            else Err ErrInvalidRequest);
  let suffix := if String.eqb suffix "" then currentPath else suffix in
  if validPath suffix
  then Ok (TrimRight (ek_Endpoint key) "/" +:+ "/" +:+ TrimLeft suffix "/")
  else Err ErrInvalidRequest.

Context `{Env} `{Aead}.

Definition keyHash (key : string) : string := hex_sha256 key.

Definition with_user (userID : N) (k : ExternalApikey) : ExternalApikey :=
  Build_ExternalApikey (ek_ID k) userID (ek_KeyHash k) (ek_Ciphertext k) (ek_Endpoint k)
    (ek_Suffix k) (ek_CreatedAt k) (ek_UpdatedAt k).

Definition prepare (encryptionKey : string) (req : ExternalApikeyRequest) : M ExternalApikey :=
  let endpoint := TrimSpace (ereq_Endpoint req) in
  _ ← reject_if (negb (valid_endpoint endpoint)) ErrInvalidRequest;
  _ ← reject_if (negb (valid_key (ereq_ExternalApikey req))) ErrInvalidRequest;
  _ ← reject_if (negb (forallb valid_suffix (suffixes (ereq_Suffix req)))) ErrInvalidRequest;
  encrypted ← Encrypt encryptionKey (ereq_ExternalApikey req);
  mret (Build_ExternalApikey 0 0 (keyHash (ereq_ExternalApikey req)) encrypted
          (TrimRight endpoint "/") (ereq_Suffix req) 0 0).

Definition listItem (key : ExternalApikey) : ListItem :=
  Build_ListItem (ek_ID key) (ek_Endpoint key) (ek_Suffix key) (ek_CreatedAt key) (ek_UpdatedAt key).

(** * repository.go *)

Definition ext_of_user (userID id : N) (k : ExternalApikey) : bool :=
  (ek_UserID k =? userID) && (ek_ID k =? id).
Definition ext_asc (k k' : ExternalApikey) : bool := ek_ID k <=? ek_ID k'.

Definition Add (key : ExternalApikey) : M ExternalApikey := Create external_api_keys key.

Definition GetUsersApiKey (userID : N) : M (list ExternalApikey) :=
  sql (Select external_api_keys (λ k, ek_UserID k =? userID) ext_asc).

Definition QueryByApiKey (userID : N) (raw : string) : M (list ExternalApikey) :=
  sql (Select external_api_keys
         (λ k, (ek_UserID k =? userID) && String.eqb (ek_KeyHash k) (keyHash raw)) ext_asc).

Definition repo_Update (userID id : N) (key : ExternalApikey) : M unit :=
  affected ← sql (Update external_api_keys (ext_of_user userID id)
    (set_external (ek_KeyHash key) (ek_Ciphertext key) (ek_Endpoint key) (ek_Suffix key)));
  reject_if (affected =? 0) ErrRecordNotFound.

Definition repo_Delete (userID id : N) : M unit :=
  affected ← sql (Delete external_api_keys (ext_of_user userID id));
  reject_if (affected =? 0) ErrRecordNotFound.

(** * service.go, the operations on stored keys *)

Definition svc_Create (encryptionKey : string) (userID : N) (req : ExternalApikeyRequest) : M ListItem :=
  _ ← reject_if (userID =? 0) ErrInvalidRequest;
  key ← prepare encryptionKey req;
  key ← Add (with_user userID key);
  mret (listItem key).

Definition svc_Update (encryptionKey : string) (userID id : N) (req : ExternalApikeyRequest) : M unit :=
  _ ← reject_if ((userID =? 0) || (id =? 0)) ErrInvalidRequest;
  key ← prepare encryptionKey req;
  repo_Update userID id key.

Definition svc_Delete (userID id : N) : M unit :=
  _ ← reject_if ((userID =? 0) || (id =? 0)) ErrInvalidRequest;
  repo_Delete userID id.

Definition svc_List (userID : N) : M (list ListItem) :=
  _ ← reject_if (userID =? 0) ErrInvalidRequest;
  keys ← GetUsersApiKey userID;
  mret (listItem <$> keys).

(** * handler.go *)

Inductive ext_payload := PItem (item : ListItem) | PItems (items : list ListItem).

(** [param] is [None] for the routes without an identifier. *)
Definition requestIDs (user : option ctx_value) (param : option string) : (N * N) + reply ext_payload :=
  match user with
  | Some (CtxUint64 userID) =>
      if (userID =? 0) || (max_int63 <? userID)
      then inr (Error 401 40100 "invalid user identity")
      else match param with
           | None => inl (userID, 0)
           | Some param =>
               match ParseUint param 63 with
               | Some id => if id =? 0 then inr (Error 400 40000 "invalid external api key id")
                            else inl (userID, id)
               | None => inr (Error 400 40000 "invalid external api key id")
               end
           end
  | _ => inr (Error 401 40100 "invalid user identity")
  end.

Definition respondError (e : gerror) : reply ext_payload :=
  if errors_Is e ErrInvalidRequest then Error 400 40000 (error_text ErrInvalidRequest)
  else if errors_Is e ErrRecordNotFound then Error 404 40400 "external api key not found"
  else Error 500 50000 "internal server error".

Definition respond {A} (success : A → reply ext_payload) (r : A + gerror) : reply ext_payload :=
  match r with inl a => success a | inr e => respondError e end.

Definition CreatExternalApiKey (encryptionKey : string) (user : option ctx_value)
    (body : option ExternalApikeyRequest) : M (reply ext_payload) :=
  match requestIDs user None with
  | inr r => mret r
  | inl (userID, _) =>
      match body with
      | None => mret (respondError ErrInvalidRequest)
      | Some req => handle (svc_Create encryptionKey userID req)
          (respond (λ item, no_store (SuccessWithStatus 201 (Some (PItem item)) "success")))
      end
  end.

Definition DeleteExternalApiKey (user : option ctx_value) (param : string) : M (reply ext_payload) :=
  match requestIDs user (Some param) with
  | inr r => mret r
  | inl (userID, id) => handle (svc_Delete userID id) (respond (λ _, Success None))
  end.

Definition UpdateExternalApiKey (encryptionKey : string) (user : option ctx_value) (param : string)
    (body : option ExternalApikeyRequest) : M (reply ext_payload) :=
  match requestIDs user (Some param) with
  | inr r => mret r
  | inl (userID, id) =>
      match body with
      | None => mret (respondError ErrInvalidRequest)
      | Some req => handle (svc_Update encryptionKey userID id req) (respond (λ _, Success None))
      end
  end.

Definition List_handler (user : option ctx_value) : M (reply ext_payload) :=
  match requestIDs user None with
  | inr r => mret r
  | inl (userID, _) => handle (svc_List userID)
      (respond (λ items, no_store (Success (Some (PItems items)))))
  end.

End validation.
