(* ===== verification/ExternalApikeySpec.v ===== *)
(** The contract of modules/external_apikey: a stored key is encrypted and
    decrypts to what the user gave, requests stay within the user's rows, and
    the URL of a request stays under the stored endpoint. *)

From S2P Require Import Prelude.
From S2P Require Import GoStrings.
From S2P Require Import Codec.
From S2P Require Import Schema.
From S2P Require Import Integrity.
From S2P Require Import Stores.
From S2P Require Import World.
From S2P Require Import Tenants.
From S2P Require Import Security.
From S2P Require Import Http.
From S2P Require Import Sim.
From S2P Require Import NetUrl.
From S2P Require Import ExternalApikey.

Local Open Scope list_scope.
Local Open Scope N_scope.

(** * Strings of an URL *)

Lemma str_existsb_app p s t : str_existsb p (s +:+ t) = str_existsb p s || str_existsb p t.
Proof. induction s as [|a s IH]; cbn; [done|]. by rewrite IH, orb_assoc. Qed.

Lemma str_existsb_rev p s : str_existsb p (str_rev s) = str_existsb p s.
Proof.
  unfold str_rev. induction s as [|a s IH]; cbn; [done|].
  rewrite str_rev_app_spec, str_existsb_app. unfold str_rev. rewrite IH. cbn.
  rewrite orb_false_r. apply orb_comm.
Qed.

Lemma str_existsb_TrimLeft p s c : str_existsb p s = false → str_existsb p (TrimLeft s c) = false.
Proof.
  induction s as [|a s IH]; cbn; [done|]. intros Hp. destruct (in_set c a); [|done].
  apply IH. by apply orb_false_iff in Hp as [_ ?].
Qed.

Lemma str_existsb_TrimRight p s c : str_existsb p s = false → str_existsb p (TrimRight s c) = false.
Proof.
  intros Hp. unfold TrimRight. rewrite str_existsb_rev. apply str_existsb_TrimLeft.
  by rewrite str_existsb_rev.
Qed.

Lemma TrimLeft_idem s c : TrimLeft (TrimLeft s c) c = TrimLeft s c.
Proof.
  induction s as [|a s IH]; [done|]. cbn. destruct (in_set c a) eqn:E; [done|]. cbn. by rewrite E.
Qed.

Lemma TrimRight_idem s c : TrimRight (TrimRight s c) c = TrimRight s c.
Proof. unfold TrimRight. by rewrite str_rev_involutive, TrimLeft_idem. Qed.

Section spec.
Context `{EnvLaws} `{AeadLaws} `{UrlParser}.

(** * Storing a key *)

Definition acceptable (req : ExternalApikeyRequest) : bool :=
  valid_endpoint (TrimSpace (ereq_Endpoint req)) && valid_key (ereq_ExternalApikey req) &&
  forallb valid_suffix (suffixes (ereq_Suffix req)).

(** The columns of a request: the key's hash, the key encrypted, the endpoint
    without its trailing slashes, the suffixes. *)
Definition stores (encryptionKey : string) (req : ExternalApikeyRequest) (k : ExternalApikey) : Prop :=
  ek_KeyHash k = hex_sha256 (ereq_ExternalApikey req) ∧
  Decrypt encryptionKey (ek_Ciphertext k) = Ok (ereq_ExternalApikey req) ∧
  ek_Endpoint k = TrimRight (TrimSpace (ereq_Endpoint req)) "/" ∧
  ek_Suffix k = ereq_Suffix req.

Definition store_error (key : string) (req : ExternalApikeyRequest) (e : gerror) : Prop :=
  fault e ∨ e = ErrInvalidRequest ∧ acceptable req = false ∨ encrypt_error key e.

Lemma w_db_ticks n w : w_db (Nat.iter n tick w) = w_db w.
Proof. by induction n. Qed.

Lemma wp_prepare key req (Q : res ExternalApikey → world → Prop) w :
  (∀ e w', store_error key req e → w_db w' = w_db w → Q (Err e) w') →
  (∀ k w', acceptable req = true → stores key req k → w_db w' = w_db w → Q (Ok k) w') →
  wp (prepare key req) Q w.
Proof.
  intros He Hok. unfold prepare. unfold store_error, acceptable in *.
  wp_step. wp_step; [apply He; [|done]; prop_guards; right; left; by rewrite H4|].
  wp_step. wp_step; [apply He; [|done]; prop_guards; right; left; by rewrite H5, andb_false_r|].
  wp_step. wp_step; [apply He; [|done]; prop_guards; right; left; by rewrite H6, andb_false_r|].
  prop_guards. wp_step. apply wp_Encrypt.
  - intros e n Hee. apply He; [by right; right|apply w_db_ticks].
  - intros c n Hc _. wp_step. apply Hok; [|done|apply w_db_ticks].
    by rewrite H4, H5, H6.
Qed.

Definition ext_added (k : ExternalApikey) (d d' : db) : Prop :=
  d' = bump external_api_keys (set_rows external_api_keys (t_ext d ++ [k]) d).

(** The hash always fits its column, so only the owner's reference can fail. *)
Lemma wp_Add k (Q : res ExternalApikey → world → Prop) w :
  db_wf (w_db w) → (∃ raw, ek_KeyHash k = hex_sha256 raw) →
  (∀ e w', fault e → w_db w' = w_db w → Q (Err e) w') →
  (∀ w', has_user (w_db w) (ek_UserID k) = false → w_db w' = w_db w →
         Q (Err ErrForeignKeyViolated) w') →
  (∀ now w', ext_added (stamp external_api_keys now (seq_ext (w_db w)) k) (w_db w) (w_db w') →
             Q (Ok (stamp external_api_keys now (seq_ext (w_db w)) k)) w') →
  wp (Add k) Q w.
Proof.
  intros Hwf [raw Hraw] He Hfk Hok. unfold Add. wp_step; [by intros; apply He|].
  destruct (insert_one _ _ _ _) as [[k' d']|e|] eqn:Hi; [| |done].
  - apply insert_one_rows in Hi as (-> & -> & _). by eapply Hok.
  - apply insert_one_err in Hi as [[_ Hc]|[[_ Hu]|[-> Hf]]]; [..|done|done].
    + cbn in Hc. apply bool_decide_eq_false in Hc. exfalso. apply Hc. rewrite Hraw.
      rewrite <- (length_hex_sha256 raw). apply RuneCount_le.
    + apply list_elem_of_fmap in Hu as (x & Hx & Hin). cbn in Hx. injection Hx as Hid.
      destruct (tk_id _ _ (Hwf external_api_keys) eq_refl) as [_ Hlt]. specialize (Hlt x Hin).
      cbn in Hlt. lia.
    + by apply Hfk.
Qed.

(** The outcomes of [svc_Create]. *)
Definition create_post (key : string) (userID : N) (req : ExternalApikeyRequest) (w : world) (r : res ListItem) (w' : world) : Prop :=
  match r with
  | Ok item => acceptable req = true ∧ ∃ k, ext_added k (w_db w) (w_db w') ∧
      ek_UserID k = userID ∧ stores key req k ∧ item = listItem k ∧
      ∀ k', k' ∈ t_ext (w_db w) → ek_ID k' ≠ ek_ID k
  | Err e => w_db w' = w_db w ∧
      (store_error key req e ∨ e = ErrInvalidRequest ∧ userID = 0 ∨
       e = ErrForeignKeyViolated ∧ has_user (w_db w) userID = false)
  | Panic => False
  end.

Lemma wp_svc_Create key userID req w :
  db_wf (w_db w) →
  wp (svc_Create key userID req) (create_post key userID req w) w.
Proof.
  unfold create_post. intros Hwf. unfold svc_Create. wp_step. wp_step; [by prop_guards; auto|].
  wp_step. apply wp_prepare; [by auto|]. intros k w1 Hacc Hk Hw1.
  wp_step. apply wp_Add; [by rewrite Hw1|..].
  - exists (ereq_ExternalApikey req). apply Hk.
  - intros e w2 Hf Hw2. split; [congruence|]. left. by left.
  - intros w2 Hu Hw2. split; [congruence|]. right; right. by rewrite Hw1 in Hu.
  - intros now w2 Hadd. rewrite Hw1 in Hadd. wp_step. split; [done|]. rewrite Hw1. eexists.
    split_and!; [exact Hadd|done|exact Hk|done|].
    intros k' Hk' Heq. destruct (tk_id _ _ (Hwf external_api_keys) eq_refl) as [_ Hlt].
    specialize (Hlt k' Hk'). cbn in Hlt, Heq. lia.
Qed.

(** * Changing and deleting *)

Lemma ext_of_user_owned userID id k : ext_of_user userID id k = owned_ext userID id k.
Proof. apply andb_comm. Qed.

Lemma has_ext_select userID id d :
  has_ext d userID id = false ↔ ∀ k, k ∈ t_ext d → ext_of_user userID id k = false.
Proof.
  rewrite <- not_true_iff_false, has_ext_spec. unfold ext_of_user. split.
  - intros Hn k Hk. apply not_true_iff_false. intros ?. prop_guards. apply Hn. eauto.
  - intros Hn (k & Hk & <- & <-). specialize (Hn k Hk). by rewrite !N.eqb_refl in Hn.
Qed.

Definition ext_removed (userID id : N) (d : db) : db :=
  set_rows api_key_external_keys
    (select (λ b, negb ((be_ExternalApiKeyID b =? id) && (be_UserID b =? userID))) (t_extbind d))
  (set_rows external_api_keys (select (λ k, negb (ext_of_user userID id k)) (t_ext d)) d).

Lemma delete_ext_of_user userID id d :
  db_wf d → delete_rows external_api_keys (ext_of_user userID id) d = ext_removed userID id d.
Proof.
  intros Hwf.
  assert (Hsel : ∀ l, select (λ k, negb (ext_of_user userID id k)) l =
                      select (λ k, negb (owned_ext userID id k)) l).
  { intros l. apply select_ext. intros k _. by rewrite ext_of_user_owned. }
  unfold ext_removed. rewrite Hsel, <- (delete_ext userID id d Hwf).
  unfold delete_rows. cbn [rows]. by rewrite Hsel.
Qed.

Lemma wp_affected t (s : stmt N) d' n (Q : res unit → world → Prop) w :
  sql_step (now_at (w_step w)) s (w_db w) = Ok (N.of_nat n, d') →
  (∀ e w', fault e → w_db w' = w_db w → Q (Err e) w') →
  (n = O → ∀ w', w_db w' = d' → Q (Err t) w') →
  (n ≠ O → ∀ w', w_db w' = d' → Q (Ok tt) w') →
  wp (affected ← sql s; reject_if (affected =? 0) t) Q w.
Proof.
  intros Hs He Hz Hok. wp_step. apply wp_sql; [by intros; apply He|]. rewrite Hs.
  wp_step; prop_guards; [apply Hz|apply Hok]; (done || lia).
Qed.

(** The outcomes of [svc_Delete]. *)
Definition delete_post (userID id : N) (w : world) (r : res unit) (w' : world) : Prop :=
  match r with
  | Ok _ => has_ext (w_db w) userID id = true ∧ w_db w' = ext_removed userID id (w_db w) ∧
            has_ext (w_db w') userID id = false
  | Err e => w_db w' = w_db w ∧
      (fault e ∨ e = ErrInvalidRequest ∧ (userID = 0 ∨ id = 0) ∨
       e = ErrRecordNotFound ∧ has_ext (w_db w) userID id = false)
  | Panic => False
  end.

Lemma wp_svc_Delete userID id w :
  db_wf (w_db w) →
  wp (svc_Delete userID id) (delete_post userID id w) w.
Proof.
  unfold delete_post. intros Hwf. unfold svc_Delete. wp_step. wp_step.
  { split; [done|]. right; left. split; [done|]. apply orb_true_iff in H4.
    rewrite !N.eqb_eq in H4. done. }
  unfold repo_Delete. eapply (wp_affected _ _ (ext_removed userID id (w_db w)));
    [cbn [sql_step]; by rewrite delete_ext_of_user|by auto|..].
  - intros Hn w' Hw'. cbn [rows] in Hn.
    assert (Hno : ∀ k, k ∈ t_ext (w_db w) → ext_of_user userID id k = false)
      by (apply select_length_0; exact (f_equal N.of_nat Hn)).
    split; [|right; right; split; [done|by apply has_ext_select]].
    rewrite Hw'. symmetry.
    assert (He : has_ext (w_db w) userID id = false) by by apply has_ext_select.
    unfold ext_removed. rewrite !select_all; [by destruct (w_db w)|..].
    + intros k Hk. by rewrite Hno.
    + intros b Hb. apply negb_true_iff, not_true_iff_false. intros ?. prop_guards. subst.
      pose proof (tk_fk _ _ (Hwf api_key_external_keys) b Hb) as Hfk. cbn in Hfk. prop_guards. congruence.
  - intros Hn w' Hw'. cbn [rows] in Hn.
    destruct (has_ext (w_db w) userID id) eqn:Hx.
    + split_and!; [done|done|]. rewrite Hw'. apply has_ext_select. intros k Hk.
      cbn in Hk. by apply elem_of_kept in Hk as [? _].
    + exfalso. apply Hn. rewrite select_none; [done|]. by apply has_ext_select.
Qed.

Definition ext_updated (userID id : N) (f : ExternalApikey → ExternalApikey) (d : db) : db :=
  set_rows external_api_keys (map (λ k, if ext_of_user userID id k then f k else k) (t_ext d)) d.

(** The outcomes of [svc_Update]. *)
Definition update_post (key : string) (userID id : N) (req : ExternalApikeyRequest) (w : world) (r : res unit) (w' : world) : Prop :=
  match r with
  | Ok _ => acceptable req = true ∧ has_ext (w_db w) userID id = true ∧
      ∃ k now, stores key req k ∧
        w_db w' = ext_updated userID id (λ old,
          Build_ExternalApikey (ek_ID old) (ek_UserID old) (ek_KeyHash k) (ek_Ciphertext k)
            (ek_Endpoint k) (ek_Suffix k) (ek_CreatedAt old) now) (w_db w)
  | Err e => w_db w' = w_db w ∧
      (store_error key req e ∨ e = ErrInvalidRequest ∧ (userID = 0 ∨ id = 0) ∨
       e = ErrRecordNotFound ∧ has_ext (w_db w) userID id = false)
  | Panic => False
  end.

Lemma wp_svc_Update key userID id req w :
  wp (svc_Update key userID id req) (update_post key userID id req w) w.
Proof.
  unfold update_post. unfold svc_Update. wp_step. wp_step.
  { split; [done|]. right; left. split; [done|]. apply orb_true_iff in H4.
    rewrite !N.eqb_eq in H4. done. }
  wp_step. apply wp_prepare; [by auto|]. intros k w1 Hacc Hk Hw1.
  unfold repo_Update. eapply wp_affected; [done|..].
  - intros e w2 Hf Hw2. split; [congruence|]. left. by left.
  - intros Hn w2 Hw2. rewrite Hw1 in Hn, Hw2. cbn [rows] in Hn, Hw2.
    assert (Hno : ∀ x, x ∈ t_ext (w_db w) → ext_of_user userID id x = false)
      by (apply select_length_0; exact (f_equal N.of_nat Hn)).
    rewrite map_none in Hw2 by done. split; [rewrite Hw2; by destruct (w_db w)|].
    right; right. split; [done|]. by apply has_ext_select.
  - intros Hn w2 Hw2. rewrite Hw1 in Hn, Hw2. cbn [rows] in Hn, Hw2. split; [done|].
    destruct (has_ext (w_db w) userID id) eqn:Hx.
    + split; [done|]. exists k, (now_at (w_step w1)). by rewrite Hw2.
    + exfalso. apply Hn. rewrite select_none; [done|]. by apply has_ext_select.
Qed.

(** * Finding a key *)

(** A key that was stored is found by its raw text among its owner's keys,
    and what is found decrypts to it. *)
Theorem external_key_found key userID req w :
  db_wf (w_db w) →
  wp (item ← svc_Create key userID req; keys ← QueryByApiKey userID (ereq_ExternalApikey req);
      mret (item, keys)) (λ r w',
    match r with
    | Ok (item, keys) => ∃ k, k ∈ keys ∧ k ∈ t_ext (w_db w') ∧ item = listItem k ∧
        Decrypt key (ek_Ciphertext k) = Ok (ereq_ExternalApikey req) ∧
        ∀ k', k' ∈ keys → ek_UserID k' = userID ∧ ek_KeyHash k' = ek_KeyHash k
    | Err e => store_error key req e ∨ e = ErrInvalidRequest ∨ e = ErrForeignKeyViolated
    | Panic => False
    end) w.
Proof.
  intros Hwf. unfold svc_Create. do 2 wp_step. wp_step; [by auto|].
  wp_step. apply wp_prepare; [by auto|]. intros k w1 Hacc Hk Hw1.
  wp_step. apply wp_Add; [by rewrite Hw1| |intros; left; by left|by auto|].
  { exists (ereq_ExternalApikey req). apply Hk. }
  intros now w2 Hadd. wp_step. wp_step. unfold QueryByApiKey. wp_step; [intros; left; by left|].
  wp_step. rewrite Hadd. destruct Hk as (Hh & Hd & _).
  exists (stamp external_api_keys now (seq_ext (w_db w1)) (with_user userID k)).
  setoid_rewrite elem_of_sort_by. setoid_rewrite elem_of_select. cbn.
  rewrite Hh, N.eqb_refl, String.eqb_refl. split_and!; [done|set_solver..|done|done|].
  intros k' [Hp _]. apply andb_true_iff in Hp as [?%N.eqb_eq ?%String.eqb_eq]. done.
Qed.

(** The list holds exactly the user's keys, oldest first. *)
Theorem external_List_correct userID w :
  wp (svc_List userID) (λ r w', w_db w' = w_db w ∧
    match r with
    | Ok items => ∃ keys, items = listItem <$> keys ∧
        (∀ k, k ∈ keys ↔ k ∈ t_ext (w_db w) ∧ ek_UserID k = userID) ∧
        Sorted (λ k k', ek_ID k <= ek_ID k') keys
    | Err e => fault e ∨ e = ErrInvalidRequest ∧ userID = 0
    | Panic => False
    end) w.
Proof.
  unfold svc_List, GetUsersApiKey. wp_step. wp_step; [by prop_guards; auto|].
  wp_step. wp_step; [by auto|]. wp_step. split; [done|]. eexists. split_and!; [done|..].
  - intros k. rewrite elem_of_sort_by, elem_of_select, N.eqb_eq. tauto.
  - unfold ext_asc. eapply (Sorted_impl (λ k k', ext_asc k k' = true)).
    + intros k k' ?%N.leb_le. done.
    + apply sort_by_sorted. unfold ext_asc. intros k k' ?%N.leb_gt. apply N.leb_le. lia.
Qed.

(** * The URL of a request *)

Definition protocol_paths : list string :=
  ["/v1/chat/completions"; "/v1/responses"; "/v1/messages"]%string.

Lemma str_existsb_impl (p q : ascii → bool) s :
  (∀ a, p a = true → q a = true) → str_existsb q s = false → str_existsb p s = false.
Proof.
  intros Hpq. induction s as [|a s IH]; cbn; [done|]. intros [Ha Hs]%orb_false_iff.
  rewrite IH by done. destruct (p a) eqn:E; [|done]. by rewrite (Hpq a E) in Ha.
Qed.

Lemma endpoint_forbidden_path s :
  ContainsAny s path_forbidden = false → ContainsAny s endpoint_forbidden = false.
Proof.
  apply str_existsb_impl. intros a. unfold in_set, endpoint_forbidden, path_forbidden. cbn.
  rewrite !orb_true_iff. tauto.
Qed.

Lemma validPath_clean s : validPath s = true → ContainsAny s path_forbidden = false.
Proof.
  unfold validPath. destruct (url_Parse s); [|done].
  destruct (IsAbs _ || _ || _ || _ || _ || _) eqn:E; [done|]. by apply orb_false_iff in E as [_ ?].
Qed.

Lemma valid_endpoint_clean s :
  valid_endpoint s = true → ContainsAny s endpoint_forbidden = false.
Proof.
  unfold valid_endpoint. destruct (url_Parse s); [|done].
  rewrite negb_true_iff, !orb_false_iff. tauto.
Qed.

(** Every row that was stored from an acceptable request resolves each of
    the three protocol paths to an URL under its endpoint, without a query, a
    fragment or a backslash; any other path is refused. *)
Theorem stored_key_resolves key req k path :
  (∀ p, p ∈ protocol_paths → validPath p = true) →
  acceptable req = true → stores key req k →
  if bool_decide (path ∈ protocol_paths)
  then ∃ u rest, ResolveURL k path = Ok u ∧ u = ek_Endpoint k +:+ "/" +:+ rest ∧
         HasPrefix rest "/" = false ∧ ContainsAny u endpoint_forbidden = false
  else ResolveURL k path = Err ErrInvalidRequest.
Proof.
  intros Hpaths Hacc (_ & _ & Hend & Hsfx). unfold acceptable in Hacc. prop_guards.
  rewrite <- Hsfx in *. cbn [forallb suffixes] in H5. prop_guards.
  assert (Hv : ∀ s, valid_suffix s = true → validPath s = true).
  { intros s Hs. unfold valid_suffix in Hs. prop_guards. done. }
  assert (Hrest : ∀ s, HasPrefix (TrimLeft s "/") "/" = false).
  { intros s. unfold HasPrefix. induction s as [|a s IH]; [done|]. cbn [TrimLeft].
    destruct (in_set "/" a) eqn:E; [done|]. unfold in_set in E. cbn [str_existsb] in E.
    rewrite orb_false_r in E. apply Ascii.eqb_neq in E. cbn [String.prefix].
    destruct (ascii_dec "/" a); [by subst|done]. }
  assert (Hgo : ∀ s, validPath s = true →
            ∃ u rest, Ok (A := string) (TrimRight (ek_Endpoint k) "/" +:+ "/" +:+ TrimLeft s "/") = Ok u ∧
              u = ek_Endpoint k +:+ "/" +:+ rest ∧ HasPrefix rest "/" = false ∧
              ContainsAny u endpoint_forbidden = false).
  { intros s Hs. do 2 eexists. rewrite Hend, TrimRight_idem. split_and!; [done..|].
    unfold ContainsAny. rewrite !str_existsb_app, str_existsb_TrimRight, str_existsb_TrimLeft; [done|..].
    - by apply endpoint_forbidden_path, validPath_clean.
    - by apply valid_endpoint_clean. }
  assert (Hdef : ∀ s p, validPath s = true → p ∈ protocol_paths →
            validPath (if String.eqb s "" then p else s) = true).
  { intros s p Hs Hp. destruct (String.eqb s ""); [by apply Hpaths|done]. }
  case_bool_decide as Hin.
  - assert (Hres : ∃ sfx, validPath sfx = true ∧ ResolveURL k path =
              let s := if String.eqb sfx "" then path else sfx in
              if validPath s then Ok (TrimRight (ek_Endpoint k) "/" +:+ "/" +:+ TrimLeft s "/")
              else Err ErrInvalidRequest).
    { unfold protocol_paths in Hin. rewrite !elem_of_cons in Hin.
      destruct Hin as [->|[->|[->|Hin]]]; [eexists (sfx_ChatCompletions _)|eexists (sfx_Responses _)
        |eexists (sfx_Messages _)|by apply not_elem_of_nil in Hin]; (split; [|reflexivity]); auto. }
    destruct Hres as (sfx & Hsv & ->). cbv zeta. rewrite Hdef by done. by apply Hgo, Hdef.
  - unfold ResolveURL. unfold protocol_paths in Hin. rewrite !not_elem_of_cons in Hin.
    destruct Hin as (H1' & H2' & H3' & _). apply String.eqb_neq in H1', H2', H3'.
    by rewrite H1', H2', H3'.
Qed.

(** * Handlers and isolation *)

Lemma preserves_Encrypt key p : preserves_wf (Encrypt key p).
Proof. unfold Encrypt, wrap_err. preserve. Qed.

Hint Resolve preserves_Encrypt : erent.

Inductive ext_request :=
  | ExtCreate (body : option ExternalApikeyRequest)
  | ExtUpdate (param : string) (body : option ExternalApikeyRequest)
  | ExtDelete (param : string)
  | ExtList.

Definition ext_handler (key : string) (user : option ctx_value) (r : ext_request) : M (reply ext_payload) :=
  match r with
  | ExtCreate body => CreatExternalApiKey key user body
  | ExtUpdate param body => UpdateExternalApiKey key user param body
  | ExtDelete param => DeleteExternalApiKey user param
  | ExtList => List_handler user
  end.

Lemma preserves_ext_handler key user r : preserves_wf (ext_handler key user r).
Proof.
  destruct r; cbn [ext_handler]; unfold CreatExternalApiKey, UpdateExternalApiKey,
    DeleteExternalApiKey, List_handler, handle, svc_Create, svc_Update, svc_Delete, svc_List, prepare,
    Add, repo_Update, repo_Delete, GetUsersApiKey; preserve.
Qed.

(** A reply of the module, and what it says about the tables: [v] is the user
    it acted for. *)
Definition ext_reply (v : N) (w : world) (r : res (reply ext_payload)) (w' : world) : Prop :=
  ∃ rep, r = Ok rep ∧
    (reply_status rep ∈ [200; 201]%Z ∨
     reply_status rep ∈ [400; 401; 404; 500]%Z ∧ reply_data rep = None ∧ w_db w' = w_db w) ∧
    ∀ u, u ≠ v → rows_of u (w_db w') = rows_of u (w_db w).

Lemma respondError_status e :
  reply_status (respondError e) ∈ [400; 401; 404; 500]%Z ∧ reply_data (respondError e) = None.
Proof. unfold respondError. repeat case_match; split; cbn; set_solver. Qed.

Lemma ext_reply_error v w w' rep :
  reply_status rep ∈ [400; 401; 404; 500]%Z → reply_data rep = None → w_db w' = w_db w →
  ext_reply v w (Ok rep) w'.
Proof. intros Hs Hd Hw. eexists. split; [done|]. split; [by right|]. intros u _. by rewrite Hw. Qed.

Lemma ext_reply_handle {A} (m : M A) success v w :
  (∀ a, reply_status (success a) ∈ [200; 201]%Z) →
  wp m (λ r w', match r with
                | Ok _ => ∀ u, u ≠ v → rows_of u (w_db w') = rows_of u (w_db w)
                | Err _ => w_db w' = w_db w
                | Panic => False
                end) w →
  wp (handle m (respond success)) (ext_reply v w) w.
Proof.
  intros Hs Hm. apply wp_handle. revert Hm. apply wp_mono. intros [a|e|] w' Hr; [|..|done].
  - eexists. split; [done|]. split; [left; apply Hs|done].
  - destruct (respondError_status e). by apply ext_reply_error.
Qed.

Lemma rows_of_ext_added u k d d' :
  u ≠ ek_UserID k → ext_added k d d' → rows_of u d' = rows_of u d.
Proof.
  intros Hne ->. unfold rows_of. cbn. rewrite select_app, (select_other ek_UserID u (ek_UserID k) [k]);
    [by rewrite app_nil_r|done|by intros x ->%list_elem_of_singleton].
Qed.

Lemma rows_of_ext_removed u v id d : u ≠ v → rows_of u (ext_removed v id d) = rows_of u d.
Proof.
  intros Hne. unfold rows_of, ext_removed. cbn.
  rewrite (select_kept be_UserID), (select_kept ek_UserID); [done|..]; intros x Hx.
  - unfold ext_of_user. by rewrite Hx, (proj2 (N.eqb_neq u v)).
  - rewrite Hx, (proj2 (N.eqb_neq u v)) by done. apply andb_false_r.
Qed.

Lemma rows_of_ext_updated u v id f d :
  u ≠ v → (∀ k, ek_UserID (f k) = ek_UserID k) → rows_of u (ext_updated v id f d) = rows_of u d.
Proof.
  intros Hne Hf. unfold rows_of, ext_updated. cbn.
  rewrite (select_mapped ek_UserID (ext_of_user v id) f u v); [done|done| |done].
  intros x Hx. unfold ext_of_user in Hx. by prop_guards.
Qed.

(** * The contract *)

(** C40: storing an external key adds one row of the user, whose ciphertext
    decrypts to the key and whose hash is the key's, and answers without either;
    a refused request changes nothing. *)
Theorem external_Create_correct key userID req w :
  db_wf (w_db w) →
  wp (svc_Create key userID req) (create_post key userID req w) w.
Proof. apply wp_svc_Create. Qed.

(** Deleting an external key removes the user's row and the bindings of the
    user's API keys to it, nothing else; and changes nothing when it fails. *)
Theorem external_Delete_correct userID id w :
  db_wf (w_db w) →
  wp (svc_Delete userID id) (delete_post userID id w) w.
Proof. apply wp_svc_Delete. Qed.

(** Updating an external key replaces the key, endpoint and suffixes of the
    user's row and nothing else. *)
Theorem external_Update_correct key userID id req w :
  wp (svc_Update key userID id req) (update_post key userID id req w) w.
Proof. apply wp_svc_Update. Qed.

Lemma wp_ext_handler key user r v w :
  db_wf (w_db w) → (user = Some (CtxUint64 v)) →
  wp (ext_handler key user r) (λ x w', ext_reply v w x w' ∧ db_wf (w_db w')) w.
Proof.
  intros Hwf ->. apply wp_wf; [apply preserves_ext_handler|done|].
  apply (wp_mono _ (ext_reply v w)); [by auto|].
  assert (Hbad : ∀ m, wp (mret (respondError m)) (ext_reply v w) w).
  { intros m. wp_step. destruct (respondError_status m). by apply ext_reply_error. }
  assert (Hids : ∀ param k, (∀ id, wp (k v id) (ext_reply v w) w) →
    wp (match requestIDs (Some (CtxUint64 v)) param with
        | inr r => mret r | inl (userID, id) => k userID id end) (ext_reply v w) w).
  { intros param k Hk. unfold requestIDs.
    repeat case_match; simplify_eq; try apply Hk; wp_step; apply ext_reply_error; cbn; set_solver. }
  destruct r as [body|param body|param|]; cbn [ext_handler].
  - apply (Hids None (λ u _, _)). intros _. destruct body as [req|]; [|apply Hbad].
    apply ext_reply_handle; [set_solver|]. eapply wp_mono; [|by apply wp_svc_Create].
    intros [item|e|] w' Hr; cbn in Hr; [|apply Hr|done].
    destruct Hr as (_ & k & Hk & Hu & _). intros u Hne. eapply rows_of_ext_added; [|done]. congruence.
  - apply (Hids (Some param) (λ u id, _)). intros id. destruct body as [req|]; [|apply Hbad].
    apply ext_reply_handle; [set_solver|]. eapply wp_mono; [|by apply wp_svc_Update].
    intros [[]|e|] w' Hr; cbn in Hr; [|apply Hr|done].
    destruct Hr as (_ & _ & k & now & _ & ->). intros u Hne. by apply rows_of_ext_updated.
  - apply (Hids (Some param) (λ u id, _)). intros id.
    apply ext_reply_handle; [set_solver|]. eapply wp_mono; [|by apply wp_svc_Delete].
    intros [[]|e|] w' Hr; cbn in Hr; [|apply Hr|done].
    destruct Hr as (_ & -> & _). intros u Hne. by apply rows_of_ext_removed.
  - apply (Hids None (λ u _, _)). intros _.
    apply ext_reply_handle; [set_solver|]. unfold svc_List, GetUsersApiKey.
    wp_step. wp_step; [done|]. wp_step. wp_step; [done|]. by wp_step.
Qed.

(** Every handler of the module answers and none panics; an error answer
    carries no data and means that nothing changed, and whatever it answers the
    rows of the other users, and the integrity of the tables, are untouched. *)
Theorem external_handlers_answer key user r v w :
  db_wf (w_db w) → (user = Some (CtxUint64 v)) →
  wp (ext_handler key user r) (λ x w', ext_reply v w x w' ∧ db_wf (w_db w')) w.
Proof. apply wp_ext_handler. Qed.
End spec.

(** * The contract at work *)

(** A parser for URLs made of a scheme, a host and a path. *)
Definition relative_url (path : string) : URL := Build_URL "" None "" path "" false "" "" "".

Fixpoint cut_slash (host s : string) : string * string :=
  match s with
  | "" => (str_rev host, "")
  | String c rest => if Ascii.eqb c "/" then (str_rev host, s) else cut_slash (String c host) rest
  end%string.

Definition absolute_url (scheme rest : string) : URL :=
  let '(host, path) := cut_slash "" rest in
  Build_URL scheme None host path "" false "" host "".

#[export] Instance sim_url : UrlParser := λ s,
  if HasPrefix s "https://" then Some (absolute_url "https" (TrimPrefix s "https://"))
  else if HasPrefix s "http://" then Some (absolute_url "http" (TrimPrefix s "http://"))
  else Some (relative_url s).

Definition sample_request : ExternalApikeyRequest :=
  Build_ExternalApikeyRequest "sk-upstream" " https://api.example.com/v1/ "
    (Build_ExternalApikeySuffix "chat/completions" "" "").

Lemma external_Create_correct_witness :
  ∃ item, (svc_Create sample_key 1 sample_request sample_world).1 = Ok item ∧
          eli_Endpoint item = "https://api.example.com/v1"%string.
Proof.
  pose proof (external_Create_correct sample_key 1 sample_request sample_world sample_world_wf) as Hwp.
  destruct (wp_Ok _ _ _ Hwp ltac:(vm_compute; reflexivity)) as (item & Hr & _ & k & _ & _ & Hk & Hi & _).
  exists item. split; [exact Hr|]. rewrite Hi. destruct Hk as (_ & _ & He & _). cbn. rewrite He.
  vm_compute. reflexivity.
Defined.

Lemma external_Delete_correct_witness :
  (svc_Delete 1 1 sample_world).1 = Ok tt ∧
  w_db (svc_Delete 1 1 sample_world).2 = ext_removed 1 1 (w_db sample_world).
Proof.
  pose proof (external_Delete_correct 1 1 sample_world sample_world_wf) as Hwp.
  destruct (wp_Ok _ _ _ Hwp ltac:(vm_compute; reflexivity)) as ([] & Hr & _ & Hd & _).
  split; [exact Hr|exact Hd].
Defined.

Lemma external_Update_correct_witness :
  (svc_Update sample_key 1 1 sample_request sample_world).1 = Ok tt ∧
  acceptable sample_request = true.
Proof.
  pose proof (external_Update_correct sample_key 1 1 sample_request sample_world) as Hwp.
  destruct (wp_Ok _ _ _ Hwp ltac:(vm_compute; reflexivity)) as ([] & Hr & Ha & _).
  split; [exact Hr|exact Ha].
Defined.

Lemma external_key_found_witness :
  ∃ item keys, ((item ← svc_Create sample_key 1 sample_request; keys ← QueryByApiKey 1 "sk-upstream";
     mret (item, keys)) sample_world).1 = Ok (item, keys) ∧
  ∃ k, k ∈ keys ∧ Decrypt sample_key (ek_Ciphertext k) = Ok "sk-upstream"%string.
Proof.
  pose proof (external_key_found sample_key 1 sample_request sample_world sample_world_wf) as Hwp.
  destruct (wp_Ok _ _ _ Hwp ltac:(vm_compute; reflexivity)) as ([item keys] & Hr & k & Hk & _ & _ & Hd & _).
  exists item, keys. split; [exact Hr|]. exists k. split; [exact Hk|exact Hd].
Defined.

Definition sample_ext : ExternalApikey :=
  Build_ExternalApikey 1 1 (hex_sha256 "sk-upstream") (sealed "sk-upstream")
    "https://api.example.com/v1" (ereq_Suffix sample_request) 0 0.

Lemma stored_key_resolves_witness :
  ∃ u rest, ResolveURL sample_ext "/v1/chat/completions" = Ok u ∧
    u = "https://api.example.com/v1/"%string +:+ rest ∧ u = "https://api.example.com/v1/chat/completions"%string.
Proof.
  assert (Hp : ∀ p, p ∈ protocol_paths → validPath p = true).
  { intros p Hp. unfold protocol_paths in Hp. rewrite !elem_of_cons in Hp.
    destruct Hp as [->|[->|[->|Hp]]]; [vm_compute; reflexivity..|destruct (not_elem_of_nil _ Hp)]. }
  assert (Ha : acceptable sample_request = true) by (vm_compute; reflexivity).
  assert (Hs : stores sample_key sample_request sample_ext)
    by (split_and!; vm_compute; reflexivity).
  pose proof (stored_key_resolves sample_key sample_request sample_ext "/v1/chat/completions" Hp Ha Hs) as Hr.
  rewrite bool_decide_eq_true_2 in Hr by (apply (bool_decide_unpack _); vm_compute; exact I).
  destruct Hr as (u & rest & Hu & He & _). exists u, rest. split; [exact Hu|].
  split; [exact He|]. vm_compute in Hu. injection Hu as <-. reflexivity.
Defined.

Lemma external_handlers_answer_witness :
  ext_reply 1 sample_world
    (ext_handler sample_key (Some (CtxUint64 1)) (ExtCreate (Some sample_request)) sample_world).1
    (ext_handler sample_key (Some (CtxUint64 1)) (ExtCreate (Some sample_request)) sample_world).2.
Proof.
  pose proof (external_handlers_answer sample_key (Some (CtxUint64 1)) (ExtCreate (Some sample_request)) 1
    sample_world sample_world_wf eq_refl) as Hwp.
  destruct Hwp as [Hr _]. exact Hr.
Defined.
