(* ===== verification/ChatHandler.v ===== *)
(** modules/chat/handler.go and routes.go: the request is read and its credential
    obtained; then the answer is one document, or a stream handed over by the
    service's goroutine on two channels.  The goroutine and the loop of the
    handler are a step relation: the response channel has no buffer, the error
    channel holds one error, and both ends watch the request's context. *)

From S2P Require Import Prelude.
From S2P Require Import GoStrings.
From S2P Require Import World.
From S2P Require Import Security.
From S2P Require Import Http.
From S2P Require Import Json.
From S2P Require Import Directory.
From S2P Require Import Route.
From S2P Require Import Translator.
From S2P Require Import Apikey.
From S2P Require Import Chat.

Local Open Scope list_scope.
Local Open Scope Z_scope.

(** * The request *)

(** [request.ChatRequest] *)
Record ChatBody := { cb_Model : string; cb_Stream : bool }.

Definition chat_body_field (key : string) (_ : raw_message) (v : json) (b : ChatBody) : option ChatBody :=
  if for_field "model" key then m ← decode_string v (cb_Model b); Some (Build_ChatBody m (cb_Stream b))
  else if for_field "stream" key then s ← decode_bool v (cb_Stream b); Some (Build_ChatBody (cb_Model b) s)
  else Some b.

Definition chat_body (body : string) : option ChatBody :=
  req ← unmarshal_struct chat_body_field body (Build_ChatBody "" false);
  if blank (cb_Model req) then None else Some req.

(** The decoder of the middleware, which reads the model alone. *)
Definition model_field (key : string) (_ : raw_message) (v : json) (m : string) : option string :=
  if for_field "model" key then decode_string v m else Some m.

Definition request_model (body : string) : option string := unmarshal_struct model_field body ""%string.

(** The status of an error of the service, the same for both kinds of answer. *)
Definition chat_status (err : gerror) : Z :=
  if errors_Is err ErrUnsupported then 400 else
  match status_Code err with
  | InvalidArgument => 400
  | Unauthenticated => 401
  | PermissionDenied => 403
  | ResourceExhausted => 429
  | Unavailable => 503
  | DeadlineExceeded => 504
  | _ => 502
  end.

Definition credential_status (err : gerror) : Z :=
  if errors_Is err ErrOauthForbidden then 403
  else if errors_Is err ErrCredentialUnavailable then 503 else 500.

(** * The stream *)

(** What is written when the stream fails after something was written. *)
Definition stream_error (clientFormat : Format) : string :=
  let failed := marshal_string "upstream stream failed" in
  let payload :=
    if bool_decide (clientFormat = FormatOpenAIResponse) then
      [("type", marshal_string "error"); ("code", marshal_string "server_error"); ("message", failed);
       ("param", "null")]
    else ("error", map_text [("type", marshal_string "api_error"); ("message", failed)])
         :: (if bool_decide (clientFormat = FormatClaude) then [("type", marshal_string "error")] else []) in
  (if bool_decide (clientFormat = FormatOpenAI) then "" else "event: error" +:+ nl) +:+
  "data: " +:+ map_text payload +:+ nl +:+ nl.

(** The goroutine: sending, or its error put into the buffer, or that channel
    closed, or both. *)
Inductive phase := Sending | Buffered | ErrClosed | Closed.

(** Why the handler returned: both channels are closed, an error arrived, the
    context ended, or a write failed. *)
Inductive outcome := Finished | Failed (e : gerror) | Cancelled | Gone.

Record conn := {
  cn_pending : list string;
  cn_final : option gerror;
  cn_phase : phase;
  cn_buffer : option gerror;
  cn_cancelled : bool;
  cn_resp : bool;
  cn_err : bool;
  cn_written : list string;
  cn_outcome : option outcome
}.

(** The goroutine has its sends before it, the handler selects on everything. *)
Definition conn_start (p : produced) : conn :=
  Build_conn (pd_events p) (pd_error p) Sending None false true true [] None.

(** One step of the goroutine, the handler, or the client.  A send needs both; a
    goroutine whose context ended may stop early, with an error of the RPC or
    without; the handler's return ends the context. *)
Inductive conn_step : conn → conn → Prop :=
  | step_send ev p f b x e w :
      conn_step (Build_conn (ev :: p) f Sending b x true e w None)
                (Build_conn p f Sending b x true e (w ++ [ev]) None)
  | step_write_fails ev p f b x e w :
      conn_step (Build_conn (ev :: p) f Sending b x true e w None)
                (Build_conn p f Sending b x true e w (Some Gone))
  | step_ends f b x r e w o :
      conn_step (Build_conn [] f Sending b x r e w o) (Build_conn [] f Buffered f x r e w o)
  | step_stops p f b x r e w o err :
      x = true ∨ o ≠ None →
      conn_step (Build_conn p f Sending b x r e w o) (Build_conn p f Buffered err x r e w o)
  | step_close_err p f b x r e w o :
      conn_step (Build_conn p f Buffered b x r e w o) (Build_conn p f ErrClosed b x r e w o)
  | step_close_resp p f b x r e w o :
      conn_step (Build_conn p f ErrClosed b x r e w o) (Build_conn p f Closed b x r e w o)
  | step_cancel p f ph b r e w o :
      conn_step (Build_conn p f ph b false r e w o) (Build_conn p f ph b true r e w o)
  | step_recv_err p f ph err x r w :
      conn_step (Build_conn p f ph (Some err) x r true w None)
                (Build_conn p f ph None x r true w (Some (Failed err)))
  | step_err_closed p f ph x r w :
      ph = ErrClosed ∨ ph = Closed →
      conn_step (Build_conn p f ph None x r true w None) (Build_conn p f ph None x r false w None)
  | step_resp_closed p f b x e w :
      conn_step (Build_conn p f Closed b x true e w None) (Build_conn p f Closed b x false e w None)
  | step_finish p f ph b x w :
      conn_step (Build_conn p f ph b x false false w None) (Build_conn p f ph b x false false w (Some Finished))
  | step_ctx_done p f ph b r e w :
      conn_step (Build_conn p f ph b true r e w None) (Build_conn p f ph b true r e w (Some Cancelled)).

(** What the client has got: an error reply before anything was written, the
    stream, and the error at its end. *)
Inductive stream_reply :=
  | StreamNothing
  | StreamError (status : Z)
  | StreamText (text : string).

Definition conn_reply (clientFormat : Format) (c : conn) : stream_reply :=
  match cn_outcome c, cn_written c with
  | Some (Failed e), [] => StreamError (chat_status e)
  | Some (Failed e), evs => StreamText (str_concat evs +:+ stream_error clientFormat)
  | _, [] => StreamNothing
  | _, evs => StreamText (str_concat evs)
  end.

(** * The handler *)

Inductive chat_answer :=
  | Refuse (status code : Z) (message : string)
  | Document (content : string)
  | Streaming (p : produced)
  | NoFlusher.

Section handler.
Context `{Env} `{Aead} `{ChatClient} `{Sdk}.

(** [body] is what reading the request gives, [accounts] what the middleware put
    into the context; a writer that cannot flush gets no stream. *)
Definition Chat_handler (reg : Registry) (encryptionKey : string) (ctx_err : option gerror)
    (accounts : option (list ApikeyAccountItem)) (flushes : bool) (clientFormat : Format) (body : res string) :
  M chat_answer :=
  match body with
  | Ok body =>
      match chat_body body with
      | None => mret (Refuse 400 400 "invalid chat request")
      | Some req =>
          selected ← attempt (getCredential encryptionKey ctx_err (default [] accounts));
          match selected with
          | inr err => let code := credential_status err in
              mret (Refuse code (code * 100) "unable to obtain upstream credential")
          | inl selected =>
              let credential := Chat.Build_Credential (cred_Mode selected) (cred_Secret selected) in
              if cb_Stream req then
                p ← ChatStream_service reg body credential clientFormat (cb_Model req);
                mret (if flushes then Streaming p else NoFlusher)
              else
                result ← attempt (Chat.ChatNonStream reg body credential clientFormat (cb_Model req));
                match result with
                | inr err => mret (Refuse (chat_status err) (chat_status err) "chat request failed")
                | inl content => mret (Document content)
                end
          end
      end
  | _ => mret (Refuse 400 400 "invalid request body")
  end.

(** routes.go: the middleware, then the handler, for one of the three paths. *)
Definition chat_route (reg : Registry) (encryptionKey : string) (injected flushes : bool) (clientFormat : Format)
    (authorization : string) (body : res string) : M (chat_answer + reply unit) :=
  r ← ApikeyFilter (D := unit) request_model injected authorization body;
  match r with
  | inl flt => answer ← Chat_handler reg encryptionKey None (Some (flt_accounts flt)) flushes clientFormat body;
               mret (inl answer)
  | inr reply => mret (inr reply)
  end.
End handler.

Definition route_format (path : string) : option Format :=
  if String.eqb path "/v1/messages" then Some FormatClaude
  else if String.eqb path "/v1/responses" then Some FormatOpenAIResponse
  else if String.eqb path "/v1/chat/completions" then Some FormatOpenAI
  else None.
