(* ===== verification/ChatHandlerSpec.v ===== *)
(** The contract of the chat handler: delivery of a stream whatever the order of
    the steps, its end, and what a request is answered with. *)

From S2P Require Import Prelude.
From S2P Require Import GoStrings.
From S2P Require Import Codec.
From S2P Require Import Schema.
From S2P Require Import Integrity.
From S2P Require Import Stores.
From S2P Require Import World.
From S2P Require Import Security.
From S2P Require Import Http.
From S2P Require Import Json.
From S2P Require Import Directory.
From S2P Require Import Route.
From S2P Require Import Translator.
From S2P Require Import Apikey.
From S2P Require Import ApikeyFacts.
From S2P Require Import Chat.
From S2P Require Import ChatSpec.
From S2P Require Import ChatHandler.
From S2P Require Import Sim.

From stdpp Require Import relations.

Local Open Scope list_scope.
Local Open Scope Z_scope.

(** * The two channels *)

(** Holds in every state of a stream: nothing is reordered or lost, except the
    event whose write failed. *)
Record conn_inv (p : produced) (c : conn) : Prop := {
  ci_final : cn_final c = pd_error p;
  ci_events : ∃ lost, pd_events p = cn_written c ++ lost ++ cn_pending c ∧
    (lost ≠ [] → cn_outcome c = Some Gone);
  ci_sending : cn_phase c = Sending → cn_buffer c = None ∧ (cn_outcome c = None → cn_resp c = true ∧ cn_err c = true);
  ci_resp : cn_resp c = false → cn_phase c = Closed;
  ci_closed : cn_err c = false → cn_buffer c = None ∧ cn_phase c ≠ Sending ∧ cn_phase c ≠ Buffered;
  ci_kept : cn_cancelled c = false →
    match cn_outcome c with
    | None => cn_phase c ≠ Sending →
        cn_pending c = [] ∧ (if cn_err c then cn_buffer c = pd_error p else pd_error p = None)
    | Some Finished => cn_pending c = [] ∧ pd_error p = None
    | Some (Failed e) => cn_pending c = [] ∧ pd_error p = Some e
    | Some Cancelled => False
    | Some Gone => True
    end
}.

Lemma conn_start_inv p : conn_inv p (conn_start p).
Proof. split; cbn; try done. exists []. done. Qed.

Lemma conn_step_inv p c c' : conn_step c c' → conn_inv p c → conn_inv p c'.
Proof.
  intros Hstep [Hf (lost & He & Hl) Hs Hr Hc Hk].
  assert (Hnone : cn_outcome c = None → lost = []).
  { intros Ho. destruct lost; [done|]. specialize (Hl ltac:(done)). congruence. }
  destruct Hstep; cbn in *; split; cbn; try done; try solve [exists lost; done]; try solve [intuition congruence].
  all: try (rewrite (Hnone eq_refl) in *).
  all: try solve [by exists []].
  - exists []. by rewrite He, <- app_assoc.
  - by exists [ev].
  - intros Hx. specialize (Hk Hx). destruct o as [[]|]; try done.
    intros _. split; [done|]. destruct e; [done|]. by destruct (Hc eq_refl) as (_ & Hbad & _).
  - intros Hx. specialize (Hk Hx). destruct o as [[]|]; try done.
    destruct H as [H|H]; [congruence|done].
  - intros Hx. specialize (Hk Hx). destruct o as [[]|]; try done. intros _. by apply Hk.
  - intros Hx. specialize (Hk Hx). destruct o as [[]|]; try done. intros _. by apply Hk.
Qed.

Lemma conn_reachable p c : rtc conn_step (conn_start p) c → conn_inv p c.
Proof.
  intros Hr. pose proof (conn_start_inv p) as Hi. revert Hi.
  induction Hr as [c|c c1 c2 Hs Hr IH]; [done|]. intros Hi. apply IH. by eapply conn_step_inv.
Qed.

(** The bytes a stream that nobody interrupts has to give. *)
Definition full_reply (clientFormat : Format) (p : produced) : stream_reply :=
  match pd_error p, pd_events p with
  | Some e, [] => StreamError (chat_status e)
  | Some e, evs => StreamText (str_concat evs +:+ stream_error clientFormat)
  | None, [] => StreamNothing
  | None, evs => StreamText (str_concat evs)
  end.

(** C19: however the goroutine and the handler are interleaved, what is written is
    at any time a prefix of the events, in order; and unless the client went away
    or a write failed the handler ends with all of them written, followed by the
    error if there was one, so that the client's bytes are determined. *)
Theorem stream_delivered clientFormat p c :
  rtc conn_step (conn_start p) c →
  cn_written c `prefix_of` pd_events p ∧
  (cn_cancelled c = false →
   match cn_outcome c with
   | Some Finished => cn_written c = pd_events p ∧ pd_error p = None ∧ conn_reply clientFormat c = full_reply clientFormat p
   | Some (Failed e) => cn_written c = pd_events p ∧ pd_error p = Some e ∧ conn_reply clientFormat c = full_reply clientFormat p
   | Some Cancelled => False
   | Some Gone | None => True
   end).
Proof.
  intros [Hf (lost & He & Hl) _ _ _ Hk]%conn_reachable. split; [rewrite He; by eexists|].
  intros Hx. specialize (Hk Hx).
  assert (Hw : cn_outcome c ≠ Some Gone → cn_pending c = [] → cn_written c = pd_events p).
  { intros Ho Hp. assert (lost = []) as -> by (destruct lost; [done|by specialize (Hl ltac:(done))]).
    rewrite He, Hp. by rewrite !app_nil_r. }
  unfold conn_reply, full_reply.
  destruct (cn_outcome c) as [[|e| |]|]; try done; destruct Hk as [Hp Herr]; by rewrite Hw, Herr by done.
Qed.

(** * The end of a stream *)

Definition phase_rank (ph : phase) : nat :=
  match ph with Sending => 3 | Buffered => 2 | ErrClosed => 1 | Closed => 0 end.

(** What every step uses up. *)
Definition conn_measure (c : conn) : nat :=
  length (cn_pending c) + phase_rank (cn_phase c) + Nat.b2n (negb (cn_cancelled c)) + Nat.b2n (cn_resp c) +
  Nat.b2n (cn_err c) + match cn_outcome c with None => 1 | Some _ => 0 end.

Lemma conn_step_measure c c' : conn_step c c' → (conn_measure c' < conn_measure c)%nat.
Proof. intros Hs. destruct Hs; unfold conn_measure; cbn; lia. Qed.

Lemma conn_nsteps_measure n c c' : nsteps conn_step n c c' → (n + conn_measure c' ≤ conn_measure c)%nat.
Proof.
  induction 1 as [c|n c c1 c2 Hs Hn IH]; [done|]. apply conn_step_measure in Hs. lia.
Qed.

(** A step that is not the client going away. *)
Definition own_step (c c' : conn) : Prop := conn_step c c' ∧ cn_cancelled c' = cn_cancelled c.

(** Until the handler has returned and the goroutine has closed both channels
    one of them can go on. *)
Lemma conn_progress p c :
  conn_inv p c → cn_outcome c = None ∨ cn_phase c ≠ Closed → ∃ c', own_step c c'.
Proof.
  intros [_ _ Hs Hr Hc _] Hopen. destruct c as [pd f ph b x r e w o]; cbn in *.
  destruct ph.
  - destruct pd as [|ev pd]; [eexists; split; [apply step_ends|done]|].
    destruct o as [o|].
    + eexists; split; [apply (step_stops _ _ _ _ _ _ _ _ None); by right|done].
    + destruct (Hs eq_refl) as [_ Hre]. destruct (Hre eq_refl) as [-> _]. eexists; split; [apply step_send|done].
  - eexists; split; [apply step_close_err|done].
  - eexists; split; [apply step_close_resp|done].
  - destruct o as [o|]; [by destruct Hopen|].
    destruct r; [eexists; split; [apply step_resp_closed|done]|].
    destruct e; [|eexists; split; [apply step_finish|done]].
    destruct b as [err|]; [eexists; split; [apply step_recv_err|done]|].
    eexists; split; [apply step_err_closed; by right|done].
Qed.

(** C37: a stream always ends: no run takes more steps than its events and seven
    more, and a run that cannot go on has the handler returned and the goroutine
    gone with both channels closed, whether or not the client stays. *)
Theorem stream_terminates p :
  (∀ n c, nsteps conn_step n (conn_start p) c → (n ≤ length (pd_events p) + 7)%nat) ∧
  (∀ c, rtc conn_step (conn_start p) c → (∀ c', ¬ own_step c c') →
    cn_outcome c ≠ None ∧ cn_phase c = Closed).
Proof.
  split.
  - intros n c Hn%conn_nsteps_measure. unfold conn_measure at 2 in Hn. cbn in Hn. lia.
  - intros c Hr Hstuck. apply conn_reachable in Hr.
    assert (Hno : ¬ (cn_outcome c = None ∨ cn_phase c ≠ Closed)).
    { intros Ho. destruct (conn_progress p c Hr Ho) as [c' Hc']. by apply (Hstuck c'). }
    split; [tauto|]. destruct (cn_phase c); [exfalso; apply Hno; by right..|done].
Qed.

(** * A whole run *)

(** The goroutine sends, ends and closes; the handler follows. *)
Definition sample_produced : produced := Build_produced ["data: 1"; "data: 2"]%string (Some (StatusError Unavailable "gone")).

Definition sample_end : conn :=
  Build_conn [] (pd_error sample_produced) Buffered None false true true (pd_events sample_produced)
    (Some (Failed (StatusError Unavailable "gone"))).

Lemma sample_run : rtc conn_step (conn_start sample_produced) sample_end.
Proof.
  unfold conn_start, sample_produced. cbn [pd_events pd_error].
  eapply rtc_l; [apply step_send|]. eapply rtc_l; [apply step_send|].
  eapply rtc_l; [apply step_ends|]. eapply rtc_l; [apply step_recv_err|]. apply rtc_refl.
Qed.

Lemma stream_delivered_witness :
  cn_written sample_end = pd_events sample_produced ∧
  conn_reply FormatClaude sample_end =
    StreamText ("data: 1data: 2event: error" +:+ nl +:+
      js "data: {'error':{'message':'upstream stream failed','type':'api_error'},'type':'error'}" +:+ nl +:+ nl).
Proof.
  destruct (stream_delivered FormatClaude sample_produced sample_end sample_run) as [_ Hd].
  destruct (Hd ltac:(reflexivity)) as (Hw & _ & Hr). split; [exact Hw|]. rewrite Hr. vm_compute. reflexivity.
Defined.

Lemma sample_nsteps : nsteps conn_step 4 (conn_start sample_produced) sample_end.
Proof.
  unfold conn_start, sample_produced. cbn [pd_events pd_error].
  eapply nsteps_l; [apply step_send|]. eapply nsteps_l; [apply step_send|].
  eapply nsteps_l; [apply step_ends|]. eapply nsteps_l; [apply step_recv_err|]. apply nsteps_O.
Qed.

Lemma stream_terminates_witness : (4 ≤ length (pd_events sample_produced) + 7)%nat.
Proof.
  destruct (stream_terminates sample_produced) as [Hn _]. exact (Hn 4%nat sample_end sample_nsteps).
Defined.

(** * The handler *)

Lemma chat_status_range err : chat_status err ∈ [400; 401; 403; 429; 502; 503; 504].
Proof. unfold chat_status. destruct (errors_Is _ _); [by_decide|]. destruct (status_Code err); by_decide. Qed.

Section handler.
Context `{EnvLaws} `{!Aead} `{ChatClient} `{Sdk}.

(** The account whose token is used: enabled, of the kind the routes are for, not
    expired when it was looked at, with a token that opens. *)
Definition usable_account (key : string) (a : ApikeyAccountItem) (secret : string) : Prop :=
  acc_Disabled a = false ∧ acc_Type a = "codex"%string ∧
  (∃ n, ∀ t, acc_Expired a = Some t → (now_at n < t)%Z) ∧
  Decrypt key (acc_AccessToken a) = Ok secret ∧ blank secret = false.

(** The credential the service is called with. *)
Definition token_of_account (secret : string) : Chat.Credential := Chat.Build_Credential "access_token" secret.

(** An answer with the reason for it. *)
Definition answered (reg : Registry) (key : string) (accounts : list ApikeyAccountItem) (flushes : bool)
    (clientFormat : Format) (text : string) (a : chat_answer) : Prop :=
  match a with
  | Document content => ∃ req acc rest secret w1 w2, chat_body text = Some req ∧ cb_Stream req = false ∧
      accounts = acc :: rest ∧ usable_account key acc secret ∧ is_object content = true ∧
      nonstream_outcome reg text (token_of_account secret) clientFormat (cb_Model req) w1 (Ok content) w2
  | Streaming p => ∃ req acc rest secret w1 w2, chat_body text = Some req ∧ cb_Stream req = true ∧
      accounts = acc :: rest ∧ usable_account key acc secret ∧ flushes = true ∧
      stream_outcome reg text (token_of_account secret) clientFormat (cb_Model req) w1 (Ok p) w2
  | NoFlusher => flushes = false
  | Refuse status code message =>
      status ∈ [400; 401; 403; 429; 500; 502; 503; 504] ∧
      match chat_body text with
      | None => status = 400 ∧ message = "invalid chat request"%string
      | Some req => message = "unable to obtain upstream credential"%string ∧ status ∈ [403; 500; 503] ∨
          message = "chat request failed"%string ∧ cb_Stream req = false ∧
          ∃ acc rest secret w1 w2 e, accounts = acc :: rest ∧ usable_account key acc secret ∧
            nonstream_outcome reg text (token_of_account secret) clientFormat (cb_Model req) w1 (Err e) w2 ∧
            status = chat_status e
      end
  end.

Lemma outcome_db reg body c f m w r w' : nonstream_outcome reg body c f m w r w' → w_db w' = w_db w.
Proof.
  unfold nonstream_outcome. destruct (GetRoute _ _ _ _) as [route|e|]; [|by intros [_ ->]..].
  intros [(req & _ & _ & -> & _)|(-> & _)]; done.
Qed.

Lemma outcome_object reg body c f m w content w' :
  nonstream_outcome reg body c f m w (Ok content) w' → is_object content = true.
Proof.
  unfold nonstream_outcome. destruct (GetRoute _ _ _ _) as [route|e|]; [|by intros [? _]..].
  intros [(req & _ & _ & _ & Ha)|(_ & [m' ?] & _)]; [|done].
  destruct (upstream_answer _ _ _) as [raw|e|]; [|done..]. cbv zeta in Ha.
  destruct (is_object (for_client _ _ _ _ _ _)) eqn:Ho; [|done]. by injection Ha as ->.
Qed.

Lemma outcome_no_panic reg body c f m w w' : ¬ nonstream_outcome reg body c f m w Panic w'.
Proof.
  unfold nonstream_outcome. destruct (GetRoute _ _ _ _) as [route|e|]; [|by intros [? _]..].
  intros [(req & _ & _ & _ & Ha)|(_ & [m' ?] & _)]; [|done].
  destruct (upstream_answer _ _ _) as [raw|e|]; [|done..]. cbv zeta in Ha. by destruct (is_object _).
Qed.

Lemma stream_outcome_db reg body c f m w r w' : stream_outcome reg body c f m w r w' → w_db w' = w_db w.
Proof. intros (p & _ & Hp). destruct (GetRoute _ _ _ _) as [route|e|]; [|by destruct Hp as [-> _]..]. by destruct Hp as [-> _]. Qed.

Lemma wp_Chat_handler reg key ctx_err accounts flushes clientFormat text w :
  wp (Chat_handler reg key ctx_err accounts flushes clientFormat (Ok text)) (λ r w', w_db w' = w_db w ∧
    ∃ a, r = Ok a ∧ answered reg key (default [] accounts) flushes clientFormat text a) w.
Proof.
  unfold Chat_handler. destruct (chat_body text) as [req|] eqn:Hb.
  2:{ wp_step. split; [done|]. eexists. split; [done|]. unfold answered. rewrite Hb. split; [by_decide|done]. }
  do 2 wp_step. apply wp_getCredential.
  - intros e w1 Hw1 _. wp_step. split; [done|]. eexists. split; [done|]. unfold answered. rewrite Hb.
    assert (Hst : credential_status e ∈ [403; 500; 503]).
    { unfold credential_status. destruct (errors_Is _ _); [by_decide|]. destruct (errors_Is _ _); by_decide. }
    split; [|by left]. revert Hst. rewrite !elem_of_cons, elem_of_nil. naive_solver.
  - intros a l secret w1 Hw1 _ Hacc Hd Ht Hexp Hdec Hbl.
    assert (Hus : usable_account key a secret) by (repeat (split; [done|]); split; [by exists (w_step w)|done]).
    cbn [cred_Mode cred_Secret]. fold (token_of_account secret). destruct (cb_Stream req) eqn:Hs.
    + wp_step. eapply wp_mono; [|apply wp_ChatStream]. intros r w2 Hout. pose proof Hout as (p & -> & _).
      wp_step. split; [by rewrite (stream_outcome_db _ _ _ _ _ _ _ _ Hout)|]. destruct flushes; [|by eexists].
      eexists. split; [done|]. by exists req, a, l, secret, w1, w2.
    + do 2 wp_step. eapply wp_mono; [|apply wp_ChatNonStream]. intros r w2 Hout.
      pose proof (outcome_db _ _ _ _ _ _ _ _ Hout) as Hdb.
      destruct r as [content|e|]; [..|by apply outcome_no_panic in Hout]; wp_step; (split; [congruence|]);
        eexists; (split; [done|]).
      * exists req, a, l, secret, w1, w2. repeat (split; [done|]). split; [by eapply outcome_object|done].
      * unfold answered. rewrite Hb. split.
        { pose proof (chat_status_range e) as Hst. revert Hst. rewrite !elem_of_cons, elem_of_nil. naive_solver. }
        right. split; [done|]. split; [done|]. by exists a, l, secret, w1, w2, e.
Qed.

(** The handler answers with a document or a stream exactly as the service
    gives it, called with the decrypted token of the first authorized account
    while that is usable; otherwise it refuses with the status of the reason; it
    changes no table and never panics, whatever the body. *)
Theorem Chat_handler_correct reg key ctx_err accounts flushes clientFormat body w :
  wp (Chat_handler reg key ctx_err accounts flushes clientFormat body) (λ r w', w_db w' = w_db w ∧
    ∃ a, r = Ok a ∧
      match body with
      | Ok text => answered reg key (default [] accounts) flushes clientFormat text a
      | _ => a = Refuse 400 400 "invalid request body"
      end) w.
Proof.
  destruct body as [text|e|]; [apply wp_Chat_handler|..]; unfold Chat_handler; wp_step; (split; [done|]); by eexists.
Qed.
End handler.

(** * The routes and the keys *)

(** The models api keys are checked for are the models that are routed: a
    model needs an account of some type exactly when there is a route for it, for
    every protocol served, with the kind of credential such an account gives; and
    the streams of that route can be put together. *)
Theorem models_aligned model path clientFormat :
  route_format path = Some clientFormat →
  getNeedOauth defaultchecklist model =
    (if bool_decide (is_Ok (GetRoute init_registry model AuthModeAccessToken clientFormat) = true)
     then "codex" else "")%string ∧
  ∀ route, GetRoute init_registry model AuthModeAccessToken clientFormat = Ok route →
    aggregable route ∧ rt_AuthHeader route = "Authorization"%string ∧ rt_AuthPrefix route = "Bearer "%string ∧
    HasPrefix (rt_Endpoint route) "https://" = true.
Proof.
  intros Hf. rewrite defaultchecklist_lookup, GetRoute_init.
  assert (Hfmt : clientFormat ∈ client_formats).
  { revert Hf. unfold route_format. repeat destruct (String.eqb path _); intros [= <-]; by_decide. }
  split.
  - change supported_models with codex_models. destruct (decide (model ∈ codex_models)) as [Hm|Hm].
    + rewrite (bool_decide_eq_true_2 (model ∈ codex_models ∧ _)) by done. by rewrite bool_decide_eq_true_2.
    + rewrite (bool_decide_eq_false_2 (model ∈ codex_models)) by done.
      by rewrite (bool_decide_eq_false_2 (model ∈ codex_models ∧ _)) by naive_solver.
  - intros route. case_bool_decide; [|done]. intros [= <-]. split; [intros _; by_decide|done].
Qed.

Lemma models_aligned_witness :
  getNeedOauth defaultchecklist "gpt-5.5" = "codex"%string ∧
  GetRoute init_registry "gpt-5.5" AuthModeAccessToken FormatClaude = Ok codex_route.
Proof.
  destruct (models_aligned "gpt-5.5" "/v1/messages" FormatClaude ltac:(reflexivity)) as [Hn _].
  split; [rewrite Hn; vm_compute; reflexivity|vm_compute; reflexivity].
Defined.

Section route.
Context `{EnvLaws} `{!Aead} `{ChatClient} `{Sdk}.

(** The middleware lets a request through for one enabled key and its accounts. *)
Lemma wp_ApikeyFilter {D} json_model authorization body (Q : res (filtered + reply D) → world → Prop) w :
  db_wf (w_db w) →
  (∀ rep w', w_db w' = w_db w → Q (Ok (inr rep)) w') →
  (∀ f k text model w', w_db w' = w_db w → body = Ok text → json_model text = Some model →
     model ∈ supported_models → k ∈ t_keys (w_db w) → ak_KeyHash k = hex_sha256 (flt_apikey f) →
     key_alive (now_at (S (w_step w))) k = true → (∀ a, a ∈ flt_accounts f ↔ authorized (w_db w) k a) →
     Q (Ok (inl f)) w') →
  wp (ApikeyFilter (D := D) json_model true authorization body) Q w.
Proof.
  intros Hwf Hno Hok. unfold ApikeyFilter.
  destruct (Fields authorization) as [|scheme [|raw [|]]]; try (wp_step; by apply Hno).
  destruct (EqualFold scheme "Bearer"); [|wp_step; by apply Hno].
  destruct body as [b|e|]; [|wp_step; by apply Hno..].
  destruct (json_model b) as [model|] eqn:Hm; [|wp_step; by apply Hno].
  destruct (blank model); [wp_step; by apply Hno|].
  do 2 wp_step. apply wp_checkOauth; [done|..].
  - intros e w' Hf Hw'. destruct (apikeyfilter_error e). wp_step. by apply Hno.
  - intros w' Hw' _. destruct (apikeyfilter_error _). wp_step. by apply Hno.
  - intros k accounts w' Hw' Hin Hh Hal Hacc _.
    destruct (bool_decide (model ∈ supported_models)) eqn:Hs; [|destruct (apikeyfilter_error _); wp_step; by apply Hno].
    destruct (bool_decide (accounts = [])); [destruct (apikeyfilter_error _); wp_step; by apply Hno|].
    wp_step. prop_guards. by eapply (Hok (Build_filtered raw accounts) k b model).
Qed.

End route.

(** * A request at work *)

(** An upstream that answers every request with the sample stream, and converters
    that leave texts as they are. *)
#[export] Instance sim_chat : ChatClient := {|
  rpc_ChatStream := λ _ _, inl sample_stream;
  rpc_ChatNonStream := λ _ _, inl (Some (js "{'id':'r'}"))
|}.

#[export] Instance sim_sdk : Sdk := {|
  sdk_state := unit; sdk_nil := tt;
  sdk_TranslateRequest := λ _ _ _ raw _, raw;
  sdk_TranslateStream := λ _ _ _ _ _ raw s, ([raw], s);
  sdk_TranslateNonStream := λ _ _ _ _ _ raw s, (raw, s)
|}.

