(* ===== verification/Router.v ===== *)
(** The HTTP side of the API process: the middleware of
    internal/middleware/httpserver, the routes that the modules register, the
    composition of internal/router and cmd/api/routes.go, and the health checks.
    A request is taken from the headers to the answer of its handler. *)

From S2P Require Import Prelude.
From S2P Require Import GoStrings.
From S2P Require Import Schema.
From S2P Require Import Stores.
From S2P Require Import World.
From S2P Require Import Security.
From S2P Require Import Http.
From S2P Require Import NetUrl.
From S2P Require Import Directory.
From S2P Require Import Jwt.
From S2P Require Import User.
From S2P Require Import Auth.
From S2P Require Import Route.
From S2P Require Import Translator.
From S2P Require Import Chat.
From S2P Require Import Oauth.
From S2P Require Import Apikey.
From S2P Require Import ExternalApikey.
From S2P Require Import ChatHandler.

Local Open Scope list_scope.
Local Open Scope N_scope.

(** * Requests and answers *)

Record request := {
  rq_Method : string; rq_Path : string; rq_Authorization : string; rq_RequestID : string;
  rq_RefreshCookie : option string; rq_Accept : string; rq_Query : string → string;
  rq_Body : res string; rq_Flushes : bool
}.

Inductive api_answer :=
  | AnswerHealth (environment : string)
  | AnswerUnavailable
  | AnswerPing
  | AnswerAuth (r : auth_answer)
  | AnswerUser (r : reply UserInfo)
  | AnswerKeys (r : reply payload)
  | AnswerExternal (r : reply ext_payload)
  | AnswerOauth (r : reply oauth_payload)
  | AnswerChat (a : chat_answer)
  | AnswerDenied (r : reply unit)
  | AnswerMessage (status : Z) (message : string).

Definition chat_answer_status (a : chat_answer) : Z :=
  match a with Refuse status _ _ => status | _ => 200%Z end.

Definition answer_status (a : api_answer) : Z :=
  match a with
  | AnswerHealth _ | AnswerPing => 200
  | AnswerUnavailable => 503
  | AnswerAuth r => reply_status r
  | AnswerUser r => reply_status r
  | AnswerKeys r => reply_status r
  | AnswerExternal r => reply_status r
  | AnswerOauth r => reply_status r
  | AnswerChat a => chat_answer_status a
  | AnswerDenied r => reply_status r
  | AnswerMessage status _ => status
  end%Z.

(** * httpserver/middleware.go *)

Definition request_id_byte (a : ascii) : bool :=
  byte_is 65 90 a || byte_is 97 122 a || is_digit a || is_byte 46 a || is_byte 95 a || is_byte 58 a || is_byte 45 a.

Fixpoint all_of (p : ascii → bool) (s : string) : bool :=
  match s with EmptyString => true | String a s => p a && all_of p s end.

(** The regular expression [^[A-Za-z0-9._:-]{1,128}$]. *)
Definition validRequestID (s : string) : bool :=
  (1 <=? String.length s)%nat && (String.length s <=? 128)%nat && all_of request_id_byte s.

(** The version and the variant of the bytes 6 and 8. *)
Fixpoint set_bytes (i : nat) (s : string) : string :=
  match s with
  | EmptyString => EmptyString
  | String a s =>
      let n := N_of_ascii a in
      String (if (i =? 6)%nat then ascii_of_N (N.lor (N.land n 15) 64)
              else if (i =? 8)%nat then ascii_of_N (N.lor (N.land n 63) 128) else a) (set_bytes (S i) s)
  end.

Definition format_id (value : string) : string :=
  let part from len := hex_EncodeToString (substring from len value) in
  part 0%nat 4%nat +:+ "-" +:+ part 4%nat 2%nat +:+ "-" +:+ part 6%nat 2%nat +:+ "-" +:+ part 8%nat 2%nat +:+ "-" +:+
  part 10%nat 6%nat.

(** * The routes *)

Inductive endpoint :=
  | EHealth | EReady | EPing
  | ELogin | ERegister | ERefresh | ELogout
  | EMe
  | EKeyCreate | EKeyList | EKeyUpdate | EKeyAccounts | EKeyDelete
  | EExtCreate | EExtList | EExtUpdate | EExtDelete
  | EOauthLogin | EOauthCallback | EOauthList | EOauthRefresh | EOauthDelete | EDeviceLogin | EDeviceCallback.

#[export] Instance endpoint_eq_dec : EqDecision endpoint.
Proof. solve_decision. Defined.

(** A handler that anybody may call, one behind the filter for access tokens, or
    the chat handler behind the filter for API keys. *)
Inductive target := Public (e : endpoint) | JwtFiltered (e : endpoint) | KeyFiltered (clientFormat : Format).

#[export] Instance target_eq_dec : EqDecision target.
Proof. solve_decision. Defined.

Abbreviation entry := (string * string * target)%type.

Definition RegisterAuthRoutes (router : string) : list entry :=
  [("POST", router +:+ "/auth/login", Public ELogin);
   ("POST", router +:+ "/auth/register", Public ERegister);
   ("POST", router +:+ "/auth/refresh", Public ERefresh);
   ("POST", router +:+ "/auth/logout", Public ELogout)]%string.

Definition RegisterUserRoutes (router : string) : list entry :=
  [("GET", router +:+ "/users/me", JwtFiltered EMe);
   ("GET", router +:+ "/auth/verify", JwtFiltered EMe)]%string.

Definition RegisterApikeyRoutes (api : string) : list entry :=
  [("POST", api +:+ "/api-keys", JwtFiltered EKeyCreate);
   ("GET", api +:+ "/api-keys", JwtFiltered EKeyList);
   ("PATCH", api +:+ "/api-keys/:id", JwtFiltered EKeyUpdate);
   ("PUT", api +:+ "/api-keys/:id/accounts", JwtFiltered EKeyAccounts);
   ("DELETE", api +:+ "/api-keys/:id", JwtFiltered EKeyDelete)]%string.

Definition RegisterExternalRoutes (api : string) : list entry :=
  [("POST", api +:+ "/external-api-keys", JwtFiltered EExtCreate);
   ("GET", api +:+ "/external-api-keys", JwtFiltered EExtList);
   ("PUT", api +:+ "/external-api-keys/:id", JwtFiltered EExtUpdate);
   ("DELETE", api +:+ "/external-api-keys/:id", JwtFiltered EExtDelete)]%string.

Definition RegisterOauthRoutes (api : string) : list entry :=
  [("GET", api +:+ "/login", JwtFiltered EOauthLogin);
   ("GET", api +:+ "/callback", Public EOauthCallback);
   ("GET", api +:+ "/list", JwtFiltered EOauthList);
   ("POST", api +:+ "/refresh", JwtFiltered EOauthRefresh);
   ("POST", api +:+ "/delete", JwtFiltered EOauthDelete);
   ("POST", api +:+ "/logindevice", JwtFiltered EDeviceLogin);
   ("POST", api +:+ "/callbackdevice", JwtFiltered EDeviceCallback)]%string.

Definition RegisterChatRoutes (api : string) : list entry :=
  [("POST", api +:+ "/v1/messages", KeyFiltered FormatClaude);
   ("POST", api +:+ "/v1/responses", KeyFiltered FormatOpenAIResponse);
   ("POST", api +:+ "/v1/chat/completions", KeyFiltered FormatOpenAI)]%string.

Definition registerHealthRoutes : list entry :=
  [("GET", "/", Public EHealth); ("GET", "/api/health", Public EHealth);
   ("GET", "/health/live", Public EHealth); ("GET", "/health/ready", Public EReady)]%string.

Definition newRouter : list entry :=
  registerHealthRoutes ++ [("GET", "/ping", Public EPing)]%string ++
  RegisterAuthRoutes "/api/v1" ++ RegisterUserRoutes "/api/v1" ++ RegisterApikeyRoutes "/api/v1" ++
  RegisterExternalRoutes "/api/v1" ++ RegisterOauthRoutes "/oauth" ++ RegisterChatRoutes "".

(** Gin: the entry for a method and a path with the parameter [id], or the status
    of the answer it gives itself. *)
Class Gin := gin_find : list entry → string → string → target * string + (Z * string).

Class GinLaws `{Gin} : Prop := {
  gin_find_registered routes method path t id :
    gin_find routes method path = inl (t, id) → ∃ pattern, (method, pattern, t) ∈ routes
}.

(** Gin's binding with its validator, for every kind of body, and the decoding of
    a time in an update. *)
Class Binding := {
  bind_login : res string → option LoginRequest;
  bind_register : res string → option RegisterRequest;
  bind_create_key : res string → option CreatApikeyRequest;
  bind_update_key : res string → option UpdateApikeyRequest;
  bind_accounts : res string → option ReplaceApikeyAccountsRequest;
  bind_external : res string → option ExternalApikeyRequest;
  bind_device : res string → option string;
  bind_id : res string → option N;
  bind_time : string → option (option time)
}.

(** The pings of the readiness check. *)
Class Probes := { ping_database : nat → bool; ping_redis : nat → bool; upstream_serving : nat → bool }.

(** What the handlers are made with. *)
Record application := {
  ap_Environment : string; ap_CookieSecure : bool; ap_auth : AuthService; ap_oauth : OauthService;
  ap_encryptionKey : string; ap_registry : Registry; ap_injected : bool; ap_upstream : bool
}.

Section router.
Context `{Env} `{Aead} `{Bcrypt} `{JwtLib} `{UpstreamClient} `{OAuth2} `{Oauth.Json LoginFlow} `{Oauth.Json deviceLoginFlow}.
Context `{UrlParser} `{ChatClient} `{Sdk} `{Gin} `{Binding} `{Probes}.
Context (claims_json : string → option IDTokenClaims).

Definition newRequestID : M string :=
  value ← wrap_err "read random bytes" (rand_bytes 16);
  mret (format_id (set_bytes 0 value)).

(** The identifier of the request, [None] when there is none to be made. *)
Definition RequestID (header : string) : M (option string) :=
  if validRequestID header then mret (Some header)
  else r ← attempt newRequestID;
       mret (match r with inl requestID => Some requestID | inr _ => None end).

Definition Recovery (m : M api_answer) : M api_answer := λ w,
  match m w with
  | (Panic, w') => (Ok (AnswerMessage 500 "internal server error"), w')
  | r => r
  end.

(** cmd/api/health.go: the checks in order, the first that fails decides. *)
Definition probe (ping : nat → bool) : M bool := λ w, (Ok (ping (w_step w)), tick w).

Definition ready (a : application) : M api_answer :=
  probe ping_database ≫= λ db : bool,
  if negb db then mret AnswerUnavailable else
  probe ping_redis ≫= λ redis : bool,
  if negb redis then mret AnswerUnavailable else
  if ap_upstream a && negb (bool_decide (os_oidcAuth (ap_oauth a) = ∅)) then
    probe upstream_serving ≫= λ serving : bool,
    mret (if serving then AnswerHealth (ap_Environment a) else AnswerUnavailable)
  else mret (AnswerHealth (ap_Environment a)).

Definition answering {D} (f : reply D → api_answer) (m : M (reply D)) : M api_answer := r ← m; mret (f r).

(** The handler of an endpoint, with the user the access token names and the
    parameter of the path. *)
Definition endpoint_handler (a : application) (e : endpoint) (user : option ctx_value) (id : string) (r : request) :
  M api_answer :=
  let body := rq_Body r in
  match e with
  | EHealth => mret (AnswerHealth (ap_Environment a))
  | EReady => ready a
  | EPing => mret AnswerPing
  | ELogin => answering AnswerAuth (Login_handler (ap_auth a) (ap_CookieSecure a) (bind_login body))
  | ERegister => answering AnswerAuth (Register_handler (bind_register body))
  | ERefresh => answering AnswerAuth (Refresh_handler (ap_auth a) (ap_CookieSecure a) (rq_RefreshCookie r))
  | ELogout => answering AnswerAuth (Logout_handler (ap_CookieSecure a) (rq_RefreshCookie r))
  | EMe => answering AnswerUser (GetCurrentUser user)
  | EKeyCreate => answering AnswerKeys (CreatApikey_handler user (bind_create_key body))
  | EKeyList => answering AnswerKeys (ApikeyList_handler user)
  | EKeyUpdate => answering AnswerKeys (UpdateApikey_handler bind_time user id (bind_update_key body))
  | EKeyAccounts => answering AnswerKeys (ReplaceApikeyAccounts_handler user id (bind_accounts body))
  | EKeyDelete => answering AnswerKeys (DeleteApikey_handler user id)
  | EExtCreate => answering AnswerExternal (CreatExternalApiKey (ap_encryptionKey a) user (bind_external body))
  | EExtList => answering AnswerExternal (List_handler user)
  | EExtUpdate => answering AnswerExternal (UpdateExternalApiKey (ap_encryptionKey a) user id (bind_external body))
  | EExtDelete => answering AnswerExternal (DeleteExternalApiKey user id)
  | EOauthLogin => answering AnswerOauth (Oauth.Login (ap_oauth a) user (rq_Query r "provider") (rq_Accept r))
  | EOauthCallback => answering AnswerOauth (Callback claims_json (ap_oauth a) (rq_Query r "state") (rq_Query r "error")
                        (rq_Query r "code") (rq_Accept r))
  | EOauthList => answering AnswerOauth (OauthList_handler (ap_oauth a) user)
  | EOauthRefresh => answering AnswerOauth (RefreshToken_handler claims_json (ap_oauth a) user (bind_id body))
  | EOauthDelete => answering AnswerOauth (Delete_handler (ap_oauth a) user (bind_id body))
  | EDeviceLogin => answering AnswerOauth (LoginDeviceFlow (ap_oauth a) user (rq_Query r "provider"))
  | EDeviceCallback => answering AnswerOauth (CallbackDeviceFlow claims_json (ap_oauth a) user (rq_Query r "provider")
                         (rq_Accept r) (bind_device body))
  end%string.

(** A route: its filter, then its handler. *)
Definition run_target (a : application) (t : target) (id : string) (r : request) : M api_answer :=
  match t with
  | Public e => endpoint_handler a e None id r
  | JwtFiltered e =>
      f ← JwtFilter (D := unit) (as_jwtManager (ap_auth a)) (rq_Authorization r);
      match f with
      | inl who => endpoint_handler a e (Some (CtxUint64 (id_userID who))) id r
      | inr denied => mret (AnswerDenied denied)
      end
  | KeyFiltered clientFormat =>
      f ← chat_route (ap_registry a) (ap_encryptionKey a) (ap_injected a) (rq_Flushes r) clientFormat
            (rq_Authorization r) (rq_Body r);
      mret (match f with inl answer => AnswerChat answer | inr denied => AnswerDenied denied end)
  end.

(** A request through the middleware and the router; the header the answer
    carries is the request's identifier. *)
Definition serve_request (a : application) (r : request) : M (option string * api_answer) :=
  requestID ← RequestID (rq_RequestID r);
  match requestID with
  | None => mret (None, AnswerMessage 500 "failed to create request id")
  | Some requestID =>
      answer ← Recovery
        (match gin_find newRouter (rq_Method r) (rq_Path r) with
         | inl (t, id) => run_target a t id r
         | inr (status, message) => mret (AnswerMessage status message)
         end);
      mret (Some requestID, answer)
  end.
End router.
