(* ===== verification/RouterSpec.v ===== *)
(** The contract of the API process as a whole: every request is answered and
    carries an identifier, a request without a valid access token gets nowhere on
    the routes of the users, and no request changes the rows of a user it was not
    authenticated as. *)

From S2P Require Import Prelude.
From S2P Require Import GoStrings.
From S2P Require Import Schema.
From S2P Require Import Integrity.
From S2P Require Import Stores.
From S2P Require Import World.
From S2P Require Import Tenants.
From S2P Require Import Security.
From S2P Require Import Http.
From S2P Require Import NetUrl.
From S2P Require Import Sim.
From S2P Require Import JsonFacts.
From S2P Require Import RefreshTokens.
From S2P Require Import Directory.
From S2P Require Import Rbac.
From S2P Require Import Jwt.
From S2P Require Import User.
From S2P Require Import Auth.
From S2P Require Import Route.
From S2P Require Import Translator.
From S2P Require Import Chat.
From S2P Require Import Oauth.
From S2P Require Import OauthFacts.
From S2P Require Import OauthSim.
From S2P Require Import OauthSpec.
From S2P Require Import Apikey.
From S2P Require Import ApikeyFacts.
From S2P Require Import ApikeySpec.
From S2P Require Import ExternalApikey.
From S2P Require Import ExternalApikeySpec.
From S2P Require Import ChatHandler.
From S2P Require Import ChatHandlerSpec.
From S2P Require Import Router.

Local Open Scope list_scope.
Local Open Scope N_scope.

(** * Computations that leave a user's rows alone *)

Definition lives (u : N) (d : db) : Prop := select (λ r, usr_ID r =? u) (t_users d) ≠ [].

(** The tables stay well formed and the users of [P] keep their rows. *)
Definition spares_from (P : N → Prop) (w w' : world) : Prop :=
  db_wf (w_db w) → db_wf (w_db w') ∧
  ∀ u, P u → lives u (w_db w) → rows_of u (w_db w') = rows_of u (w_db w).

Definition spares (P : N → Prop) {A} (m : M A) (w : world) : Prop := spares_from P w (m w).2.

Definition keeps (P : N → Prop) {A} (m : M A) : Prop := ∀ w, spares P m w.

Definition others (P : N → Prop) (v : N) : Prop := ∀ u, P u → u ≠ v.

(** A handler's computation: it never fails, its errors are answers. *)
Definition answers {A} (m : M A) : Prop := ∀ w e, (m w).1 ≠ Err e.

Lemma lives_rows u d d' : rows_of u d' = rows_of u d → lives u d → lives u d'.
Proof. unfold lives, rows_of. intros [= -> _ _ _ _ _]. done. Qed.

Create HintDb keeps.
Create HintDb answers.

Section closure.
Context `{EnvLaws} (P : N → Prop).

Lemma keeps_same {A} (m : M A) : (∀ w, w_db (m w).2 = w_db w) → keeps P m.
Proof. intros Hm w Hwf. by rewrite Hm. Qed.

Lemma keeps_ret {A} (a : A) : keeps P (mret a).
Proof. by apply keeps_same. Qed.
Lemma keeps_throw {A} e : keeps P (@throw A e).
Proof. by apply keeps_same. Qed.
Lemma keeps_lift {A} (r : res A) : keeps P (lift r).
Proof. by apply keeps_same. Qed.
Lemma keeps_reject_if b e : keeps P (reject_if b e).
Proof. apply keeps_same. by destruct b. Qed.
Lemma keeps_Now : keeps P Now.
Proof. by apply keeps_same. Qed.
Lemma keeps_rand n : keeps P (rand_bytes n).
Proof. by apply keeps_same. Qed.
Lemma keeps_rds {A} (c : rcmd A) : keeps P (rds c).
Proof. apply keeps_same. intros w. unfold rds. by destruct (redis_exec _ _ _). Qed.
Lemma keeps_cas {A} (k : ccmd A) : keeps P (cas k).
Proof. apply keeps_same. intros w. unfold cas. by destruct (casbin_exec _ _ _). Qed.
Lemma keeps_rpc {A} (call : nat → rpc_result A) translate empty : keeps P (rpc call translate empty).
Proof. apply keeps_same. intros w. unfold rpc. by destruct (call _) as [[a|]|e]. Qed.

Lemma spares_bind {A B} (m : M A) (f : A → M B) w :
  spares P m w → (∀ a, (m w).1 = Ok a → spares P (f a) (m w).2) → spares P (m ≫= f) w.
Proof.
  unfold spares, spares_from, mbind, M_bind. intros Hm Hf Hwf. destruct (Hm Hwf) as [Hwf' Hr].
  destruct (m w) as [[a|e|] w1]; [|done..]. cbn in *.
  destruct (Hf a eq_refl Hwf') as [Hwf2 Hr2]. split; [done|]. intros u Hu Hl.
  rewrite Hr2; [by apply Hr|done|]. by eapply lives_rows; [apply Hr|].
Qed.

Lemma keeps_bind {A B} (m : M A) (f : A → M B) : keeps P m → (∀ a, keeps P (f a)) → keeps P (m ≫= f).
Proof. intros Hm Hf w. apply spares_bind; [apply Hm|]. intros a _. apply Hf. Qed.

Lemma spares_attempt {A} (m : M A) w : spares P m w → spares P (attempt m) w.
Proof. unfold spares, spares_from, attempt. by destruct (m w) as [[a|e|] w1]. Qed.

Lemma keeps_attempt {A} (m : M A) : keeps P m → keeps P (attempt m).
Proof. intros Hm w. apply spares_attempt, Hm. Qed.

Lemma keeps_wrap_err {A} msg (m : M A) : keeps P m → keeps P (wrap_err msg m).
Proof.
  intros Hm. apply keeps_bind; [by apply keeps_attempt|]. intros [a|e]; [apply keeps_ret|apply keeps_throw].
Qed.

Lemma keeps_select t p le : keeps P (sql (Select t p le)).
Proof.
  apply keeps_same. intros w. apply (wp_sql (Select t p le) (λ _ w', w_db w' = w_db w)); [done|]. by destruct w.
Qed.
Lemma keeps_join t t' p le : keeps P (sql (Join t t' p le)).
Proof.
  apply keeps_same. intros w. apply (wp_sql (Join t t' p le) (λ _ w', w_db w' = w_db w)); [done|]. by destruct w.
Qed.
Lemma keeps_First t p : keeps P (First t p).
Proof. apply keeps_bind; [apply keeps_select|]. intros [|r l]; [apply keeps_throw|apply keeps_ret]. Qed.

(** An operation with its own rule. *)
Lemma keeps_wp {A} (m : M A) :
  preserves_wf m →
  (∀ u w, P u → db_wf (w_db w) → lives u (w_db w) →
     wp m (λ _ w', rows_of u (w_db w') = rows_of u (w_db w)) w) →
  keeps P m.
Proof. intros Hp Hm w Hwf. split; [by apply Hp|]. intros u Hu Hl. by apply Hm. Qed.

Lemma keeps_handle {A D} (m : M A) (k : A + gerror → reply D) : keeps P m → keeps P (handle m k).
Proof. intros Hm. unfold handle. apply keeps_bind; [by apply keeps_attempt|]. intros r. apply keeps_ret. Qed.

Lemma keeps_or_reply {A} (m : M A) on_error k :
  keeps P m → (∀ a, keeps P (k a)) → keeps P (or_reply m on_error k).
Proof.
  intros Hm Hk. unfold or_reply. apply keeps_bind; [by apply keeps_attempt|].
  intros [a|e]; [apply Hk|apply keeps_ret].
Qed.

(** * The laws of [answers] *)

Lemma answers_ret {A} (a : A) : answers (mret a).
Proof. by intros w e. Qed.
Lemma answers_panic {A} : answers (lift (A := A) Panic).
Proof. by intros w e. Qed.
Lemma answers_Now : answers Now.
Proof. by intros w e. Qed.
Lemma answers_attempt {A} (m : M A) : answers (attempt m).
Proof. intros w e. unfold attempt. by destruct (m w) as [[a|e'|] w']. Qed.
Lemma answers_bind {A B} (m : M A) (f : A → M B) : answers m → (∀ a, answers (f a)) → answers (m ≫= f).
Proof.
  intros Hm Hf w e. unfold mbind, M_bind. specialize (Hm w).
  destruct (m w) as [[a|e'|] w']; [apply Hf|by destruct (Hm e')|done].
Qed.
End closure.

#[export] Hint Resolve keeps_ret keeps_throw keeps_lift keeps_reject_if keeps_Now keeps_rand keeps_rds keeps_cas
  keeps_rpc keeps_First : keeps.
#[export] Hint Extern 1 (keeps _ (sql (Select ?t ?p ?le))) => apply (keeps_select _ t p le) : keeps.
#[export] Hint Extern 1 (keeps _ (sql (Join ?t ?t' ?p ?le))) => apply (keeps_join _ t t' p le) : keeps.
#[export] Hint Resolve answers_ret answers_panic answers_Now answers_attempt : answers.

(** Through the structure of an operation, down to effects and known operations. *)
Ltac keep :=
  repeat first
    [ progress intros
    | solve [auto with keeps]
    | lazymatch goal with
      | |- keeps _ (mbind _ _) => apply keeps_bind
      | |- keeps _ (attempt _) => apply keeps_attempt
      | |- keeps _ (wrap_err _ _) => apply keeps_wrap_err
      | |- keeps _ (handle _ _) => apply keeps_handle
      | |- keeps _ (or_reply _ _ _) => apply keeps_or_reply
      end
    | match goal with
      | |- keeps _ (match ?x with _ => _ end) => destruct x eqn:?
      | |- keeps _ (let _ := ?x in _) => cbv zeta
      end ].

Lemma answers_handled {A D} (m : M A) (k : A + gerror → reply D) : answers (handle m k).
Proof. apply answers_bind; auto with answers. Qed.
Lemma answers_or_reply {A} (m : M A) on_error k : (∀ a, answers (k a)) → answers (or_reply m on_error k).
Proof. intros Hk. apply answers_bind; [auto with answers|]. intros [a|e]; auto with answers. Qed.

#[export] Hint Resolve answers_handled : answers.

Ltac answer :=
  repeat first
    [ progress intros
    | solve [auto with answers]
    | lazymatch goal with
      | |- answers (mbind _ _) => apply answers_bind
      | |- answers (or_reply _ _ _) => apply answers_or_reply
      end
    | match goal with
      | |- answers (match ?x with _ => _ end) => destruct x
      | |- answers (let _ := ?x in _) => cbv zeta
      end ].


(** * The operations *)

Section operations.
Context `{EnvLaws} `{AeadLaws} `{Bcrypt} `{JwtLib} `{UpstreamClient} `{OAuth2}.
Context `{Json LoginFlow} `{Json deviceLoginFlow} `{UrlParser} `{ChatClient} `{Sdk}.
Context (claims_json : string → option IDTokenClaims) (P : N → Prop).

Lemma keeps_HashPassword p : keeps P (HashPassword p).
Proof. by apply keeps_same. Qed.

Lemma keeps_authorization id role : keeps P (AuthorizationForUser id role).
Proof. unfold AuthorizationForUser, wrap_err. keep. Qed.

Lemma keeps_find_user p : keeps P (find_user p).
Proof. unfold find_user. keep. Qed.

Hint Resolve keeps_HashPassword keeps_authorization keeps_find_user : keeps.

Lemma lives_user u d : lives u d → ∃ r, r ∈ t_users d ∧ usr_ID r = u.
Proof.
  unfold lives. destruct (select _ _) as [|r l] eqn:Hs; [done|]. intros _. exists r.
  assert (Hr : r ∈ select (λ r, usr_ID r =? u) (t_users d)) by (rewrite Hs; left).
  apply elem_of_select in Hr as [?%N.eqb_eq ?]. done.
Qed.

(** A new account is nobody's who has one. *)
Lemma rows_of_user_added u r d d' : db_wf d → lives u d → user_added r d d' → rows_of u d' = rows_of u d.
Proof.
  intros Hwf Hl (-> & Hid & _). unfold rows_of. cbn. rewrite select_app.
  replace (select (λ r, usr_ID r =? u) [r]) with (@nil User); [by rewrite app_nil_r|].
  cbn. destruct (N.eqb_spec (usr_ID r) u) as [Heq|]; [|done]. exfalso.
  apply lives_user in Hl as (v & Hv & Hvu). destruct (tk_id _ _ (Hwf users) eq_refl) as [_ Hlt].
  specialize (Hlt v Hv). cbn in Hlt. lia.
Qed.

Lemma keeps_AddUser username hash role : keeps P (AddUser username hash role).
Proof.
  apply keeps_wp; [unfold AddUser; preserve|]. intros u w _ Hwf Hl.
  apply wp_Create_user; [done|intros; congruence..|].
  intros r w' _ _ _ _ Hadd. by eapply rows_of_user_added.
Qed.

Hint Resolve keeps_AddUser : keeps.

Lemma keeps_access_token s a : keeps P (accessTokenForUser s a).
Proof. unfold accessTokenForUser, GenerateTokenWithPermissions. keep. Qed.

Lemma keeps_create_refresh id ttl : keeps P (CreateRefreshToken id ttl).
Proof. unfold CreateRefreshToken, newRefreshToken, wrap_err. keep. Qed.

Lemma keeps_rotate old ttl : keeps P (RotateRefreshToken old ttl).
Proof. unfold RotateRefreshToken, newRefreshToken, wrap_err. keep. Qed.

Hint Resolve keeps_access_token keeps_create_refresh keeps_rotate : keeps.

Lemma keeps_Login s l : keeps P (Auth.Login s l).
Proof. unfold Auth.Login, GetUserAuthByUsername, issueTokensForUser. keep. Qed.
Lemma keeps_Register r : keeps P (Register r).
Proof. unfold Register. keep. Qed.
Lemma keeps_Refresh s t : keeps P (Refresh s t).
Proof. unfold Refresh, GetUserAuthByID. keep. Qed.
Lemma keeps_Logout t : keeps P (Logout t).
Proof. unfold Logout, DeleteRefreshToken. keep. Qed.

Lemma keeps_GetUserByID id : keeps P (GetUserByID id).
Proof. unfold GetUserByID, repo_GetUserByID. keep. Qed.

Hint Resolve keeps_Login keeps_Register keeps_Refresh keeps_Logout keeps_GetUserByID : keeps.

(** What a user asks of the keys concerns the rows of that user. *)
Lemma keeps_perform v r : others P v → keeps P (perform v r).
Proof.
  intros Hne. apply keeps_wp; [apply preserves_perform|]. intros u w Hu Hwf _.
  eapply wp_mono; [|by apply (wp_perform u v); [|apply Hne]]. by intros x w' [_ Hr].
Qed.

Lemma keeps_ignored {A} (m : M A) : keeps P (_ ← m; mret tt) → keeps P m.
Proof.
  intros Hm w Hwf. specialize (Hm w Hwf). revert Hm. unfold mbind, M_bind.
  by destruct (m w) as [[a|e|] w'].
Qed.

Lemma keeps_CreatApikey v ids exts : others P v → keeps P (CreatApikey v ids exts).
Proof. intros Hne. apply keeps_ignored, (keeps_perform v (ReqCreate ids exts) Hne). Qed.
Lemma keeps_UpdateApikey v id disabled expiresAt upd : others P v → keeps P (UpdateApikey v id disabled expiresAt upd).
Proof. apply (keeps_perform v (ReqUpdate id disabled expiresAt upd)). Qed.
Lemma keeps_ReplaceApikeyAccounts v id ids exts : others P v → keeps P (ReplaceApikeyAccounts v id ids exts).
Proof. apply (keeps_perform v (ReqReplace id ids exts)). Qed.
Lemma keeps_DeleteApikey v id : others P v → keeps P (DeleteApikey v id).
Proof. apply (keeps_perform v (ReqDelete id)). Qed.
Lemma keeps_UserApikeyList v : others P v → keeps P (UserApikeyList v).
Proof. intros Hne. apply keeps_ignored, (keeps_perform v ReqList Hne). Qed.

Hint Resolve keeps_CreatApikey keeps_UpdateApikey keeps_ReplaceApikeyAccounts keeps_DeleteApikey
  keeps_UserApikeyList : keeps.

Lemma keeps_ext_handler key v r : others P v → keeps P (ext_handler key (Some (CtxUint64 v)) r).
Proof.
  intros Hne. apply keeps_wp; [apply preserves_ext_handler|]. intros u w Hu Hwf _.
  eapply wp_mono; [|by apply (wp_ext_handler key (Some (CtxUint64 v)) r v w)].
  intros x w' [(rep & _ & _ & Hr) _]. by apply Hr, Hne.
Qed.

Lemma keeps_external_handlers v :
  others P v →
  let user := Some (CtxUint64 v) in
  (∀ key body, keeps P (CreatExternalApiKey key user body)) ∧ keeps P (List_handler user) ∧
  (∀ key id body, keeps P (UpdateExternalApiKey key user id body)) ∧
  (∀ id, keeps P (DeleteExternalApiKey user id)).
Proof.
  intros Hne user. split_and!; intros.
  - by apply (keeps_ext_handler key v (ExtCreate body)).
  - by apply (keeps_ext_handler "" v ExtList).
  - by apply (keeps_ext_handler key v (ExtUpdate id body)).
  - by apply (keeps_ext_handler "" v (ExtDelete id)).
Qed.

(** * The accounts *)

Lemma keeps_SaveToken o token flow isbrowser :
  others P (lf_UserID flow) → keeps P (svc_SaveToken claims_json o token flow isbrowser).
Proof.
  intros Hne. apply keeps_wp; [apply preserves_SaveToken|].
  intros u w Hu Hwf _. apply wp_SaveToken; [done|by intros e w' -> _|].
  intros w' (raw & v & n & claims & row & _ & _ & _ & _ & _ & _ & _ & _ & _ & Hrow & Hadd).
  eapply rows_of_oauth_added; [|done..]. by apply Hne.
Qed.

Lemma keeps_RefreshToken o ownerID id : others P ownerID → keeps P (svc_RefreshToken claims_json o ownerID id).
Proof.
  intros Hne. apply keeps_wp.
  - unfold svc_RefreshToken, GetOwnedTokenForUpdate, refreshTokenCredentials, UpdateToken, token_expired, verifyIDToken,
      Verifier, RefreshToken, Encrypt, wrap_err, deref. preserve.
  - intros u w Hu Hwf _. apply wp_svc_RefreshToken; [done|by intros e w' -> _|].
    intros model m now w' _ _ _ ->. apply rows_of_tokens_updated. by apply Hne.
Qed.

Lemma keeps_deleteUserOauth o id ownerID : others P ownerID → keeps P (svc_deleteUserOauth o id ownerID).
Proof.
  intros Hne. unfold svc_deleteUserOauth, deref. destruct (os_repository o); [|apply keeps_lift]. apply keeps_wp.
  - unfold repo_deleteUserOauth. preserve.
  - intros u w Hu Hwf _. apply wp_repo_deleteUserOauth; [done|by intros e w' -> _|by intros w' _ ->|].
    intros w' _ ->. apply rows_of_account_removed. by apply Hne.
Qed.

(** * The handlers *)

Lemma keeps_auth_handlers :
  (∀ s secure l, keeps P (Login_handler s secure l)) ∧ (∀ r, keeps P (Register_handler r)) ∧
  (∀ s secure t, keeps P (Refresh_handler s secure t)) ∧ (∀ secure t, keeps P (Logout_handler secure t)).
Proof.
  unfold Login_handler, Register_handler, Refresh_handler, Logout_handler.
  split_and!; keep.
Qed.

Lemma keeps_me user : keeps P (GetCurrentUser user).
Proof. unfold GetCurrentUser. keep. Qed.

Lemma request_ids_user v param v' id : apikeyRequestIDs (Some (CtxUint64 v)) param = inl (v', id) → v' = v.
Proof. unfold apikeyRequestIDs. repeat case_match; intros; simplify_eq; done. Qed.

Lemma user_identity_user v v' : user_identity (Some (CtxUint64 v)) = Some v' → v' = v.
Proof. unfold user_identity. case_match; congruence. Qed.

Lemma getUserid_user v v' : getUserid (Some (CtxUint64 v)) = Some v' → v' = v.
Proof. unfold getUserid. case_match; congruence. Qed.

Lemma keeps_key_handlers v :
  others P v →
  let user := Some (CtxUint64 v) in
  (∀ c, keeps P (CreatApikey_handler user c)) ∧ keeps P (ApikeyList_handler user) ∧
  (∀ json_time id up, keeps P (UpdateApikey_handler json_time user id up)) ∧
  (∀ id rp, keeps P (ReplaceApikeyAccounts_handler user id rp)) ∧ (∀ id, keeps P (DeleteApikey_handler user id)).
Proof.
  intros Hne user. unfold user, CreatApikey_handler, ApikeyList_handler, UpdateApikey_handler, ReplaceApikeyAccounts_handler,
    DeleteApikey_handler.
  split_and!; keep;
    repeat match goal with
    | E : apikeyRequestIDs _ _ = inl _ |- _ => apply request_ids_user in E; subst
    | E : user_identity _ = Some _ |- _ => apply user_identity_user in E; subst
    end; auto with keeps.
Qed.

Lemma keeps_credentials key ctx_err accounts : keeps P (getCredential key ctx_err accounts).
Proof. unfold getCredential. keep. Qed.

Lemma keeps_checkOauth injected raw model : keeps P (checkOauth injected raw model).
Proof. unfold checkOauth, GetOauthByApikey, key_unusable. keep. Qed.

Hint Resolve keeps_credentials keeps_checkOauth : keeps.

Lemma keeps_ChatStream body secret mode endpoint h p hs : keeps P (ChatStream body secret mode endpoint h p hs).
Proof. apply keeps_same. intros w. unfold ChatStream. by destruct (rpc_ChatStream _ _). Qed.

Hint Resolve keeps_ChatStream : keeps.

(** No chat request changes a table. *)
Lemma keeps_chat_route reg key injected flushes fmt auth body :
  keeps P (chat_route reg key injected flushes fmt auth body).
Proof.
  unfold chat_route, ApikeyFilter, Chat_handler, ChatStream_service, Chat.ChatNonStream, ask_upstream, chatStream,
    Directory.ChatNonStream.
  keep.
Qed.

(** * The accounts *)

Lemma keeps_or_panic {A} set (m : M A) : keeps P m → keeps P (deref set m).
Proof. intros Hm. destruct set; [done|apply keeps_lift]. Qed.

Lemma keeps_PopFlow o state : keeps P (PopFlow o state).
Proof. unfold PopFlow, DeleteState. keep. apply keeps_or_panic. keep. Qed.

Lemma keeps_StoreFlow o state flow : keeps P (StoreFlow o state flow).
Proof. unfold StoreFlow, of_sum, SetState. keep. apply keeps_or_panic. keep. Qed.

Lemma keeps_GetDeviceFlowCode o provider : keeps P (svc_GetDeviceFlowCode o provider).
Proof. unfold svc_GetDeviceFlowCode, GetDeviceFlowCode. keep. Qed.
Lemma keeps_storeDeviceFlow o flow : keeps P (storeDeviceFlow o flow).
Proof. unfold storeDeviceFlow, of_sum. keep. Qed.
Lemma keeps_popDeviceFlow o authID provider ownerID : keeps P (popDeviceFlow o authID provider ownerID).
Proof. unfold popDeviceFlow, readDeviceFlow, consumeDeviceFlow. keep. Qed.
Lemma keeps_Poll o authID code i provider : keeps P (Poll o authID code i provider).
Proof. unfold Poll, PollDeviceFlow. keep. Qed.
Lemma keeps_Exchange o c verifier provider ft : keeps P (svc_Exchange o c verifier provider ft).
Proof. unfold svc_Exchange, Exchange. keep. Qed.

Hint Resolve keeps_PopFlow keeps_StoreFlow keeps_GetDeviceFlowCode keeps_storeDeviceFlow keeps_popDeviceFlow
  keeps_Poll keeps_Exchange keeps_SaveToken keeps_RefreshToken keeps_deleteUserOauth : keeps.

Lemma keeps_account_handlers v :
  others P v →
  let user := Some (CtxUint64 v) in
  (∀ o provider accept, keeps P (Oauth.Login o user provider accept)) ∧
  (∀ o, keeps P (OauthList_handler o user)) ∧ (∀ o id, keeps P (RefreshToken_handler claims_json o user id)) ∧
  (∀ o id, keeps P (Delete_handler o user id)) ∧ (∀ o provider, keeps P (LoginDeviceFlow o user provider)) ∧
  (∀ o provider accept body, keeps P (CallbackDeviceFlow claims_json o user provider accept body)).
Proof.
  intros Hne user. unfold user, Oauth.Login, OauthList_handler, RefreshToken_handler, Delete_handler, LoginDeviceFlow,
    login_device_steps, CallbackDeviceFlow, callback_device_steps, randomValue, GenerateVerifier, svc_getUserOauth,
    repo_getUserOauth.
  split_and!; keep;
    repeat match goal with
    | E : getUserid _ = Some _ |- _ => apply getUserid_user in E; subst
    end; auto with keeps.
Qed.
End operations.

(** * Identifiers of requests *)

Lemma all_of_app p s t : all_of p (s +:+ t) = all_of p s && all_of p t.
Proof. induction s as [|a s IH]; [done|]. cbn. by rewrite IH, andb_assoc. Qed.

Lemma hex_request_id s : all_of request_id_byte (hex_EncodeToString s) = true.
Proof.
  assert (Hd : ∀ n, n < 16 → request_id_byte (hex_digit n) = true)
    by by apply (below_16 (λ m, request_id_byte (hex_digit m))).
  induction s as [|a s IH]; [done|]. cbn [hex_EncodeToString all_of]. pose proof (N_ascii_bounded a).
  rewrite IH, !Hd; [done|by apply N.mod_lt|apply N.Div0.div_lt_upper_bound; lia].
Qed.

Lemma length_set_bytes i s : String.length (set_bytes i s) = String.length s.
Proof. revert i. induction s as [|a s IH]; intros i; cbn; congruence. Qed.

Lemma length_substring_at i n s : (i + n ≤ String.length s)%nat → String.length (substring i n s) = n.
Proof.
  revert s. induction i as [|i IH]; intros s Hl; [by apply length_substring|].
  destruct s as [|a s]; cbn in Hl |- *; [lia|]. apply IH. lia.
Qed.

(** An identifier that is made has 36 bytes, and is one a client could send. *)
Lemma format_id_valid value :
  String.length value = 16%nat →
  String.length (format_id value) = 36%nat ∧ validRequestID (format_id value) = true.
Proof.
  intros Hl. assert (Hlen : String.length (format_id value) = 36%nat).
  { unfold format_id. rewrite !length_str_app, !length_hex, !length_substring_at by lia. done. }
  split; [done|]. unfold validRequestID. rewrite Hlen. cbn [andb Nat.leb].
  unfold format_id. by rewrite !all_of_app, !hex_request_id.
Qed.

(** * Requests *)

Section requests.
Context `{EnvLaws} `{AeadLaws} `{Bcrypt} `{JwtLib} `{UpstreamClient} `{OAuth2}.
Context `{Json LoginFlow} `{Json deviceLoginFlow} `{UrlParser} `{ChatClient} `{Sdk} `{Gin} `{Binding} `{Probes}.
Context (claims_json : string → option IDTokenClaims).

(** The owner of a login flow that is stored under a state. *)
Definition flow_owner (state : string) (r : Stores.redis) (u : N) : Prop :=
  ∃ e flow, r !! oidcStateKey state = Some e ∧ json_Unmarshal (A := LoginFlow) e.1 = Some flow ∧ lf_UserID flow = u.

(** A bearer token that is accepted at some instant and names a user. *)
Definition bearer (m : JWTManager) (authorization : string) (u : N) : Prop :=
  ∃ n scheme tok c, Fields authorization = [scheme; tok] ∧ EqualFold scheme "Bearer" = true ∧
    jwt_ParseWithClaims (now_at n) (jm_secret m) (jm_issuer m) (jm_audience m) tok = Some c ∧
    ParseUint (cm_Subject c) 64 = Some u ∧ u ≠ 0.

(** The user a request may act for: the one of its token on the routes of the
    users, the one who began the login on the callback; nobody elsewhere. *)
Definition acts_for (a : application) (r : request) (redis : Stores.redis) (u : N) : Prop :=
  match gin_find newRouter (rq_Method r) (rq_Path r) with
  | inl (JwtFiltered _, _) => bearer (as_jwtManager (ap_auth a)) (rq_Authorization r) u
  | inl (Public EOauthCallback, _) => flow_owner (rq_Query r "state") redis u
  | _ => False
  end.

Lemma wp_filter {D} m authorization (Q : res (identity + reply D) → world → Prop) w :
  (∀ w' rep, w_db w' = w_db w → w_redis w' = w_redis w → w_casbin w' = w_casbin w →
     reply_status rep = 401%Z → Q (Ok (inr rep)) w') →
  (∀ w' i, w_db w' = w_db w → w_redis w' = w_redis w → w_casbin w' = w_casbin w →
     bearer m authorization (id_userID i) → Q (Ok (inl i)) w') →
  wp (JwtFilter (D := D) m authorization) Q w.
Proof.
  intros Hno Hok. unfold JwtFilter.
  destruct (Fields authorization) as [|scheme [|tok [|]]] eqn:Hf; try (wp_step; by apply Hno).
  destruct (EqualFold scheme "Bearer") eqn:Hb; [|wp_step; by apply Hno].
  unfold ParseToken. do 4 wp_step. destruct (jwt_ParseWithClaims _ _ _ _ _) as [c|] eqn:Hp; wp_step;
    [|wp_step; by apply Hno].
  destruct (ParseUint (cm_Subject c) 64) as [v|] eqn:Hv; [|wp_step; by apply Hno].
  destruct (v =? 0) eqn:Hz; prop_guards; wp_step; [by apply Hno|].
  apply Hok; try done. by exists (w_step w), scheme, tok, c.
Qed.

Lemma answers_probe ping : answers (probe ping).
Proof. by intros w e. Qed.

Lemma answers_chat_route reg key injected flushes fmt auth body :
  answers (chat_route reg key injected flushes fmt auth body).
Proof. unfold chat_route, ApikeyFilter, Chat_handler, ChatStream_service. answer. Qed.

Hint Resolve answers_probe answers_chat_route : answers.

Lemma answers_endpoint a e user id r : answers (endpoint_handler claims_json a e user id r).
Proof.
  destruct e; cbn [endpoint_handler]; unfold answering, ready, Login_handler, Register_handler, Refresh_handler,
    Logout_handler, GetCurrentUser, CreatApikey_handler, ApikeyList_handler, UpdateApikey_handler,
    ReplaceApikeyAccounts_handler, DeleteApikey_handler, CreatExternalApiKey, List_handler, UpdateExternalApiKey,
    DeleteExternalApiKey, Oauth.Login, Callback, callback_steps, flow_unusable, OauthList_handler,
    RefreshToken_handler, Delete_handler, LoginDeviceFlow, login_device_steps, CallbackDeviceFlow,
    callback_device_steps, GenerateVerifier; answer.
Qed.

(** * Isolation *)

Lemma PopFlow_owner o state (w : world) flow :
  (PopFlow o state w).1 = Ok flow → flow_owner state (w_redis w) (lf_UserID flow).
Proof.
  intros Hp. destruct (os_redisClient o) eqn:Hr.
  - assert (Hw : wp (PopFlow o state) (λ r _, ∀ flow, r = Ok flow → flow_owner state (w_redis w) (lf_UserID flow)) w).
    { apply wp_PopFlow; [done|done|]. intros f data w' _ Hg Hj _ ? [= <-]. unfold rget in Hg.
      destruct (w_redis w !! oidcStateKey state) as [e|] eqn:He; [|done].
      destruct (live _ e); [|done]. injection Hg as Hg. exists e, f. by rewrite Hg. }
    by apply Hw.
  - revert Hp. unfold PopFlow. by rewrite Hr.
Qed.

Lemma spares_Callback P o state error code accept w :
  (∀ u, P u → ¬ flow_owner state (w_redis w) u) → spares P (Callback claims_json o state error code accept) w.
Proof.
  intros Hu. unfold Callback. apply spares_bind; [|intros a _; apply keeps_ret]. unfold callback_steps.
  destruct (String.eqb state ""); [apply keeps_ret|]. unfold or_reply at 1.
  apply spares_bind; [apply spares_attempt, keeps_PopFlow|]. intros [flow|e] Hp; [|apply keeps_ret].
  assert (Ho : (PopFlow o state w).1 = Ok flow).
  { revert Hp. unfold attempt. by destruct (PopFlow o state w) as [[f|e|] w']; intros [= <-]. }
  apply PopFlow_owner in Ho.
  assert (Hne : others P (lf_UserID flow)) by (intros u Hp' ->; by apply (Hu _ Hp')).
  assert (Hk : keeps P (svc_Exchange o code (lf_Verifier flow) (lf_Provider flow) "browser")) by apply keeps_Exchange.
  assert (Hs : ∀ token, keeps P (svc_SaveToken claims_json o token flow true)) by (intros; by apply keeps_SaveToken).
  unfold flow_unusable.
  match goal with |- spares _ _ ?w' => generalize w' end. change (keeps P (flow_unusable flow ≫= λ unusable : bool,
    if unusable then mret (Error 400 400 "invalid_state")
    else if negb (String.eqb error "") then mret (Error 400 400 "provider denied")
    else if String.eqb code "" then mret (Error 400 400 "missing code")
    else or_reply (svc_Exchange o code (lf_Verifier flow) (lf_Provider flow) "browser")
        exchange_error_reply (λ token,
      or_reply (svc_SaveToken claims_json o token flow true) save_error_reply (λ _,
      mret (saved_reply accept))))). unfold flow_unusable. keep.
Qed.

Lemma keeps_probe P ping : keeps P (probe ping).
Proof. by apply keeps_same. Qed.

Hint Resolve keeps_probe : keeps.

(** Nobody is authenticated on a public endpoint; behind the filter it is a user. *)
Lemma keeps_endpoint P a e user id r :
  e ≠ EOauthCallback → user = None ∨ (∃ v, user = Some (CtxUint64 v) ∧ others P v) →
  keeps P (endpoint_handler claims_json a e user id r).
Proof.
  intros He Hu.
  assert (Hans : ∀ D (f : reply D → api_answer) m, keeps P m → keeps P (answering f m)).
  { intros D f m Hm. unfold answering. keep. }
  destruct e; try done; cbn [endpoint_handler]; try apply Hans; try apply keeps_auth_handlers; try apply keeps_me;
    try (unfold ready; keep; fail).
  all: destruct Hu as [->|(v & -> & Hne)]; [by apply keeps_same|].
  all: first [apply (keeps_key_handlers P v Hne) | apply (keeps_external_handlers P v Hne)
             | apply (keeps_account_handlers claims_json P v Hne)].
Qed.

(** * The process *)

Definition request_ok (a : application) (r : request) (w : world) (x : res (option string * api_answer)) (w' : world) :
  Prop :=
  (∃ id answer, x = Ok (id, answer) ∧
     match id with
     | Some id => validRequestID id = true ∧ (validRequestID (rq_RequestID r) = true → id = rq_RequestID r)
     | None => validRequestID (rq_RequestID r) = false ∧ answer_status answer = 500%Z ∧ w_db w' = w_db w
     end) ∧
  (db_wf (w_db w) → db_wf (w_db w') ∧
   ∀ u, ¬ acts_for a r (w_redis w) u → lives u (w_db w) → rows_of u (w_db w') = rows_of u (w_db w)).

(** The identifier of a request: the one it brings if it is a valid one, else a
    new one, unless the source of randomness fails. *)
Lemma wp_RequestID header (Q : res (option string) → world → Prop) w :
  (validRequestID header = true → Q (Ok (Some header)) w) →
  (∀ e, validRequestID header = false → fault e → Q (Ok None) (tick w)) →
  (∀ id, validRequestID header = false → validRequestID id = true → String.length id = 36%nat →
     Q (Ok (Some id)) (tick w)) →
  wp (RequestID header) Q w.
Proof.
  intros Hv Hno Hnew. unfold RequestID. destruct (validRequestID header) eqn:Hh; [wp_step; by apply Hv|].
  unfold newRequestID. do 3 wp_step. apply wp_wrap_err. wp_step; [wp_step; by eapply Hno|].
  do 2 wp_step.
  match goal with H : String.length ?v = 16%nat |- _ =>
    destruct (format_id_valid (set_bytes 0 v)) as [? ?]; [by rewrite length_set_bytes|] end.
  by apply Hnew.
Qed.

Lemma spares_same P {A} (m : M A) w : w_db (m w).2 = w_db w → spares P m w.
Proof. intros Hm Hwf. by rewrite Hm. Qed.

(** Behind the route, whoever is not acted for keeps the rows. *)
Lemma spares_target `{!GinLaws} a r t id w P :
  gin_find newRouter (rq_Method r) (rq_Path r) = inl (t, id) → (∀ u, P u → ¬ acts_for a r (w_redis w) u) →
  spares P (run_target claims_json a t id r) w.
Proof.
  intros Hg Hu. pose proof (gin_find_registered _ _ _ _ _ Hg) as [pattern Hin].
  unfold acts_for in Hu. rewrite Hg in Hu. destruct t as [e|e|fmt]; cbn [run_target].
  - destruct (decide (e = EOauthCallback)) as [->|He]; [|by apply keeps_endpoint; [|left]].
    cbn [endpoint_handler]. unfold answering. apply spares_bind; [by apply spares_Callback|].
    intros ans _. apply keeps_ret.
  - assert (He : e ≠ EOauthCallback).
    { intros ->. apply (list_elem_of_fmap_2 snd) in Hin. revert Hin. apply (bool_decide_unpack _). vm_compute. exact I. }
    assert (Hw : wp (JwtFilter (D := unit) (as_jwtManager (ap_auth a)) (rq_Authorization r))
      (λ x w', w_db w' = w_db w ∧ ∀ i, x = Ok (inl i) → others P (id_userID i)) w).
    { apply wp_filter; [by intros; split|]. intros w' i Hd _ _ Hb. split; [done|]. intros i' [= <-] u Hp ->. by apply (Hu _ Hp). }
    destruct Hw as [Hd Hi]. apply spares_bind; [by apply spares_same|].
    intros [i|rep] Hx; [|apply keeps_ret]. apply keeps_endpoint; [done|]. right. eexists. split; [done|by apply Hi].
  - apply keeps_bind; [apply keeps_chat_route|]. intros f. apply keeps_ret.
Qed.

Lemma wp_Recovery (m : M api_answer) (Q : res api_answer → world → Prop) w :
  wp m (λ x w', match x with
                | Panic => Q (Ok (AnswerMessage 500 "internal server error")) w'
                | x => Q x w'
                end) w → wp (Recovery m) Q w.
Proof. unfold wp, Recovery. by destruct (m w) as [[x|e|] w']. Qed.

Lemma Recovery_same (m : M api_answer) w : w_db (Recovery m w).2 = w_db (m w).2.
Proof. unfold Recovery. by destruct (m w) as [[x|e|] w']. Qed.

Lemma answers_target a t id r : answers (run_target claims_json a t id r).
Proof.
  destruct t as [e|e|fmt]; cbn [run_target]; [apply answers_endpoint| |answer].
  apply answers_bind; [|intros [i|rep]; [apply answers_endpoint|apply answers_ret]].
  unfold JwtFilter. answer.
Qed.

(** What is served once the identifier is known. *)
Definition routed (a : application) (r : request) : M api_answer :=
  Recovery (match gin_find newRouter (rq_Method r) (rq_Path r) with
            | inl (t, id) => run_target claims_json a t id r
            | inr (status, message) => mret (AnswerMessage status message)
            end).

Lemma routed_answers a r w : ∃ answer, (routed a r w).1 = Ok answer.
Proof.
  unfold routed, Recovery.
  assert (Ha : answers (match gin_find newRouter (rq_Method r) (rq_Path r) with
            | inl (t, id) => run_target claims_json a t id r
            | inr (status, message) => mret (AnswerMessage status message)
            end)).
  { destruct (gin_find _ _ _) as [[t id]|[status message]]; [apply answers_target|apply answers_ret]. }
  specialize (Ha w). destruct (_ w) as [[x|e|] w']; [by eexists|by destruct (Ha e)|by eexists].
Qed.

Lemma spares_routed `{!GinLaws} a r w P : (∀ u, P u → ¬ acts_for a r (w_redis w) u) → spares P (routed a r) w.
Proof.
  intros Hu. unfold spares, spares_from, routed. rewrite Recovery_same. fold (spares P
    (match gin_find newRouter (rq_Method r) (rq_Path r) with
     | inl (t, id) => run_target claims_json a t id r
     | inr (status, message) => mret (AnswerMessage status message)
     end) w).
  destruct (gin_find _ _ _) as [[t id]|[status message]] eqn:Hg; [by apply spares_target|apply keeps_ret].
Qed.

Lemma wp_routed `{!GinLaws} a r (Q : res api_answer → world → Prop) w :
  (∀ answer w', spares_from (λ u, ¬ acts_for a r (w_redis w) u) w w' → Q (Ok answer) w') →
  wp (routed a r) Q w.
Proof.
  intros HQ. pose proof (spares_routed a r w (λ u, ¬ acts_for a r (w_redis w) u) ltac:(done)) as Hs.
  destruct (routed_answers a r w) as [answer Ha]. unfold wp. rewrite Ha. by apply HQ.
Qed.

Lemma serve_request_spec `{!GinLaws} a r w : wp (serve_request claims_json a r) (request_ok a r w) w.
Proof.
  unfold serve_request. fold (routed a r). wp_step. apply wp_RequestID.
  - intros Hv. cbn beta iota. wp_step. apply wp_routed. intros answer w' Hs. wp_step.
    split; [by exists (Some (rq_RequestID r)), answer|exact Hs].
  - intros e Hv _. wp_step. split; [|by intros Hwf].
    exists None, (AnswerMessage 500 "failed to create request id"). done.
  - intros id Hv Hid _. cbn beta iota. wp_step. apply wp_routed. intros answer w' Hs. wp_step.
    split; [|exact Hs]. exists (Some id), answer. split; [done|]. split; [done|]. congruence.
Qed.


Definition rejected (r : request) (w : world) (x : res (option string * api_answer)) (w' : world) : Prop :=
  w_db w' = w_db w ∧ w_redis w' = w_redis w ∧ w_casbin w' = w_casbin w ∧
  ∃ id answer, x = Ok (id, answer) ∧
    match id, gin_find newRouter (rq_Method r) (rq_Path r) with
    | None, _ => answer_status answer = 500%Z
    | Some _, inl _ => answer_status answer = 401%Z
    | Some _, inr (status, _) => answer_status answer = status
    end.

(** The endpoints that anybody may call. *)
Definition open_to_all (e : endpoint) : bool :=
  match e with
  | EHealth | EReady | EPing | ELogin | ERegister | ERefresh | ELogout | EOauthCallback => true
  | _ => false
  end.

Definition endpoint_of (t : target) : option endpoint :=
  match t with Public e | JwtFiltered e => Some e | KeyFiltered _ => None end.

Lemma public_is_open method pattern e : (method, pattern, Public e) ∈ newRouter → open_to_all e = true.
Proof.
  assert (Hall : Forall (λ x : entry, match x.2 with Public e => open_to_all e = true | _ => True end) newRouter)
    by (repeat constructor).
  rewrite Forall_forall in Hall. intros Hin. exact (Hall _ Hin).
Qed.

(** C8: without a bearer token that is valid at some instant, a request to any
    endpoint but the health checks, the forms of the sessions and the provider's
    callback is answered 401, or 500 when no identifier can be made, and changes
    no table, session or policy; so does a request to a path that is not
    registered, with the router's own answer. *)
Theorem unauthenticated_rejected `{!GinLaws} a r w :
  match gin_find newRouter (rq_Method r) (rq_Path r) with
  | inl (t, _) => (∃ e, endpoint_of t = Some e ∧ open_to_all e = false) ∧
      ∀ u, ¬ bearer (as_jwtManager (ap_auth a)) (rq_Authorization r) u
  | inr _ => True
  end →
  wp (serve_request claims_json a r) (rejected r w) w.
Proof.
  intros Hno. unfold serve_request. wp_step.
  assert (Hr : ∀ id w1, w_db w1 = w_db w → w_redis w1 = w_redis w → w_casbin w1 = w_casbin w →
    wp (answer ← routed a r; mret (Some id, answer) : M (option string * api_answer)) (rejected r w) w1).
  { intros id w1 H1' H2' H3'. wp_step. unfold routed, rejected.
    pose proof (gin_find_registered newRouter (rq_Method r) (rq_Path r)) as Hin.
    destruct (gin_find _ _ _) as [[t pid]|[status message]].
    - destruct Hno as [(e' & He & Ho) Hno]. specialize (Hin _ _ eq_refl) as [pattern Hin].
      destruct t as [e|e|fmt]; [|clear Hin|done].
      { injection He as ->. apply public_is_open in Hin. congruence. }
      cbn [run_target]. apply wp_Recovery. wp_step. apply wp_filter.
      + intros w2 rep Hd Hr Hc Hs. do 2 wp_step. split_and!; [congruence..|]. by eexists _, _.
      + intros w2 i _ _ _ Hb. by destruct (Hno _ Hb).
    - apply wp_Recovery. do 2 wp_step. split_and!; [done..|]. by eexists _, _. }
  apply wp_RequestID; [intros; by apply Hr| |intros; by apply Hr].
  intros e _ _. wp_step. split_and!; [done..|]. by eexists _, _.
Qed.
End requests.

(** * The process at work *)

(** A router that compares the segments of the path; [:id] matches any. *)
Fixpoint match_segments (pattern path : list string) (id : string) : option string :=
  match pattern, path with
  | [], [] => Some id
  | p :: pattern, s :: path =>
      if String.eqb p ":id" then match_segments pattern path s
      else if String.eqb p s then match_segments pattern path id else None
  | _, _ => None
  end.

Fixpoint sim_find (routes : list entry) (method path : string) : target * string + (Z * string) :=
  match routes with
  | [] => inr (404%Z, "404 page not found"%string)
  | (m, pattern, t) :: routes =>
      match match_segments (Split pattern "/") (Split path "/") "" with
      | Some id => if String.eqb m method then inl (t, id) else sim_find routes method path
      | None => sim_find routes method path
      end
  end.

#[export] Instance sim_gin : Gin := sim_find.

#[export] Instance sim_gin_laws : GinLaws.
Proof.
  split. intros routes method path t id. cbn. induction routes as [|[[m pattern] t'] routes IH]; [done|]. cbn.
  assert (Hlater : sim_find routes method path = inl (t, id) →
    ∃ p, (method, p, t) ∈ (m, pattern, t') :: routes) by (intros [p Hp]%IH; exists p; by right).
  destruct (match_segments _ _ _) as [i|]; [|done]. destruct (String.eqb m method) eqn:Hm; [|done].
  apply String.eqb_eq in Hm as ->. intros [= <- <-]. exists pattern. by left.
Qed.

(** Every body names the third account. *)
#[export] Instance sim_binding : Binding := {|
  bind_login := λ _, None; bind_register := λ _, None; bind_create_key := λ _, None; bind_update_key := λ _, None;
  bind_accounts := λ _, None; bind_external := λ _, None; bind_device := λ _, None; bind_id := λ _, Some 3;
  bind_time := λ _, None
|}.

#[export] Instance sim_probes : Probes := {|
  ping_database := λ _, true; ping_redis := λ _, true; upstream_serving := λ _, true
|}.

Definition sample_application : application :=
  Build_application "test" true (Build_AuthService sample_jwt "$2a$dummy") sample_service sample_key ∅ true true.

Definition sample_http (path token : string) : request :=
  Build_request "POST" path ("Bearer " +:+ token) "request-1" None "" (λ _, ""%string) (Ok "") true.


(** A forged token opens nothing. *)
Lemma unauthenticated_rejected_witness :
  let x := serve_request sim_claims sample_application (sample_http "/oauth/delete" "forged") sample_world in
  w_db x.2 = w_db sample_world ∧ ∃ answer, x.1 = Ok (Some "request-1"%string, answer) ∧ answer_status answer = 401%Z.
Proof.
  intros x.
  destruct (unauthenticated_rejected sim_claims sample_application (sample_http "/oauth/delete" "forged") sample_world)
    as (Hd & _ & _ & id & answer & Hx & Ha).
  - split; [exists EOauthDelete; split; vm_compute; reflexivity|].
    change (∀ u, ¬ bearer sample_jwt ("Bearer forged") u).
    intros u (n & scheme & tok & c & Hf & _ & Hp & _).
    assert (Htok : Fields "Bearer forged" = ["Bearer"%string; "forged"%string]) by (vm_compute; reflexivity).
    rewrite Htok in Hf. injection Hf as <- <-. revert Hp. vm_compute. discriminate.
  - split; [exact Hd|]. assert (Hid : match x.1 with Ok (Some i, _) => i = "request-1"%string | _ => False end)
      by (vm_compute; reflexivity).
    change (x.1 = Ok (id, answer)) in Hx. rewrite Hx in Hid. destruct id as [i|]; [|destruct Hid]. subst i.
    exists answer. split; [exact Hx|]. exact Ha.
Defined.
