(* ===== verification/Startup.v ===== *)
(** How the API process comes up: the credentials of the connection to the
    upstream (internal/rpc/transport), the connections (internal/database/connect,
    internal/middleware/redis), the policy engine (casbin.go), the instances of
    cmd/api/instances.go in their order, and the services of cmd/api/routes.go that
    are made of them. *)

From S2P Require Import Prelude.
From S2P Require Import GoStrings.
From S2P Require Import Schema.
From S2P Require Import Stores.
From S2P Require Import World.
From S2P Require Import Security.
From S2P Require Import NetUrl.
From S2P Require Import Config.
From S2P Require Import Directory.
From S2P Require Import Oidc.
From S2P Require Import Rbac.
From S2P Require Import Jwt.
From S2P Require Import User.
From S2P Require Import Auth.
From S2P Require Import Route.
From S2P Require Import Oauth.
From S2P Require Import Router.

Local Open Scope list_scope.
Local Open Scope N_scope.

(** * rpc/transport/tls.go *)

(** What the program sets of a [tls.Config]: the authorities it trusts as a
    client and as a server, its own certificate, the name it expects, and whether
    the peer must present a certificate. *)
Record tls_Config := {
  tc_MinVersion : Z; tc_RootCAs : string; tc_Certificate : string; tc_ServerName : string;
  tc_ClientCAs : option string; tc_RequireAndVerifyClientCert : bool
}.

Inductive TransportCredentials := Insecure | TLS (config : tls_Config).

(** The files, and the parsers of certificates: a pool is the text it is made of. *)
Class Files := {
  os_ReadFile : string → string + gerror;
  AppendCertsFromPEM : string → bool;
  tls_LoadX509KeyPair : string → string → string + gerror
}.

Definition VersionTLS12 : Z := 771.

Definition no_tls (cfg : GRPCTLSConfig) : bool :=
  String.eqb (tl_CAFile cfg) "" && String.eqb (tl_CertFile cfg) "" && String.eqb (tl_KeyFile cfg) "" &&
  String.eqb (tl_ServerName cfg) "".

Section transport.
Context `{Files}.

Definition loadTLS (cfg : GRPCTLSConfig) : res tls_Config :=
  match os_ReadFile (tl_CAFile cfg) with
  | inr e => Err (Wrapped "read gRPC CA" e)
  | inl ca =>
      if negb (AppendCertsFromPEM ca) then Err (Opaque "gRPC CA file contains no certificates")
      else match tls_LoadX509KeyPair (tl_CertFile cfg) (tl_KeyFile cfg) with
           | inr e => Err (Wrapped "load gRPC certificate" e)
           | inl certificate => Ok (Build_tls_Config VersionTLS12 ca certificate "" None false)
           end
  end.

Definition ClientCredentials (cfg : GRPCTLSConfig) : res TransportCredentials :=
  if no_tls cfg then Ok Insecure
  else
    c ← loadTLS cfg;
    Ok (TLS (Build_tls_Config (tc_MinVersion c) (tc_RootCAs c) (tc_Certificate c) (tl_ServerName cfg)
               (tc_ClientCAs c) (tc_RequireAndVerifyClientCert c))).

(** [None] are the nil credentials of a server without TLS. *)
Definition ServerCredentials (cfg : GRPCTLSConfig) : res (option TransportCredentials) :=
  if no_tls cfg then Ok None
  else
    c ← loadTLS cfg;
    Ok (Some (TLS (Build_tls_Config (tc_MinVersion c) (tc_RootCAs c) (tc_Certificate c) (tc_ServerName c)
                     (Some (tc_RootCAs c)) true))).
End transport.

(** * The connections *)

(** Calls that leave the process while it starts: an error or nothing. *)
Class Launch := {
  gorm_Open : nat → string → option gerror;
  database_DB : nat → option gerror;
  sql_Ping : nat → option gerror;
  redis_Ping : nat → RedisConfig → option gerror;
  gormadapter_New : nat → option gerror;
  casbin_New : nat → option gerror;
  grpc_NewClient : nat → string → TransportCredentials → option gerror
}.

(** One such call. *)
Definition outside (call : nat → option gerror) : M unit := λ w,
  match call (w_step w) with
  | Some e => (Err e, tick w)
  | None => (Ok tt, tick w)
  end.

Definition NewJWTManager (configuration : JWTConfig) : JWTManager :=
  Build_JWTManager (jc_Secret configuration) (jc_Issuer configuration) (jc_Audience configuration)
    (jc_AccessTTL configuration) (jc_RefreshTTL configuration).

(** The instances: pointers as whether they are set. *)
Record applicationInstances := {
  in_sqlDatabase : bool; in_redisClient : bool; in_repositories : bool; in_casbinEnforcer : bool;
  in_jwtManager : option JWTManager; in_oidcAuth : gmap string (option OIDCAuth);
  in_upstreamConnection : option TransportCredentials; in_upstreamDirectory : bool;
  in_credentialKey : string
}.

Section startup.
Context `{Env} `{Bcrypt} `{UpstreamClient} `{UrlParser} `{Files} `{Launch}.

(** database/connect. *)
Definition connect_database (databaseURL : string) : M unit :=
  _ ← wrap_err "open database" (outside (λ n, gorm_Open n databaseURL));
  _ ← wrap_err "get database handle" (outside database_DB);
  wrap_err "ping database" (outside sql_Ping).

(** middleware/redis/connect. *)
Definition connect_redis (configuration : RedisConfig) : M unit :=
  wrap_err "ping redis" (outside (λ n, redis_Ping n configuration)).

(** [newEnforcer] loads the stored policy into an engine that saves what changes. *)
Definition newEnforcer : M unit := wrap_err "create Casbin enforcer" (outside casbin_New).

Definition NewEnforcer : M unit :=
  _ ← wrap_err "create Casbin GORM adapter" (outside gormadapter_New);
  _ ← newEnforcer;
  SeedDefaultPolicies.

Definition bootstrap_of (configuration : Config) : BootstrapConfig :=
  Build_BootstrapConfig (cf_BootstrapUsername configuration) (cf_BootstrapPassword configuration)
    (cf_BootstrapRole configuration).

(** A nil key is the empty one. *)
Definition encryption_key (c : apiConfiguration) : string := default ""%string (ac_oauthEncryptionKey c).

Definition newApplicationInstances (configuration : apiConfiguration) : M applicationInstances :=
  let runtime := ac_runtime configuration in
  let upstream := ac_upstream configuration in
  _ ← wrap_err "connect database" (connect_database (cf_DatabaseURL runtime));
  _ ← wrap_err "connect redis" (connect_redis (cf_Redis runtime));
  _ ← wrap_err "create bootstrap user" (createBootstrapUser (bootstrap_of runtime));
  _ ← wrap_err "initialize Casbin authorization" NewEnforcer;
  credentials ← wrap_err "initialize upstream transport" (lift (ClientCredentials (uc_TLS upstream)));
  _ ← wrap_err "create upstream gRPC client" (outside (λ n, grpc_NewClient n (uc_Target upstream) credentials));
  oidcAuth ← (if Enabled (ac_oai configuration) then
                auth ← wrap_err "initialize OIDC auth for oai"
                         (NewRemoteOIDCAuth (ac_oai configuration) true OaiAuthURLParams OaiScopes);
                mret {["oai"%string := Some auth]}
              else mret ∅);
  mret (Build_applicationInstances true true true true (Some (NewJWTManager (cf_JWT runtime))) oidcAuth
          (Some credentials) true (encryption_key configuration)).

(** auth/service.go: the hash that an unknown name is checked against; an error
    leaves it empty. *)
Definition NewService (jwtManager : JWTManager) : M AuthService :=
  r ← attempt (HashPassword "not-a-real-password");
  mret (Build_AuthService jwtManager match r with inl dummyHash => dummyHash | inr _ => ""%string end).

Definition NewOauthService (i : applicationInstances) (encryptionKey : string) : OauthService :=
  Build_OauthService (in_redisClient i) (in_oidcAuth i) (in_upstreamDirectory i) (in_repositories i) encryptionKey.

(** cmd/api/routes.go: the services behind the router. *)
Definition newServices (configuration : apiConfiguration) (i : applicationInstances) : M application :=
  match in_jwtManager i with
  | None => lift Panic
  | Some jwtManager =>
      auth ← NewService jwtManager;
      mret (Build_application (cf_Environment (ac_runtime configuration)) (cf_CookieSecure (ac_runtime configuration))
              auth (NewOauthService i (encryption_key configuration)) (encryption_key configuration)
              init_registry (in_repositories i) (bool_decide (in_upstreamConnection i ≠ None)))
  end.

(** cmd/api/main.go, up to the listener. *)
Definition run (lookup : string → option string) : M application :=
  configuration ← lift (loadAPIConfiguration lookup);
  instances ← newApplicationInstances configuration;
  newServices configuration instances.
End startup.
