(* ===== verification/Logger.v ===== *)
(** internal/logger: where the lines of the log go. Each line is written to the
    console and to a rotating file; the file is checked before the process starts.
    The writers and the file system are parameters. *)

From S2P Require Import Prelude.
From S2P Require Import GoStrings.
From S2P Require Import Json.

Local Open Scope list_scope.

(** * The writer *)

(** An [io.Writer]: how many bytes it took of what it was given, and its error;
    calls are numbered. *)
Definition Writer : Type := nat → string → nat * option gerror.

Record dualWriter := { dw_console : Writer; dw_file : Writer }.

(** What each output has received so far. *)
Record sinks := { sk_console : string; sk_file : string; sk_error : string; sk_calls : nat }.

Definition io_ErrShortWrite : gerror := Sentinel "io.ErrShortWrite" "short write".

Fixpoint str_take (n : nat) (s : string) : string :=
  match n, s with
  | S n, String a s => String a (str_take n s)
  | _, _ => EmptyString
  end.

(** The line on the error output when the file fails. *)
Definition file_failure (err : gerror) : string :=
  "logger file write failed: " +:+ error_text err +:+ String (ascii_of_N 10) "".

Definition Write (writer : dualWriter) (value : string) (s : sinks) : (nat * option gerror) * sinks :=
  let '(written, consoleErr) := dw_console writer (sk_calls s) value in
  let consoleErr := match consoleErr with
                    | None => if (written =? String.length value)%nat then None else Some io_ErrShortWrite
                    | err => err
                    end in
  let '(n, err) := dw_file writer (sk_calls s) value in
  let s := Build_sinks (sk_console s +:+ str_take written value) (sk_file s +:+ str_take n value)
             (sk_error s +:+ match err with Some err => file_failure err | None => "" end) (S (sk_calls s)) in
  match consoleErr with
  | Some err => ((written, Some err), s)
  | None => ((String.length value, None), s)
  end.

(** The logger writes one line for each record and ignores the error. *)
Fixpoint write_lines (writer : dualWriter) (lines : list string) (s : sinks) : sinks :=
  match lines with
  | [] => s
  | line :: lines => write_lines writer lines (Write writer line s).2
  end.

(** * The paths *)

(** [filepath.Clean] on the elements of a path, the last first on the stack. *)
Fixpoint clean_elements (rooted : bool) (stack elements : list string) : list string :=
  match elements with
  | [] => rev stack
  | e :: elements =>
      if String.eqb e "" || String.eqb e "." then clean_elements rooted stack elements
      else if String.eqb e ".." then
        match stack with
        | top :: rest => if String.eqb top ".." then clean_elements rooted (e :: stack) elements
                         else clean_elements rooted rest elements
        | [] => clean_elements rooted (if rooted then [] else [e]) elements
        end
      else clean_elements rooted (e :: stack) elements
  end.

Fixpoint join_path (elements : list string) : string :=
  match elements with
  | [] => ""
  | [e] => e
  | e :: elements => e +:+ "/" +:+ join_path elements
  end.

Definition Clean (rooted : bool) (elements : list string) : string :=
  let joined := join_path (clean_elements rooted [] elements) in
  if rooted then "/" +:+ joined else if String.eqb joined "" then "."%string else joined.

(** [filepath.Dir]: all but the last element, cleaned. *)
Definition Dir (path : string) : string := Clean (HasPrefix path "/") (removelast (Split path "/")).

(** * The logger *)

Definition DefaultFilename : string := "./logs/backend/app.log".

(** The settings of the rotating file. *)
Record rotation := { lj_Filename : string; lj_MaxSize : Z; lj_MaxBackups : Z; lj_MaxAge : Z; lj_Compress : bool }.

(** The file system, [None] for success, and the quoting of a path in an error. *)
Class FileSystem := {
  os_MkdirAll : string → option gerror;
  os_OpenFile : string → option gerror;
  file_Close : string → option gerror;
  strconv_Quote : string → string
}.

Section logger.
Context `{FileSystem}.

(** [console] and [errorOutput] are whether the writers are set. *)
Definition newLogger (filename : string) (console errorOutput : bool) : res rotation :=
  let filename := TrimSpace filename in
  let filename := if String.eqb filename "" then DefaultFilename else filename in
  if negb console || negb errorOutput then Err (Opaque "logger output writers must not be nil")
  else
    match os_MkdirAll (Dir filename) with
    | Some err => Err (Wrapped ("create log directory " +:+ strconv_Quote (Dir filename)) err)
    | None =>
        match os_OpenFile filename with
        | Some err => Err (Wrapped ("open log file " +:+ strconv_Quote filename) err)
        | None =>
            match file_Close filename with
            | Some err => Err (Wrapped ("close log file probe " +:+ strconv_Quote filename) err)
            | None => Ok (Build_rotation filename 100 10 30 true)
            end
        end
    end.

Definition NewLogger (filename : string) : res rotation := newLogger filename true true.
End logger.

(** * The contract *)

Lemma str_take_all s : str_take (String.length s) s = s.
Proof. induction s as [|a s IH]; [done|]. cbn. by rewrite IH. Qed.

(** What the documentation of [io.Writer] asks of one. *)
Definition writer_ok (w : Writer) : Prop :=
  ∀ n p, ((w n p).1 <= String.length p)%nat ∧ ((w n p).1 ≠ String.length p → (w n p).2 ≠ None).

(** The file as a writer that never fails. *)
Definition reliable (w : Writer) : Prop := ∀ n p, w n p = (String.length p, None).

(** A line is offered whole to both outputs, whatever the other does. The caller
    learns of the console only: it is told of success exactly when the console has
    taken the whole line without an error. A failure of the file is reported on the
    error output and nowhere else. *)
Theorem Write_correct console file value s :
  let x := Write (Build_dualWriter console file) value s in
  let c := console (sk_calls s) value in
  let f := file (sk_calls s) value in
  sk_console x.2 = sk_console s +:+ str_take c.1 value ∧
  sk_file x.2 = sk_file s +:+ str_take f.1 value ∧
  sk_error x.2 = sk_error s +:+ match f.2 with Some err => file_failure err | None => "" end ∧
  (x.1.2 = None ↔ c = (String.length value, None)) ∧
  (x.1.2 = None → x.1.1 = String.length value ∧ sk_console x.2 = sk_console s +:+ value) ∧
  (x.1.2 ≠ None → x.1.1 = c.1).
Proof.
  unfold Write. cbn [dw_console dw_file]. destruct (console _ value) as [written e], (file _ value) as [n err].
  cbn [fst snd]. destruct e as [e|]; [by split_and!|].
  destruct (Nat.eqb_spec written (String.length value)) as [->|Hne]; cbn [fst snd sk_console sk_file sk_error].
  - rewrite str_take_all. by split_and!.
  - split_and!; try done. split; [done|]. intros [= ?]. congruence.
Qed.

(** The dual writer is itself a writer as documented when the console is. *)
Theorem Write_is_writer console file value s :
  writer_ok console →
  let x := Write (Build_dualWriter console file) value s in
  (x.1.1 <= String.length value)%nat ∧ (x.1.1 ≠ String.length value → x.1.2 ≠ None).
Proof.
  intros Hok. specialize (Hok (sk_calls s) value). revert Hok. unfold Write. cbn [dw_console dw_file].
  destruct (console _ value) as [written e], (file _ value) as [n err]. cbn [fst snd].
  destruct e as [e|]; [done|]. destruct (Nat.eqb_spec written (String.length value)); cbn; [|by intros [? _]].
  intros _. split; [lia|done].
Qed.

(** No line is lost in an output that works because the other one fails. *)
Theorem lines_complete console file lines s :
  (reliable file → sk_file (write_lines (Build_dualWriter console file) lines s) = sk_file s +:+ str_concat lines ∧
     sk_error (write_lines (Build_dualWriter console file) lines s) = sk_error s) ∧
  (reliable console →
     sk_console (write_lines (Build_dualWriter console file) lines s) = sk_console s +:+ str_concat lines).
Proof.
  revert s. induction lines as [|line lines IH]; intros s; cbn [write_lines str_concat]; [by rewrite !str_app_nil_r|].
  pose proof (Write_correct console file line s) as (Hc & Hf & He & _). cbv zeta in Hc, Hf, He.
  destruct (IH (Write (Build_dualWriter console file) line s).2) as [IHf IHc]. split; intros Hr.
  - destruct (IHf Hr) as [-> ->]. rewrite Hf, He, Hr. cbn. rewrite str_take_all, str_app_nil_r. by rewrite str_app_assoc.
  - rewrite (IHc Hr), Hc, Hr. cbn. by rewrite str_take_all, str_app_assoc.
Qed.

(** * The file *)

(** An element of a cleaned path: no empty one, no [.], and [..] only at the front
    of a path that does not start at the root. *)
Definition clean_element (rooted : bool) (e : string) : Prop :=
  e ≠ ""%string ∧ e ≠ "."%string ∧ (rooted = true → e ≠ ".."%string).

Lemma clean_elements_ok rooted stack elements :
  Forall (clean_element rooted) stack → Forall (clean_element rooted) (clean_elements rooted stack elements).
Proof.
  revert stack. induction elements as [|e elements IH]; intros stack Hs; cbn [clean_elements];
    [by apply Forall_rev|].
  destruct (String.eqb_spec e ""), (String.eqb_spec e "."); cbn [orb]; try by apply IH.
  destruct (String.eqb_spec e "..") as [->|Hne]; [|apply IH; by constructor].
  destruct stack as [|top rest].
  - apply IH. destruct rooted; repeat constructor; done.
  - inversion_clear Hs as [|? ? Htop Hrest]. destruct (String.eqb_spec top "..") as [->|]; [|by apply IH].
    apply IH. constructor; [by destruct Htop as (_ & _ & ?)|by constructor].
Qed.

Example Dir_default : Dir DefaultFilename = "logs/backend"%string.
Proof. reflexivity. Qed.
Example Dir_above : Dir "/var/../../log//api/./app.log" = "/log/api"%string.
Proof. reflexivity. Qed.
Example Dir_none : Dir "app.log" = "."%string.
Proof. reflexivity. Qed.

Section newLogger.
Context `{FileSystem}.

(** The logger writes to the configured file, or the default one when the setting
    is blank, and only after its directory could be made and the file opened for
    writing and closed. *)
Theorem NewLogger_correct filename :
  let name := if blank filename then DefaultFilename else TrimSpace filename in
  name ≠ ""%string ∧
  match NewLogger filename with
  | Ok l => l = Build_rotation name 100 10 30 true ∧
      os_MkdirAll (Dir name) = None ∧ os_OpenFile name = None ∧ file_Close name = None
  | Err e => ∃ msg cause, e = Wrapped msg cause ∧
      (os_MkdirAll (Dir name) = Some cause ∨ os_OpenFile name = Some cause ∨ file_Close name = Some cause)
  | Panic => False
  end.
Proof.
  unfold NewLogger, newLogger, blank. cbv zeta. destruct (String.eqb_spec (TrimSpace filename) "") as [_|Hne].
  all: split; [done|]; cbn [negb orb].
  all: destruct (os_MkdirAll _) eqn:?; [by eauto 6|].
  all: destruct (os_OpenFile _) eqn:?; [by eauto 7|].
  all: destruct (file_Close _) eqn:?; [by eauto 8|done].
Qed.
End newLogger.
