(* ===== verification/StartupSpec.v ===== *)
(** What holds once the API process listens: the configuration it was started with
    is in its services, every client is set, the policy is seeded, the tables are
    well formed, and the configured administrator can log in. *)

From S2P Require Import Prelude.
From S2P Require Import GoStrings.
From S2P Require Import Schema.
From S2P Require Import Integrity.
From S2P Require Import Stores.
From S2P Require Import World.
From S2P Require Import Security.
From S2P Require Import NetUrl.
From S2P Require Import Config.
From S2P Require Import ConfigSpec.
From S2P Require Import Sim.
From S2P Require Import Directory.
From S2P Require Import Oidc.
From S2P Require Import OidcSpec.
From S2P Require Import Rbac.
From S2P Require Import Jwt.
From S2P Require Import User.
From S2P Require Import Auth.
From S2P Require Import AuthSpec.
From S2P Require Import Route.
From S2P Require Import Oauth.
From S2P Require Import OauthSim.
From S2P Require Import Router.
From S2P Require Import Startup.

Local Open Scope list_scope.
Local Open Scope N_scope.

Section transport.
Context `{Files}.

Lemma loadTLS_Ok cfg c :
  loadTLS cfg = Ok c ↔
  ∃ ca certificate, os_ReadFile (tl_CAFile cfg) = inl ca ∧ AppendCertsFromPEM ca = true ∧
    tls_LoadX509KeyPair (tl_CertFile cfg) (tl_KeyFile cfg) = inl certificate ∧
    c = Build_tls_Config VersionTLS12 ca certificate "" None false.
Proof.
  unfold loadTLS. split.
  - destruct (os_ReadFile _) as [ca|e] eqn:Hr; [|done]. destruct (AppendCertsFromPEM ca) eqn:Hp; cbn [negb]; [|done].
    destruct (tls_LoadX509KeyPair _ _) as [crt|e] eqn:Hk; [|done]. intros [= <-]. by exists ca, crt.
  - intros (ca & crt & -> & Hp & -> & ->). by rewrite Hp.
Qed.

Lemma no_tls_spec cfg : no_tls cfg = true ↔ cfg = Build_GRPCTLSConfig "" "" "" "".
Proof.
  unfold no_tls. rewrite !andb_true_iff, !String.eqb_eq. destruct cfg; cbn. naive_solver.
Qed.

(** Both ends of the connection to the upstream take TLS exactly when it is
    configured: at least version 1.2, trusting only the configured authority and
    with the configured certificate; the client expects the configured name, and
    the server requires a certificate of the same authority. *)
Theorem credentials_mutual cfg :
  match ClientCredentials cfg, ServerCredentials cfg with
  | Ok client, Ok server =>
      client = Insecure ∧ server = None ∧ cfg = Build_GRPCTLSConfig "" "" "" "" ∨
      ∃ c s ca certificate, client = TLS c ∧ server = Some (TLS s) ∧
        os_ReadFile (tl_CAFile cfg) = inl ca ∧
        tls_LoadX509KeyPair (tl_CertFile cfg) (tl_KeyFile cfg) = inl certificate ∧
        tc_MinVersion c = VersionTLS12 ∧ tc_MinVersion s = VersionTLS12 ∧
        tc_RootCAs c = ca ∧ tc_Certificate c = certificate ∧ tc_ServerName c = tl_ServerName cfg ∧
        tc_ClientCAs s = Some ca ∧ tc_Certificate s = certificate ∧ tc_RequireAndVerifyClientCert s = true
  | Err e, Err e' => e = e'
  | _, _ => False
  end.
Proof.
  unfold ClientCredentials, ServerCredentials. destruct (no_tls cfg) eqn:Hn; [left; by rewrite <- no_tls_spec|].
  pose proof (loadTLS_Ok cfg) as Hl. destruct (loadTLS cfg) as [c|e|] eqn:Hc; cbn; [|done|].
  - destruct (proj1 (Hl c) eq_refl) as (ca & crt & Hr & _ & Hk & ->). right.
    eexists _, _, ca, crt. split_and!; reflexivity || done.
  - revert Hc. unfold loadTLS. by repeat case_match.
Qed.
End transport.

(** * The instances *)

Section startup.
Context `{EnvLaws} `{!Bcrypt} `{!BcryptLaws} `{UpstreamClient} `{UrlParser} `{Files} `{Launch}.

Lemma wp_outside call (Q : res unit → world → Prop) w :
  (∀ e, Q (Err e) (tick w)) → Q (Ok tt) (tick w) → wp (outside call) Q w.
Proof. intros He Hok. unfold wp, outside. destruct (call _); cbn; auto. Qed.

Lemma wp_connect_database url (Q : res unit → world → Prop) w :
  (∀ e w', w_db w' = w_db w → w_redis w' = w_redis w → w_casbin w' = w_casbin w → Q (Err e) w') →
  (∀ w', w_db w' = w_db w → w_redis w' = w_redis w → w_casbin w' = w_casbin w → Q (Ok tt) w') →
  wp (connect_database url) Q w.
Proof.
  intros He Hok. unfold connect_database. wp_step. apply wp_wrap_err, wp_outside; [intros e; by apply He|].
  wp_step. apply wp_wrap_err, wp_outside; [intros e; by apply He|].
  apply wp_wrap_err, wp_outside; [intros e; by apply He|by apply Hok].
Qed.

(** What the bootstrap leaves in the tables. *)
Definition bootstrapped (c : Config) (d d' : db) : Prop :=
  d' = d ∧ (cf_BootstrapUsername c = ""%string ∨
            ∃ u, u ∈ t_users d ∧ usr_Username u = cf_BootstrapUsername c) ∨
  ∃ u hash, new_user (cf_BootstrapUsername c) hash (cf_BootstrapRole c) u ∧ check_ok users u = true ∧
    bcrypt_compare hash (cf_BootstrapPassword c) = true ∧ user_added u d d'.

Lemma bootstrapped_users_ok c d d' : users_ok d → bootstrapped c d d' → users_ok d'.
Proof.
  intros Hok [[-> _]|(u & hash & _ & Hc & _ & -> & _)]; [done|]. intros v. cbn.
  rewrite elem_of_app, list_elem_of_singleton. intros [Hv|Hv]; [by apply Hok|]. by subst v.
Qed.

(** The state outside the tables during the start: sessions, and the roles of the
    users. *)
Definition startup_kept (w w' : world) : Prop :=
  w_redis w' = w_redis w ∧ g_rules (w_casbin w') = g_rules (w_casbin w) ∧ policy_ok (w_casbin w').

(** The providers the API ends with. *)
Definition providers_of (c : apiConfiguration) (oidcAuth : gmap string (option OIDCAuth)) : Prop :=
  if Enabled (ac_oai c) then ∃ auth config, oidcAuth = {["oai"%string := Some auth]} ∧
    oa_OauthConfig auth = Some config ∧ oc_ClientID config = od_ClientID (ac_oai c) ∧
    oc_RedirectURL config = od_RedirectURL (ac_oai c)
  else oidcAuth = ∅.

Lemma wp_providers c (Q : res (gmap string (option OIDCAuth)) → world → Prop) w :
  (∀ e w', w_db w' = w_db w → w_redis w' = w_redis w → w_casbin w' = w_casbin w → Q (Err e) w') →
  (∀ m w', w_db w' = w_db w → w_redis w' = w_redis w → w_casbin w' = w_casbin w → providers_of c m → Q (Ok m) w') →
  wp (if Enabled (ac_oai c) then
        auth ← wrap_err "initialize OIDC auth for oai"
                 (NewRemoteOIDCAuth (ac_oai c) true OaiAuthURLParams OaiScopes);
        mret {["oai"%string := Some auth]}
      else mret ∅) Q w.
Proof.
  intros He Hok. unfold providers_of in Hok. destruct (Enabled (ac_oai c)); [|wp_step; by apply Hok].
  wp_step. apply wp_wrap_err. pose proof (NewRemoteOIDCAuth_correct (ac_oai c) true OaiAuthURLParams OaiScopes w) as Hn.
  revert Hn. apply wp_mono. intros [auth|e|] w' [(Hd & Hr & Hc) Hres]; [|by apply He|done].
  wp_step. apply Hok; [done..|]. destruct Hres as (_ & resp & config & _ & _ & _ & -> & _ & _ & Hid & Hred).
  eexists _, config. by split_and!.
Qed.

Lemma api_configuration_values lookup c :
  loadAPIConfiguration lookup = Ok c →
  let jwt := cf_JWT (ac_runtime c) in
  jc_Issuer jwt ≠ ""%string ∧ jc_Audience jwt ≠ ""%string ∧ (32 <= String.length (jc_Secret jwt))%nat ∧
  duration_ok (jc_AccessTTL jwt) ∧ duration_ok (jc_RefreshTTL jwt) ∧
  (Enabled (ac_oai c) = true → ∃ key, ac_oauthEncryptionKey c = Some key) ∧
  (∀ key, ac_oauthEncryptionKey c = Some key → aes_key_ok key = true).
Proof.
  intros Hl. pose proof (api_configuration_spec lookup c Hl) as (Hcf & _ & _ & Ha & Hr & Hs & Hen & Hk & _).
  cbv zeta. split; [apply Hcf|]. split; [apply Hcf|]. split; [done|]. split; [done|]. split; [done|].
  split; [intros He; by apply Hen|]. intros key Hkey. by apply Hk.
Qed.

(** What the instances are, and what the start has done. *)
Definition instances_of (c : apiConfiguration) (i : applicationInstances) : Prop :=
  in_sqlDatabase i = true ∧ in_redisClient i = true ∧ in_repositories i = true ∧ in_casbinEnforcer i = true ∧
  in_upstreamDirectory i = true ∧ in_jwtManager i = Some (NewJWTManager (cf_JWT (ac_runtime c))) ∧
  providers_of c (in_oidcAuth i) ∧ in_credentialKey i = encryption_key c ∧
  ∃ credentials, in_upstreamConnection i = Some credentials ∧
    ClientCredentials (uc_TLS (ac_upstream c)) = Ok credentials.

Lemma loadTLS_no_panic cfg : loadTLS cfg ≠ Panic.
Proof. unfold loadTLS. by repeat case_match. Qed.

Lemma ClientCredentials_no_panic cfg : ClientCredentials cfg ≠ Panic.
Proof.
  unfold ClientCredentials. destruct (no_tls cfg); [done|]. pose proof (loadTLS_no_panic cfg).
  by destruct (loadTLS cfg).
Qed.

Lemma wp_NewEnforcer (Q : res unit → world → Prop) w :
  policy_ok (w_casbin w) →
  (∀ e w', w_db w' = w_db w → startup_kept w w' → Q (Err e) w') →
  (∀ w', w_db w' = w_db w → startup_kept w w' → seeded (w_casbin w') → Q (Ok tt) w') →
  wp NewEnforcer Q w.
Proof.
  intros Hp He Hok. unfold NewEnforcer, newEnforcer. wp_step. apply wp_wrap_err, wp_outside; [intros e; by apply He|].
  wp_step. apply wp_wrap_err, wp_outside; [intros e; by apply He|].
  eapply wp_mono; [|by apply SeedDefaultPolicies_correct].
  intros [[]|e|] w' (Hd & Hr & Hg & Hpo & _ & Hs); [by apply Hok|by apply He|done].
Qed.

Lemma wp_newApplicationInstances c (Q : res applicationInstances → world → Prop) w :
  db_wf (w_db w) → policy_ok (w_casbin w) →
  (∀ e w', w_db w' = w_db w ∨ bootstrapped (ac_runtime c) (w_db w) (w_db w') → startup_kept w w' → Q (Err e) w') →
  (∀ i w', bootstrapped (ac_runtime c) (w_db w) (w_db w') → startup_kept w w' → seeded (w_casbin w') →
     instances_of c i → Q (Ok i) w') →
  wp (newApplicationInstances c) Q w.
Proof.
  intros Hwf Hpo He Hok. unfold newApplicationInstances. cbv zeta.
  wp_step. apply wp_wrap_err, wp_connect_database.
  { intros e w1 Hd Hr Hc. apply He; [by left|]. unfold startup_kept. by rewrite Hr, Hc. }
  intros w1 Hd1 Hr1 Hc1. wp_step. apply wp_wrap_err, wp_wrap_err, wp_outside.
  { intros e. apply He; [by left|]. unfold startup_kept. cbn. by rewrite Hr1, Hc1. }
  wp_step. apply wp_wrap_err.
  assert (Hwf1 : db_wf (w_db (tick w1))) by (cbn; by rewrite Hd1).
  pose proof (createBootstrapUser_correct (bootstrap_of (ac_runtime c)) (tick w1) Hwf1) as Hb.
  revert Hb. apply wp_mono. intros r w2 (Hr2 & Hc2 & Hres). cbn in Hr2, Hc2.
  assert (Hk2 : startup_kept w w2) by (unfold startup_kept; by rewrite Hr2, Hc2, Hr1, Hc1).
  destruct r as [[]|e|]; [| |done].
  2:{ destruct Hres as [Hd2 _]. apply He; [left; by rewrite Hd2|done]. }
  assert (Hboot : bootstrapped (ac_runtime c) (w_db w) (w_db w2)).
  { destruct Hres as [[Hd2 Hu]|(u & hash & Hu & _ & Hh & Hadd & Hchk)]; cbn in *; rewrite Hd1 in *.
    - left. split; [done|exact Hu].
    - right. exists u, hash. by split_and!. }
  assert (Hlift : ∀ w', w_db w' = w_db w2 → w_redis w' = w_redis w2 →
    g_rules (w_casbin w') = g_rules (w_casbin w2) → policy_ok (w_casbin w') →
    bootstrapped (ac_runtime c) (w_db w) (w_db w') ∧ startup_kept w w').
  { intros w' Hd Hr Hg Hp. rewrite Hd. split; [done|]. destruct Hk2 as (Hr' & Hg' & _).
    split; [congruence|]. split; [congruence|done]. }
  wp_step. apply wp_wrap_err, wp_NewEnforcer; [apply Hk2|..].
  { intros e w3 Hd (Hr & Hg & Hp). destruct (Hlift w3) as [? ?]; [done..|]. apply He; [by right|done]. }
  intros w3 Hd3 (Hr3 & Hg3 & Hp3) Hs3.
  assert (Hsame : ∀ w', w_db w' = w_db w3 → w_redis w' = w_redis w3 → w_casbin w' = w_casbin w3 →
    bootstrapped (ac_runtime c) (w_db w) (w_db w') ∧ startup_kept w w').
  { intros w' Hd Hr Hc. apply Hlift; [congruence| |congruence|by rewrite Hc]. congruence. }
  assert (Herr : ∀ e w', w_db w' = w_db w3 → w_redis w' = w_redis w3 → w_casbin w' = w_casbin w3 → Q (Err e) w').
  { intros e w' Hd Hr Hc. destruct (Hsame w') as [? ?]; [done..|]. apply He; [by right|done]. }
  wp_step. apply wp_wrap_err. wp_step. pose proof (ClientCredentials_no_panic (uc_TLS (ac_upstream c))) as Hnp.
  destruct (ClientCredentials _) as [credentials|e|] eqn:Hcred; [|by apply Herr|done].
  wp_step. apply wp_wrap_err, wp_outside; [intros e; by apply Herr|].
  wp_step. apply wp_providers; [intros; by apply Herr|]. intros m w5 Hd5 Hr5 Hc5 Hm. wp_step.
  destruct (Hsame w5) as [? ?]; [done..|]. apply Hok; [done|done|by rewrite Hc5|].
  repeat (split; [done|]). by exists credentials.
Qed.

(** The services answer for the configuration they were started with, and have
    what their operations rely on. *)
Definition serving (c : apiConfiguration) (a : application) : Prop :=
  as_jwtManager (ap_auth a) = NewJWTManager (cf_JWT (ac_runtime c)) ∧
  jm_issuer (as_jwtManager (ap_auth a)) ≠ ""%string ∧ jm_audience (as_jwtManager (ap_auth a)) ≠ ""%string ∧
  (32 <= String.length (jm_secret (as_jwtManager (ap_auth a))))%nat ∧
  duration_ok (jm_ttl (as_jwtManager (ap_auth a))) ∧ duration_ok (jm_RefreshTTL (as_jwtManager (ap_auth a))) ∧
  os_redisClient (ap_oauth a) = true ∧ os_repository (ap_oauth a) = true ∧ os_directory (ap_oauth a) = true ∧
  ap_injected a = true ∧ ap_upstream a = true ∧ ap_registry a = init_registry ∧
  ap_encryptionKey a = os_encryptionKey (ap_oauth a) ∧
  providers_of c (os_oidcAuth (ap_oauth a)) ∧
  (os_oidcAuth (ap_oauth a) ≠ ∅ → aes_key_ok (ap_encryptionKey a) = true) ∧
  (ap_encryptionKey a ≠ ""%string → aes_key_ok (ap_encryptionKey a) = true).

(** The tables and the policy after a start, however it ends. *)
Definition started (c : apiConfiguration) (w w' : world) : Prop :=
  db_wf (w_db w') ∧ users_ok (w_db w') ∧ startup_kept w w' ∧
  (w_db w' = w_db w ∨ bootstrapped (ac_runtime c) (w_db w) (w_db w')).

Lemma preserves_outside call : preserves_wf (outside call).
Proof. intros w. unfold outside. by destruct (call _). Qed.

Hint Resolve preserves_outside : erent.

Lemma preserves_newApplicationInstances c : preserves_wf (newApplicationInstances c).
Proof.
  unfold newApplicationInstances, connect_database, connect_redis, createBootstrapUser, CreateBootstrapUser,
    NewEnforcer, newEnforcer, SeedDefaultPolicies, seed, supportedRoles, seed_role, NewRemoteOIDCAuth, GetProvider,
    wrap_err.
  preserve.
Qed.

Lemma started_of c w w' :
  db_wf (w_db w') → users_ok (w_db w) → startup_kept w w' →
  w_db w' = w_db w ∨ bootstrapped (ac_runtime c) (w_db w) (w_db w') → started c w w'.
Proof.
  intros Hwf Hu Hk Hb. split; [done|]. split; [|done].
  destruct Hb as [->|Hb]; [done|by eapply bootstrapped_users_ok].
Qed.

(** The hash of the password nobody has may fail to be made. *)
Lemma wp_NewService m (Q : res AuthService → world → Prop) w :
  (∀ hash, Q (Ok (Build_AuthService m hash)) (tick w)) → wp (NewService m) Q w.
Proof.
  intros HQ. unfold NewService. do 2 wp_step. unfold HashPassword, wp. cbn.
  pose proof (bcrypt_generate_law (w_step w) "not-a-real-password") as Hl. cbn in Hl.
  destruct Hl as [[h ->]|[e [-> _]]]; cbn; apply HQ.
Qed.

Lemma wp_run lookup (Q : res application → world → Prop) w :
  db_wf (w_db w) → users_ok (w_db w) → policy_ok (w_casbin w) →
  (∀ e, loadAPIConfiguration lookup = Err e → Q (Err e) w) →
  (∀ c e w', loadAPIConfiguration lookup = Ok c → started c w w' → Q (Err e) w') →
  (∀ c a w', loadAPIConfiguration lookup = Ok c → started c w w' →
     bootstrapped (ac_runtime c) (w_db w) (w_db w') → policy_ready w' → serving c a → Q (Ok a) w') →
  wp (run lookup) Q w.
Proof.
  intros Hwf Hu Hpo Hno He Hok. unfold run. do 2 wp_step.
  destruct (loadAPIConfiguration lookup) as [c|e|] eqn:Hl; [|by apply Hno|by apply loadAPIConfiguration_total in Hl].
  wp_step. apply wp_wf; [apply preserves_newApplicationInstances|done|].
  apply wp_newApplicationInstances; [done|done|..].
  { intros e w1 Hd Hk Hwf1. apply (He c); [done|by apply started_of]. }
  intros i w1 Hb Hk Hs Hi Hwf1. destruct Hi as (_ & Hrc & Hrep & _ & Hdir & Hjm & Hprov & Hkey & cred & Hup & _).
  unfold newServices. rewrite Hjm. wp_step. apply wp_NewService. intros hash. wp_step.
  pose proof (api_configuration_values lookup c Hl) as (Hiss & Haud & Hsec & Hacc & Href & Hen & Haes).
  apply (Hok c); [done|by apply started_of; auto|done|split; [apply Hk|done]|].
  unfold serving, NewOauthService. cbn [ap_auth ap_oauth ap_encryptionKey ap_registry ap_injected ap_upstream
    as_jwtManager os_redisClient os_oidcAuth os_directory os_repository os_encryptionKey
    jm_secret jm_issuer jm_audience jm_ttl jm_RefreshTTL NewJWTManager].
  rewrite Hup, Hrc, Hrep, Hdir. do 10 (split; [done|]).
  split; [by rewrite bool_decide_eq_true_2|]. do 3 (split; [reflexivity || done|]).
  unfold providers_of, encryption_key in *. split.
  - intros Hne. destruct (Enabled (ac_oai c)); [|done].
    destruct (Hen eq_refl) as [key Hk']. rewrite Hk'. by apply Haes.
  - intros Hne. destruct (ac_oauthEncryptionKey c) as [key|]; [by apply Haes|done].
Qed.

(** C15: when the API process listens, its services hold the configuration of the
    environment, a usable issuer, audience, secret and lifetimes, every client, the
    registered providers and a key that encrypts; the policy is seeded, no role of a
    user and no session has changed, the tables are well formed and contain the
    administrator.  When it does not come up, the tables have at most gained the
    administrator, and an environment that does not load touches nothing. *)
Theorem startup_correct lookup w :
  db_wf (w_db w) → users_ok (w_db w) → policy_ok (w_casbin w) →
  wp (run lookup) (λ r w',
    match r with
    | Ok a => ∃ c, loadAPIConfiguration lookup = Ok c ∧ started c w w' ∧
        bootstrapped (ac_runtime c) (w_db w) (w_db w') ∧ policy_ready w' ∧ serving c a
    | Err e => loadAPIConfiguration lookup = Err e ∧ w' = w ∨
        ∃ c, loadAPIConfiguration lookup = Ok c ∧ started c w w'
    | Panic => False
    end) w.
Proof.
  intros Hwf Hu Hp. apply wp_run; [done..|by left|right; by eauto|].
  intros c a w' Hl Hs Hb Hr Ha. by exists c.
Qed.

Context `{JwtLaws}.

Definition admin_login (c : apiConfiguration) : LoginRequest :=
  Build_LoginRequest (cf_BootstrapUsername (ac_runtime c)) (cf_BootstrapPassword (ac_runtime c)).

(** The administrator as the tables have it. *)
Definition administrator (c : apiConfiguration) (u : User) (d : db) : Prop :=
  u ∈ t_users d ∧ usr_Username u = cf_BootstrapUsername (ac_runtime c) ∧
  usr_RoleCode u = cf_BootstrapRole (ac_runtime c) ∧ usr_IsActive u = true.

Lemma bootstrap_name_trimmed lookup c :
  loadAPIConfiguration lookup = Ok c →
  TrimSpace (cf_BootstrapUsername (ac_runtime c)) = cf_BootstrapUsername (ac_runtime c).
Proof.
  intros Hl. pose proof (api_configuration_spec lookup c Hl) as (Hcf & _).
  assert (Hn : cf_BootstrapUsername (ac_runtime c) = text_setting lookup "BOOTSTRAP_ADMIN_USERNAME" "") by apply Hcf.
  rewrite Hn. unfold text_setting. apply TrimSpace_idemp.
Qed.

(** C16: on a database without an account of the configured name, the administrator
    logs in with the configured password as soon as the process listens: a token
    with the configured role, or an error of a store; never a refusal. *)
Theorem administrator_logs_in lookup c w :
  db_wf (w_db w) → users_ok (w_db w) → policy_ok (w_casbin w) →
  loadAPIConfiguration lookup = Ok c → cf_BootstrapUsername (ac_runtime c) ≠ ""%string →
  (∀ u, u ∈ t_users (w_db w) → usr_Username u ≠ cf_BootstrapUsername (ac_runtime c)) →
  wp (a ← run lookup; r ← attempt (Auth.Login (ap_auth a) (admin_login c)); mret (a, r)) (λ x w',
    match x with
    | Ok (a, inl (tok, t, ok)) => ok = true ∧ ∃ u, administrator c u (w_db w') ∧ user_token (ap_auth a) u tok
    | Ok (a, inr e) => passed_on e ∧ ∃ u, administrator c u (w_db w')
    | Err _ => True
    | Panic => False
    end) w.
Proof.
  intros Hwf Hu Hp Hl Hname Hnew. wp_step. apply wp_run; [done..|done|].
  intros c' a w1 Hl' Hs Hb Hr Ha. assert (c' = c) as -> by congruence.
  destruct Hs as (Hwf1 & Hu1 & _). destruct Hb as [[_ [Hbad|(u & Hin & Hun)]]|(u & hash & Hu' & _ & Hh & Hadd)];
    [done|by destruct (Hnew u Hin)|].
  assert (Hin : u ∈ t_users (w_db w1)) by (destruct Hadd as [-> _]; cbn; apply elem_of_app; right; by left).
  destruct Hu' as (Hun & Huh & Hur & Hua).
  assert (Hadm : administrator c u (w_db w1)) by done.
  assert (Hcred : credentials_of (admin_login c) u (w_db w1)).
  { split; [done|]. cbn [admin_login lr_Username lr_Password]. rewrite (bootstrap_name_trimmed lookup c Hl).
    split; [done|by rewrite Huh]. }
  do 2 wp_step. apply wp_Login; [done..| | | |].
  - intros e w' Hd He _. wp_step. split; [done|]. exists u. by rewrite Hd.
  - intros w' _ _ _ Hno. by destruct (Hno u).
  - intros v w' _ _ _ Hv Hact. assert (u = v) as <- by (apply (credentials_unique (admin_login c) v u (w_db w1)); [done|done|apply Hcred..]).
    congruence.
  - intros v tok t n w' Hd _ Hv _ Ht _ _. wp_step. split; [done|].
    assert (u = v) as <- by (apply (credentials_unique (admin_login c) v u (w_db w1)); [done|done|apply Hcred..]).
    exists u. split; [by rewrite Hd|done].
Qed.
End startup.

(** * A start *)

#[local] Instance sim_files : Files := {|
  os_ReadFile := λ path, inl ("authority of " +:+ path);
  AppendCertsFromPEM := λ _, true;
  tls_LoadX509KeyPair := λ cert key, inl (cert +:+ key)
|}.

#[local] Instance sim_launch : Launch := {|
  gorm_Open := λ _ _, None; database_DB := λ _, None; sql_Ping := λ _, None; redis_Ping := λ _ _, None;
  gormadapter_New := λ _, None; casbin_New := λ _, None; grpc_NewClient := λ _ _ _, None
|}.

#[local] Instance no_urls : UrlParser := λ _, None.

Definition admin_environment (key : string) : option string :=
  ({["JWT_SECRET" := "0123456789abcdef0123456789abcdef"; "BOOTSTRAP_ADMIN_USERNAME" := " root-admin ";
     "BOOTSTRAP_ADMIN_PASSWORD" := "password123"]}%string : gmap string string) !! key.

Definition first_world : world := Build_world users_db ∅ (Build_casbin [] []) 0.

Lemma first_world_ok : users_ok (w_db first_world) ∧ policy_ok (w_casbin first_world).
Proof. split; [apply ins_users_ok; by intros u Hu%not_elem_of_nil|]. split; by intros ? ? ?%not_elem_of_nil. Qed.

Lemma startup_correct_witness :
  ∃ c a, (run admin_environment first_world).1 = Ok a ∧ serving c a ∧ policy_ready (run admin_environment first_world).2.
Proof.
  pose proof (startup_correct admin_environment first_world users_world_wf (proj1 first_world_ok) (proj2 first_world_ok))
    as Hwp.
  destruct (wp_Ok _ _ _ Hwp ltac:(vm_compute; reflexivity)) as (a & Ha & c & _ & _ & _ & Hp & Hs).
  exists c, a. split; [exact Ha|]. split; [exact Hs|exact Hp].
Defined.

Definition admin_config : apiConfiguration :=
  Build_apiConfiguration
    (Build_Config "development" ":8080" defaultDatabaseURL (10 * second) (10 * second)
       (Build_JWTConfig "0123456789abcdef0123456789abcdef" "ai-gateway" "ai-gateway-api" (15 * minute) (168 * hour))
       (Build_RedisConfig "localhost:6379" "" 0) false "root-admin" "password123" "admin")
    (Build_OIDCConfig "oai" "" "" "" "")
    (Build_UpstreamClientConfig "localhost:50051" (10 * second) (Build_GRPCTLSConfig "" "" "" "")) None.

Lemma no_root_admin u : u ∈ t_users (w_db first_world) → usr_Username u ≠ "root-admin"%string.
Proof.
  assert (Hall : forallb (λ u, negb (String.eqb (usr_Username u) "root-admin")) (t_users (w_db first_world)) = true)
    by (vm_compute; reflexivity).
  intros Hin%list_elem_of_In. rewrite forallb_forall in Hall. apply Hall in Hin.
  by apply negb_true_iff, String.eqb_neq in Hin.
Qed.

Definition first_login : M (application * (string * string * bool + gerror)) :=
  a ← run admin_environment; r ← attempt (Auth.Login (ap_auth a) (admin_login admin_config)); mret (a, r).

Lemma administrator_logs_in_witness :
  ∃ a tok t u, (first_login first_world).1 = Ok (a, inl (tok, t, true)) ∧ usr_RoleCode u = "admin"%string ∧
    user_token (ap_auth a) u tok.
Proof.
  pose proof (administrator_logs_in admin_environment admin_config first_world users_world_wf (proj1 first_world_ok)
    (proj2 first_world_ok) ltac:(vm_compute; reflexivity) ltac:(discriminate) no_root_admin) as Hwp.
  lazymatch type of Hwp with wp _ ?Q _ => change (wp first_login Q first_world) in Hwp end.
  assert (Hok : match (first_login first_world).1 with Ok (_, inl _) => true | _ => false end = true)
    by (vm_compute; reflexivity).
  unfold wp in Hwp. destruct (first_login first_world).1 as [[a [[[tok t] ok]|e]]|e|]; try discriminate Hok.
  destruct Hwp as (-> & u & (_ & _ & Hrole & _) & Ht). exists a, tok, t, u. split; [reflexivity|].
  split; [exact Hrole|exact Ht].
Defined.
