(* ===== verification/System.v ===== *)
(** The API process over its life: a start, and then requests one after the other.
    The state it relies on, well-formed tables with users that pass their checks
    and a seeded policy, is made by the start and kept by every request. *)

From S2P Require Import Prelude.
From S2P Require Import GoStrings.
From S2P Require Import Schema.
From S2P Require Import Integrity.
From S2P Require Import Stores.
From S2P Require Import World.
From S2P Require Import Tenants.
From S2P Require Import Security.
From S2P Require Import Http.
From S2P Require Import NetUrl.
From S2P Require Import Config.
From S2P Require Import Sim.
From S2P Require Import RefreshTokens.
From S2P Require Import Directory.
From S2P Require Import Oidc.
From S2P Require Import Rbac.
From S2P Require Import Jwt.
From S2P Require Import User.
From S2P Require Import Auth.
From S2P Require Import AuthSpec.
From S2P Require Import Route.
From S2P Require Import Translator.
From S2P Require Import Chat.
From S2P Require Import Oauth.
From S2P Require Import OauthSim.
From S2P Require Import Apikey.
From S2P Require Import ExternalApikey.
From S2P Require Import ChatHandler.
From S2P Require Import ChatHandlerSpec.
From S2P Require Import Router.
From S2P Require Import RouterSpec.
From S2P Require Import Startup.
From S2P Require Import StartupSpec.

Local Open Scope list_scope.
Local Open Scope N_scope.

(** * The checks of the users' table *)

Lemma insert_one_users t now r d r' d' :
  insert_one t now r d = Ok (r', d') → users_ok d → users_ok d'.
Proof.
  unfold insert_one. destruct (check_ok t _) eqn:Hc; [|done]. cbn [negb].
  destruct (_ || _); [done|]. destruct (fk_ok _ _ _); [|done]. cbn [negb]. intros [= <- <-] Hu.
  destruct t; cbn; try done.
  intros u. cbn. rewrite elem_of_app, list_elem_of_singleton. intros [Hin| ->]; [by apply Hu|exact Hc].
Qed.

Lemma insert_all_users t now rs d rs' d' :
  insert_all t now rs d = Ok (rs', d') → users_ok d → users_ok d'.
Proof.
  revert d rs'. induction rs as [|r rs IH]; intros d rs'; cbn; [by intros [= _ <-]|].
  destruct (insert_one t now r d) as [[r1 d1]|e|] eqn:H1; try done.
  destruct (insert_all t now rs d1) as [[rs1 d2]|e|] eqn:H2; try done. intros [= _ <-] Hu.
  eapply IH, insert_one_users; done.
Qed.

Lemma delete_rows_users t p d : users_ok d → users_ok (delete_rows t p d).
Proof. intros Hu. destruct t; try exact Hu. intros u Hin. apply elem_of_select in Hin as [_ Hin]. by apply Hu. Qed.

Lemma sql_step_users now A (s : stmt A) d x d' : sql_step now s d = Ok (x, d') → users_ok d → users_ok d'.
Proof.
  destruct s as [t p le|t u p le|t p|t rs|t p a|t p|]; cbn [sql_step]; try by intros [= _ <-].
  - apply insert_all_users.
  - intros [= _ <-]. by destruct a.
  - intros [= _ <-]. apply delete_rows_users.
Qed.

(** * Computations that keep the state sound *)

Definition sound (w : world) : Prop := db_wf (w_db w) ∧ users_ok (w_db w) ∧ policy_ready w.

Definition stays {A} (m : M A) : Prop := ∀ w, sound w → sound (m w).2.

Create HintDb stays.

Section closure.
Context `{EnvLaws}.

Lemma stays_same {A} (m : M A) : (∀ w, same_stores w (m w).2 ∨ w_db (m w).2 = w_db w ∧ w_casbin (m w).2 = w_casbin w) → stays m.
Proof.
  intros Hm w (Hwf & Hu & Hp). unfold sound, policy_ready.
  assert (w_db (m w).2 = w_db w ∧ w_casbin (m w).2 = w_casbin w) as [-> ->]
    by (destruct (Hm w) as [(? & _ & ?)|]; done). done.
Qed.

Lemma stays_ret {A} (a : A) : stays (mret a).
Proof. by intros w. Qed.
Lemma stays_throw {A} e : stays (@throw A e).
Proof. by intros w. Qed.
Lemma stays_lift {A} (r : res A) : stays (lift r).
Proof. by intros w. Qed.
Lemma stays_reject_if b e : stays (reject_if b e).
Proof. intros w. by destruct b. Qed.
Lemma stays_Now : stays Now.
Proof. by intros w. Qed.
Lemma stays_rand n : stays (rand_bytes n).
Proof. by intros w. Qed.
Lemma stays_rds {A} (c : rcmd A) : stays (rds c).
Proof. apply stays_same. intros w. right. unfold rds. by destruct (redis_exec _ _ _). Qed.
Lemma stays_rpc {A} (call : nat → rpc_result A) translate empty : stays (rpc call translate empty).
Proof. apply stays_same. intros w. right. unfold rpc. by destruct (call _) as [[a|]|e]. Qed.

Lemma stays_sql {A} (s : stmt A) : stays (sql s).
Proof.
  intros w (Hwf & Hu & Hp). apply (wp_sql s (λ _ w', sound w')); [done|].
  destruct (sql_step _ _ _) as [[x d]|e|] eqn:Hs; [|done..].
  split; [by eapply sql_step_wf|]. split; [by eapply sql_step_users|exact Hp].
Qed.

Lemma stays_bind {A B} (m : M A) (f : A → M B) : stays m → (∀ a, stays (f a)) → stays (m ≫= f).
Proof.
  intros Hm Hf w Hw. unfold mbind, M_bind. specialize (Hm w Hw).
  destruct (m w) as [[a|e|] w']; [by apply Hf|done..].
Qed.

Lemma stays_attempt {A} (m : M A) : stays m → stays (attempt m).
Proof. intros Hm w Hw. unfold attempt. specialize (Hm w Hw). by destruct (m w) as [[a|e|] w']. Qed.

(** A rollback takes the tables of the start and the policy of the end. *)
Lemma stays_transaction {A} (m : M A) : stays m → stays (transaction m).
Proof.
  intros Hm w Hw. apply (wp_transaction m (λ _ w', sound w')). unfold wp. specialize (Hm w Hw).
  destruct Hw as (Hwf & Hu & _), Hm as (Hwf' & Hu' & Hp').
  destruct (m w) as [[a|e|] w']; [split; [done|intros e _]|..]; by split_and!.
Qed.

(** Authorizing a user touches its roles only. *)
Lemma stays_AuthorizationForUser u roleCode : stays (AuthorizationForUser u roleCode).
Proof.
  intros w (Hwf & Hu & Hp & Hs). apply (wp_AuthorizationForUser u roleCode (λ _ w', sound w') w Hp).
  - intros e w' Hd _ Hp' [Hr _] _. unfold sound, policy_ready, seeded, perms_of. rewrite Hd, Hr. by split_and!.
  - intros w' Hd _ Hp' [Hr _] _ _. unfold sound, policy_ready, seeded, perms_of. rewrite Hd, Hr. by split_and!.
Qed.
End closure.

#[export] Hint Resolve stays_ret stays_throw stays_lift stays_reject_if stays_Now stays_rand stays_rds stays_rpc
  stays_sql stays_AuthorizationForUser : stays.

(** Goes through the structure of an operation, opening the definitions on the way. *)
Ltac head_of t := lazymatch t with ?f _ => head_of f | _ => t end.

Ltac stay :=
  repeat first
    [ progress intros
    | solve [auto with stays]
    | lazymatch goal with
      | |- stays (mbind _ _) => apply stays_bind
      | |- stays (attempt _) => apply stays_attempt
      | |- stays (transaction _) => apply stays_transaction
      | |- stays (match ?x with _ => _ end) => destruct x
      | |- stays (let _ := _ in _) => cbv zeta
      | |- stays ?m => let h := head_of m in unfold h
      end ].

(** * The requests *)

Section requests.
Context `{EnvLaws} `{Aead} `{Bcrypt} `{JwtLib} `{UpstreamClient} `{OAuth2}.
Context `{Oauth.Json LoginFlow} `{Oauth.Json deviceLoginFlow} `{UrlParser} `{ChatClient} `{Sdk} `{Gin} `{Binding} `{Probes}.
Context (claims_json : string → option IDTokenClaims).

Lemma stays_HashPassword p : stays (HashPassword p).
Proof. by intros w. Qed.
Lemma stays_probe ping : stays (probe ping).
Proof. by intros w. Qed.
Lemma stays_ChatStream body secret mode endpoint h p hs : stays (ChatStream body secret mode endpoint h p hs).
Proof. apply stays_same. intros w. right. unfold ChatStream. by destruct (rpc_ChatStream _ _). Qed.

Lemma stays_Recovery m : stays m → stays (Recovery m).
Proof. intros Hm w Hw. unfold Recovery. specialize (Hm w Hw). by destruct (m w) as [[x|e|] w']. Qed.

Hint Resolve stays_HashPassword stays_probe stays_ChatStream : stays.

Lemma stays_create_rows t rs : stays (create_rows t rs).
Proof. induction rs; stay. Qed.

Hint Resolve stays_create_rows : stays.

Lemma stays_endpoint a e user id r : stays (endpoint_handler claims_json a e user id r).
Proof. destruct e; cbn [endpoint_handler]; stay. Qed.

Hint Resolve stays_endpoint : stays.

Lemma stays_serve_request a r : stays (serve_request claims_json a r).
Proof.
  unfold serve_request. apply stays_bind; [stay|]. intros [requestID|]; [|stay].
  apply stays_bind; [|stay]. apply stays_Recovery. stay.
Qed.
End requests.

(** * The process *)

Section process.
Context `{EnvLaws} `{AeadLaws} `{!Bcrypt} `{!BcryptLaws} `{JwtLaws} `{UpstreamClient} `{OAuth2}.
Context `{Oauth.Json LoginFlow} `{Oauth.Json deviceLoginFlow} `{UrlParser} `{ChatClient} `{Sdk} `{GinLaws} `{Binding} `{Probes}.
Context `{Files} `{Launch}.
Context (claims_json : string → option IDTokenClaims).

Fixpoint serve_all (a : application) (rs : list request) : M (list (option string * api_answer)) :=
  match rs with
  | [] => mret []
  | r :: rs => answer ← serve_request claims_json a r; answers ← serve_all a rs; mret (answer :: answers)
  end.

(** A start and the requests that follow. *)
Definition lifetime (lookup : string → option string) (rs : list request) :
  M (application * list (option string * api_answer)) :=
  a ← run lookup; answers ← serve_all a rs; mret (a, answers).

(** The identifier of an answer: the request's own if it is valid. *)
Definition answered (r : request) (x : option string * api_answer) : Prop :=
  match x.1 with
  | Some id => validRequestID id = true ∧ (validRequestID (rq_RequestID r) = true → id = rq_RequestID r)
  | None => validRequestID (rq_RequestID r) = false ∧ answer_status x.2 = 500%Z
  end.

(** No request of the list may act for the user, whatever flows are pending. *)
Definition bystander (a : application) (rs : list request) (u : N) : Prop :=
  ∀ r redis, r ∈ rs → ¬ acts_for a r redis u.

Lemma wp_serve_all a rs w (Q : res (list (option string * api_answer)) → world → Prop) :
  sound w →
  (∀ answers w', sound w' → Forall2 answered rs answers →
     (∀ u, lives u (w_db w) → bystander a rs u → rows_of u (w_db w') = rows_of u (w_db w)) → Q (Ok answers) w') →
  wp (serve_all a rs) Q w.
Proof.
  revert w Q. induction rs as [|r rs IH]; intros w Q Hw HQ; cbn [serve_all]; [wp_step; by apply HQ|].
  wp_step. pose proof (stays_serve_request claims_json a r w Hw) as Hw1.
  generalize (serve_request_spec claims_json a r w). unfold wp at 1 2.
  destruct (serve_request claims_json a r w) as [x w1]. cbn [fst snd] in *.
  intros [(id & answer & -> & Hid) Hk]. destruct Hw as (Hwf & _). destruct (Hk Hwf) as [_ Hrows].
  wp_step. apply IH; [done|]. intros answers w2 Hw2 Hall Hk2. wp_step. apply HQ; [done|..].
  { constructor; [|done]. unfold answered. cbn. destruct id; [exact Hid|]. destruct Hid as (? & ? & _). done. }
  intros u Hl Hu. assert (Hr : rows_of u (w_db w1) = rows_of u (w_db w)).
  { apply Hrows; [|done]. apply Hu. by left. }
  rewrite <- Hr. apply Hk2; [by eapply lives_rows|]. intros r' redis Hin. apply Hu. by right.
Qed.

(** The bootstrap leaves everybody's rows as they are. *)
Lemma bootstrapped_rows c d d' u : db_wf d → lives u d → bootstrapped c d d' → rows_of u d' = rows_of u d.
Proof. intros Hwf Hl [[-> _]|(v & hash & _ & _ & _ & Ha)]; [done|]. by eapply rows_of_user_added. Qed.

Lemma wp_lifetime lookup rs w (Q : res (application * list (option string * api_answer)) → world → Prop) :
  db_wf (w_db w) → users_ok (w_db w) → policy_ok (w_casbin w) →
  (∀ e w', db_wf (w_db w') → users_ok (w_db w') → policy_ok (w_casbin w') → Q (Err e) w') →
  (∀ c a answers w', loadAPIConfiguration lookup = Ok c → serving c a → sound w' → Forall2 answered rs answers →
     (∀ u, lives u (w_db w) → bystander a rs u → rows_of u (w_db w') = rows_of u (w_db w)) → Q (Ok (a, answers)) w') →
  wp (lifetime lookup rs) Q w.
Proof.
  intros Hwf Hu Hp He Hok. unfold lifetime. wp_step. apply wp_run; [done..|by auto| |].
  - intros c e w1 _ (Hwf1 & Hu1 & (_ & _ & Hp1) & _). by apply He.
  - intros c a w1 Hl (Hwf1 & Hu1 & _) Hb Hr Ha. wp_step. apply wp_serve_all; [by split_and!|].
    intros answers w2 Hw2 Hall Hk. wp_step. apply (Hok c); [done..|]. intros u Hlive Hby.
    assert (Hr1 : rows_of u (w_db w1) = rows_of u (w_db w)) by (by eapply bootstrapped_rows).
    rewrite <- Hr1. apply Hk; [by eapply lives_rows|done].
Qed.


(** Whatever requests were served before, a user who is active and gives the right
    password gets an access token of the account, unless a store fails. *)
Theorem logins_keep_working lookup rs req w :
  db_wf (w_db w) → users_ok (w_db w) → policy_ok (w_casbin w) →
  wp (x ← lifetime lookup rs; r ← attempt (Auth.Login (ap_auth x.1) req); mret (x.1, r)) (λ y w',
    match y with
    | Ok (a, inl (tok, t, ok)) => if ok : bool then ∃ u, credentials_of req u (w_db w') ∧ user_token (ap_auth a) u tok
                                  else ∀ u, ¬ credentials_of req u (w_db w')
    | Ok (a, inr e) => passed_on e ∨ ∃ u, credentials_of req u (w_db w') ∧ usr_IsActive u = false
    | Err _ => True
    | Panic => False
    end) w.
Proof.
  intros Hwf Hu Hp. wp_step. apply wp_lifetime; [done..|].
  intros c a answers w1 _ _ (Hwf1 & Hu1 & Hp1) _ _. cbn [fst]. do 2 wp_step. apply wp_Login; [done..| | | |].
  - intros e w2 _ He _. wp_step. by left.
  - intros w2 Hd _ _ Hno. wp_step. by rewrite Hd.
  - intros u w2 Hd _ _ Hc Hi. wp_step. right. exists u. by rewrite Hd.
  - intros u tok t n w2 Hd _ Hc _ Ht _ _. wp_step. exists u. by rewrite Hd.
Qed.
End process.

(** * A life *)

#[local] Existing Instance StartupSpec.sim_files.
#[local] Existing Instance StartupSpec.sim_launch.
#[local] Existing Instance StartupSpec.no_urls.

(** Every body registers Dave or logs Alice in. *)
#[local] Instance public_binding : Binding := {|
  bind_login := λ _, Some alice_login;
  bind_register := λ _, Some (Build_RegisterRequest "dave" "dave-password" "dave-password" "invited" true);
  bind_create_key := λ _, None; bind_update_key := λ _, None; bind_accounts := λ _, None; bind_external := λ _, None;
  bind_device := λ _, None; bind_id := λ _, None; bind_time := λ _, None
|}.

Definition public_request (method path : string) : request :=
  Build_request method path "" "request-1" None "" (λ _, ""%string) (Ok "") true.

Definition public_requests : list request :=
  [public_request "POST" "/api/v1/auth/register"; public_request "POST" "/api/v1/auth/login";
   public_request "GET" "/nowhere"].

Lemma public_bystander a u : bystander a public_requests u.
Proof.
  intros r redis Hr. unfold public_requests in Hr. rewrite !elem_of_cons in Hr.
  destruct Hr as [->|[->|[->|Hr]]]; [by intros []..|]. by apply not_elem_of_nil in Hr.
Qed.

Definition first_life : res (application * list (option string * api_answer)) * world :=
  lifetime sim_claims admin_environment public_requests first_world.


Definition later_login : M (application * (string * string * bool + gerror)) :=
  x ← lifetime sim_claims admin_environment public_requests; r ← attempt (Auth.Login (ap_auth x.1) alice_login);
  mret (x.1, r).

Lemma logins_keep_working_witness :
  ∃ a tok t u, (later_login first_world).1 = Ok (a, inl (tok, t, true)) ∧
    credentials_of alice_login u (w_db (later_login first_world).2) ∧ user_token (ap_auth a) u tok.
Proof.
  pose proof (logins_keep_working sim_claims admin_environment public_requests alice_login first_world users_world_wf
    (proj1 first_world_ok) (proj2 first_world_ok)) as Hwp.
  lazymatch type of Hwp with wp _ ?Q _ => change (wp later_login Q first_world) in Hwp end.
  assert (Hok : match (later_login first_world).1 with Ok (_, inl (_, _, true)) => true | _ => false end = true)
    by (vm_compute; reflexivity).
  unfold wp in Hwp. destruct (later_login first_world).1 as [[a [[[tok t] [|]]|e]]|e|]; try discriminate Hok.
  destruct Hwp as (u & Hc & Ht). exists a, tok, t, u. split; [reflexivity|]. split; [exact Hc|exact Ht].
Defined.
