(* ===== verification/UpstreamMain.v ===== *)
(** How the upstream process comes up: cmd/upstream/main.go and the first half of
    [Serve] in internal/upstreamserver/server.go, up to the accepting of
    connections; and the health check of cmd/grpc-healthcheck that asks it. *)

From S2P Require Import Prelude.
From S2P Require Import GoStrings.
From S2P Require Import Schema.
From S2P Require Import Stores.
From S2P Require Import World.
From S2P Require Import NetUrl.
From S2P Require Import Config.
From S2P Require Import ConfigSpec.
From S2P Require Import Directory.
From S2P Require Import Oidc.
From S2P Require Import Upstream.
From S2P Require Import Startup.
From S2P Require Import StartupSpec.

Local Open Scope list_scope.
Local Open Scope Z_scope.

(** A server that listens: with TLS or without, and the services it reports as
    serving. *)
Record listening := {
  ls_Address : string; ls_Credentials : option TransportCredentials; ls_Server : server;
  ls_Serving : string → bool; ls_ShutdownTimeout : time
}.

Definition UpstreamServiceName : string := "upstream.UpstreamService".

Class Listener := net_Listen : nat → string → option gerror.

Section main.
Context `{UrlParser} `{Discovery} `{Files} `{Listener}.

Definition providers (n : nat) (oaiConfig : OIDCConfig) : res (gmap string (option OIDCAuth)) :=
  if Enabled oaiConfig then
    auth ← NewOIDCAuth n oaiConfig OaiAuthURLParams OaiScopes;
    Ok {["oai"%string := Some auth]}
  else Ok ∅.

Definition NewServer (oidcAuth : gmap string (option OIDCAuth)) (timeout : time) : server :=
  Build_server oidcAuth timeout.

(** The statuses that are set: of the server as a whole, and of the service. *)
Definition serving_status (s : server) (service : string) : bool :=
  String.eqb service "" || (String.eqb service UpstreamServiceName && Upstream.serving s).

Definition Serve (n : nat) (cfg : UpstreamServerConfig) (oidcAuth : gmap string (option OIDCAuth)) : res listening :=
  credentials ← ServerCredentials (us_TLS cfg);
  match net_Listen n (us_Address cfg) with
  | Some e => Err e
  | None =>
      let s := NewServer oidcAuth (us_RequestTimeout cfg) in
      Ok (Build_listening (us_Address cfg) credentials s (serving_status s) (us_ShutdownTimeout cfg))
  end.

Definition run_upstream (lookup : string → option string) (n : nat) : res listening :=
  cfg ← loadUpstreamServer lookup;
  oaiConfig ← loadOidcConfig lookup "oai";
  oidcAuth ← providers n oaiConfig;
  Serve (S n) cfg oidcAuth.

(** * What listens *)

Lemma providers_Ok n c m :
  providers n c = Ok m →
  (Enabled c = false ∧ m = ∅) ∨
  ∃ auth config, Enabled c = true ∧ m = {["oai"%string := Some auth]} ∧ oa_OauthConfig auth = Some config.
Proof.
  unfold providers. destruct (Enabled c); [|intros [= <-]; by left]. rewrite bind_Ok.
  intros (auth & Ha & [= <-]). right. revert Ha. unfold NewOIDCAuth.
  destruct (oidc_NewProvider _ _) as [provider|e]; [|done].
  destruct (raw_claims _) as [raw|]; [|done]. rewrite bind_Ok. intros (config & _ & [= <-]). by eexists _, config.
Qed.

Lemma serving_singleton auth config timeout :
  oa_OauthConfig auth = Some config →
  Upstream.serving (NewServer {["oai"%string := Some auth]} timeout) = true.
Proof.
  intros Ha. unfold Upstream.serving, config_of, auth_of. cbn. rewrite lookup_singleton_eq. cbn. rewrite Ha. done.
Qed.

(** The upstream listens with the configured times and, exactly when TLS is set
    up, on mutual TLS; the service reports to serve exactly when a provider is
    configured, and only then can an RPC of a login succeed. *)
Theorem upstream_starts lookup n l :
  run_upstream lookup n = Ok l →
  ∃ cfg oai, loadUpstreamServer lookup = Ok cfg ∧ loadOidcConfig lookup "oai" = Ok oai ∧
    grpc_address (ls_Address l) false ∧ duration_ok (sv_timeout (ls_Server l)) ∧ duration_ok (ls_ShutdownTimeout l) ∧
    ServerCredentials (us_TLS cfg) = Ok (ls_Credentials l) ∧
    (ls_Credentials l = None ↔ us_TLS cfg = Build_GRPCTLSConfig "" "" "" "") ∧
    ls_Serving l "" = true ∧ ls_Serving l UpstreamServiceName = Enabled oai ∧
    (Enabled oai = false → ∀ provider, config_of (ls_Server l) provider = None).
Proof.
  unfold run_upstream. rewrite bind_Ok. intros (cfg & Hcfg & Hl). apply bind_Ok in Hl as (oai & Hoai & Hl).
  apply bind_Ok in Hl as (m & Hm & Hl). revert Hl. unfold Serve. rewrite bind_Ok. intros (cred & Hcred & Hl).
  destruct (net_Listen _ _); [done|]. injection Hl as <-. exists cfg, oai.
  pose proof (loadUpstreamServer_Ok lookup cfg Hcfg) as (Ha & _ & Hr & Hs & _).
  do 5 (split; [done|]). split; [done|]. split.
  { revert Hcred. unfold ServerCredentials. pose proof (no_tls_spec (us_TLS cfg)) as Hn.
    destruct (no_tls (us_TLS cfg)).
    - intros [= <-]. split; [|done]. intros _. by apply Hn.
    - rewrite bind_Ok. intros (c & _ & [= <-]). split; [done|]. intros E. by apply Hn in E. }
  split; [done|]. cbn [ls_Serving ls_Server]. unfold serving_status. cbn [orb].
  apply providers_Ok in Hm as [[He ->]|(auth & config & He & -> & Hauth)]; rewrite He.
  - split; [done|]. intros _ provider. unfold config_of, auth_of. cbn. by rewrite lookup_empty.
  - rewrite (serving_singleton auth config) by done. by split.
Qed.
End main.
