(* ===== verification/Shutdown.v ===== *)
(** The second half of [Serve] in internal/upstreamserver/server.go: the server at
    work and the goroutine that shuts it down when the context ends, as a step
    relation. Of the gRPC server the steps have what its documentation says:
    [GracefulStop] accepts nothing more and waits for the pending calls, [Stop]
    cancels them, and [Serve] returns an error unless one of the two was called. *)

From S2P Require Import Prelude.
From S2P Require Import Schema.
From S2P Require Import GoStrings.

Local Open Scope list_scope.
Local Open Scope Z_scope.

Definition ErrServerStopped : gerror := Sentinel "grpc.ErrServerStopped" "grpc: the server has been stopped".

(** What [Serve] makes of the gRPC server's error. *)
Definition serve_result (err : option gerror) : option gerror :=
  match err with
  | Some e => if errors_Is e ErrServerStopped then None else Some e
  | None => None
  end.

(** The goroutine: in its select, after [healthServer.Shutdown], in
    [GracefulStop], or at its end. *)
Inductive watcher := Watching | Announced | Draining | Ended.

(** [lf_force] is the armed timer, [lf_since] when [GracefulStop] was called, and
    [lf_result] what [Serve] has returned. *)
Record life := {
  lf_now : time; lf_cancelled : bool; lf_watcher : watcher; lf_force : option time; lf_since : option time;
  lf_accepting : bool; lf_calls : nat; lf_serving : bool; lf_result : option (option gerror)
}.

Definition life_start (now : time) : life := Build_life now false Watching None None true 0 true None.

Section shutdown.
Variable timeout : time.

Inductive life_step : life → life → Prop :=
  | call_begins n x w f s c h :
      life_step (Build_life n x w f s true c h None) (Build_life n x w f s true (S c) h None)
  | call_ends n x w f s a c h r :
      life_step (Build_life n x w f s a (S c) h r) (Build_life n x w f s a c h r)
  | time_passes n n' x w f s a c h r :
      n <= n' → (∀ t, f = Some t → n' <= t) →
      life_step (Build_life n x w f s a c h r) (Build_life n' x w f s a c h r)
  | context_ends n w f s a c h r :
      life_step (Build_life n false w f s a c h r) (Build_life n true w f s a c h r)
  | health_shutdown n s a c h r :
      life_step (Build_life n true Watching None s a c h r) (Build_life n true Announced None s a c false r)
  | graceful_stop n s a c h r :
      life_step (Build_life n true Announced None s a c h r)
                (Build_life n true Draining (Some (n + timeout)) (Some n) false c h r)
  | drained n x f s h r :
      life_step (Build_life n x Draining f s false 0 h r) (Build_life n x Ended None s false 0 h r)
  | force_stop n x w s a c h r :
      life_step (Build_life n x w (Some n) s a c h r) (Build_life n x w None s false 0 h r)
  | serve_stopped n x w f s h err :
      err = None ∨ err = Some ErrServerStopped →
      life_step (Build_life n x w f s false 0 h None) (Build_life n x w f s false 0 h (Some (serve_result err)))
  | serve_fails n x w f s c h e :
      errors_Is e ErrServerStopped = false →
      life_step (Build_life n x w f s true c h None) (Build_life n x w f s true c h (Some (serve_result (Some e))))
  | done_closed n x s a c h r :
      life_step (Build_life n x Watching None s a c h (Some r)) (Build_life n x Ended None s a c h (Some r)).

(** * The shutdown *)

(** Before [GracefulStop] the server accepts calls and no timer runs; after it
    nothing is accepted, and either the timer is armed and not yet due or no call is
    left. *)
Definition life_inv (l : life) : Prop :=
  match lf_since l with
  | None => lf_accepting l = true ∧ lf_force l = None ∧ lf_watcher l ≠ Draining ∧
      (lf_watcher l = Announced → lf_serving l = false ∧ lf_cancelled l = true) ∧ lf_result l ≠ Some None ∧
      (lf_watcher l = Ended → lf_result l ≠ None)
  | Some t => lf_accepting l = false ∧ lf_serving l = false ∧ lf_cancelled l = true ∧
      (lf_watcher l = Draining ∨ lf_watcher l = Ended) ∧ t <= lf_now l ∧
      (lf_force l = Some (t + timeout) ∧ lf_now l <= t + timeout ∨ lf_force l = None ∧ lf_calls l = 0%nat)
  end.

Hypothesis timeout_positive : 0 <= timeout.

Lemma life_inv_step l l' : life_step l l' → life_inv l → life_inv l'.
Proof.
  intros Hs. destruct Hs; try destruct s as [t|]; unfold life_inv; cbn; intros Hi;
    intuition (try congruence; try lia).
  1,2: left; split; [done|by auto].
  match goal with H : errors_Is _ _ = false, E : Some _ = Some None |- _ => cbn in E; by rewrite H in E end.
Qed.

Lemma life_inv_reachable now l : rtc life_step (life_start now) l → life_inv l.
Proof.
  intros Hs. assert (Hi : life_inv (life_start now)) by by split_and!.
  revert Hi. induction Hs as [|l1 l2 l3 Hstep _ IH]; [done|]. intros Hi. by eapply IH, life_inv_step.
Qed.

(** * The end *)

(** The goroutine ends and [Serve] has returned. *)
Definition over (l : life) : Prop := lf_watcher l = Ended ∧ ∃ r, lf_result l = Some r.

(** The end of the pending calls is not needed: the timer cancels them. *)
Lemma calls_cancelled n w t c h r :
  n <= t → life_step (Build_life n true w (Some t) (Some (t - timeout)) false c h r)
                     (Build_life t true w (Some t) (Some (t - timeout)) false c h r) ∧
  life_step (Build_life t true w (Some t) (Some (t - timeout)) false c h r)
            (Build_life t true w None (Some (t - timeout)) false 0 h r).
Proof. intros Ht. split; [constructor; [done|by intros ? [= <-]]|constructor]. Qed.

Lemma drains n w f t c h r :
  life_inv (Build_life n true w f (Some t) false c h r) →
  ∃ n' f', rtc life_step (Build_life n true w f (Some t) false c h r) (Build_life n' true w f' (Some t) false 0 h r).
Proof.
  unfold life_inv. cbn. intros (_ & _ & _ & _ & _ & [[-> Hn]|[-> ->]]); [|by exists n, None].
  exists (t + timeout), None. replace (Some t) with (Some (t + timeout - timeout)) by (f_equal; lia).
  destruct (calls_cancelled n w (t + timeout) c h r Hn). by eapply rtc_l, rtc_once.
Qed.

(** From a shutdown that has begun the end can be reached whatever the pending
    calls do, by the steps of the goroutine, the timer and the server alone. *)
Lemma shutdown_ends n w f t a c h r :
  life_inv (Build_life n true w f (Some t) a c h r) →
  ∃ l', rtc life_step (Build_life n true w f (Some t) a c h r) l' ∧ over l'.
Proof.
  intros Hi. pose proof Hi as (Ha & _ & _ & Hw & _). cbn in Ha, Hw. subst a.
  destruct (drains n w f t c h r Hi) as (n' & f' & Hd).
  assert (He : ∃ f'', rtc life_step (Build_life n' true w f' (Some t) false 0 h r) (Build_life n' true Ended f'' (Some t) false 0 h r)).
  { destruct Hw as [-> | ->]; [exists None; apply rtc_once; constructor|by exists f']. }
  destruct He as [f'' He]. destruct r as [r|].
  - eexists. split; [by etrans|]. split; [done|by eexists].
  - eexists. split; [etrans; [exact Hd|]; etrans; [exact He|]; apply rtc_once, serve_stopped; by left|].
    split; [done|by eexists].
Qed.

Lemma shutdown_reaches_end now l :
  rtc life_step (life_start now) l → lf_cancelled l = true → ∃ l', rtc life_step l l' ∧ over l'.
Proof.
  intros Hr Hx. pose proof (life_inv_reachable now l Hr) as Hi. destruct l as [n x w f s a c h r]. cbn in Hx. subst x.
  destruct s as [t|]; [by eapply shutdown_ends|].
  pose proof Hi as (Ha & Hf & Hw & _). cbn in Ha, Hf, Hw. subst a f.
  assert (Hgo : w = Ended ∨ rtc life_step (Build_life n true w None None true c h r)
    (Build_life n true Draining (Some (n + timeout)) (Some n) false c false r)).
  { destruct w; [right| |done|by left].
    - eapply rtc_l; [apply health_shutdown|]. apply rtc_once, graceful_stop.
    - right. destruct Hi as (_ & _ & _ & Hh & _). cbn in Hh. destruct (Hh eq_refl) as [-> _]. apply rtc_once, graceful_stop. }
  destruct Hgo as [-> |Hgo].
  - destruct Hi as (_ & _ & _ & _ & _ & He). cbn in He. specialize (He eq_refl).
    destruct r as [r|]; [|done]. eexists. split; [apply rtc_refl|]. split; [done|by eexists].
  - destruct (shutdown_ends n Draining (Some (n + timeout)) n false c false r) as (l' & Hl & Ho).
    { unfold life_inv. cbn. split_and!; try done; try lia; [by left|left; split; [done|lia]]. }
    exists l'. split; [by etrans|done].
Qed.
(** C17: once [GracefulStop] was called no call is accepted and the health service says
    so; at the latest when the time for the shutdown is over every call has ended or
    was cancelled. [Serve] returns without an error only after a shutdown, so that
    the process ends with 0 only when it was told to stop; and from then on the end
    can be reached, whatever the pending calls do. *)
Theorem shutdown_correct now l :
  rtc life_step (life_start now) l →
  (∀ t, lf_since l = Some t →
     lf_accepting l = false ∧ lf_serving l = false ∧ (t + timeout < lf_now l → lf_calls l = 0%nat)) ∧
  (lf_result l = Some None → lf_cancelled l = true ∧ lf_since l ≠ None) ∧
  (lf_cancelled l = true → ∃ l', rtc life_step l l' ∧ over l').
Proof.
  intros Hr. pose proof (life_inv_reachable now l Hr) as Hl. unfold life_inv in Hl.
  split; [|split; [|by eapply shutdown_reaches_end]].
  - intros t Ht. rewrite Ht in Hl. destruct Hl as (Ha & Hs & _ & _ & _ & Hf). split; [done|]. split; [done|]. lia.
  - intros He. destruct (lf_since l) as [t|]; [|by destruct Hl as (_ & _ & _ & _ & ? & _)].
    by destruct Hl as (_ & _ & ? & _).
Qed.
End shutdown.

(** * A server that is stopped during a call *)

(** Ten seconds for the shutdown; the call does not end by itself. *)
Definition pending_life : life := Build_life 7 true Draining (Some 17) (Some 7) false 1 false None.
Definition stopped_life : life := Build_life 17 true Ended None (Some 7) false 0 false (Some None).

Lemma pending_reachable : rtc (life_step 10) (life_start 0) pending_life.
Proof.
  eapply rtc_l; [apply call_begins|]. eapply rtc_l; [apply (time_passes 10 0 7); [lia|done]|].
  eapply rtc_l; [apply context_ends|]. eapply rtc_l; [apply health_shutdown|]. apply rtc_once, (graceful_stop 10).
Qed.

Lemma stopped_reachable : rtc (life_step 10) pending_life stopped_life.
Proof.
  eapply rtc_l; [apply (time_passes 10 7 17); [lia|by intros ? [= <-]]|]. eapply rtc_l; [apply force_stop|].
  eapply rtc_l; [apply drained|]. apply rtc_once, (serve_stopped 10 17 true Ended None (Some 7) false None). by left.
Qed.

Lemma shutdown_correct_witness :
  lf_accepting pending_life = false ∧ lf_serving pending_life = false ∧ lf_since stopped_life ≠ None ∧
  ∃ l, rtc (life_step 10) pending_life l ∧ over l.
Proof.
  assert (Ht : 0 <= 10) by lia.
  destruct (shutdown_correct 10 Ht 0 pending_life pending_reachable) as (Hp & _ & Hend).
  destruct (Hp 7 eq_refl) as (Ha & Hs & _).
  assert (Hr : rtc (life_step 10) (life_start 0) stopped_life) by (etrans; [apply pending_reachable|apply stopped_reachable]).
  destruct (shutdown_correct 10 Ht 0 stopped_life Hr) as (_ & He & _). split; [exact Ha|]. split; [exact Hs|].
  split; [exact (proj2 (He eq_refl))|exact (Hend eq_refl)].
Defined.
