(* ===== verification/Lifecycle.v ===== *)
(** The handles of the API process: which connections cmd/api opens while it starts
    and what closes them, on every path out of newApplicationInstances and of main.
    Next to the world a computation carries the handles that are open. *)

From S2P Require Import Prelude.
From S2P Require Import GoStrings.
From S2P Require Import Schema.
From S2P Require Import Integrity.
From S2P Require Import Stores.
From S2P Require Import World.
From S2P Require Import Security.
From S2P Require Import Sim.
From S2P Require Import NetUrl.
From S2P Require Import Config.
From S2P Require Import Directory.
From S2P Require Import Oidc.
From S2P Require Import Rbac.
From S2P Require Import Jwt.
From S2P Require Import User.
From S2P Require Import Auth.
From S2P Require Import Oauth.
From S2P Require Import OauthSim.
From S2P Require Import Router.
From S2P Require Import Startup.
From S2P Require Import StartupSpec.
From S2P Require Import Logger.

Local Open Scope list_scope.

(** * Computations with handles *)

Inductive handle := LogFile | Database | RedisClient | UpstreamConnection.

#[export] Instance handle_eq_dec : EqDecision handle.
Proof. solve_decision. Defined.

(** The last opened first. *)
Definition R (A : Type) : Type := list handle → world → res A * list handle * world.

#[export] Instance R_ret : MRet R := λ A a h w, (Ok a, h, w).
#[export] Instance R_bind : MBind R := λ A B f m h w,
  match m h w with
  | (Ok a, h, w) => f a h w
  | (Err e, h, w) => (Err e, h, w)
  | (Panic, h, w) => (Panic, h, w)
  end.

Definition fails {A} (e : gerror) : R A := λ h w, (Err e, h, w).

(** A computation that opens and closes nothing. *)
Definition up {A} (m : M A) : R A := λ h w, let '(r, w) := m w in (r, h, w).

(** One that opens a handle if it succeeds. *)
Definition opens {A} (x : handle) (m : M A) : R A := λ h w,
  match m w with
  | (Ok a, w) => (Ok a, x :: h, w)
  | (Err e, w) => (Err e, h, w)
  | (Panic, w) => (Panic, h, w)
  end.

(** The result as a value, for code that looks at the error. *)
Definition try {A} (m : R A) : R (A + gerror) := λ h w,
  match m h w with
  | (Ok a, h, w) => (Ok (inl a), h, w)
  | (Err e, h, w) => (Ok (inr e), h, w)
  | (Panic, h, w) => (Panic, h, w)
  end.

Definition wrapping {A} (msg : string) (m : R A) : R A :=
  r ← try m;
  match r with inl a => mret a | inr e => fails (Wrapped msg e) end.

Fixpoint remove_first (x : handle) (h : list handle) : list handle :=
  match h with
  | [] => []
  | y :: h => if bool_decide (x = y) then h else y :: remove_first x h
  end.

(** What closing a handle says; it is closed either way. *)
Class Closing := close_error : nat → handle → option gerror.

Definition closes `{Closing} (x : handle) : R (option gerror) := λ h w,
  (Ok (close_error (w_step w) x), remove_first x h, tick w).

Section lifecycle.
Context `{Env} `{Bcrypt} `{UpstreamClient} `{UrlParser} `{Files} `{Launch} `{FileSystem} `{Closing}.

(** database/connect: the pool is open once gorm has it, and closed again when it
    cannot be reached. *)
Definition Connect_database (databaseURL : string) : R unit :=
  _ ← wrapping "open database" (opens Database (outside (λ n, gorm_Open n databaseURL)));
  _ ← wrapping "get database handle" (up (outside database_DB));
  r ← try (up (outside sql_Ping));
  match r with
  | inl _ => mret tt
  | inr err => _ ← closes Database; fails (Wrapped "ping database" err)
  end.

(** middleware/redis/connect. *)
Definition Connect_redis (configuration : RedisConfig) : R unit :=
  _ ← opens RedisClient (mret tt);
  r ← try (up (outside (λ n, redis_Ping n configuration)));
  match r with
  | inl _ => mret tt
  | inr err => _ ← closes RedisClient; fails (Wrapped "ping redis" err)
  end.

(** The instances while they are being made. *)
Definition no_instances (encryptionKey : string) : applicationInstances :=
  Build_applicationInstances false false false false None ∅ None false encryptionKey.

Definition set_sqlDatabase (i : applicationInstances) : applicationInstances :=
  Build_applicationInstances true (in_redisClient i) (in_repositories i) (in_casbinEnforcer i) (in_jwtManager i)
    (in_oidcAuth i) (in_upstreamConnection i) (in_upstreamDirectory i) (in_credentialKey i).
Definition set_redisClient (i : applicationInstances) : applicationInstances :=
  Build_applicationInstances (in_sqlDatabase i) true true (in_casbinEnforcer i) (in_jwtManager i)
    (in_oidcAuth i) (in_upstreamConnection i) (in_upstreamDirectory i) (in_credentialKey i).
Definition set_casbinEnforcer (m : JWTManager) (i : applicationInstances) : applicationInstances :=
  Build_applicationInstances (in_sqlDatabase i) (in_redisClient i) (in_repositories i) true (Some m)
    (in_oidcAuth i) (in_upstreamConnection i) (in_upstreamDirectory i) (in_credentialKey i).
Definition set_upstreamConnection (credentials : TransportCredentials) (i : applicationInstances) : applicationInstances :=
  Build_applicationInstances (in_sqlDatabase i) (in_redisClient i) (in_repositories i) (in_casbinEnforcer i)
    (in_jwtManager i) (in_oidcAuth i) (Some credentials) true (in_credentialKey i).
Definition set_oidcAuth (auth : OIDCAuth) (i : applicationInstances) : applicationInstances :=
  Build_applicationInstances (in_sqlDatabase i) (in_redisClient i) (in_repositories i) (in_casbinEnforcer i)
    (in_jwtManager i) {["oai"%string := Some auth]} (in_upstreamConnection i) (in_upstreamDirectory i) (in_credentialKey i).

(** [Close]: every handle that is set, and the errors in order. *)
Definition close_if (set : bool) (x : handle) (msg : string) : R (list gerror) :=
  if set then e ← closes x; mret (match e with Some err => [Wrapped msg err] | None => [] end) else mret [].

Definition Close (i : applicationInstances) : R (list gerror) :=
  e1 ← close_if (bool_decide (in_upstreamConnection i ≠ None)) UpstreamConnection "close upstream connection";
  e2 ← close_if (in_redisClient i) RedisClient "close redis";
  e3 ← close_if (in_sqlDatabase i) Database "close database";
  mret (e1 ++ e2 ++ e3).

(** A statement that may return: with the instances made so far and its error. *)
Definition stage {A} (i : applicationInstances) (m : R A)
    (f : A → R (applicationInstances * option gerror)) : R (applicationInstances * option gerror) :=
  r ← try m;
  match r with inl a => f a | inr err => mret (i, Some err) end.

Definition make_instances (configuration : apiConfiguration) : R (applicationInstances * option gerror) :=
  let runtime := ac_runtime configuration in
  let upstream := ac_upstream configuration in
  let i := no_instances (encryption_key configuration) in
  stage i (wrapping "connect database" (Connect_database (cf_DatabaseURL runtime))) (λ _,
  let i := set_sqlDatabase i in
  stage i (wrapping "connect redis" (Connect_redis (cf_Redis runtime))) (λ _,
  let i := set_redisClient i in
  stage i (wrapping "create bootstrap user" (up (createBootstrapUser (bootstrap_of runtime)))) (λ _,
  stage i (wrapping "initialize Casbin authorization" (up NewEnforcer)) (λ _,
  let i := set_casbinEnforcer (NewJWTManager (cf_JWT runtime)) i in
  stage i (wrapping "initialize upstream transport" (up (lift (ClientCredentials (uc_TLS upstream))))) (λ credentials,
  stage i (wrapping "create upstream gRPC client"
             (opens UpstreamConnection (outside (λ n, grpc_NewClient n (uc_Target upstream) credentials)))) (λ _,
  let i := set_upstreamConnection credentials i in
  if Enabled (ac_oai configuration) then
    stage i (wrapping "initialize OIDC auth for oai"
               (up (NewRemoteOIDCAuth (ac_oai configuration) true OaiAuthURLParams OaiScopes))) (λ auth,
    mret (set_oidcAuth auth i, None))
  else mret (i, None))))))).

(** The deferred function: who returns an error closes what the fields name. *)
Definition closing (m : R (applicationInstances * option gerror)) : R applicationInstances :=
  r ← m;
  match r.2 with
  | None => mret r.1
  | Some err => _ ← Close r.1; fails err
  end.

Definition newInstances (configuration : apiConfiguration) : R applicationInstances :=
  closing (make_instances configuration).

(** [main.run]: the exit code. [listen] is the server of the router, which returns
    when it fails. *)
Definition main_run (lookup : string → option string) (listen : application → M unit) : R Z :=
  l ← try (opens LogFile (lift (NewLogger (getenv lookup "LOG_FILE"))));
  match l with
  | inr _ => mret 1%Z
  | inl _ =>
      c ← try (up (lift (loadAPIConfiguration lookup)));
      code ← (match c with
              | inr _ => mret 1%Z
              | inl configuration =>
                  i ← try (newInstances configuration);
                  match i with
                  | inr _ => mret 1%Z
                  | inl instances =>
                      a ← up (newServices configuration instances);
                      served ← try (up (listen a));
                      _ ← Close instances;
                      mret (match served with inl _ => 0 | inr _ => 1 end)%Z
                  end
              end);
      _ ← closes LogFile;
      mret code
  end.
End lifecycle.

(** * No handle is lost *)

Section contract.
Context `{Env} `{Bcrypt} `{UpstreamClient} `{UrlParser} `{Files} `{Launch} `{FileSystem} `{Closing}.

(** A run with handles does to the stores what the run without does; [good] are the
    handles it leaves open when it succeeds, [lost] when it fails. *)
Definition agrees {A} (x : res A * list handle * world) (y : res A * world) (good : A → list handle)
    (lost : list handle → Prop) : Prop :=
  x.1.1 = y.1 ∧ same_stores y.2 x.2 ∧
  match x.1.1 with
  | Ok a => x.1.2 = good a ∧ x.2 = y.2
  | Err _ => lost x.1.2
  | Panic => True
  end.

Lemma up_agrees {A} (m : M A) h w : agrees (up m h w) (m w) (λ _, h) (.= h).
Proof. unfold agrees, up. by destruct (m w) as [[a|e|] w']. Qed.

Lemma opens_agrees {A} x (m : M A) h w : agrees (opens x m h w) (m w) (λ _, x :: h) (.= h).
Proof. unfold agrees, opens. by destruct (m w) as [[a|e|] w']. Qed.

(** The pool of a database whose handle cannot be had is the one that stays. *)
Definition pool_lost (h h1 : list handle) : Prop := h1 = Database :: h ∧ ∃ n e, database_DB n = Some e.

Lemma Connect_database_agrees url h w :
  agrees (Connect_database url h w) (connect_database url w) (λ _, Database :: h) (λ h1, h1 = h ∨ pool_lost h h1).
Proof.
  unfold agrees, Connect_database, connect_database, wrapping, wrap_err, try, up, opens, closes, attempt, fails,
    throw, outside, mbind, R_bind, M_bind.
  destruct (gorm_Open _ _) as [e|]; cbn; [split_and!; try done; by left|].
  destruct (database_DB _) as [e|] eqn:Hdb; cbn; [split_and!; try done; right; split; [done|by eauto]|].
  destruct (sql_Ping _) as [e|]; cbn; [split_and!; try done; by left|done].
Qed.

Lemma Connect_redis_agrees c h w :
  agrees (Connect_redis c h w) (connect_redis c w) (λ _, RedisClient :: h) (.= h).
Proof.
  unfold agrees, Connect_redis, connect_redis, wrap_err, try, up, opens, closes, attempt, fails, throw, outside,
    mbind, R_bind, M_bind. cbn.
  destruct (redis_Ping _ _) as [e|]; cbn; split_and!; done.
Qed.

(** * Closing *)

(** The handles the fields name. *)
Definition held (i : applicationInstances) : list handle :=
  (if in_upstreamConnection i then [UpstreamConnection] else []) ++
  (if in_redisClient i then [RedisClient] else []) ++ (if in_sqlDatabase i then [Database] else []).

Lemma close_if_run set x msg h w :
  ∃ errs, close_if set x msg (if set then x :: h else h) w = (Ok errs, h, if set then tick w else w).
Proof.
  unfold close_if, closes, mbind, R_bind, mret, R_ret. destruct set; [|by eexists].
  cbn. rewrite bool_decide_eq_true_2 by done. by eexists.
Qed.

(** [Close] closes each of them, whatever closing the others says. *)
Lemma Close_run i h w : ∃ errs w', Close i (held i ++ h) w = (Ok errs, h, w') ∧ same_stores w w'.
Proof.
  unfold Close, mbind, R_bind, mret, R_ret, held. rewrite <- !app_assoc.
  set (h1 := (if in_sqlDatabase i then [Database] else []) ++ h).
  set (h2 := (if in_redisClient i then [RedisClient] else []) ++ h1).
  assert (Hu : (if in_upstreamConnection i then [UpstreamConnection] else []) ++ h2 =
    if bool_decide (in_upstreamConnection i ≠ None) then UpstreamConnection :: h2 else h2)
    by (by destruct (in_upstreamConnection i)).
  rewrite Hu. destruct (close_if_run (bool_decide (in_upstreamConnection i ≠ None)) UpstreamConnection
    "close upstream connection" h2 w) as [e1 ->].
  assert (Hr : h2 = if in_redisClient i then RedisClient :: h1 else h1) by (unfold h2; by destruct (in_redisClient i)).
  rewrite Hr. match goal with |- context [close_if _ RedisClient ?m _ ?w'] =>
    destruct (close_if_run (in_redisClient i) RedisClient m h1 w') as [e2 ->] end.
  assert (Hd : h1 = if in_sqlDatabase i then Database :: h else h) by (unfold h1; by destruct (in_sqlDatabase i)).
  rewrite Hd. match goal with |- context [close_if _ Database ?m _ ?w'] =>
    destruct (close_if_run (in_sqlDatabase i) Database m h w') as [e3 ->] end.
  eexists _, _. split; [done|]. by repeat case_match.
Qed.
(** * The start *)

(** Closing the instances gives up what a failed stage left, but for [L]. *)
Definition released (i : applicationInstances) (lost L : list handle → Prop) : Prop :=
  ∀ h1 w1, lost h1 → ∃ errs h2 w2, Close i h1 w1 = (Ok errs, h2, w2) ∧ same_stores w1 w2 ∧ L h2.

Lemma released_held i h L : L h → released i (.= held i ++ h) L.
Proof. intros HL h1 w1 ->. destruct (Close_run i h w1) as (errs & w2 & -> & Hs). by exists errs, h, w2. Qed.

Lemma same_stores_trans w1 w2 w3 : same_stores w1 w2 → same_stores w2 w3 → same_stores w1 w3.
Proof. unfold same_stores. intros (? & ? & ?) (? & ? & ?). split_and!; congruence. Qed.

Lemma stage_agrees {A} i msg (m : R A) (m0 : M A) f (g : A → M applicationInstances) h w good lost G L :
  agrees (m h w) (m0 w) good lost → released i lost L →
  (∀ a w1, agrees (closing (f a) (good a) w1) (g a w1) G L) →
  agrees (closing (stage i (wrapping msg m) f) h w) ((a ← wrap_err msg m0; g a) w) G L.
Proof.
  intros (Hr & Hs & Hm) HL Hf. unfold closing, stage, wrapping, wrap_err, try, attempt, fails, mbind, R_bind, M_bind.
  destruct (m h w) as [[r h1] w1], (m0 w) as [r0 w0]. cbn [fst snd] in *. subst r0.
  destruct r as [a|e|]; cbn; [|destruct (HL h1 w1 Hm) as (errs & h2 & w2 & -> & Hs2 & HL2)|done].
  - destruct Hm as [-> ->]. apply Hf.
  - split; [done|]. split; [by eapply same_stores_trans|done].
Qed.

Lemma bind_ret {A B C} (m : M A) (k : A → B) (f : B → M C) w :
  ((a ← m; mret (k a)) ≫= f) w = (a ← m; f (k a)) w.
Proof. unfold mbind, M_bind. by destruct (m w) as [[a|e|] w']. Qed.

(** The handles of a process that has started, and what may stay open when it has
    not. *)
Definition running (h : list handle) : list handle := UpstreamConnection :: RedisClient :: Database :: h.

Lemma newInstances_agrees (G : applicationInstances → list handle) c h w :
  (∀ i, held i = running [] → running h = G i) →
  agrees (newInstances c h w) (newApplicationInstances c w) G (λ h1, h1 = h ∨ pool_lost h h1).
Proof.
  intros HG. unfold newInstances, make_instances, newApplicationInstances. cbv zeta.
  eapply stage_agrees; [apply Connect_database_agrees| |intros [] w1].
  { intros h1 w1 Hl. by exists [], h1, w1. }
  set (i1 := set_sqlDatabase _). change (Database :: h) with (held i1 ++ h).
  eapply stage_agrees; [apply Connect_redis_agrees|apply released_held; by left|intros [] w2].
  set (i2 := set_redisClient _). change (RedisClient :: held i1 ++ h) with (held i2 ++ h).
  eapply stage_agrees; [apply up_agrees|apply released_held; by left|intros [] w3].
  eapply stage_agrees; [apply up_agrees|apply released_held; by left|intros [] w4].
  set (i3 := set_casbinEnforcer _ _). change (held i2 ++ h) with (held i3 ++ h).
  eapply stage_agrees; [apply up_agrees|apply released_held; by left|intros credentials w5].
  eapply stage_agrees; [apply opens_agrees|apply released_held; by left|intros [] w6].
  set (i4 := set_upstreamConnection _ _). change (UpstreamConnection :: held i3 ++ h) with (held i4 ++ h).
  destruct (Enabled (ac_oai c)).
  - rewrite bind_ret. eapply stage_agrees; [apply up_agrees|apply released_held; by left|intros auth w7].
    split; [done|]. split; [done|]. split; [by apply (HG (set_oidcAuth auth i4))|done].
  - split; [done|]. split; [done|]. split; [by apply (HG i4)|done].
Qed.
(** Starting does to the stores what the start without handles does. When it
    succeeds, exactly the three connections are open; when it fails, whatever the
    stage and whatever closing says, none of them is, but for a pool whose handle
    gorm does not give out. *)
Theorem newInstances_correct c h w :
  agrees (newInstances c h w) (newApplicationInstances c w) (λ _, running h) (λ h1, h1 = h ∨ pool_lost h h1).
Proof. by apply newInstances_agrees. Qed.

(** * The process *)

Lemma newServices_no_error c i w e : (newServices c i w).1 ≠ Err e.
Proof.
  unfold newServices. destruct (in_jwtManager i); [|done].
  unfold NewService, attempt, mbind, M_bind, mret, M_ret. by destruct (HashPassword _ w) as [[x|e'|] w'].
Qed.

(** C35: main ends with an exit code and no handle open, but for a pool as above; with 0
    only when the services came up and the server was told to stop without error.
    It panics only where the start itself does. *)
Theorem main_run_correct lookup listen w :
  (∀ a w1, (listen a w1).1 ≠ Panic) →
  match main_run lookup listen [] w with
  | (Ok code, h, w') => (h = [] ∨ h = [Database] ∧ ∃ n e, database_DB n = Some e) ∧
      (code = 1%Z ∨ code = 0%Z ∧ ∃ a w1 w2, run lookup w = (Ok a, w1) ∧ listen a w1 = (Ok tt, w2) ∧ same_stores w2 w')
  | (Err _, _, _) => False
  | (Panic, _, _) => (run lookup w).1 = Panic
  end.
Proof.
  intros Hl. unfold main_run, run, opens, lift, try, up, closes, mbind, R_bind, M_bind.
  pose proof (NewLogger_correct (getenv lookup "LOG_FILE")) as [_ Hlog].
  destruct (NewLogger _) as [l|e|]; cbn; [|by split; left|done].
  destruct (loadAPIConfiguration lookup) as [c|e|] eqn:Hc; cbn; [|by split; left|done].
  pose proof (newInstances_agrees (λ i, held i ++ [LogFile]) c [LogFile] w ltac:(intros i Hi; cbn beta; by rewrite Hi)) as (Hr & Hs & Hm).
  destruct (newInstances c [LogFile] w) as [[r h1] w1], (newApplicationInstances c w) as [r0 w0].
  cbn [fst snd] in *. subst r0. destruct r as [i|e|]; cbn; [| |done].
  2:{ destruct Hm as [->|[-> Hdb]]; cbn; split; auto. }
  destruct Hm as [-> ->]. pose proof (newServices_no_error c i w0) as Hn.
  destruct (newServices c i w0) as [[a|e|] w2] eqn:Ha; cbn [fst snd] in *; [|by destruct (Hn e)|done].
  pose proof (Hl a w2) as Hp. destruct (listen a w2) as [[[]|e|] w3] eqn:Hlis; cbn [fst snd] in *; [| |done].
  all: destruct (Close_run i [LogFile] w3) as (errs & w4 & -> & Hs4); cbn.
  - split; [by left|]. right. split; [done|]. exists a, w2, w3. split; [done|]. split; [done|]. done.
  - split; [by left|by left].
Qed.
End contract.

(** * A process that is stopped *)

#[local] Existing Instance StartupSpec.sim_files.
#[local] Existing Instance StartupSpec.sim_launch.
#[local] Existing Instance StartupSpec.no_urls.

#[local] Instance sim_file_system : FileSystem := {|
  os_MkdirAll := λ _, None; os_OpenFile := λ _, None; file_Close := λ _, None;
  strconv_Quote := λ s, s
|}.

(** Redis complains about being closed. *)
#[local] Instance sim_closing : Closing := λ _ x,
  if bool_decide (x = RedisClient) then Some (Opaque "redis: client is closed") else None.

Definition stopped (a : application) : M unit := mret tt.

Lemma main_run_correct_witness :
  ∃ w', main_run admin_environment stopped [] first_world = (Ok 0%Z, [], w') ∧
    ∃ a w1, run admin_environment first_world = (Ok a, w1) ∧ same_stores w1 w'.
Proof.
  pose proof (main_run_correct admin_environment stopped first_world ltac:(intros a w1; discriminate)) as Hm.
  assert (Hc : match main_run admin_environment stopped [] first_world with
               | (Ok code, [], _) => (code =? 0)%Z | _ => false end = true) by (vm_compute; reflexivity).
  destruct (main_run admin_environment stopped [] first_world) as [[[code|e|] [|x h]] w']; try discriminate Hc.
  apply Z.eqb_eq in Hc as ->. exists w'. split; [reflexivity|].
  destruct Hm as [_ [Hbad|(_ & a & w1 & w2 & Hr & Hl & Hs)]]; [discriminate Hbad|].
  injection Hl as <-. exists a, w1. split; [exact Hr|exact Hs].
Defined.
