(* ===== verification/Probes.v ===== *)
(** The programs that a container runs to see whether a process is well:
    cmd/healthcheck asks the API over HTTP, cmd/grpc-healthcheck the upstream over
    gRPC. Both end with exit code 0 or 1. *)

From S2P Require Import Prelude.
From S2P Require Import GoStrings.
From S2P Require Import Schema.
From S2P Require Import Stores.
From S2P Require Import World.
From S2P Require Import Security.
From S2P Require Import Http.
From S2P Require Import NetUrl.
From S2P Require Import Config.
From S2P Require Import ConfigSpec.
From S2P Require Import Sim.
From S2P Require Import Directory.
From S2P Require Import Oidc.
From S2P Require Import Jwt.
From S2P Require Import User.
From S2P Require Import Auth.
From S2P Require Import Translator.
From S2P Require Import Chat.
From S2P Require Import Oauth.
From S2P Require Import OauthSim.
From S2P Require Import Apikey.
From S2P Require Import ApikeySpec.
From S2P Require Import ExternalApikey.
From S2P Require Import ExternalApikeySpec.
From S2P Require Import ChatHandler.
From S2P Require Import ChatHandlerSpec.
From S2P Require Import Router.
From S2P Require Import RouterSpec.
From S2P Require Import Startup.

Local Open Scope list_scope.
Local Open Scope Z_scope.

(** * cmd/healthcheck *)

Definition defaultHealthcheckURL : string := "http://127.0.0.1:8080/health/ready".

(** [Get] gives the status of the answer, or fails. *)
Definition healthcheck (get : string → Z + gerror) (HEALTHCHECK_URL : string) : Z :=
  let target := if String.eqb HEALTHCHECK_URL "" then defaultHealthcheckURL else HEALTHCHECK_URL in
  match get target with
  | inr _ => 1
  | inl status => if negb (status =? 200) then 1 else 0
  end.

(** * cmd/grpc-healthcheck *)

Inductive ServingStatus := SERVICE_UNKNOWN | SERVING | NOT_SERVING.

(** The health service: what a server says of one of its services. *)
Class HealthClient := health_Check : string → TransportCredentials → string → ServingStatus + gerror.

Section check.
Context `{UrlParser} `{Files} `{Launch} `{HealthClient}.

(** The probe's own certificate, if one is set. *)
Definition probe_tls (lookup : string → option string) (tls : GRPCTLSConfig) : GRPCTLSConfig :=
  let cert := getenv lookup "UPSTREAM_HEALTHCHECK_TLS_CERT_FILE" in
  if negb (String.eqb cert "") then
    Build_GRPCTLSConfig (tl_CAFile tls) cert (getenv lookup "UPSTREAM_HEALTHCHECK_TLS_KEY_FILE") (tl_ServerName tls)
  else tls.

Definition check (lookup : string → option string) (n : nat) : res unit :=
  cfg ← loadUpstreamClient lookup;
  credentials ← ClientCredentials (probe_tls lookup (uc_TLS cfg));
  match grpc_NewClient n (uc_Target cfg) credentials with
  | Some e => Err e
  | None =>
      match health_Check (uc_Target cfg) credentials "" with
      | inr e => Err e
      | inl SERVING => Ok tt
      | inl _ => Err (Opaque "upstream is not serving")
      end
  end.

(** [main]. *)
Definition grpc_healthcheck (lookup : string → option string) (n : nat) : Z :=
  match check lookup n with Ok _ => 0 | _ => 1 end.
End check.

(** * What the probes tell *)

Section contract.
Context `{UrlParser} `{Files} `{Launch} `{HealthClient}.

(** The gRPC probe succeeds exactly when the settings load, the credentials can be
    read and the server says that it serves. It trusts the configured authority
    and expects the configured name also with a certificate of its own. *)
Theorem grpc_healthcheck_correct lookup n :
  (grpc_healthcheck lookup n = 0 ∨ grpc_healthcheck lookup n = 1) ∧
  (grpc_healthcheck lookup n = 0 ↔
   ∃ cfg credentials, loadUpstreamClient lookup = Ok cfg ∧
     ClientCredentials (probe_tls lookup (uc_TLS cfg)) = Ok credentials ∧
     grpc_NewClient n (uc_Target cfg) credentials = None ∧ health_Check (uc_Target cfg) credentials "" = inl SERVING) ∧
  ∀ tls, tl_CAFile (probe_tls lookup tls) = tl_CAFile tls ∧ tl_ServerName (probe_tls lookup tls) = tl_ServerName tls.
Proof.
  unfold grpc_healthcheck. split; [destruct (check lookup n); auto|]. split; [|intros tls; unfold probe_tls; by case_match].
  unfold check. destruct (loadUpstreamClient lookup) as [cfg|e|]; cbn.
  2,3: split; [done|by intros (? & ? & ? & _)].
  destruct (ClientCredentials _) as [credentials|e|] eqn:Hc; cbn.
  2,3: split; [done|]; intros (? & ? & [= <-] & Hc' & _); congruence.
  destruct (grpc_NewClient _ _ _) eqn:Hn.
  { split; [done|]. intros (? & ? & [= <-] & Hc' & Hn' & _). congruence. }
  destruct (health_Check _ _ _) as [[]|e] eqn:Hh; split; try done.
  1,3,4: intros (? & ? & [= <-] & Hc' & _ & Hh'); congruence.
  intros _. by exists cfg, credentials.
Qed.
End contract.

Section readiness.
Context `{EnvLaws} `{Aead} `{Bcrypt} `{JwtLib} `{UpstreamClient} `{OAuth2}.
Context `{Oauth.Json LoginFlow} `{Oauth.Json deviceLoginFlow} `{UrlParser} `{ChatClient} `{Sdk} `{Gin} `{Binding} `{Probes}.
Context (claims_json : string → option IDTokenClaims).

(** The probe's request, and the API on the other end. *)
Definition ready_request : request :=
  Build_request "GET" "/health/ready" "" "" None "" (λ _, ""%string) (Ok "") true.

Definition api_get (a : application) (w : world) (url : string) : Z + gerror :=
  if String.eqb url defaultHealthcheckURL then
    match (serve_request claims_json a ready_request w).1 with
    | Ok (_, answer) => inl (answer_status answer)
    | _ => inr (Opaque "EOF")
    end
  else inr (Opaque "no such server").

(** Without settings of its own the probe succeeds exactly when the API could make
    a request identifier and then reached the database, Redis and, if a provider is
    set up, a serving upstream, in this order; asking changes no store. *)
Theorem healthcheck_correct a id w :
  gin_find newRouter "GET" "/health/ready" = inl (Public EReady, id) →
  let n := w_step w in
  (healthcheck (api_get a w) "" = 0 ↔
   (∃ s, rand_read n 16 = Ok s) ∧ ping_database (S n) = true ∧ ping_redis (S (S n)) = true ∧
   (ap_upstream a = true → os_oidcAuth (ap_oauth a) ≠ ∅ → upstream_serving (S (S (S n))) = true)) ∧
  same_stores w (serve_request claims_json a ready_request w).2.
Proof.
  intros Hg n. subst n. unfold healthcheck, api_get. cbn [String.eqb]. rewrite String.eqb_refl.
  unfold serve_request, RequestID, newRequestID, wrap_err, rand_bytes, attempt, Recovery, mbind, M_bind.
  cbn [rq_RequestID ready_request validRequestID String.length Nat.leb andb rq_Method rq_Path]. rewrite Hg.
  cbn [run_target endpoint_handler].
  destruct (rand_read_law (w_step w) 16) as [(s & -> & _)|(e & -> & _)]; cbn [fst snd mret M_ret throw].
  2:{ split; [|done]. split; [done|]. by intros [[s Hs] _]. }
  unfold ready, probe, mbind, M_bind. cbn [fst snd w_step tick].
  destruct (ping_database _) eqn:Hd; cbn [negb mret M_ret fst snd].
  2:{ split; [|done]. split; [done|]. by intros (_ & ? & _). }
  destruct (ping_redis _) eqn:Hr; cbn [negb mret M_ret fst snd].
  2:{ split; [|done]. split; [done|]. by intros (_ & _ & ? & _). }
  destruct (ap_upstream a); cbn [andb mret M_ret fst snd].
  2:{ split; [|done]. split; [|done]. intros _. split; [by exists s|done]. }
  destruct (decide (os_oidcAuth (ap_oauth a) = ∅)) as [Hn|Hn].
  { rewrite bool_decide_eq_true_2 by done. cbn. split; [|done]. split; [|done]. intros _. split; [by exists s|done]. }
  rewrite bool_decide_eq_false_2 by done. cbn [negb fst snd w_step tick].
  destruct (upstream_serving _) eqn:Hu; cbn; (split; [|done]); (split; [|try done]).
  - intros _. split; [by exists s|done].
  - done.
  - intros (_ & _ & _ & Hs). by specialize (Hs eq_refl Hn).
Qed.
End readiness.

(** A process that is well. *)
Lemma healthcheck_correct_witness :
  healthcheck (api_get sim_claims sample_application sample_world) "" = 0 ∧
  ping_database (S (w_step sample_world)) = true.
Proof.
  assert (Hg : gin_find newRouter "GET" "/health/ready" = inl (Public EReady, ""%string)) by (vm_compute; reflexivity).
  destruct (healthcheck_correct sim_claims sample_application "" sample_world Hg) as [[Hto _] _].
  assert (Hz : healthcheck (api_get sim_claims sample_application sample_world) "" = 0) by (vm_compute; reflexivity).
  split; [exact Hz|]. destruct (Hto Hz) as (_ & Hd & _). exact Hd.
Defined.
