(* ===== verification/Gateway.v ===== *)
(** cmd/gateway: the optional reverse proxy in front of the API.  It answers its
    own health checks and redirects to them, rewrites everything else as the
    reverse proxy of the standard library does, sends it to the API, and gives up
    on the headers of an answer after a time that depends on the path. *)

From S2P Require Import Prelude.
From S2P Require Import GoStrings.
From S2P Require Import Schema.
From S2P Require Import Stores.
From S2P Require Import World.
From S2P Require Import NetUrl.
From S2P Require Import NetHttp.
From S2P Require Import GoConv.
From S2P Require Import Json.

Local Open Scope list_scope.
Local Open Scope Z_scope.

(** * Configuration *)

Record gatewayConfig := {
  gw_address : string; gw_upstreamURL : string; gw_dialTimeout : time; gw_responseTimeout : time
}.

(** [value]: what is set, trimmed, else the fallback as it is. *)
Definition gateway_value (lookup : string → option string) (key fallback : string) : string :=
  match lookup key with Some result => TrimSpace result | None => fallback end.

Definition gateway_duration (lookup : string → option string) (key fallback : string) : res time :=
  match ParseDuration (gateway_value lookup key fallback) with
  | Some result => if result <=? 0 then Err (Opaque (key +:+ " must be a positive duration")) else Ok result
  | None => Err (Opaque (key +:+ " must be a positive duration"))
  end.

Definition loadGatewayConfig (lookup : string → option string) : res gatewayConfig :=
  let address := gateway_value lookup "GATEWAY_ADDR" ":8080" in
  let upstreamURL := gateway_value lookup "GATEWAY_UPSTREAM_URL" "http://127.0.0.1:8081" in
  dialTimeout ← gateway_duration lookup "GATEWAY_DIAL_TIMEOUT" "2s";
  responseTimeout ← gateway_duration lookup "GATEWAY_RESPONSE_HEADER_TIMEOUT" "30s";
  match SplitHostPort address with
  | Ok _ => Ok (Build_gatewayConfig address upstreamURL dialTimeout responseTimeout)
  | Err e => Err (Wrapped "parse GATEWAY_ADDR" e)
  | Panic => Panic
  end.

(** * The proxy *)

(** The fields of [http.Transport] that the code sets, and the two transports. *)
Record Transport := { tp_DialTimeout : time; tp_ResponseHeaderTimeout : time }.
Record deviceFlowTransport := { dt_ordinary : Transport; dt_device : Transport }.
Record ReverseProxy := { px_target : URL; px_Transport : deviceFlowTransport }.

(** The transport of a request, by the path it is sent with. *)
Definition transport_for (t : deviceFlowTransport) (path : string) : Transport :=
  if String.eqb path "/oauth/callbackdevice" then dt_device t else dt_ordinary t.

Definition newProxy `{UrlParser} (configuration : gatewayConfig) : res ReverseProxy :=
  let bad := Err (Opaque "GATEWAY_UPSTREAM_URL must be an absolute HTTP(S) URL") in
  match url_Parse (gw_upstreamURL configuration) with
  | None => bad
  | Some target =>
      if String.eqb (url_Scheme target) "" || String.eqb (url_Host target) "" then bad
      else
        let transport := Build_Transport (gw_dialTimeout configuration) (gw_responseTimeout configuration) in
        Ok (Build_ReverseProxy target (Build_deviceFlowTransport transport
              (Build_Transport (tp_DialTimeout transport) (16 * minute))))
  end.

(** * The request that is sent *)

Definition HasSuffix (s suf : string) : bool := HasPrefix (str_rev s) (str_rev suf).

(** [httputil.joinURLPath]: the path of the request behind that of the target, and
    its encoding when one of them has an encoding of its own. *)
Definition joined (aslash bslash : bool) (a b : string) : string :=
  if aslash && bslash then a +:+ str_drop 1 b
  else if negb aslash && negb bslash then a +:+ "/" +:+ b
  else a +:+ b.

Definition joinURLPath (a b : URL) : string * string :=
  if String.eqb (url_RawPath a) "" && String.eqb (url_RawPath b) "" then
    (joined (HasSuffix (url_Path a) "/") (HasPrefix (url_Path b) "/") (url_Path a) (url_Path b), ""%string)
  else
    let apath := url_EscapedPath a in
    let bpath := url_EscapedPath b in
    let aslash := HasSuffix apath "/" in
    let bslash := HasPrefix bpath "/" in
    (joined aslash bslash (url_Path a) (url_Path b), joined aslash bslash apath bpath).

(** [rewriteRequestURL], the director of [NewSingleHostReverseProxy]. *)
Definition rewriteRequestURL (target u : URL) : URL :=
  let '(path, rawpath) := joinURLPath target u in
  let query :=
    if String.eqb (url_RawQuery target) "" || String.eqb (url_RawQuery u) ""
    then url_RawQuery target +:+ url_RawQuery u
    else url_RawQuery target +:+ "&" +:+ url_RawQuery u in
  {| url_Scheme := url_Scheme target; url_User := url_User u; url_Host := url_Host target; url_Path := path;
     url_RawQuery := query; url_ForceQuery := url_ForceQuery u; url_Fragment := url_Fragment u;
     url_Hostname := url_Hostname target; url_RawPath := rawpath |}.

Definition hopHeaders : list string :=
  ["Connection"; "Proxy-Connection"; "Keep-Alive"; "Proxy-Authenticate"; "Proxy-Authorization"; "Te"; "Trailer";
   "Transfer-Encoding"; "Upgrade"]%string.

(** The names that the lines of [Connection] list. *)
Definition connection_named (h : Header) : list string :=
  filter (λ name, name ≠ ""%string) (TrimString <$> (hdr_lines h "Connection" ≫= λ f, Split f ",")).

Definition removeHopByHopHeaders (h : Header) : Header :=
  foldl hdr_Del (foldl hdr_Del h (connection_named h)) hopHeaders.

Definition upgradeType (h : Header) : string :=
  if HeaderValuesContainsToken (hdr_lines h "Connection") "Upgrade" then hdr_Get h "Upgrade" else ""%string.

(** [ascii.IsPrint]. *)
Definition IsPrint (s : string) : bool := negb (str_existsb (λ a, negb (byte_is 32 126 a)) s).

(** The address of the client behind those the request has passed before. *)
Definition forwarded_for (remote : string) (h : Header) : Header :=
  match SplitHostPort remote with
  | Ok (clientIP, _) =>
      hdr_Set h "X-Forwarded-For"
        (match hdr_lines h "X-Forwarded-For" with
         | [] => clientIP
         | prior => String.concat ", " prior +:+ ", " +:+ clientIP
         end)
  | _ => h
  end.

(** The headers that [ReverseProxy.ServeHTTP] sends: without those between two
    hops, but with an upgrade and with trailers if they were asked for. *)
Definition outgoing_headers (remote : string) (h : Header) : Header :=
  let up := upgradeType h in
  let out := removeHopByHopHeaders h in
  let out := if HeaderValuesContainsToken (hdr_lines h "Te") "trailers" then hdr_Set out "Te" "trailers" else out in
  let out := if String.eqb up "" then out else hdr_Set (hdr_Set out "Connection" "Upgrade") "Upgrade" up in
  let out := forwarded_for remote out in
  if hdr_has out "User-Agent" then out else hdr_Set out "User-Agent" "".

(** [outreq]. *)
Definition outgoing (target : URL) (r : server_request) : server_request :=
  {| hr_Method := hr_Method r; hr_URL := rewriteRequestURL target (hr_URL r); hr_Host := hr_Host r;
     hr_Header := outgoing_headers (hr_RemoteAddr r) (hr_Header r); hr_ContentLength := hr_ContentLength r;
     hr_Body := if no_body r then Ok ""%string else hr_Body r; hr_RemoteAddr := hr_RemoteAddr r |}.

(** * The network *)

(** How one try to send a request over a connection ends: it breaks before a byte
    is written; it breaks later, when the API may have received the request; or
    the headers of the answer come, so long after the request, and the body comes
    whole or not.  The transport takes some of the breaks for a connection that
    was idle and has been closed. *)
Inductive delivery :=
  | NothingWritten
  | Broken (received retryable : bool)
  | Answered (after : time) (whole : bool).

(** For a request at a step: the idle connections the transport tries in turn, the
    time until a new one stands, and what happens on the new one. *)
Class Network := {
  idle : nat → list delivery; dial_time : nat → option time; fresh : nat → delivery
}.

Definition within (t : option time) (limit : time) : bool :=
  match t with Some t => t <=? limit | None => false end.

(** [persistConn.shouldRetryRequest] on a connection that has been used before. *)
Definition shouldRetryRequest (d : delivery) (out : server_request) : bool :=
  match d with
  | NothingWritten => no_body out
  | Broken _ retryable => isReplayable out && retryable
  | Answered _ _ => false
  end.

Definition known_scheme (u : URL) : bool := String.eqb (url_Scheme u) "http" || String.eqb (url_Scheme u) "https".

(** * The gateway *)

(** The routes of the gateway's own router, and what gin does with a request: the
    handler, a redirect to the path of a route with or without a slash at the end,
    or [NoRoute].  The location of the redirect also has the query and the prefix
    of [X-Forwarded-Prefix], which are left to gin. *)
Inductive local_handler := HealthLive | Ping.

Definition gateway_routes : list (string * string * local_handler) :=
  [("GET", "/health/live", HealthLive); ("GET", "/ping", Ping)]%string.

Inductive gin_result := GinHandler (h : local_handler) | GinRedirect (status : Z) (path : string) | GinNoRoute.

Class GinEngine := gin_route : list (string * string * local_handler) → string → string → gin_result.

Definition toggle_slash (path : string) : string :=
  if HasSuffix path "/" then str_rev (str_drop 1 (str_rev path)) else path +:+ "/".

(** What gin documents for an engine of [gin.New] with these routes:
    [RedirectTrailingSlash] is on, [RedirectFixedPath] is off. *)
Class GinEngineLaws `{GinEngine} (routes : list (string * string * local_handler)) : Prop := {
  gin_route_found method path h : (method, path, h) ∈ routes → gin_route routes method path = GinHandler h;
  gin_route_redirect method path h :
    (∀ h', (method, path, h') ∉ routes) → (method, toggle_slash path, h) ∈ routes →
    method ≠ "CONNECT"%string → path ≠ "/"%string →
    gin_route routes method path =
      GinRedirect (if String.eqb method "GET" then 301 else 307) (toggle_slash path);
  gin_route_none method path :
    (∀ h, (method, path, h) ∉ routes) → (∀ h, (method, toggle_slash path, h) ∉ routes) →
    gin_route routes method path = GinNoRoute
}.

(** What a client of the gateway gets; [A] is the answer of the API, whose body may
    be cut off when the connection to the API breaks. *)
Inductive gateway_answer (A : Type) :=
  | GatewayLive
  | GatewayPong
  | GatewayRedirect (status : Z) (path : string)
  | Proxied (answer : A) (whole : bool)
  | GatewayError (status : Z) (body : string).
Arguments GatewayLive {A}.
Arguments GatewayPong {A}.
Arguments GatewayRedirect {A} status path.
Arguments Proxied {A} answer whole.
Arguments GatewayError {A} status body.

Definition upstream_unavailable : string :=
  js "{'code':50200,'data':null,'message':'upstream unavailable'}".

Section gateway.
Context `{Network} `{GinEngine} {A : Type}.

(** The API, as a server of the requests that are written to it. *)
Context (api : server_request → M A).

(** One try; a fault of the API is the end of the connection. *)
Definition exchange (t : Transport) (d : delivery) (out : server_request) : M (A * bool) := λ w,
  match d with
  | NothingWritten => (Err (Opaque "write: broken pipe"), w)
  | Broken received _ => (Err (Opaque "EOF"), if received then (api out w).2 else w)
  | Answered after whole =>
      let '(x, w') := api out w in
      (match x with
       | Ok answer => if after <=? tp_ResponseHeaderTimeout t then Ok (answer, whole)
                      else Err (Opaque "net/http: timeout awaiting response headers")
       | _ => Err (Opaque "EOF")
       end, w')
  end.

(** The idle connections in turn, as long as the request may be sent again. *)
Fixpoint round_trip (t : Transport) (out : server_request) (l : list delivery) (last : M (A * bool)) : M (A * bool) :=
  match l with
  | [] => last
  | d :: l =>
      if shouldRetryRequest d out then _ ← attempt (exchange t d out); round_trip t out l last
      else exchange t d out
  end.

(** [http.Transport.RoundTrip]. *)
Definition Transport_RoundTrip (t : Transport) (out : server_request) : M (A * bool) := λ w,
  let n := w_step w in
  if known_scheme (hr_URL out) then
    round_trip t out (idle n)
      (if within (dial_time n) (tp_DialTimeout t) then exchange t (fresh n) out else throw (Opaque "dial")) w
  else (Err (Opaque ("unsupported protocol scheme " +:+ url_Scheme (hr_URL out))), w).

(** [deviceFlowTransport.RoundTrip]. *)
Definition RoundTrip (t : deviceFlowTransport) (r : server_request) : M (A * bool) :=
  Transport_RoundTrip (transport_for t (url_Path (hr_URL r))) r.

(** [ReverseProxy.ServeHTTP] with the error handler of [newProxy]. *)
Definition ErrorHandler : gateway_answer A := GatewayError 502 upstream_unavailable.

Definition proxy_ServeHTTP (p : ReverseProxy) (r : server_request) : M (gateway_answer A) :=
  if negb (IsPrint (upgradeType (hr_Header r))) then mret ErrorHandler
  else x ← attempt (RoundTrip (px_Transport p) (outgoing (px_target p) r));
       mret (match x with inl (answer, whole) => Proxied answer whole | inr _ => ErrorHandler end).

Definition newGatewayRouter (upstream : server_request → M (gateway_answer A)) (r : server_request) : M (gateway_answer A) :=
  match gin_route gateway_routes (hr_Method r) (url_Path (hr_URL r)) with
  | GinHandler HealthLive => mret GatewayLive
  | GinHandler Ping => mret GatewayPong
  | GinRedirect status path => mret (GatewayRedirect status path)
  | GinNoRoute => upstream r
  end.
End gateway.
