(* ===== verification/GatewaySpec.v ===== *)
(** The contract of the gateway: what its configuration must be, which requests it
    answers itself, what the API gets of the others, that it lets no request do
    more than the API does, and how long it waits for the end of a device login. *)

From S2P Require Import Prelude.
From S2P Require Import GoStrings.
From S2P Require Import Schema.
From S2P Require Import Integrity.
From S2P Require Import Stores.
From S2P Require Import World.
From S2P Require Import Tenants.
From S2P Require Import Security.
From S2P Require Import NetUrl.
From S2P Require Import NetHttp.
From S2P Require Import GoConv.
From S2P Require Import ConfigSpec.
From S2P Require Import Sim.
From S2P Require Import Directory.
From S2P Require Import Jwt.
From S2P Require Import Translator.
From S2P Require Import Oauth.
From S2P Require Import OauthSim.
From S2P Require Import OauthSpec.
From S2P Require Import ExternalApikeySpec.
From S2P Require Import ChatHandlerSpec.
From S2P Require Import Router.
From S2P Require Import RouterSpec.
From S2P Require Import Gateway.

Local Open Scope list_scope.
Local Open Scope Z_scope.

(** * Configuration *)

Lemma gateway_duration_Ok lookup key fallback d :
  gateway_duration lookup key fallback = Ok d ↔
  ParseDuration (gateway_value lookup key fallback) = Some d ∧ 0 < d.
Proof.
  unfold gateway_duration. destruct (ParseDuration _) as [r|]; [|split; [done|by intros [? _]]].
  destruct (Z.leb_spec r 0); split; try done; [intros [[= ->] ?]; lia|by intros [= ->]|by intros [[= ->] _]].
Qed.

(** * The path *)

Lemma HasSuffix_byte s a : HasSuffix (s +:+ String a "") (String a "") = true.
Proof. unfold HasSuffix. rewrite str_rev_app_distr. exact (prefix_app (String a "") (str_rev s)). Qed.

Lemma HasSuffix_split s a : HasSuffix s (String a "") = true → s = str_rev (str_drop 1 (str_rev s)) +:+ String a "".
Proof.
  intros Hs%HasPrefix_split. rewrite <- (str_rev_involutive s) at 1. rewrite Hs, str_rev_app_distr. done.
Qed.

(** A path that differs by a slash at the end from one that has none. *)
Lemma toggle_slash_inv path q : HasSuffix q "/" = false → toggle_slash path = q → path = q +:+ "/".
Proof.
  intros Hq. unfold toggle_slash. destruct (HasSuffix path "/") eqn:Hp.
  - intros <-. by apply HasSuffix_split.
  - intros <-. by rewrite HasSuffix_byte in Hq.
Qed.

(** A target without a path of its own, and a path as it stands in a request. *)
Definition plain_target (target : URL) : Prop :=
  url_RawPath target = ""%string ∧ (url_Path target = "" ∨ url_Path target = "/")%string.

Definition rooted (u : URL) : Prop :=
  HasPrefix (url_Path u) "/" = true ∧ (url_RawPath u = ""%string ∨ HasPrefix (url_RawPath u) "/" = true).

Lemma rewrite_path target u : url_Path (rewriteRequestURL target u) = (joinURLPath target u).1.
Proof. unfold rewriteRequestURL. by destruct (joinURLPath target u). Qed.

Lemma join_plain target u : plain_target target → rooted u → url_Path (rewriteRequestURL target u) = url_Path u.
Proof.
  intros [Hraw Ht] [Hp Hr]. rewrite rewrite_path. unfold joinURLPath, joined, url_EscapedPath.
  pose proof (EscapedPath_slash _ _ Hp Hr) as He. rewrite Hraw. change (String.eqb "" "") with true.
  destruct (String.eqb (url_RawPath u) "");
    cbn [andb fst]; rewrite ?He, ?Hp; destruct Ht as [-> | ->]; cbn; try done;
    symmetry; exact (HasPrefix_split (url_Path u) "/" Hp).
Qed.

Lemma length_joined aslash bslash a b :
  (String.length a + String.length b <= S (String.length (joined aslash bslash a b)))%nat ∧
  (aslash = false → (String.length a + String.length b <= String.length (joined aslash bslash a b))%nat).
Proof.
  unfold joined. destruct aslash, bslash; cbn [andb negb]; rewrite !length_str_app; cbn [String.length]; try (split; [lia|intros; (done || lia)]).
  split; [|done]. destruct b; cbn; lia.
Qed.

(** A gateway starts exactly on an address to listen on, an absolute URL to
    forward to and positive times; a request to the end of a device login is then
    given sixteen minutes, one more than the upstream takes at most, and every
    other request the configured time. *)
Theorem gateway_config_correct `{UrlParser} lookup p :
  (c ← loadGatewayConfig lookup; newProxy c) = Ok p →
  let waits u := tp_ResponseHeaderTimeout (transport_for (px_Transport p) (url_Path (rewriteRequestURL (px_target p) u))) in
  (∃ hp, SplitHostPort (gateway_value lookup "GATEWAY_ADDR" ":8080") = Ok hp) ∧
  url_Parse (gateway_value lookup "GATEWAY_UPSTREAM_URL" "http://127.0.0.1:8081") = Some (px_target p) ∧
  url_Scheme (px_target p) ≠ ""%string ∧ url_Host (px_target p) ≠ ""%string ∧
  ∃ dial headers,
    ParseDuration (gateway_value lookup "GATEWAY_DIAL_TIMEOUT" "2s") = Some dial ∧ 0 < dial ∧
    ParseDuration (gateway_value lookup "GATEWAY_RESPONSE_HEADER_TIMEOUT" "30s") = Some headers ∧ 0 < headers ∧
    (∀ path, tp_DialTimeout (transport_for (px_Transport p) path) = dial) ∧
    (plain_target (px_target p) → ∀ u, rooted u →
     if String.eqb (url_Path u) "/oauth/callbackdevice"
     then waits u = 16 * minute ∧ 15 * minute < waits u else waits u = headers)%string.
Proof.
  rewrite bind_Ok. unfold loadGatewayConfig. cbv zeta. intros (c & Hc & Hp).
  apply bind_Ok in Hc as (dial & Hd%gateway_duration_Ok & Hc).
  apply bind_Ok in Hc as (headers & Hh%gateway_duration_Ok & Hc).
  destruct (SplitHostPort _) as [hp|e|]; [|done..]. injection Hc as <-.
  revert Hp. unfold newProxy. cbn [gw_upstreamURL gw_dialTimeout gw_responseTimeout].
  destruct (url_Parse _) as [target|]; [|done]. destruct (_ || _) eqn:Hu; [done|]. intros [= <-].
  apply orb_false_iff in Hu as [Hs%String.eqb_neq Hho%String.eqb_neq]. cbn [px_target px_Transport].
  split; [by eexists|]. do 3 (split; [done|]). exists dial, headers. do 2 (split; [apply Hd|]). do 2 (split; [apply Hh|]).
  split; [intros path; unfold transport_for; by destruct (String.eqb _ _)|]. intros Hb u Hr.
  rewrite join_plain by done. unfold transport_for. by destruct (String.eqb _ _).
Qed.

(** Behind a target with a path of its own the request for the end of a device
    login is sent with another path: it gets the time of the others. *)
Theorem base_path_waits_less `{UrlParser} configuration p u :
  newProxy configuration = Ok p →
  url_Path (px_target p) ∉ [""; "/"]%string → url_RawPath (px_target p) = ""%string → url_RawPath u = ""%string →
  url_Path u = "/oauth/callbackdevice"%string →
  tp_ResponseHeaderTimeout (transport_for (px_Transport p) (url_Path (rewriteRequestURL (px_target p) u)))
  = gw_responseTimeout configuration.
Proof.
  unfold newProxy. destruct (url_Parse _) as [target|]; [|done]. destruct (_ || _); [done|]. intros [= <-].
  cbn [px_target px_Transport]. rewrite rewrite_path. unfold joinURLPath. intros Hne -> -> ->. cbn [fst].
  change (String.eqb "" "" && String.eqb "" "") with true. cbv iota. unfold transport_for.
  rewrite (proj2 (String.eqb_neq _ _)); [done|]. intros Heq%(f_equal String.length).
  destruct (length_joined (HasSuffix (url_Path target) "/") (HasPrefix "/oauth/callbackdevice" "/")
    (url_Path target) "/oauth/callbackdevice") as [Hl Hl']. cbn [fst] in Heq. rewrite Heq in Hl, Hl'.
  destruct (url_Path target) as [|a [|b s]]; [set_solver| |cbn [String.length] in Hl; lia].
  destruct (ascii_dec a "/") as [->|Ha]; [set_solver|].
  cbn [String.length] in Hl'. assert (HasSuffix (String a "") "/" = false) as Hf; [|specialize (Hl' Hf); lia].
  change (String.prefix (String "/" "") (String a "") = false). cbn [String.prefix].
  destruct (ascii_dec "/" a); congruence.
Qed.

(** * What the API gets *)

(** The headers that the proxy sets itself. *)
Definition set_by_proxy : list string := ["Te"; "Connection"; "Upgrade"; "X-Forwarded-For"; "User-Agent"]%string.

Lemma outgoing_headers_kept remote h k :
  k ∉ set_by_proxy → outgoing_headers remote h !! k = removeHopByHopHeaders h !! k.
Proof.
  intros Hk. assert (Hne : ∀ name, name ∈ set_by_proxy → CanonicalMIMEHeaderKey name ≠ k).
  { intros name Hin <-. apply Hk. revert Hin. unfold set_by_proxy. rewrite !elem_of_cons, elem_of_nil.
    intros [->|[->|[->|[->|[->|[]]]]]]; by_decide. }
  assert (Hset : ∀ name v h, name ∈ set_by_proxy → hdr_Set h name v !! k = h !! k)
    by (intros; apply hdr_Set_ne; auto).
  assert (Hfor : ∀ h, forwarded_for remote h !! k = h !! k).
  { intros h'. unfold forwarded_for. destruct (SplitHostPort remote) as [[ip port]|e|]; [|done..]. apply Hset. by_decide. }
  unfold outgoing_headers. cbv zeta.
  destruct (hdr_has _ _); [|rewrite Hset by by_decide]; rewrite Hfor;
    destruct (String.eqb _ _); rewrite ?Hset by by_decide;
    destruct (HeaderValuesContainsToken _ _); rewrite ?Hset by by_decide; done.
Qed.

Lemma removed_hop h k : k ∈ hopHeaders → removeHopByHopHeaders h !! k = None.
Proof.
  intros Hk. unfold removeHopByHopHeaders. rewrite hdr_Del_all, bool_decide_true; [done|].
  revert Hk. by vm_compute.
Qed.

Lemma removed_other h k :
  k ∉ hopHeaders → k ∉ CanonicalMIMEHeaderKey <$> connection_named h → removeHopByHopHeaders h !! k = h !! k.
Proof.
  intros Hk Hn. unfold removeHopByHopHeaders. rewrite hdr_Del_all, bool_decide_false by (revert Hk; by vm_compute).
  by rewrite hdr_Del_all, bool_decide_false.
Qed.

(** How gin and [net/http] read the cookie of the sessions and the parameters of
    the query. *)
Class HttpReading := { read_cookie : list string → option string; read_query : string → string → string }.

(** The headers the API reads. *)
Definition api_headers : list string := ["Authorization"; "X-Request-Id"; "Cookie"; "Accept"]%string.

Definition api_request `{HttpReading} (r : server_request) : request :=
  {| rq_Method := hr_Method r; rq_Path := url_Path (hr_URL r);
     rq_Authorization := hdr_Get (hr_Header r) "Authorization"; rq_RequestID := hdr_Get (hr_Header r) "X-Request-Id";
     rq_RefreshCookie := read_cookie (hdr_lines (hr_Header r) "Cookie"); rq_Accept := hdr_Get (hr_Header r) "Accept";
     rq_Query := read_query (url_RawQuery (hr_URL r)); rq_Body := hr_Body r; rq_Flushes := true |}.

(** A target that is only a scheme and a host. *)
Definition bare_target (target : URL) : Prop := plain_target target ∧ url_RawQuery target = ""%string.

(** A request as a server hands it over, that does not ask to drop a header the
    API reads. *)
Definition ordinary (r : server_request) : Prop :=
  rooted (hr_URL r) ∧ (no_body r = true → hr_Body r = Ok ""%string) ∧
  ∀ k, k ∈ api_headers → k ∉ CanonicalMIMEHeaderKey <$> connection_named (hr_Header r).

Lemma api_header_kept remote h k :
  k ∈ api_headers → k ∉ CanonicalMIMEHeaderKey <$> connection_named h →
  CanonicalMIMEHeaderKey k = k ∧ outgoing_headers remote h !! k = h !! k.
Proof.
  intros Hk Hn. assert (CanonicalMIMEHeaderKey k = k ∧ k ∉ set_by_proxy ∧ k ∉ hopHeaders) as (Hc & Hp & Hh).
  { revert Hk. unfold api_headers. rewrite !elem_of_cons, elem_of_nil.
    intros [->|[->|[->|[->|[]]]]]; (split; [done|split; by_decide]). }
  split; [done|]. by rewrite outgoing_headers_kept, removed_other.
Qed.

Lemma outgoing_same `{HttpReading} target r :
  bare_target target → ordinary r → api_request (outgoing target r) = api_request r.
Proof.
  intros [Hplain Hquery] (Hroot & Hbody & Hnamed).
  assert (Hh : ∀ k, k ∈ api_headers → CanonicalMIMEHeaderKey k = k ∧
    hr_Header (outgoing target r) !! k = hr_Header r !! k).
  { intros k Hk. by apply api_header_kept; [|apply Hnamed]. }
  assert (Hget : ∀ k, k ∈ api_headers → hdr_Get (hr_Header (outgoing target r)) k = hdr_Get (hr_Header r) k).
  { intros k Hk. unfold hdr_Get, hdr_lines. destruct (Hh k Hk) as [-> ->]. done. }
  unfold api_request. rewrite !Hget by by_decide.
  unfold hdr_lines. rewrite (proj2 (Hh "Cookie"%string ltac:(by_decide))).
  unfold outgoing. cbn [hr_URL hr_Body hr_Method]. rewrite join_plain by done.
  f_equal.
  - unfold rewriteRequestURL. destruct (joinURLPath target (hr_URL r)). cbn [url_RawQuery]. by rewrite Hquery.
  - destruct (no_body r); [|done]. by rewrite Hbody.
Qed.

(** * Requests *)

Definition local_paths : list string := ["/health/live"; "/ping"]%string.

(** Gin answers the two checks, redirects to them, and leaves the rest. *)
Lemma gateway_route `{GinEngine} `{!GinEngineLaws gateway_routes} method path :
  match gin_route gateway_routes method path with
  | GinHandler h => method = "GET"%string ∧ path = match h with HealthLive => "/health/live" | Ping => "/ping" end%string
  | GinRedirect status q => method = "GET"%string ∧ status = 301 ∧ q ∈ local_paths ∧ path = q +:+ "/"
  | GinNoRoute => ¬ (method = "GET"%string ∧ ∃ q, q ∈ local_paths ∧ (path = q ∨ path = q +:+ "/"))
  end.
Proof.
  assert (Hin : ∀ p h, (method, p, h) ∈ gateway_routes ↔ method = "GET"%string ∧
    (p = "/health/live" ∧ h = HealthLive ∨ p = "/ping" ∧ h = Ping)%string).
  { intros p h. unfold gateway_routes. rewrite !elem_of_cons, elem_of_nil. naive_solver. }
  assert (Hloc : ∀ q, q ∈ local_paths → HasSuffix q "/" = false ∧ toggle_slash (q +:+ "/") = q ∧ q +:+ "/" ∉ local_paths).
  { intros q. unfold local_paths. rewrite !elem_of_cons, elem_of_nil.
    intros [->|[->|[]]]; (split; [done|split; [done|by_decide]]). }
  destruct (decide (method = "GET"%string)) as [Hm|Hm].
  2:{ rewrite gin_route_none; [by intros [? _]|intros h [? _]%Hin; done..]. }
  destruct (decide (path ∈ local_paths)) as [Hp|Hp].
  { revert Hp. unfold local_paths. rewrite !elem_of_cons, elem_of_nil. intros [->|[->|[]]].
    - rewrite (gin_route_found _ _ HealthLive); [done|]. apply Hin. tauto.
    - rewrite (gin_route_found _ _ Ping); [done|]. apply Hin. tauto. }
  assert (Hno : ∀ h, (method, path, h) ∉ gateway_routes).
  { intros h [_ Hq]%Hin. apply Hp. unfold local_paths. rewrite !elem_of_cons. tauto. }
  destruct (decide (toggle_slash path ∈ local_paths)) as [Ht|Ht].
  - assert (path = toggle_slash path +:+ "/") as Hpath by (apply toggle_slash_inv; [by apply Hloc|done]).
    assert (∃ h, (method, toggle_slash path, h) ∈ gateway_routes) as [h Hh].
    { revert Ht. unfold local_paths. rewrite !elem_of_cons, elem_of_nil. intros [Ht|[Ht|[]]];
        [exists HealthLive|exists Ping]; apply Hin; tauto. }
    rewrite (gin_route_redirect _ _ h); [|done|done|by subst|].
    + subst method. done.
    + intros ->. revert Ht. by_decide.
  - rewrite gin_route_none; [|done|].
    + intros (_ & q & Hq & [-> | ->]); [done|]. apply Ht. destruct (Hloc q Hq) as (_ & -> & _). done.
    + intros h [_ Hq]%Hin. apply Ht. unfold local_paths. rewrite !elem_of_cons. tauto.
Qed.

Section requests.
Context `{EnvLaws} `{AeadLaws} `{Bcrypt} `{JwtLib} `{UpstreamClient} `{OAuth2}.
Context `{Json LoginFlow} `{Json deviceLoginFlow} `{UrlParser} `{Directory.ChatClient} `{Sdk} `{Gin} `{Binding} `{Probes}.
Context `{Network} `{HttpReading} `{GinEngine} `{!GinLaws} (claims_json : string → option IDTokenClaims).

(** The API behind the gateway. *)
Definition gateway_api (a : application) (r : server_request) : M (option string * api_answer) :=
  serve_request claims_json a (api_request r).

Definition gateway (p : ReverseProxy) (a : application) : server_request → M (gateway_answer (option string * api_answer)) :=
  newGatewayRouter (proxy_ServeHTTP (gateway_api a) p).

(** The API serves a request some times in a row; every time as it always does. *)
Inductive api_runs (a : application) (r : request) : nat → world → world → Prop :=
  | no_run w : api_runs a r 0 w w
  | next_run k w answer w1 w2 :
      serve_request claims_json a r w = (Ok answer, w1) → request_ok a r w (Ok answer) w1 →
      api_runs a r k w1 w2 → api_runs a r (S k) w w2.

Lemma api_runs_app a r k l w1 w2 w3 : api_runs a r k w1 w2 → api_runs a r l w2 w3 → api_runs a r (k + l) w1 w3.
Proof. induction 1; [done|]. intros. cbn. econstructor; eauto. Qed.

Lemma api_serves a r w :
  ∃ answer w', serve_request claims_json a r w = (Ok answer, w') ∧ request_ok a r w (Ok answer) w'.
Proof.
  pose proof (serve_request_spec claims_json a r w) as Hr. unfold wp in Hr.
  destruct (serve_request claims_json a r w) as [x w']. cbn [fst snd] in Hr.
  pose proof Hr as ((id & answer & -> & _) & _). by exists (id, answer), w'.
Qed.

Lemma api_once a r w answer w' : serve_request claims_json a r w = (Ok answer, w') → api_runs a r 1 w w'.
Proof.
  intros Hs. destruct (api_serves a r w) as (answer' & w1 & Hs' & Hr). rewrite Hs in Hs'. injection Hs' as <- <-.
  eapply next_run; [done..|constructor].
Qed.

Definition in_time (t : Transport) (d : delivery) : Prop :=
  ∃ after whole, d = Answered after whole ∧ after <= tp_ResponseHeaderTimeout t.

(** How a round trip ends that may use the connections of [l] and, last, [d]. *)
Definition trip (a : application) (t : Transport) (out : server_request) (l : list delivery) (last : option delivery)
    (w : world) (x : res (option string * api_answer * bool)) (w' : world) : Prop :=
  match x with
  | Ok (answer, whole) => ∃ k w1 after,
      api_runs a (api_request out) k w w1 ∧ (k <= length l)%nat ∧ (0 < k → isReplayable out = true)%nat ∧
      serve_request claims_json a (api_request out) w1 = (Ok answer, w') ∧
      request_ok a (api_request out) w1 (Ok answer) w' ∧
      (Answered after whole ∈ l ∨ last = Some (Answered after whole)) ∧ after <= tp_ResponseHeaderTimeout t
  | Err _ => ∃ k,
      api_runs a (api_request out) k w w' ∧ (k <= S (length l))%nat ∧ (1 < k → isReplayable out = true)%nat ∧
      (l = [] → ∀ d, last = Some d → ¬ in_time t d)
  | Panic => False
  end.

Lemma wp_exchange a t d out w :
  wp (exchange (gateway_api a) t d out) (λ x w', trip a t out [] (Some d) w x w' ∧
    (shouldRetryRequest d out = true → ∃ e k, x = Err e ∧ api_runs a (api_request out) k w w' ∧ (k <= 1)%nat ∧
       (0 < k → isReplayable out = true)%nat)) w.
Proof.
  destruct (api_serves a (api_request out) w) as (answer & w1 & Hs & Hr).
  assert (Hnone : api_runs a (api_request out) 0 w w) by constructor.
  pose proof (api_once _ _ _ _ _ Hs) as Honce.
  assert (Hno : ∀ d, (∀ after whole, d ≠ Answered after whole) → ∀ d', Some d = Some d' → ¬ in_time t d').
  { intros d0 Hd d' [= <-] (after & whole & -> & _). by eapply Hd. }
  unfold wp, exchange, gateway_api. destruct d as [|received retryable|after whole].
  - cbn [fst snd]. split; [exists 0%nat; split_and!; [done|cbn; lia|lia|intros _; by apply Hno]|].
    intros _. eexists _, 0%nat. split_and!; [done..|lia|lia].
  - rewrite Hs. cbn [fst snd]. destruct received.
    + split; [exists 1%nat; split_and!; [done|cbn; lia|lia|intros _; by apply Hno]|].
      intros [Hre _]%andb_true_iff. eexists _, 1%nat. by split_and!.
    + split; [exists 0%nat; split_and!; [done|cbn; lia|lia|intros _; by apply Hno]|].
      intros _. eexists _, 0%nat. split_and!; [done..|lia|lia].
  - rewrite Hs. cbn [fst snd]. split; [|done]. destruct (Z.leb_spec after (tp_ResponseHeaderTimeout t)).
    + exists 0%nat, w, after. split_and!; [done|cbn; lia|lia|done|done|by right|done].
    + exists 1%nat. split_and!; [done|cbn; lia|lia|]. intros _ d [= <-] (after' & whole' & [= <- <-] & ?). lia.
Qed.

Lemma wp_round_trip a t out l (last : option delivery) w :
  wp (round_trip (gateway_api a) t out l
        (match last with Some d => exchange (gateway_api a) t d out | None => throw (Opaque "dial") end))
    (trip a t out l last w) w.
Proof.
  revert w. induction l as [|d l IH]; intros w; cbn [round_trip].
  - destruct last as [d|].
    + eapply wp_mono; [|apply wp_exchange]. by intros x w' [? _].
    + apply wp_throw. exists 0%nat. split_and!; [constructor|cbn; lia|lia|done].
  - pose proof (wp_exchange a t d out w) as Hd. destruct (shouldRetryRequest d out).
    + apply wp_bind, wp_attempt. eapply wp_mono; [|exact Hd]. intros x w1 [_ Hre].
      destruct (Hre eq_refl) as (e & k & -> & Hk & Hk1 & Hk2).
      eapply wp_mono; [|apply IH]. intros [[answer whole]|e'|] w' Hx; [|..|done].
      * destruct Hx as (k' & w2 & after & Hruns & Hle & Hrep & Hs & Hr & Hin & Hlim).
        exists (k + k')%nat, w2, after. split_and!; [by eapply api_runs_app|cbn; lia| |done|done| |done].
        -- intros ?. destruct k; [apply Hrep; lia|apply Hk2; lia].
        -- destruct Hin as [Hin|Hin]; [left; by right|by right].
      * destruct Hx as (k' & Hruns & Hle & Hrep & _).
        exists (k + k')%nat. split_and!; [by eapply api_runs_app|cbn; lia| |done].
        intros ?. destruct k; [apply Hrep; lia|apply Hk2; lia].
    + eapply wp_mono; [|exact Hd]. intros [[answer whole]|e|] w' [Hx _]; [|..|done].
      * destruct Hx as (k & w1 & after & Hruns & Hle & Hrep & Hs & Hr & Hin & Hlim). cbn in Hle.
        exists k, w1, after. split_and!; [done|cbn; lia|done|done|done| |done].
        left. destruct Hin as [Hin|[= ->]]; [by apply not_elem_of_nil in Hin|by left].
      * destruct Hx as (k & Hruns & Hle & Hrep & _). cbn in Hle. exists k. split_and!; [done|cbn; lia|done|done].
Qed.

(** What the proxy does not send at all. *)
Definition forwardable (p : ReverseProxy) (r : server_request) : Prop :=
  IsPrint (upgradeType (hr_Header r)) = true ∧ known_scheme (px_target p) = true.

Definition transport_of (p : ReverseProxy) (r : server_request) : Transport :=
  transport_for (px_Transport p) (url_Path (hr_URL (outgoing (px_target p) r))).

(** The new connection of a round trip that starts at a step. *)
Definition new_connection (t : Transport) (n : nat) : option delivery :=
  if within (dial_time n) (tp_DialTimeout t) then Some (fresh n) else None.

Lemma wp_RoundTrip p a r w :
  known_scheme (px_target p) = true →
  let t := transport_of p r in
  wp (RoundTrip (gateway_api a) (px_Transport p) (outgoing (px_target p) r))
    (trip a t (outgoing (px_target p) r) (idle (w_step w)) (new_connection t (w_step w)) w) w.
Proof.
  intros Hscheme t. pose proof (wp_round_trip a t (outgoing (px_target p) r) (idle (w_step w))
    (new_connection t (w_step w)) w) as Hw.
  unfold RoundTrip. fold (transport_of p r). fold t. unfold wp, Transport_RoundTrip.
  replace (known_scheme (hr_URL (outgoing (px_target p) r))) with true.
  - unfold new_connection in Hw |- *. by destruct (within _ _).
  - rewrite <- Hscheme. unfold known_scheme, outgoing, rewriteRequestURL. cbn [hr_URL].
    by destruct (joinURLPath _ _).
Qed.

(** A request that is not for the gateway itself. *)
Definition remote (r : server_request) : Prop :=
  ¬ (hr_Method r = "GET"%string ∧ ∃ q, q ∈ local_paths ∧ (url_Path (hr_URL r) = q ∨ url_Path (hr_URL r) = q +:+ "/")).

(** C20: the gateway answers its two health checks itself and redirects to them
    from the same path with a slash; every other request is rewritten and sent to
    the API.  The API sees what the client asked for, without what concerns the
    connection of the client, when the target is only a host and the request names
    none of the headers the API reads in Connection.  The client gets the answer of
    the API to the request that was sent, if its headers come within the limit of
    the path, or else 502.  The API has then served the request as it always
    does, at most once, or once more for every idle connection that broke if the
    request says that it may be repeated; it has served nothing when the request
    cannot be sent. *)
Theorem gateway_correct `{!GinEngineLaws gateway_routes} p a r w :
  let out := outgoing (px_target p) r in
  let t := transport_of p r in
  let trip := trip a t out (idle (w_step w)) (new_connection t (w_step w)) w in
  url_Path (hr_URL out) = (joinURLPath (px_target p) (hr_URL r)).1 ∧
  (bare_target (px_target p) → ordinary r → api_request out = api_request r) ∧
  (∀ k, k ∈ hopHeaders → k ∉ set_by_proxy → hr_Header out !! k = None) ∧
  wp (gateway p a r) (λ x w',
    match x with
    | Ok GatewayLive => hr_Method r = "GET"%string ∧ url_Path (hr_URL r) = "/health/live"%string ∧ w' = w
    | Ok GatewayPong => hr_Method r = "GET"%string ∧ url_Path (hr_URL r) = "/ping"%string ∧ w' = w
    | Ok (GatewayRedirect status q) => hr_Method r = "GET"%string ∧ status = 301 ∧ q ∈ local_paths ∧
        url_Path (hr_URL r) = q +:+ "/" ∧ w' = w
    | Ok (Proxied answer whole) => remote r ∧ forwardable p r ∧ trip (Ok (answer, whole)) w'
    | Ok (GatewayError status body) => remote r ∧ status = 502 ∧ body = upstream_unavailable ∧
        (¬ forwardable p r ∧ w' = w ∨ ∃ e, trip (Err e) w')
    | _ => False
    end) w.
Proof.
  intros out t trip'. split; [apply rewrite_path|]. split; [apply outgoing_same|]. split.
  { intros k Hk Hs. change (outgoing_headers (hr_RemoteAddr r) (hr_Header r) !! k = None).
    by rewrite outgoing_headers_kept, removed_hop. }
  unfold gateway, newGatewayRouter. pose proof (gateway_route (hr_Method r) (url_Path (hr_URL r))) as Hg.
  destruct (gin_route _ _ _) as [h|status q|].
  { destruct Hg as [Hm Hp]. destruct h; by wp_step. }
  { destruct Hg as (Hm & Hst & Hq & Hp). by wp_step. }
  unfold proxy_ServeHTTP. destruct (IsPrint (upgradeType (hr_Header r))) eqn:Hup; cbn [negb].
  2:{ wp_step. split_and!; [done..|]. left. split; [|done]. by intros [? _]; congruence. }
  destruct (known_scheme (px_target p)) eqn:Hscheme.
  - wp_step. wp_step. eapply wp_mono; [|by apply wp_RoundTrip].
    intros [[answer whole]|e|] w' Hx; [| |done]; wp_step; split_and!; try done. right. by exists e.
  - assert (Hno : known_scheme (hr_URL out) = false).
    { rewrite <- Hscheme. unfold known_scheme, out, outgoing, rewriteRequestURL. cbn [hr_URL].
      by destruct (joinURLPath _ _). }
    unfold wp, mbind, M_bind, attempt, RoundTrip, Transport_RoundTrip. fold out. rewrite Hno. cbn [fst snd].
    split_and!; [done..|]. left. split; [|done]. by intros [_ ?]; congruence.
Qed.
End requests.

(** * The gateway at work *)

(** A router that compares the paths. *)
Definition sim_route (routes : list (string * string * local_handler)) (method path : string) : gin_result :=
  let find path := head (filter (λ x : string * string * local_handler, (x.1.1, x.1.2) = (method, path)) routes) in
  match find path, find (toggle_slash path) with
  | Some (_, _, h), _ => GinHandler h
  | None, Some _ =>
      if bool_decide (method = "CONNECT" ∨ path = "/")%string then GinNoRoute
      else GinRedirect (if String.eqb method "GET" then 301 else 307) (toggle_slash path)
  | None, None => GinNoRoute
  end.

#[local] Instance sim_engine : GinEngine := sim_route.

#[local] Instance sim_engine_laws : GinEngineLaws gateway_routes.
Proof.
  assert (Hfind : ∀ m p, match head (filter (λ x : string * string * local_handler, (x.1.1, x.1.2) = (m, p)) gateway_routes) with
    | Some x => x.1 = (m, p) ∧ x ∈ gateway_routes | None => ∀ h, (m, p, h) ∉ gateway_routes end).
  { intros m p. pose proof (λ x, list_elem_of_filter (λ x : string * string * local_handler, (x.1.1, x.1.2) = (m, p)) gateway_routes x) as Hf.
    destruct (filter _ gateway_routes) as [|x l]; cbn [head].
    - intros h Hh. apply (not_elem_of_nil (m, p, h)), Hf. done.
    - destruct (proj1 (Hf x) ltac:(left)) as [Hx Hin]. split; [|done]. by destruct x as [[]]. }
  assert (Huniq : ∀ x h h', (x, h) ∈ gateway_routes → (x, h') ∈ gateway_routes → h = h').
  { intros x h h'. unfold gateway_routes. rewrite !elem_of_cons, !elem_of_nil. intros [?|[?|[]]] [?|[?|[]]]; simplify_eq; done. }
  split; unfold gin_route, sim_engine, sim_route; intros method path *.
  - intros Hh. pose proof (Hfind method path) as Hp. destruct (head _) as [[x h']|]; [|by destruct (Hp _ Hh)].
    destruct Hp as [Hx Hin]. cbn in Hx. subst x. by rewrite (Huniq _ _ _ Hh Hin).
  - intros Hno Hh Hc Hr. pose proof (Hfind method path) as Hp. pose proof (Hfind method (toggle_slash path)) as Ht.
    destruct (head _) as [[x h']|]; [destruct Hp as [Hx Hin]; cbn in Hx; subst x; by destruct (Hno h')|].
    destruct (head _) as [[x h']|]; [|by destruct (Ht _ Hh)]. by rewrite bool_decide_false by tauto.
  - intros Hno Hno'. pose proof (Hfind method path) as Hp. pose proof (Hfind method (toggle_slash path)) as Ht.
    destruct (head _) as [[x h']|]; [destruct Hp as [Hx Hin]; cbn in Hx; subst x; by destruct (Hno h')|].
    destruct (head _) as [[x h']|]; [destruct Ht as [Hx Hin]; cbn in Hx; subst x; by destruct (Hno' h')|done].
Qed.

(** One idle connection that has been closed, a new one in a second, the headers
    after a minute. *)
#[local] Instance slow_network : Network :=
  {| idle := λ _, [Broken true true]; dial_time := λ _, Some second; fresh := λ _, Answered minute true |}.

#[local] Instance sim_reading : HttpReading := {| read_cookie := λ _, None; read_query := λ _ _, ""%string |}.

#[local] Instance gateway_url : UrlParser := λ s,
  if HasPrefix s "http://" then
    let rest := TrimPrefix s "http://" in
    match Split rest "/" with
    | [host] => Some (Build_URL "http" None host "" "" false "" host "")
    | host :: path :: _ => Some (Build_URL "http" None host ("/" +:+ path) "" false "" host "")
    | [] => None
    end
  else None.

Definition default_proxy : ReverseProxy :=
  Build_ReverseProxy (Build_URL "http" None "127.0.0.1:8081" "" "" false "" "127.0.0.1:8081" "")
    (Build_deviceFlowTransport (Build_Transport (2 * second) (30 * second)) (Build_Transport (2 * second) (16 * minute))).

(** A request of Bob's browser for a path. *)
Definition sample_url (path : string) : URL := Build_URL "" None "" path "" false "" "" "".
Definition sample_request (method path : string) : server_request :=
  Build_server_request method (sample_url path) "gateway"
    (list_to_map [("Authorization", ["Bearer " +:+ sample_jwt_token]); ("X-Request-Id", ["request-1"]);
                  ("Connection", ["keep-alive, X-Hop"]); ("X-Hop", ["1"]); ("Keep-Alive", ["timeout=5"])])%string
    5 (Ok "{}"%string) "10.0.0.7:4711".

Example rewritten :
  let h := hr_Header (outgoing (px_target default_proxy) (sample_request "POST" "/oauth/delete")) in
  h !! "X-Hop"%string = None ∧ h !! "Keep-Alive"%string = None ∧ h !! "Connection"%string = None ∧
  h !! "X-Forwarded-For"%string = Some ["10.0.0.7"%string] ∧ h !! "User-Agent"%string = Some [""%string] ∧
  (joinURLPath (Build_URL "http" None "api" "/base/" "" false "" "api" "") (sample_url "/ping/")).1 = "/base/ping/"%string.
Proof. vm_compute. repeat split. Qed.

Lemma gateway_config_correct_witness :
  (c ← loadGatewayConfig (λ _, None); newProxy c) = Ok default_proxy ∧
  tp_ResponseHeaderTimeout (transport_of default_proxy (sample_request "POST" "/oauth/callbackdevice")) = 16 * minute.
Proof.
  assert (Hp : (c ← loadGatewayConfig (λ _, None); newProxy c) = Ok default_proxy) by (vm_compute; reflexivity).
  split; [exact Hp|].
  destruct (gateway_config_correct (λ _, None) default_proxy Hp) as (_ & _ & _ & _ & dial & headers & _ & _ & _ & _ & _ & Hw).
  destruct (Hw ltac:(split; [reflexivity|by left]) (sample_url "/oauth/callbackdevice")
    ltac:(split; [reflexivity|by left])) as [H _]. exact H.
Defined.

Definition based_config : gatewayConfig := Build_gatewayConfig ":8080" "http://api/base" (2 * second) (30 * second).

Lemma base_path_waits_less_witness :
  ∃ p, newProxy based_config = Ok p ∧
    tp_ResponseHeaderTimeout (transport_of p (sample_request "POST" "/oauth/callbackdevice")) = 30 * second.
Proof.
  eexists. split; [vm_compute; reflexivity|].
  apply (base_path_waits_less based_config); [vm_compute; reflexivity|by_decide|reflexivity..].
Defined.

(** A deletion over a connection that breaks when the API has it: the API does it
    once, and the client hears of an error.  A slash too many is answered by the
    gateway. *)
Lemma gateway_correct_witness :
  let r := sample_request "POST" "/oauth/delete" in
  let x := gateway sim_claims default_proxy sample_application r sample_world in
  (gateway sim_claims default_proxy sample_application (sample_request "GET" "/ping/") sample_world).1
    = Ok (GatewayRedirect 301 "/ping") ∧
  x.1 = Ok (GatewayError 502 upstream_unavailable) ∧
  api_request (outgoing (px_target default_proxy) r) = api_request r ∧
  (∃ k, api_runs sim_claims sample_application (api_request r) k sample_world x.2 ∧ (k <= 1)%nat) ∧
  length (t_oauth (w_db sample_world)) = 3%nat ∧ length (t_oauth (w_db x.2)) = 2%nat.
Proof.
  intros r x.
  destruct (gateway_correct sim_claims default_proxy sample_application r sample_world) as (_ & Hsame & _ & Hwp).
  assert (Hs : api_request (outgoing (px_target default_proxy) r) = api_request r).
  { apply Hsame; [by split; [split; [|left]|]|]. split; [by split; [|left]|]. split; [discriminate|].
    intros k. unfold api_headers. rewrite !elem_of_cons, elem_of_nil.
    intros [->|[->|[->|[->|[]]]]]; by_decide. }
  assert (Hx : x.1 = Ok (GatewayError 502 upstream_unavailable)) by (vm_compute; reflexivity).
  split; [vm_compute; reflexivity|]. split; [exact Hx|]. split; [exact Hs|]. split; [|split; vm_compute; reflexivity].
  unfold wp in Hwp. fold x in Hwp. rewrite Hx in Hwp.
  destruct Hwp as (_ & _ & _ & [[Hno _]|[e (k & Hk & _ & Hrep & _)]]).
  - destruct Hno. split; vm_compute; reflexivity.
  - exists k. rewrite Hs in Hk. split; [exact Hk|]. destruct (Nat.le_gt_cases k 1) as [Hle|Hlt]; [exact Hle|].
    discriminate (Hrep Hlt).
Defined.
