(* ===== verification/Served.v ===== *)
(** The API and the upstream server together: the generated clients answer with
    what the server's functions give, over a connection that can fail.  The
    theorems follow a credential, a token, a status and a stream through both
    processes. *)

From S2P Require Import Prelude.
From S2P Require Import GoStrings.
From S2P Require Import Schema.
From S2P Require Import Stores.
From S2P Require Import World.
From S2P Require Import NetUrl.
From S2P Require Import Json.
From S2P Require Import JsonFacts.
From S2P Require Import JsonRaw.
From S2P Require Import Config.
From S2P Require Import Directory.
From S2P Require Import Oidc.
From S2P Require Import Route.
From S2P Require Import Translator.
From S2P Require Import Upstream.
From S2P Require Import UpstreamSpec.
From S2P Require Import UpstreamChat.
From S2P Require Import UpstreamChatSpec.
From S2P Require Import Chat.
From S2P Require Import ChatSpec.
From S2P Require Import ChatHandler.

Local Open Scope list_scope.
Local Open Scope Z_scope.

(** * The connection *)

(** The server, when a call arrives there, and how calls are lost: before an
    answer with an error, or a stream after some of its messages. *)
Record channel := {
  ch_server : server; ch_arrival : nat → nat; ch_lost : nat → option gerror; ch_cut : nat → option (nat * gerror)
}.

Section served.
Context `{Outside} `{UrlParser}.

(** A call with one answer. *)
Definition unary {A} (ch : channel) (n : nat) (call : nat → A + gerror) : rpc_result A :=
  match ch_lost ch n with
  | Some e => inr e
  | None => match call (ch_arrival ch n) with inl a => inl (Some a) | inr e => inr e end
  end.

(** A server stream: all messages and the status, or the first ones and an error. *)
Definition delivered (cut : option (nat * gerror)) (sent : list string) (status : option gerror) : rpc_stream :=
  match cut with
  | None => Build_rpc_stream sent status
  | Some (k, e) => Build_rpc_stream (take k sent) (Some e)
  end.

Definition served_upstream (ch : channel) : UpstreamClient := {|
  rpc_GetDeviceFlowCode n provider := unary ch n (λ m, Upstream.GetDeviceFlowCode (ch_server ch) m (Some provider));
  rpc_PollDeviceFlow n provider authID userCode interval := unary ch n (λ m,
    default (inr (StatusError Unknown "")) (Upstream.PollDeviceFlow (ch_server ch) m
      (Some (Build_PollDeviceFlowRequest provider authID userCode interval))));
  rpc_GetProvider n issuer := unary ch n (λ m, Upstream.GetProvider (ch_server ch) m (Some issuer));
  rpc_Verifier n raw provider := unary ch n (λ m, Upstream.Verifier (ch_server ch) m (Some (Build_VerifyRequest raw provider)));
  rpc_ExchangeCode n c verifier provider flowType := unary ch n (λ m,
    ExchangeCode (ch_server ch) m (Some (Build_ExchangeCodeRequest c verifier provider flowType)));
  rpc_RefreshToken n refreshtoken provider := unary ch n (λ m,
    Upstream.RefreshToken (ch_server ch) m (Some (Build_RefreshTokenRequest refreshtoken provider)))
|}.

Definition served_chat (ch : channel) : ChatClient := {|
  rpc_ChatStream n req :=
    match ch_lost ch n with
    | Some e => inr e
    | None => let (sent, status) := UpstreamChat.ChatStream (ch_arrival ch n) (Some req) in
              inl (delivered (ch_cut ch n) sent status)
    end;
  rpc_ChatNonStream n req := unary ch n (λ m, UpstreamChat.ChatNonStream m (Some req))
|}.
End served.

(** * Tokens *)

(** What the caller of the API is told about a call that the provider failed:
    [rejected] when the grant is void, [unavailable] when the provider cannot be
    asked now, [timeout] when it took too long, [broken] otherwise. *)
Definition provider_failure (rejected unavailable timeout broken : gerror) (ctx : option ctx_end) (f : failure) : gerror :=
  match ctx with
  | Some CtxCanceled => context_Canceled
  | Some CtxDeadline => timeout
  | None =>
      if failure_Is f LDeadline then timeout
      else if failure_Is f LCanceled then context_Canceled
      else match failure_As retrieve_error f, failure_As net_error f with
           | Some (c, response), _ =>
               if String.eqb c "invalid_grant" then rejected
               else match response with
                    | Some s => if (s =? 429) || (500 <=? s) then unavailable else broken
                    | None => broken
                    end
           | None, Some _ => unavailable
           | None, None => broken
           end
  end.

Lemma exchangeError_failure ctx f msg :
  exchangeError (StatusError (exchangeErrorCode ctx f) msg) =
    provider_failure ErrExchangeRejected ErrUpstreamUnavailable ErrExchangeTimeout ErrExchangeFailed ctx f.
Proof.
  unfold exchangeErrorCode, provider_failure. destruct ctx as [[]|]; [done..|].
  destruct (failure_Is f LDeadline); [done|]. destruct (failure_Is f LCanceled); [done|].
  destruct (failure_As retrieve_error f) as [[c response]|]; [|by destruct (failure_As net_error f)].
  destruct (String.eqb c "invalid_grant"); [done|]. destruct response as [s|]; [|done]. by destruct (_ || _).
Qed.

Lemma refreshError_failure ctx f msg :
  refreshError (StatusError (exchangeErrorCode ctx f) msg) =
    provider_failure ErrRefreshRejected ErrUpstreamUnavailable ErrRefreshTimeout ErrRefreshFailed ctx f.
Proof.
  unfold exchangeErrorCode, provider_failure. destruct ctx as [[]|]; [done..|].
  destruct (failure_Is f LDeadline); [done|]. destruct (failure_Is f LCanceled); [done|].
  destruct (failure_As retrieve_error f) as [[c response]|]; [|by destruct (failure_As net_error f)].
  destruct (String.eqb c "invalid_grant"); [done|]. destruct response as [s|]; [|done]. by destruct (_ || _).
Qed.

(** The token as it arrives: unchanged, but for an ID token that is no string,
    and refused without an access token or with an expiry that is no date. *)
Definition arrived (token : Token) (usable : bool) (broken : gerror) : res Token :=
  if usable && bool_decide (valid_time (tok_Expiry token)) then
    Ok (Build_Token (tok_AccessToken token) (tok_RefreshToken token) (tok_TokenType token) (tok_Expiry token)
          (ExtraString (id_string token)))
  else Err broken.

Section tokens.
Context `{Outside} `{UrlParser}.
Variable ch : channel.
#[local] Existing Instance served_upstream.

(** What an exchange gives. *)
Definition exchanged (c verifier provider flowType : string) (n : nat) : res Token :=
  match ch_lost ch n with
  | Some e => Err (exchangeError e)
  | None =>
      if blank c || blank verifier || String.eqb provider "" then Err ErrInvalidExchange
      else match config_of (ch_server ch) provider with
      | None => Err ErrProviderUnavailable
      | Some cfg =>
          match flow_config cfg provider flowType with
          | inr _ => Err ErrInvalidExchange
          | inl cfg =>
              let m := ch_arrival ch n in
              match oauth2_Exchange m cfg c verifier with
              | inl token => arrived token (negb (String.eqb (tok_AccessToken token) "")) ErrExchangeFailed
              | inr f => Err (provider_failure ErrExchangeRejected ErrUpstreamUnavailable ErrExchangeTimeout
                                ErrExchangeFailed (ctx_Err (S m)) f)
              end
          end
      end
  end.

(** What a refresh gives. *)
Definition refreshed (refreshtoken provider : string) (n : nat) : res Token :=
  match ch_lost ch n with
  | Some e => Err (refreshError e)
  | None =>
      if blank refreshtoken || blank provider then Err ErrInvalidRefresh
      else match config_of (ch_server ch) provider with
      | None => Err ErrProviderUnavailable
      | Some cfg =>
          let m := ch_arrival ch n in
          match oauth2_Refresh m cfg refreshtoken with
          | inl token => arrived token (negb (blank (tok_AccessToken token))) ErrRefreshFailed
          | inr f => Err (provider_failure ErrRefreshRejected ErrUpstreamUnavailable ErrRefreshTimeout
                            ErrRefreshFailed (ctx_Err (S m)) f)
          end
      end
  end.

Lemma flow_config_invalid cfg provider flowType e :
  flow_config cfg provider flowType = inr e → exchangeError e = ErrInvalidExchange.
Proof. unfold flow_config. repeat case_step; intros [= <-]; done. Qed.

Lemma Exchange_run c verifier provider flowType w :
  Directory.Exchange (H := served_upstream ch) c verifier provider flowType w =
    (exchanged c verifier provider flowType (w_step w), tick w).
Proof.
  unfold Directory.Exchange, exchanged, rpc, mbind, M_bind. cbn [rpc_ExchangeCode served_upstream]. unfold unary.
  destruct (ch_lost ch (w_step w)); [done|]. unfold ExchangeCode. cbn [er_Code er_CodeVerifier er_Provider er_FlowType].
  destruct (_ || _); [done|]. destruct (config_of _ _) as [cfg|]; [|done].
  destruct (flow_config cfg provider flowType) as [cfg'|e] eqn:Hf; [|by rewrite (flow_config_invalid _ _ _ _ Hf)].
  cbv zeta. destruct (oauth2_Exchange _ _ _ _) as [token|f]; [|by rewrite exchangeError_failure].
  cbn [tr_AccessToken tokenResponse]. unfold reject_if, lift, arrived.
  rewrite token_of_tokenResponse. destruct (String.eqb _ _); [done|]. cbn [negb andb mret M_ret]. by case_bool_decide.
Qed.

Lemma RefreshToken_run refreshtoken provider w :
  Directory.RefreshToken (H := served_upstream ch) refreshtoken provider w = (refreshed refreshtoken provider (w_step w), tick w).
Proof.
  unfold Directory.RefreshToken, refreshed, rpc, mbind, M_bind. cbn [rpc_RefreshToken served_upstream]. unfold unary.
  destruct (ch_lost ch (w_step w)); [done|]. unfold Upstream.RefreshToken. cbn [rr_RefreshToken rr_Provider].
  destruct (_ || _); [done|]. destruct (config_of _ _) as [cfg|]; [|done].
  cbv zeta. destruct (oauth2_Refresh _ _ _) as [token|f]; [|by rewrite refreshError_failure].
  cbn [tr_AccessToken tokenResponse]. unfold reject_if, lift, arrived.
  rewrite token_of_tokenResponse. destruct (blank _); [done|]. cbn [negb andb mret M_ret]. by case_bool_decide.
Qed.

(** C6: through both processes a token arrives exactly as the provider issued it,
    and every failure as the error that says what to do: the grant is void, the
    provider cannot be reached or is busy, it took too long, the request was not
    valid, the provider is not set up. *)
Theorem tokens_end_to_end c verifier provider flowType refreshtoken w :
  Directory.Exchange (H := served_upstream ch) c verifier provider flowType w =
    (exchanged c verifier provider flowType (w_step w), tick w) ∧
  Directory.RefreshToken (H := served_upstream ch) refreshtoken provider w =
    (refreshed refreshtoken provider (w_step w), tick w).
Proof. split; [apply Exchange_run|apply RefreshToken_run]. Qed.
End tokens.

(** * The provider's configuration *)

Section remote.
Context `{OutsideLaws} `{UrlParser} `{Discovery}.
Variable ch : channel.

(** go-oidc's [NewProvider] fails unless the document names the issuer asked for. *)
Definition document_issuer (doc : string) : option string :=
  md_Issuer <$> unmarshal_struct metadata_field doc (Build_metadata "" "" []).

Lemma wp_reject b e (Q : res unit → world → Prop) w :
  b = false → Q (Ok tt) w → wp (reject_if b e) Q w.
Proof. intros -> HQ. exact HQ. Qed.

Lemma toProviderResponse_fields provider raw issuer :
  raw_claims (pv_rawClaims provider) = Some raw → document_issuer (pv_rawClaims provider) = Some issuer →
  ∃ r, toProviderResponse provider = Some r ∧ pr_Issuer r = issuer ∧ pr_RawClaims r = raw ∧
    pr_AuthURL r = ep_AuthURL (pv_Endpoint provider) ∧ pr_TokenURL r = ep_TokenURL (pv_Endpoint provider) ∧
    pr_DeviceAuthURL r = ep_DeviceAuthURL (pv_Endpoint provider).
Proof.
  intros Hr Hi. unfold toProviderResponse, document_issuer in *.
  destruct (unmarshal_struct _ _ _) as [md|]; [|done]. injection Hi as <-. cbn [mbind option_bind]. rewrite Hr.
  by eexists.
Qed.

(** The provider the upstream discovered. *)
Lemma find_provider_in auths issuer auth provider r k :
  (∀ k' a p, (k', Some a) ∈ auths → oa_Provider a = Some p → a = auth) →
  (k, Some auth) ∈ auths → oa_Provider auth = Some provider → toProviderResponse provider = Some r →
  pr_Issuer r = issuer → find_provider auths issuer = inl r.
Proof.
  intros Huniq Hin Hp Hr Hi. induction auths as [|[k' a] auths IH]; [by apply not_elem_of_nil in Hin|].
  cbn [find_provider]. destruct a as [a|]; cbn [mbind option_bind].
  - destruct (oa_Provider a) as [p|] eqn:Ha.
    + assert (a = auth) as -> by (eapply (Huniq k'); [by left|done]). rewrite Hp in Ha. injection Ha as <-.
      rewrite Hr, Hi. by rewrite String.eqb_refl.
    + apply IH; [intros k0 a0 p0 H0in; apply (Huniq k0); by right|].
      apply elem_of_cons in Hin as [Heq|Hin]; [|done]. injection Heq as -> <-. congruence.
  - apply IH; [intros k0 a0 p0 H0in; apply (Huniq k0); by right|].
    apply elem_of_cons in Hin as [Heq|Hin]; [|done]. by injection Heq.
Qed.

Definition same_config (auth : OIDCAuth) (params : list (string * string)) : OIDCAuth :=
  Build_OIDCAuth None (oa_OauthConfig auth) params None.

Lemma NewOIDCAuth_inv n cfg params scopes auth :
  NewOIDCAuth n cfg params scopes = Ok auth →
  ∃ provider raw oc, oa_Provider auth = Some provider ∧ raw_claims (pv_rawClaims provider) = Some raw ∧
    buildOAuthConfig cfg (pv_Endpoint provider) raw scopes = Ok oc ∧ oa_OauthConfig auth = Some oc.
Proof.
  unfold NewOIDCAuth. destruct (oidc_NewProvider n _) as [provider|]; [|done].
  destruct (raw_claims _) as [raw|] eqn:Hraw; [|done]. unfold mbind, res_bind.
  destruct (buildOAuthConfig _ _ _ _) as [oc| |] eqn:Hb; [|done..]. intros [= <-]. by exists provider, raw, oc.
Qed.

(** C26: the API configures a provider as the upstream did: when both are given
    the same settings, the upstream discovered the provider and its endpoints
    are URLs that can be used, what the API builds from the upstream's answer is
    the client configuration that the upstream built from the discovery. *)
Theorem remote_config_agrees m cfg params scopes auth provider w :
  NewOIDCAuth m cfg params scopes = Ok auth →
  sv_oidcAuth (ch_server ch) = {[od_Provider cfg := Some auth]} →
  oa_Provider auth = Some provider → document_issuer (pv_rawClaims provider) = Some (od_Issuer cfg) →
  blank (od_Issuer cfg) = false →
  upstream_endpoint_ok (ep_AuthURL (pv_Endpoint provider)) = true →
  upstream_endpoint_ok (ep_TokenURL (pv_Endpoint provider)) = true →
  ch_lost ch (w_step w) = None → ctx_Err (ch_arrival ch (w_step w)) = None →
  NewRemoteOIDCAuth (H := served_upstream ch) cfg true params scopes w = (Ok (same_config auth params), tick w).
Proof.
  intros Hnew Hmap Hprov Hdoc Hblank Ha Ht Hlost Hctx.
  destruct (NewOIDCAuth_inv _ _ _ _ _ Hnew) as (p & raw & oc & Hp & Hraw & Hb & Hoc).
  rewrite Hprov in Hp. injection Hp as <-.
  destruct (toProviderResponse_fields provider raw _ Hraw Hdoc) as (r & Hr & Hi & Hrc & Hra & Hrt & Hrd).
  assert (Hget : Upstream.GetProvider (ch_server ch) (ch_arrival ch (w_step w)) (Some (od_Issuer cfg)) = inl r).
  { unfold Upstream.GetProvider. rewrite Hblank, Hctx, Hmap.
    set (order := range _ _).
    assert (Hperm : order ≡ₚ [(od_Provider cfg, Some auth)]).
    { unfold order. rewrite range_perm. by rewrite map_to_list_singleton. }
    apply (find_provider_in order _ auth provider r (od_Provider cfg)); [|by rewrite Hperm; left|done..].
    intros k' a p' Hin _. rewrite Hperm in Hin. apply list_elem_of_singleton in Hin. by injection Hin. }
  unfold NewRemoteOIDCAuth, Directory.GetProvider, rpc, mbind, M_bind.
  cbn [rpc_GetProvider served_upstream negb reject_if mret M_ret]. unfold unary. rewrite Hlost, Hget.
  rewrite Hi, String.eqb_refl. cbn [negb reject_if mret M_ret forallb]. rewrite Hra, Hrt, Ha, Ht.
  cbn [andb negb reject_if mret M_ret]. unfold lift. rewrite Hrd, Hrc.
  replace (Build_Endpoint _ _ _) with (pv_Endpoint provider) by by destruct (pv_Endpoint provider).
  rewrite Hb. unfold same_config. by rewrite Hoc.
Qed.
End remote.

(** * Streams and statuses *)

Lemma blank_object t : HasPrefix t "{" = true → blank t = false.
Proof.
  intros Hp%HasPrefix_split. rewrite Hp. change ("{" +:+ str_drop (String.length "{") t) with (String "{" (str_drop 1 t)).
  apply blank_solid. by split.
Qed.

(** The status the API answers with when the provider answered with one that is
    no success. *)
Definition relayed_status (s : Z) : Z :=
  if (s =? 400) || (s =? 422) then 400
  else if s =? 401 then 401
  else if s =? 403 then 403
  else if s =? 429 then 429
  else if (s =? 408) || (s =? 504) then 504
  else if 500 <=? s then 503
  else 502.

Lemma chat_status_HTTPError s msg : chat_status (StatusError (chatStreamErrorCode (HTTPError s)) msg) = relayed_status s.
Proof.
  unfold chat_status, relayed_status. change (errors_Is (StatusError _ msg) ErrUnsupported) with false. cbn match beta.
  cbn [status_Code]. unfold chatStreamErrorCode. change (failure_Is (HTTPError s) LCanceled) with false.
  change (failure_Is (HTTPError s) LDeadline) with false. change (failure_As http_error (HTTPError s)) with (Some s).
  cbn match beta. destruct (_ || _); [done|]. destruct (Z.eqb_spec s 401); [done|]. destruct (Z.eqb_spec s 403); [done|].
  destruct (Z.eqb_spec s 404) as [->|]; [done|]. destruct (Z.eqb_spec s 429); [done|].
  destruct (_ || _); [done|]. by destruct (500 <=? s).
Qed.

Section chat.
Context `{Outside} `{UrlParser} `{Sdk}.
Variable ch : channel.

(** The lines of the one response a stream was read from, when it ended well. *)
Definition whole_stream (req : ChatRequest) (n : nat) (lines : list string) : Prop :=
  let m := S (ch_arrival ch n) in
  ∃ resp l, http_Do (S m) None (chat_request "text/event-stream" m req) = inl resp ∧
    http_ok (re_StatusCode resp) = true ∧ re_Err resp = None ∧ body_lines resp = (lines, false) ∧
    l ∈ lines ∧ terminal_line l = true.

Lemma served_stream_ok req n stream :
  rpc_ChatStream (ChatClient := served_chat ch) n req = inl stream → st_end stream = None →
  whole_stream req n (st_contents stream).
Proof.
  cbn [rpc_ChatStream served_chat]. destruct (ch_lost ch n); [done|].
  destruct (UpstreamChat.ChatStream _ _) as [sent status] eqn:Hs. intros [= <-].
  unfold delivered. destruct (ch_cut ch n) as [[k e]|]; cbn [st_end st_contents]; [done|]. intros ->.
  apply ChatStream_ok in Hs as (resp & l & Hd & Hok & He & Hb & Hin & Ht). by exists resp, l.
Qed.

(** C5: a stream that a client sees end well is whole: the provider gave one good
    response, a line of it carried a final event, every line of it was passed on
    and translated, and nothing was lost on the way; in particular no client is
    told that a stream is done which was cut off. *)
Theorem whole_streams_end_to_end reg body credential clientFormat model w :
  wp (ChatStream_service (H := served_chat ch) reg body credential clientFormat model) (λ r _,
    ∀ p, r = Ok p → pd_error p = None →
      ∃ route req lines, GetRoute reg model (cd_Mode credential) clientFormat = Ok route ∧
        cr_Endpoint req = rt_Endpoint route ∧ cr_Secret req = cd_Secret credential ∧
        cr_Data req = TranslateRequest clientFormat (rt_UpstreamFormat route) model body true ∧
        whole_stream req (w_step w) lines ∧
        pd_events p = stream_events clientFormat (rt_UpstreamFormat route) model body (cr_Data req) lines sdk_nil ++
                      done_event clientFormat (rt_UpstreamFormat route)) w.
Proof.
  eapply wp_mono; [|apply wp_ChatStream]. intros r w' (p & -> & Hp) p' [= <-] Herr.
  destruct (GetRoute _ _ _ _) as [route|e|]; [|destruct Hp as [_ ->]; done..].
  destruct Hp as [_ Hp].
  destruct (rpc_ChatStream _ _) as [stream|e] eqn:Hrpc; [|by subst p].
  destruct Hp as (Hend & Hev & _). rewrite Herr in Hend. symmetry in Hend. rewrite Hend in Hev.
  pose proof (served_stream_ok _ _ _ Hrpc Hend) as Hw.
  match type of Hrpc with rpc_ChatStream _ ?req = _ => exists route, req, (st_contents stream) end. split; [done|].
  split; [done|]. split; [done|]. split; [done|]. split; [exact Hw|exact Hev].
Qed.

(** A provider that answers every request with one status. *)
Definition answers_with (s : Z) : Prop := ∀ m d rq, ∃ resp, http_Do m d rq = inl resp ∧ re_StatusCode resp = s.

(** A call of this step reaches the server and is served. *)
Definition undisturbed (n : nat) : Prop :=
  ch_lost ch n = None ∧ ch_cut ch n = None ∧ ∀ m, ctx_Err m = None.

Lemma served_stream_status req n s :
  http_ok s = false → answers_with s → undisturbed n → is_Some (url_Parse (cr_Endpoint req)) →
  complete_request req = true →
  rpc_ChatStream (ChatClient := served_chat ch) n req =
    inl (Build_rpc_stream [] (Some (StatusError (chatStreamErrorCode (HTTPError s)) "upstream stream failed"))).
Proof.
  intros Hno Hs (Hl & Hc & He) [u Hu] Hcomp. cbn [rpc_ChatStream served_chat]. rewrite Hl.
  unfold UpstreamChat.ChatStream. rewrite Hcomp, He. cbn [negb]. cbv zeta. unfold Stream. rewrite Hu. cbv zeta.
  destruct (Hs (S (S (ch_arrival ch n))) None (chat_request "text/event-stream" (S (ch_arrival ch n)) req)) as (resp & Hd & Hst).
  unfold chat_request in Hd. rewrite Hd, Hst, Hno. cbn [negb sm_sent sm_error]. rewrite He, Hc. reflexivity.
Qed.

Lemma served_answer_status req n s :
  http_ok s = false → answers_with s → undisturbed n → is_Some (url_Parse (cr_Endpoint req)) →
  complete_request req = true →
  rpc_ChatNonStream (ChatClient := served_chat ch) n req =
    inr (StatusError (chatStreamErrorCode (HTTPError s)) "upstream request failed").
Proof.
  intros Hno Hs (Hl & Hc & He) [u Hu] Hcomp. cbn [rpc_ChatNonStream served_chat]. unfold unary. rewrite Hl.
  unfold UpstreamChat.ChatNonStream. rewrite Hcomp, Hu. cbn [negb]. cbv zeta.
  destruct (Hs (S (ch_arrival ch n)) None (chat_request "application/json" (ch_arrival ch n) req)) as (resp & Hd & Hst).
  unfold chat_request in Hd. rewrite Hd, Hst, Hno. reflexivity.
Qed.

Lemma streamtoNonStream_failed e : streamtoNonStream (Build_rpc_stream [] (Some e)) = Err e.
Proof. reflexivity. Qed.

(** C18: the status a provider refuses a chat request with decides the status of
    the API's answer, through the error classes of the upstream and of the
    handler, and for a stream and a document alike: the client learns that its
    request was wrong, that the credential was refused, that it has to wait or
    that the provider is down. *)
Theorem provider_status_relayed s reg body credential clientFormat model route fields w :
  http_ok s = false → answers_with s → undisturbed (w_step w) →
  GetRoute reg model (cd_Mode credential) clientFormat = Ok route →
  aggregable route → is_Some (url_Parse (rt_Endpoint route)) → blank (rt_AuthHeader route) = false →
  blank (cd_Secret credential) = false →
  unmarshal_map (TranslateRequest clientFormat (rt_UpstreamFormat route) model body (rt_ForceStream route)) = Some (Some fields) →
  blank (TranslateRequest clientFormat (rt_UpstreamFormat route) model body true) = false →
  wp (ChatNonStream (H := served_chat ch) reg body credential clientFormat model) (λ r _,
    ∃ e, r = Err e ∧ chat_status e = relayed_status s) w ∧
  wp (ChatStream_service (H := served_chat ch) reg body credential clientFormat model) (λ r _,
    ∃ p e, r = Ok p ∧ pd_events p = [] ∧ pd_error p = Some e ∧ chat_status e = relayed_status s) w.
Proof.
  intros Hno Hs Hun Hroute Hagg Hurl Hah Hsec Hf Hdata. split.
  - eapply wp_mono; [|apply wp_ChatNonStream]. intros r w'. unfold nonstream_outcome. rewrite Hroute. cbv zeta.
    intros [(req & _ & Hreq & _ & Hans)|(_ & _ & [Hn|Hn])]; [|done|by destruct (Hn fields)].
    destruct Hreq as (He & Hse & _ & Ha & _ & _ & Hb & _).
    assert (Hcomp : complete_request req = true).
    { unfold complete_request. rewrite Hse, Ha, Hsec, Hah. by rewrite (blank_object _ Hb). }
    unfold upstream_answer in Hans. rewrite <- He in Hurl.
    rewrite (served_stream_status req _ s Hno Hs Hun Hurl Hcomp), (served_answer_status req _ s Hno Hs Hun Hurl Hcomp) in Hans.
    rewrite streamtoNonStream_failed in Hans. destruct (rt_ForceStream route); rewrite Hans;
      eexists; (split; [done|]); apply chat_status_HTTPError.
  - eapply wp_mono; [|apply wp_ChatStream]. intros r w' (p & -> & Hp). rewrite Hroute in Hp. cbv zeta in Hp.
    destruct Hp as [_ Hp]. rewrite (served_stream_status _ _ s Hno Hs Hun) in Hp; [|done|].
    + destruct Hp as (Hend & Hev & _). eexists p, _. split; [done|]. split; [by rewrite Hev|]. split; [by rewrite Hend|].
      apply chat_status_HTTPError.
    + unfold complete_request. cbn [cr_Data cr_Secret cr_AuthHeader]. by rewrite Hdata, Hsec, Hah.
Qed.
End chat.

(** * The two processes at work *)

From S2P Require Import Sim.
From S2P Require Import UpstreamSim.

Definition sim_channel : channel := Build_channel sim_server (λ n, n) (λ _, None) (λ _, None).

Lemma remote_config_agrees_witness :
  ∃ config, oa_OauthConfig sim_auth = Some config ∧ oc_AuthStyle config = AuthStyleInParams ∧
    (NewRemoteOIDCAuth (H := served_upstream sim_channel) sim_oidc true OaiAuthURLParams OaiScopes sample_world).1 =
      Ok (same_config sim_auth OaiAuthURLParams).
Proof.
  assert (Hr : (NewRemoteOIDCAuth (H := served_upstream sim_channel) sim_oidc true OaiAuthURLParams OaiScopes sample_world).1 =
      Ok (same_config sim_auth OaiAuthURLParams)).
  { rewrite (remote_config_agrees sim_channel 0 sim_oidc OaiAuthURLParams OaiScopes sim_auth sim_provider sample_world);
      [reflexivity|vm_compute; reflexivity..]. }
  destruct (oa_OauthConfig sim_auth) as [config|] eqn:Hc; [|vm_compute in Hc; discriminate Hc].
  exists config. split; [reflexivity|]. split; [vm_compute in Hc; injection Hc as <-; reflexivity|].
  exact Hr.
Defined.

(** A registry with one route, to a provider that is overloaded. *)
Definition busy_route : Route.Route :=
  Route.Build_Route FormatCodex "https://busy.example.com" true "Authorization" "Bearer " ∅.
Definition busy_registry : Registry := register ∅ "m" AuthModeAccessToken FormatOpenAI busy_route.

#[local] Instance busy_outside : Outside := {|
  out_now := sim_now; ctx_Err := λ _, None; oauth2_Exchange := oauth2_Exchange; oauth2_Refresh := oauth2_Refresh;
  oidc_Verify := oidc_Verify; http_Do := λ _ _ _, inl (Build_http_response 429 "" None true);
  wait := wait; range := λ A n m, map_to_list m; stream_Send := λ _ _, None
|}.

#[local] Instance plain_sdk : Sdk := {|
  sdk_state := unit; sdk_nil := tt;
  sdk_TranslateRequest := λ _ _ _ raw _, raw;
  sdk_TranslateStream := λ _ _ _ _ _ raw s, ([raw], s);
  sdk_TranslateNonStream := λ _ _ _ _ _ raw s, (raw, s)
|}.

Lemma provider_status_relayed_witness :
  ∃ e, (ChatNonStream (H := served_chat sim_channel) busy_registry (js "{'model':'m'}")
          (Chat.Build_Credential "access_token" "token") FormatOpenAI "m" sample_world).1 = Err e ∧ chat_status e = 429.
Proof.
  destruct (provider_status_relayed sim_channel 429 busy_registry (js "{'model':'m'}")
    (Chat.Build_Credential "access_token" "token") FormatOpenAI "m" busy_route {["model"%string := js "'m'"]} sample_world
    ltac:(reflexivity)) as [Hn _].
  - intros m d rq. by eexists.
  - split; [reflexivity|]. split; reflexivity.
  - vm_compute. reflexivity.
  - intros _. by_decide.
  - vm_compute. by eexists.
  - vm_compute. reflexivity.
  - vm_compute. reflexivity.
  - vm_compute. reflexivity.
  - vm_compute. reflexivity.
  - destruct Hn as (e & He & Hst). exists e. split; [exact He|exact Hst].
Defined.
